(* ===== verification/_CoqProject ===== *)
-Q . S2P
Prelude.v
NetIP.v
NetIPFacts.v
ApiTypes.v
Utils.v
UtilsFacts.v
CidrTrie.v
FwRules.v
FwRulesFacts.v
Datapath.v
DatapathFacts.v
NetworkPolicySem.v
NetworkPolicyLimits.v
ClusterPolicySem.v
MemMap.v
KeyedMutex.v
Effects.v
PolicyUtils.v
BpfInterface.v
PolicyController.v
PolicyControllerFacts.v
Sha1.v
BpfClient.v
BpfClientFacts.v
BpfClientTables.v
DemoKernel.v
ClusterController.v
ClusterControllerFacts.v
Classifiers.v
Frames.v
ClassifierFacts.v
AgentEndToEnd.v
RpcHandler.v
Scenarios.v
Conntrack.v
ConntrackFacts.v
LegacyPins.v
LegacyPinsFacts.v
Cloud.v
Events.v
EventsFacts.v
DropMetrics.v
Logger.v
Recovery.v
RecoveryFacts.v
Install.v
ClientStart.v
ClientStartFacts.v
Reattach.v
Upgrade.v
Show.v
ShowFacts.v
AgentMain.v
AgentMainFacts.v
