(* ===== verification/Prelude.v ===== *)
(** * Verification of the AWS network policy agent

    The agent runs on every node of a Kubernetes cluster.  It watches PolicyEndpoint and
    ClusterPolicyEndpoint objects, derives firewall rules for the pods of the node, encodes
    them as entries of eBPF maps, and writes the maps; classifiers attached to the pods'
    interfaces decide each packet from the maps.  The CNI plugin calls the agent when a pod is
    added or deleted.  This library models the agent's own logic in Go, and the four
    classifiers in C, and proves what they promise, from the API object to the verdict on a
    frame.

    ** Files

    Foundations.
    - [Prelude]: Go strings and outcomes (a call returns, returns an error or panics), machine
      integers, byte strings, stable sorting, the unspecified order of Go map iteration
      ([MapOrder]), hints and generic lemmas.
    - [Effects]: the state monad of stateful components, with [wp] and [preserves] rules.
    - [NetIP], [NetIPFacts]: what the source uses of Go's [net]: parsing, printing, masks.
    - [ApiTypes]: [api/v1alpha1] and [pkg/types].
    - [Utils], [UtilsFacts]: [pkg/utils/utils.go], pod identifiers, pin paths, map keys and
      values, conntrack keys.  [PolicyUtils]: [pkg/utils/policy_utils.go].

    From rules to verdicts.
    - [CidrTrie]: [pkg/fwruleprocessor/cidr_trie.go].
    - [FwRules], [FwRulesFacts]: [pkg/fwruleprocessor/fw_rule_processor.go].
    - [Datapath], [DatapathFacts]: the evaluation of a packet against the rule maps, as
      written in [pkg/ebpf/c/tc.v4ingress.bpf.c].
    - [Classifiers]: the four classifiers [pkg/ebpf/c/tc.*.bpf.c], from the bytes of a frame
      on, over an address family and a direction.  [Frames]: what is read of a frame.
      [ClassifierFacts]: connections and interfaces of a node.
    - [NetworkPolicySem], [ClusterPolicySem]: the meaning of rules, and that the computed
      entries make the classifier implement it.  [NetworkPolicyLimits]: evaluated rule sets
      outside the hypotheses of these theorems.

    The client of the kernel.
    - [MemMap]: [pkg/ebpf/bpf_mem_map.go].  [KeyedMutex]: [pkg/ebpf/podidentifier_lock.go].
    - [BpfInterface]: the interface [BpfClient] as a class: the view a caller has of the kernel
      and the laws of the operations.  The controllers are proved against it.
    - [Sha1]: the hash of interface names.
    - [BpfClient], [BpfClientFacts], [BpfClientTables]: [pkg/ebpf/bpf_client.go] and the
      instance of the interface.  [DemoKernel]: a kernel to run it on.
    - [LegacyPins], [LegacyPinsFacts]: [pkg/ebpf/legacy_pin_migration.go].
    - [Recovery], [RecoveryFacts]: [checkAndUpdateBPFBinaries] and [recoverBPFState].
    - [Install]: [pkg/utils/cp/cp.go], the installation of the probe binaries.
    - [ClientStart], [ClientStartFacts]: [NewBpfClient], and the states a client can reach.
    - [Reattach]: what [ReAttachEbpfProbes] leaves on the interfaces.  [Upgrade]: the start
      and the re-attachment together.
    - [Conntrack], [ConntrackFacts]: [pkg/ebpf/conntrack/conntrack_client.go].
    - [Cloud]: [pkg/aws].  [Events], [EventsFacts]: [pkg/ebpf/events/events.go].
      [DropMetrics]: the classifiers of a node and the consumer of their events together.
    - [Logger]: [pkg/logger] and [pkg/version].

    The controllers.
    - [PolicyController], [PolicyControllerFacts]: [controllers/policyendpoints_controller.go].
    - [ClusterController], [ClusterControllerFacts]:
      [controllers/clusterpolicyendpoints_controller.go].
    - [RpcHandler]: [pkg/rpc/rpc_handler.go].
    - [AgentEndToEnd]: controller, client, shadow maps and classifier together.
    - [AgentMain], [AgentMainFacts]: [main.go], [pkg/config], [pkg/utils/imds],
      [pkg/rpcclient], the readiness checks and [RunRPCHandler].
    - [Show], [ShowFacts]: [pkg/clihelper/show.go] and [cmd]: the command line tool.
    - [Scenarios]: a small cluster on which the controllers run, the witnesses of their
      theorems, and behaviours that differ from the intent of the code.

    ** What the theorems show

    - Rules: the trie returns what a scan of all CIDRs returns; the entries of a rule set make
      the classifier accept exactly the traffic the rules allow, and for cluster policies
      apply the highest-priority rule over all containing CIDRs; the result does not depend on
      the order of Go map iteration; values are computed without a write outside their buffer,
      have a fixed size and hold 24 entries.  The meaning of the rules ([policy_rules],
      [crule_matches], [api_allows]) is written from the API, without the functions of the
      code that skip, derive or encode rules.
    - Client: the shadow maps equal the kernel maps after every call, failed ones included;
      at most one goroutine works on a pod identifier, every goroutine that waits for one gets
      it as long as those inside go on, and the table is empty when all have left;
      attaching and deleting pods keeps the program tables consistent.
    - Start: pins of old identifiers move to the pod that inherits them, without loss under
      failures; binaries are replaced as a whole; recovery takes over the pinned programs and
      leaves the rules in force; the client's start ends with a client or an error, with the
      pinned conntrack map when it can be recovered, and every state it then reaches is well
      formed; after an upgrade every interface that had a program
      has the new one of its pod; [main] serves the CNI only after all of this, on every path.
    - Tool: what the walks over the maps print and return, for every answer of the kernel;
      from the entries the agent computes they show the CIDRs and ports of the rules.
    - Controllers: which pods a policy selects and what is cleaned up; the derived rules; that
      a latency sample is recorded only when every selected identifier holds the rules of the
      API; that the cluster controller forgets no pod; what a pod ADD leaves in the kernel; that
      the namespaced controller leaves a pod its last policy stops selecting as it was, and
      takes a policy off its pods when the policy's endpoints cannot be listed.
    - End to end: after a reconcile that records its sample, the classifier of either
      direction and family, reading the maps the client wrote, accepts exactly the frames of
      new flows that the cluster rules and the entries of the PolicyEndpoint objects admit.
    - Datapath: when a frame is accepted; that an accepted connection stays open in both
      directions whatever else happens on the node; that interfaces do not influence each
      other; that the addresses and ports a sender wrote are read back, and that IPv4 options
      hide them.
    - Conntrack: the collector deletes only dead entries and collects all of them in two calls.
    - Events: the drop counters of each direction count what the classifiers of the node
      dropped in it while the ring buffer had room, over IPv4 or IPv6, which is everything as
      long as the reader keeps up; each selected flow is put to CloudWatch once, and received
      unless that call fails, in the log group of the cluster.

    ** Modelling decisions

    Code outside the repository is a class with named laws: the kernel maps ([BpfMapSDK]), the
    SDK and traffic control ([BpfSDK], [RecoverySDK], [StartSDK], [TcFilters], [TcView],
    [TcNode]), reading maps by number ([MapInspect]), the longest-prefix lookup ([LPM]), the API server, the conntrack
    kernel ([CtKernel]), the file system ([FileSystem], [HostFiles]), CloudWatch
    and the AWS SDK ([CloudWatch], [AwsSdk]), zap ([Zap]), flags, controller-runtime and gRPC ([Runtime]) and what the readiness
    checks ask ([Probes]).  Their calls may fail at any time, and each class has an
    instance on which the theorems are applied.  Map iteration takes an arbitrary order.
    A method of the client holds the identifier's lock from start to end, so one call is one
    step.  Paired ingress and egress code is one definition over a direction, IPv4 and IPv6
    collectors and classifiers one definition over a family ([Family]).  A run of a
    classifier is one step: the programs of two CPUs are not interleaved within a packet, and
    an entry the connection table evicts is a step of its own.  A frame is the linear part
    of the socket buffer, all that a classifier can read.  The ring buffer holds 512 KiB of
    records that were not read, and an event that finds it full is lost.

    The pins of programs and maps are files: the SDK's recovery calls are given the files that
    are there after the migration of legacy names, and find what these name.  Pins the SDK
    makes itself while the agent runs are read by no later call of the same run and are not
    entered.  [binary.LittleEndian.PutUint32] panics when its slice is too short, as in Go, so
    that the guards of the encoders are visible to the theorems.

    Fuel: [hydrate_loop] of the conntrack collector follows the kernel's key order; one turn
    per entry is enough, which [conntrack_gc_complete] proves.  So does [walk_loop] of the
    command line tool, and [walk_renders] proves the same of it.  [dec_digits]
    prints an [int] in at most 20 digits, [hex_digits] one in at most 16.  All other loops are
    structural.

    ** Not modelled

    Metrics and the calls that write log lines (I/O; the loggers themselves are in [Logger]);
    the parser of flags, the cobra command tree and the goroutines that serve gRPC and
    profiling (libraries); generated deep-copy code and mocks. *)
From Stdlib Require Export Strings.Byte Strings.String.
From Stdlib Require Export ZArith Lia Sorting.Permutation Sorting.Sorted.
From coqutil Require Export Byte Word.LittleEndianList.
From stdpp Require Export base list countable gmap numbers option sorting.

#[export] Set Default Goal Selector "!".
#[export] Set Warnings "-clear-no-such-hyp".
Open Scope Z_scope.

(** * Go values

    A Go [string] and a [[]byte] are both byte sequences; conversions between them
    copy, so one type stands for both. *)
Abbreviation gostring := (list byte) (only parsing).

Declare Scope go_scope.
Delimit Scope go_scope with go.

(** [go "text"] is the Go string literal ["text"]. *)
Definition go (s : string) : gostring := list_byte_of_string s.
Arguments go s%_string.

#[global] Instance byte_eq_dec_inst : EqDecision byte := Byte.byte_eq_dec.

#[global] Program Instance byte_countable : Countable byte :=
  inj_countable Byte.to_N Byte.of_N _.
Next Obligation. intros b. apply Byte.of_to_N. Qed.

#[global] Instance byte_inhabited : Inhabited byte := populate x00.

(** ** Outcomes of Go calls

    A call returns a value, returns a non-nil [error], or panics (nil dereference,
    index or slice out of range). *)
Inductive outcome (A : Type) : Type :=
| Ret (a : A)
| Err (e : gostring)
| Panic (why : gostring).
Arguments Ret {A} a.
Arguments Err {A} e.
Arguments Panic {A} why.

#[global] Instance outcome_ret : MRet outcome := fun _ => Ret.
#[global] Instance outcome_bind : MBind outcome := fun A B f m =>
  match m with Ret a => f a | Err e => Err e | Panic w => Panic w end.

#[global] Instance outcome_eq_dec `{EqDecision A} : EqDecision (outcome A).
Proof. solve_decision. Defined.

(** Dereference of a pointer: nil panics. *)
Definition deref {A} (p : option A) : outcome A :=
  match p with Some a => Ret a | None => Panic (go "nil pointer dereference") end.

(** Indexing a slice: out of range panics. *)
Definition index {A} (l : list A) (i : nat) : outcome A :=
  match l !! i with Some a => Ret a | None => Panic (go "index out of range") end.

Lemma outcome_bind_Ret {A B} (f : A -> outcome B) (m : outcome A) b :
  m ≫= f = Ret b <-> exists a, m = Ret a /\ f a = Ret b.
Proof. destruct m; cbn; naive_solver. Qed.

(** [for _, x := range l { s = step(s, x) }], where an iteration may fail or panic. *)
Fixpoint for_range {S X} (step : S -> X -> outcome S) (l : list X) (s : S) : outcome S :=
  match l with
  | [] => Ret s
  | x :: l' => s' ← step s x; for_range step l' s'
  end.

(** [errors.Join]: nil when both are nil. *)
Definition errors_Join (a b : option gostring) : option gostring :=
  match a, b with
  | None, None => None
  | Some x, None => Some x
  | None, Some y => Some y
  | Some x, Some y => Some (x ++ go "
" ++ y)
  end.

Lemma errors_Join_None a b : errors_Join a b = None <-> a = None /\ b = None.
Proof. destruct a, b; cbn; naive_solver. Qed.

Lemma Some_pair_inv {A B} (a c : A) (b d : B) : Some (a, b) = Some (c, d) -> c = a /\ d = b.
Proof. by intros [= -> ->]. Qed.

(** ** Machine integers *)
Definition u8 (z : Z) : Z := z mod 2 ^ 8.
Definition u16 (z : Z) : Z := z mod 2 ^ 16.
Definition u32 (z : Z) : Z := z mod 2 ^ 32.
Definition u64 (z : Z) : Z := z mod 2 ^ 64.

Lemma u32_small z : 0 <= z < 2 ^ 32 -> u32 z = z.
Proof. apply Z.mod_small. Qed.

Lemma u32_bound z : 0 <= u32 z < 2 ^ 32.
Proof. apply Z.mod_pos_bound. lia. Qed.

(** [binary.LittleEndian.PutUint32]: the four bytes it stores. *)
Definition le32 (z : Z) : gostring := le_split 4 z.
(** [binary.LittleEndian.Uint32]. *)
Definition of_le32 (bs : gostring) : Z := le_combine bs.

Lemma length_le32 z : length (le32 z) = 4%nat.
Proof. apply length_le_split. Qed.

Lemma of_le32_le32 z : of_le32 (le32 z) = u32 z.
Proof. unfold of_le32, le32. by rewrite le_combine_split. Qed.

Lemma le32_of_le32 bs : length bs = 4%nat -> le32 (of_le32 bs) = bs.
Proof. intros H. unfold le32, of_le32. by apply split_le_combine'. Qed.

Lemma le32_inj a b : le32 a = le32 b -> u32 a = u32 b.
Proof. intros H. by rewrite <-!of_le32_le32, H. Qed.

(** Storing a run of bytes into a buffer at an offset, as [copy(buf[off:], bs)] does: what does
    not fit is dropped. *)
Definition write_at (off : nat) (bs buf : gostring) : gostring :=
  take off buf ++ take (length buf - off) bs ++ drop (off + length bs) buf.

Lemma length_write_at off bs buf :
  (off <= length buf)%nat -> length (write_at off bs buf) = length buf.
Proof.
  intros H. unfold write_at.
  rewrite !length_app, !length_take, length_drop. lia.
Qed.

Lemma write_at_app pre mid post bs :
  length bs = length mid -> write_at (length pre) bs (pre ++ mid ++ post) = pre ++ bs ++ post.
Proof.
  intros H. unfold write_at.
  rewrite take_app_length, !length_app. f_equal.
  rewrite take_ge by lia. f_equal.
  rewrite H, drop_app_ge by lia.
  replace (length pre + length mid - length pre)%nat with (length mid) by lia.
  apply drop_app_length.
Qed.

(** [binary.LittleEndian.PutUint32(buf[off:off+4], uint32(v))]: a slice past the end panics. *)
Definition PutUint32 (off : nat) (v : Z) (buf : gostring) : outcome gostring :=
  if decide (off + 4 <= length buf)%nat then Ret (write_at off (le32 v) buf)
  else Panic (go "slice bounds out of range").

Lemma PutUint32_fits off v buf : (off + 4 <= length buf)%nat -> PutUint32 off v buf = Ret (write_at off (le32 v) buf).
Proof. intros H. unfold PutUint32. by rewrite decide_True. Qed.

(** ** Go's [strings] package, on single-byte separators *)

(** [strings.Contains(s, string(c))]. *)
Definition contains_byte (c : byte) (s : gostring) : bool := bool_decide (c ∈ s).

(** [strings.Split(s, string(c))]: always at least one part. *)
Fixpoint split_on (c : byte) (s : gostring) : list gostring :=
  match s with
  | [] => [[]]
  | x :: s' =>
      if decide (x = c) then [] :: split_on c s'
      else match split_on c s' with
           | [] => [[x]]
           | p :: ps => (x :: p) :: ps
           end
  end.

(** [strings.Join(parts, string(c))]. *)
Fixpoint join_with (c : byte) (parts : list gostring) : gostring :=
  match parts with
  | [] => []
  | [p] => p
  | p :: ps => p ++ c :: join_with c ps
  end.

(** [strings.Replace(s, string(a), string(b), -1)]. *)
Definition replace_byte (a b : byte) (s : gostring) : gostring :=
  (fun x => if decide (x = a) then b else x) <$> s.

(** [strings.LastIndex(s, string(c))]; [None] stands for [-1]. *)
Fixpoint last_index (c : byte) (s : gostring) : option nat :=
  match s with
  | [] => None
  | x :: s' =>
      match last_index c s' with
      | Some i => Some (S i)
      | None => if decide (x = c) then Some 0%nat else None
      end
  end.

(** [strings.ToLower] on ASCII text. *)
Definition to_lower_byte (x : byte) : byte :=
  let z := byte.unsigned x in
  if (65 <=? z) && (z <=? 90) then byte.of_Z (z + 32) else x.
Definition to_lower (s : gostring) : gostring := to_lower_byte <$> s.

Lemma split_on_ne c s : split_on c s <> [].
Proof.
  destruct s as [|x s]; cbn; [done|].
  case_decide; [done|]. by destruct (split_on c s).
Qed.

Lemma split_on_app_sep c p s :
  c ∉ p -> split_on c (p ++ c :: s) = p :: split_on c s.
Proof.
  induction p as [|x p IH]; cbn; intros Hp.
  - by rewrite decide_True.
  - apply not_elem_of_cons in Hp as [Hx Hp].
    rewrite decide_False by done. by rewrite IH.
Qed.

Lemma split_on_app c a b : split_on c (a ++ c :: b) = split_on c a ++ split_on c b.
Proof.
  induction a as [|x a IH]; cbn; [by rewrite decide_True|].
  case_decide; [by rewrite IH|]. rewrite IH.
  pose proof (split_on_ne c a). by destruct (split_on c a).
Qed.

Lemma split_on_single c p : c ∉ p -> split_on c p = [p].
Proof.
  induction p as [|x p IH]; cbn; intros Hp; [done|].
  apply not_elem_of_cons in Hp as [Hx Hp].
  rewrite decide_False by done. by rewrite IH.
Qed.

Lemma split_join c ps :
  ps <> [] -> Forall (fun p => c ∉ p) ps -> split_on c (join_with c ps) = ps.
Proof.
  induction ps as [|p ps IH]; intros Hne Hall; [done|].
  apply Forall_cons in Hall as [Hp Hps].
  destruct ps as [|q ps]; [by apply split_on_single|].
  cbn [join_with]. rewrite split_on_app_sep by done.
  f_equal. by apply IH.
Qed.

Lemma join_split c s : join_with c (split_on c s) = s.
Proof.
  induction s as [|x s IH]; cbn; [done|]. case_decide as Hx.
  - subst x. pose proof (split_on_ne c s). destruct (split_on c s) as [|p ps]; [done|].
    change (c :: join_with c (p :: ps) = c :: s). by rewrite IH.
  - pose proof (split_on_ne c s). destruct (split_on c s) as [|p ps]; [done|].
    rewrite <-IH. by destruct ps.
Qed.

Lemma split_on_parts c s : Forall (fun p => c ∉ p) (split_on c s).
Proof.
  induction s as [|x s IH]; cbn.
  - constructor; [apply not_elem_of_nil|constructor].
  - case_decide; [constructor; [apply not_elem_of_nil|done]|].
    pose proof (split_on_ne c s). destruct (split_on c s) as [|p ps]; [done|].
    apply Forall_cons in IH as [Hp Hps]. constructor; [|done].
    apply not_elem_of_cons; naive_solver.
Qed.

Lemma last_index_None c s : last_index c s = None <-> c ∉ s.
Proof.
  induction s as [|x s IH]; cbn.
  - split; [intros; apply not_elem_of_nil|done].
  - rewrite not_elem_of_cons, <-IH.
    destruct (last_index c s); [naive_solver|]. case_decide; naive_solver.
Qed.

(** The text before the last separator. *)
Lemma last_index_app c p s :
  c ∉ s -> last_index c (p ++ c :: s) = Some (length p).
Proof.
  intros Hs. induction p as [|x p IH]; cbn.
  - rewrite (proj2 (last_index_None c s) Hs), decide_True by done. done.
  - by rewrite IH.
Qed.

Lemma app_sep_inj (c : byte) p p' s s' :
  c ∉ s -> c ∉ s' -> p ++ c :: s = p' ++ c :: s' -> p = p' /\ s = s'.
Proof.
  intros Hs Hs' H.
  assert (length p = length p') as Hlen.
  { pose proof (f_equal (last_index c) H) as Hi.
    rewrite !last_index_app in Hi by done. by injection Hi. }
  apply app_inj_1 in H; [|done]. naive_solver.
Qed.

Lemma replace_byte_inj a b s s' :
  b ∉ s -> b ∉ s' -> replace_byte a b s = replace_byte a b s' -> s = s'.
Proof.
  revert s'. induction s as [|x s IH]; intros [|y s']; cbn; intros Hs Hs' H;
    simplify_eq; [done|].
  apply not_elem_of_cons in Hs as [Hx Hs], Hs' as [Hy Hs'].
  f_equal; [repeat case_decide; congruence|]. by apply IH.
Qed.

Lemma elem_of_replace_byte a b c s :
  c ∈ replace_byte a b s -> (c = b /\ a ∈ s) \/ (c <> a /\ c ∈ s).
Proof.
  unfold replace_byte. rewrite list_elem_of_fmap. intros (x & -> & Hx).
  case_decide; subst; naive_solver.
Qed.

(** ** [sort.SliceStable]

    The result is fixed by its specification: the stable sort by [less]. *)
Fixpoint stable_insert {A} (less : A -> A -> bool) (x : A) (l : list A) : list A :=
  match l with
  | [] => [x]
  | y :: l' => if less y x then y :: stable_insert less x l' else x :: l
  end.

Fixpoint slice_stable {A} (less : A -> A -> bool) (l : list A) : list A :=
  match l with
  | [] => []
  | x :: l' => stable_insert less x (slice_stable less l')
  end.

Section stable.
Context {A : Type} (key : A -> Z).
Let less x y := key x <? key y.

Lemma stable_insert_perm (lt : A -> A -> bool) x l : stable_insert lt x l ≡ₚ x :: l.
Proof.
  induction l as [|y l IH]; cbn; [done|]. destruct (lt y x); [|done].
  rewrite IH. constructor.
Qed.

Lemma slice_stable_perm (lt : A -> A -> bool) l : slice_stable lt l ≡ₚ l.
Proof. induction l as [|x l IH]; cbn; [done|]. by rewrite stable_insert_perm, IH. Qed.

Definition key_le (x y : A) : Prop := key x <= key y.

Lemma stable_insert_sorted x l :
  StronglySorted key_le l -> StronglySorted key_le (stable_insert less x l).
Proof.
  induction 1 as [|y l Hl IH Hy]; cbn; [repeat constructor|].
  unfold less at 1. destruct (Z.ltb_spec (key y) (key x)).
  - constructor; [done|]. rewrite stable_insert_perm.
    constructor; [unfold key_le; lia|done].
  - constructor; [by constructor|]. constructor; [done|].
    eapply Forall_impl; [done|]. unfold key_le; intros; lia.
Qed.

Lemma slice_stable_sorted l : StronglySorted key_le (slice_stable less l).
Proof. induction l; cbn; [constructor|]. by apply stable_insert_sorted. Qed.

(** Elements of equal key keep their order. *)
Lemma slice_stable_filter k l :
  filter (fun x => key x = k) (slice_stable less l) = filter (fun x => key x = k) l.
Proof.
  assert (forall x l, filter (fun x => key x = k) (stable_insert less x l)
           = filter (fun x => key x = k) (x :: l)) as Hins.
  { intros x l'. induction l' as [|y l' IH]; cbn [stable_insert]; [done|].
    destruct (less y x) eqn:E; [|done].
    rewrite !filter_cons, IH, filter_cons. unfold less in E.
    apply Z.ltb_lt in E. repeat case_decide; done || lia. }
  induction l as [|x l IH]; cbn [slice_stable]; [done|].
  rewrite Hins, !filter_cons. by rewrite IH.
Qed.
End stable.

(** ** Go map iteration

    [range] over a map visits every entry once, in an order that is not specified and
    changes from one execution of the loop to the next.  A [MapOrder] is such a choice;
    the first argument names the execution of the loop, so two loops over equal maps need
    not agree. *)
Class MapOrder := {
  go_range : forall {A : Type}, gostring -> list A -> list A;
  go_range_perm : forall {A : Type} (site : gostring) (l : list A), go_range site l ≡ₚ l
}.

(** The order in which the entries are listed. *)
Definition listed_order : MapOrder :=
  {| go_range := fun _ _ l => l; go_range_perm := fun _ _ _ => reflexivity _ |}.

(** The reverse order: two orders are enough to see a dependence on the order. *)
Definition reverse_order : MapOrder.
Proof. refine {| go_range := fun _ _ l => reverse l |}. intros. apply reverse_Permutation. Defined.

(** ** De-duplication through a map

    The loop [for _, p := range l { if _, ok := m[key(p)]; !ok { m[key(p)] = p } }] followed
    by a [range] over [m]. *)
Definition first_by_key {A K} `{Countable K} (key : A -> K) (l : list A) : gmap K A :=
  foldl (fun m p => match m !! key p with Some _ => m | None => <[key p := p]> m end) ∅ l.

Definition dedup_by_key {A K} `{Countable K} `{!MapOrder} (key : A -> K) (site : gostring) (l : list A) : list A :=
  snd <$> go_range site (map_to_list (first_by_key key l)).

Section dedup.
Context {A K : Type} `{Countable K} (key : A -> K).

Lemma first_by_key_gen l (m : gmap K A) k :
  (forall k' p, m !! k' = Some p -> key p = k') ->
  let m' := foldl (fun m p => match m !! key p with Some _ => m | None => <[key p := p]> m end) m l in
  (forall p, m' !! k = Some p -> key p = k /\ (m !! k = Some p \/ p ∈ l)) /\
  (is_Some (m' !! k) <-> is_Some (m !! k) \/ k ∈ key <$> l).
Proof.
  revert m. induction l as [|p l IH]; intros m Hm; cbn [foldl fmap list_fmap].
  { split; [intros p Hp; split; eauto|]. set_solver. }
  destruct (m !! key p) as [p0|] eqn:Ep.
  - destruct (IH m Hm) as [H1 H2]. split.
    + intros p' Hp'. destruct (H1 p' Hp') as [? [?|?]]; set_solver.
    + rewrite H2. rewrite elem_of_cons. split; [naive_solver|]. intros [?|[->|?]]; [auto| |auto].
      left. by rewrite Ep.
  - destruct (IH (<[key p := p]> m)) as [H1 H2].
    { intros k' p'. destruct (decide (key p = k')) as [<-|Hne];
        [rewrite lookup_insert_eq; congruence|rewrite lookup_insert_ne by done; auto]. }
    split.
    + intros p' Hp'. destruct (H1 p' Hp') as [Hk [Hl|?]]; [|set_solver].
      destruct (decide (key p = k)) as [<-|Hne].
      * rewrite lookup_insert_eq in Hl. injection Hl as <-. set_solver.
      * rewrite lookup_insert_ne in Hl by done. auto.
    + rewrite H2, elem_of_cons. destruct (decide (key p = k)) as [<-|Hne].
      * rewrite lookup_insert_eq. split; [auto|]. intros _. left. eauto.
      * rewrite lookup_insert_ne by done. naive_solver.
Qed.

Lemma first_by_key_spec l k :
  (forall p, first_by_key key l !! k = Some p -> key p = k /\ p ∈ l) /\
  (is_Some (first_by_key key l !! k) <-> k ∈ key <$> l).
Proof.
  destruct (first_by_key_gen l ∅ k) as [H1 H2]; [intros ? ?; by rewrite lookup_empty|].
  split; [|unfold first_by_key; rewrite H2, lookup_empty; split; [|auto]; intros [[]|]; done].
  intros p Hp. destruct (H1 p Hp) as [? [Hc|?]]; [|done]. by rewrite lookup_empty in Hc.
Qed.

Context `{!MapOrder}.

(** One element per key is kept, in some order. *)
Lemma dedup_by_key_spec site l :
  (forall p, p ∈ dedup_by_key key site l -> p ∈ l) /\
  (forall p, p ∈ l -> exists p', p' ∈ dedup_by_key key site l /\ key p' = key p) /\
  length (dedup_by_key key site l) = length (remove_dups (key <$> l)).
Proof.
  pose proof (first_by_key_spec l) as Hu. unfold dedup_by_key. split; [|split].
  - intros p Hp. apply list_elem_of_fmap in Hp as ([k p'] & -> & Hin).
    rewrite go_range_perm in Hin. apply elem_of_map_to_list in Hin. by apply Hu in Hin as [_ ?].
  - intros p Hp. destruct (proj2 (proj2 (Hu (key p)))) as [p' Hp']; [by apply list_elem_of_fmap_2|].
    exists p'. split; [|exact (proj1 (proj1 (Hu _) _ Hp'))].
    apply list_elem_of_fmap. exists (key p, p'). split; [done|].
    rewrite go_range_perm. by apply elem_of_map_to_list.
  - rewrite length_fmap, go_range_perm.
    rewrite <-(length_fmap fst (map_to_list (first_by_key key l))). apply Permutation_length.
    apply NoDup_Permutation; [apply NoDup_fst_map_to_list|apply NoDup_remove_dups|].
    intros k. rewrite elem_of_remove_dups, <-(proj2 (Hu k)). split.
    + intros ([k' p] & -> & Hin)%list_elem_of_fmap. apply elem_of_map_to_list in Hin. eauto.
    + intros [p Hp]. apply list_elem_of_fmap. exists (k, p). split; [done|]. by apply elem_of_map_to_list.
Qed.
End dedup.

(** ** Automation *)
Create HintDb agent discriminated.
#[export] Hint Resolve u32_bound length_le32 : agent.

(** Case split on every [match]/[if]/[decide] of the goal, with the equations kept. *)
Ltac split_matches :=
  repeat (case_match || case_decide || case_bool_decide); simplify_eq/=.

(** Unfold the outcome monad. *)
Ltac unfold_outcome := unfold mbind, mret, outcome_bind, outcome_ret in *.

(** Decide a proposition about every byte by evaluation. *)
Definition all_bytes : list byte := (fun n => byte.of_Z (Z.of_nat n)) <$> seq 0 256.

Lemma elem_of_all_bytes b : b ∈ all_bytes.
Proof.
  unfold all_bytes. apply list_elem_of_fmap. exists (Z.to_nat (byte.unsigned b)).
  pose proof (byte.unsigned_range b). split.
  - rewrite Z2Nat.id by lia. by rewrite byte.of_Z_unsigned.
  - apply elem_of_seq. lia.
Qed.

Lemma forall_bytes (P : byte -> Prop) `{!forall b, Decision (P b)} :
  forallb (fun b => bool_decide (P b)) all_bytes = true -> forall b, P b.
Proof.
  rewrite forallb_forall. intros Hall b. eapply bool_decide_eq_true_1, Hall.
  rewrite <-list_elem_of_In. apply elem_of_all_bytes.
Qed.
