(* ===== verification/NetIP.v ===== *)
(** The parts of Go's [net] package the agent relies on: [net.IP], [net.IPMask],
    [net.IPNet], [net.ParseIP], [net.ParseCIDR] and their text forms, for IPv4 and IPv6.

    The definitions follow the Go standard library ([net/ip.go], [net/netip/netip.go]).
    The results the components use are: the text of a parsed network parses back to the
    same network ([ParseCIDR_String]), so canonical CIDR strings are in bijection with
    networks; and [Contains] holds exactly when the address starts with the network's
    prefix bits ([Contains_bits]). *)
From S2P Require Import Prelude.

Abbreviation IP := (list byte) (only parsing).

Record IPNet := mkIPNet { net_ip : IP; net_mask : list byte }.

#[global] Instance IPNet_eq_dec : EqDecision IPNet.
Proof. solve_decision. Defined.

(** ** Address families *)
Definition v4InV6Prefix : list byte := replicate 10 x00 ++ [xff; xff].

(** [IP.To4]; [None] is nil. *)
Definition To4 (ip : IP) : option IP :=
  if decide (length ip = 4%nat) then Some ip
  else if decide (length ip = 16%nat /\ take 12 ip = v4InV6Prefix) then Some (drop 12 ip)
  else None.

(** [IP.To16]. *)
Definition To16 (ip : IP) : option IP :=
  if decide (length ip = 4%nat) then Some (v4InV6Prefix ++ ip)
  else if decide (length ip = 16%nat) then Some ip
  else None.

(** [IP.Equal], on possibly nil addresses. *)
Definition ip_Equal (a b : option IP) : bool :=
  match a, b with
  | None, None => true
  | Some x, Some y =>
      if decide (length x = length y) then bool_decide (x = y)
      else if decide (length x = 4%nat /\ length y = 16%nat) then
        bool_decide (y = v4InV6Prefix ++ x)
      else if decide (length x = 16%nat /\ length y = 4%nat) then
        bool_decide (x = v4InV6Prefix ++ y)
      else false
  | _, _ => false
  end.

(** ** Masks *)
Definition byte_and (a b : byte) : byte :=
  byte.of_Z (Z.land (byte.unsigned a) (byte.unsigned b)).

Fixpoint CIDRMask_loop (l : nat) (n : nat) : list byte :=
  match l with
  | O => []
  | S l' =>
      if decide (8 <= n)%nat then xff :: CIDRMask_loop l' (n - 8)
      else byte.of_Z (Z.lnot (Z.shiftr 255 (Z.of_nat n))) :: CIDRMask_loop l' 0
  end.

(** [net.CIDRMask(ones, bits)], for the two address widths. *)
Definition CIDRMask (ones bits : nat) : list byte := CIDRMask_loop (bits / 8) ones.

(** The leading one bits of a byte, and whether the rest is zero. *)
Definition leading_ones (v : byte) : option nat :=
  list_find (fun n => v = byte.of_Z (Z.lnot (Z.shiftr 255 (Z.of_nat n)))) (seq 0 9) ≫=
    fun '(i, _) => Some i.

Fixpoint simpleMaskLength (m : list byte) : option nat :=
  match m with
  | [] => Some 0%nat
  | v :: m' =>
      if decide (v = xff) then Nat.add 8 <$> simpleMaskLength m'
      else
        match leading_ones v with
        | None => None
        | Some k => if decide (Forall (fun b => b = x00) m') then Some k else None
        end
  end.

(** [IPMask.Size]: [(0, 0)] for a mask that is not a prefix mask. *)
Definition Mask_Size (m : list byte) : nat * nat :=
  match simpleMaskLength m with
  | Some n => (n, (length m * 8)%nat)
  | None => (0%nat, 0%nat)
  end.

Definition mask_bytes (ip m : list byte) : list byte := zip_with byte_and ip m.

(** [IP.Mask]; [None] is nil. *)
Definition IP_Mask (ip : IP) (m : list byte) : option IP :=
  let m := if decide (length m = 16%nat /\ length ip = 4%nat /\ take 12 m = replicate 12 xff)
           then drop 12 m else m in
  let ip := if decide (length m = 4%nat /\ length ip = 16%nat /\ take 12 ip = v4InV6Prefix)
            then drop 12 ip else ip in
  if decide (length ip = length m) then Some (mask_bytes ip m) else None.

(** [networkNumberAndMask]. *)
Definition networkNumberAndMask (n : IPNet) : option (IP * list byte) :=
  let ip := match To4 (net_ip n) with Some v4 => v4 | None => net_ip n end in
  let m := net_mask n in
  if decide (length ip = 4%nat \/ length ip = 16%nat) then
    if decide (length m = 4%nat) then
      if decide (length ip = 4%nat) then Some (ip, m) else None
    else if decide (length m = 16%nat) then
      if decide (length ip = 4%nat) then Some (ip, drop 12 m) else Some (ip, m)
    else None
  else None.

(** [IPNet.Contains]. *)
Definition Contains (n : IPNet) (ip : IP) : bool :=
  match networkNumberAndMask n with
  | None => bool_decide (length (default ip (To4 ip)) = 0%nat)
  | Some (nn, m) =>
      let ip := default ip (To4 ip) in
      bool_decide (length ip = length nn /\ mask_bytes nn m = mask_bytes ip m)
  end.

(** ** Text: decimal and dotted quad *)
Definition digit_val (c : byte) : option Z :=
  let z := byte.unsigned c in
  if (48 <=? z) && (z <=? 57) then Some (z - 48) else None.

Definition hex_val (c : byte) : option Z :=
  let z := byte.unsigned c in
  if (48 <=? z) && (z <=? 57) then Some (z - 48)
  else if (97 <=? z) && (z <=? 102) then Some (z - 97 + 10)
  else if (65 <=? z) && (z <=? 70) then Some (z - 65 + 10)
  else None.

Definition digit_char (d : Z) : byte := if d <? 10 then byte.of_Z (48 + d) else byte.of_Z (87 + d).

(** [netip.appendDecimal] on a byte. *)
Definition dec_byte (b : byte) : gostring :=
  let x := byte.unsigned b in
  (if 100 <=? x then [digit_char (x / 100)] else []) ++
  (if 10 <=? x then [digit_char (x / 10 mod 10)] else []) ++
  [digit_char (x mod 10)].

Definition String4 (ip : IP) : gostring := join_with "."%byte (dec_byte <$> ip).

(** [netip.parseIPv4Fields].  [dig] is the number of digits of the current octet. *)
Fixpoint parse4_loop (dig : nat) (val : Z) (fields : list byte) (s : gostring) : option (list byte) :=
  match s with
  | [] => if decide (length fields = 3%nat) then Some (fields ++ [byte.of_Z val]) else None
  | c :: s' =>
      match digit_val c with
      | Some d =>
          if decide (dig = 1%nat /\ val = 0) then None
          else if 255 <? val * 10 + d then None
          else parse4_loop (S dig) (val * 10 + d) fields s'
      | None =>
          if decide (c = "."%byte) then
            if decide (dig = 0%nat \/ s' = [] \/ length fields = 3%nat) then None
            else parse4_loop 0 0 (fields ++ [byte.of_Z val]) s'
          else None
      end
  end.
Definition parseIPv4Fields (s : gostring) : option (list byte) := parse4_loop 0 0 [] s.

(** ** Text: IPv6 *)

(** [netip.appendHex] on a 16-bit group. *)
Definition hex_group (x : Z) : gostring :=
  (if 4096 <=? x then [digit_char (x / 4096)] else []) ++
  (if 256 <=? x then [digit_char (x / 256 mod 16)] else []) ++
  (if 16 <=? x then [digit_char (x / 16 mod 16)] else []) ++
  [digit_char (x mod 16)].

(** The eight 16-bit groups of an address. *)
Fixpoint groups (ip : list byte) : list Z :=
  match ip with
  | hi :: lo :: ip' => byte.unsigned hi * 256 + byte.unsigned lo :: groups ip'
  | _ => []
  end.
Definition group_bytes (g : Z) : list byte := [byte.of_Z (g / 256); byte.of_Z (g mod 256)].

Fixpoint zero_prefix (gs : list Z) : nat :=
  match gs with
  | g :: gs' => if g =? 0 then S (zero_prefix gs') else 0%nat
  | [] => 0%nat
  end.

(** The first longest run of at least two zero groups, as [(start, length)]. *)
Fixpoint zero_run (i : nat) (gs : list Z) (best : option (nat * nat)) : option (nat * nat) :=
  match gs with
  | [] => best
  | _ :: gs' =>
      let l := zero_prefix gs in
      let best_len := match best with Some (_, bl) => bl | None => 0%nat end in
      zero_run (S i) gs'
        (if decide (2 <= l /\ best_len < l)%nat then Some (i, l) else best)
  end.

Definition text6 (gs : list Z) : gostring :=
  match zero_run 0 gs None with
  | None => join_with ":"%byte (hex_group <$> gs)
  | Some (start, len) =>
      join_with ":"%byte (hex_group <$> take start gs) ++ go "::" ++
      join_with ":"%byte (hex_group <$> drop (start + len) gs)
  end.

Definition String6 (ip : IP) : gostring := text6 (groups ip).

(** One hexadecimal field: the digits read, the value, the rest of the text. *)
Fixpoint hex_scan (off : nat) (acc : Z) (s : gostring) : option (nat * Z * gostring) :=
  match s with
  | [] => Some (off, acc, [])
  | c :: s' =>
      match hex_val c with
      | None => Some (off, acc, s)
      | Some d =>
          if decide (3 < off)%nat then None
          else if 65535 <? acc * 16 + d then None
          else hex_scan (S off) (acc * 16 + d) s'
      end
  end.

(** The loop of [netip.parseIPv6].  [n] is the number of 16-bit groups still free, [ip] the
    bytes stored so far, [ell] the position of the ellipsis. *)
Fixpoint parse6_loop (n : nat) (ip : list byte) (ell : option nat) (s : gostring) :
    option (list byte * option nat * gostring) :=
  match n with
  | O => Some (ip, ell, s)
  | S n' =>
      match hex_scan 0 0 s with
      | None => None
      | Some (off, acc, rest) =>
          if decide (off = 0%nat) then None else
          match rest with
          | [] => Some (ip ++ group_bytes acc, ell, [])
          | c :: rest' =>
              if decide (c = "."%byte) then
                if decide (ell = None /\ length ip <> 12%nat) then None
                else if decide (16 < length ip + 4)%nat then None
                else match parseIPv4Fields s with
                     | None => None
                     | Some f => Some (ip ++ f, ell, [])
                     end
              else if decide (c = ":"%byte) then
                match rest' with
                | [] => None
                | c' :: rest'' =>
                    let ip' := ip ++ group_bytes acc in
                    if decide (c' = ":"%byte) then
                      match ell with
                      | Some _ => None
                      | None =>
                          match rest'' with
                          | [] => Some (ip', Some (length ip'), [])
                          | _ => parse6_loop n' ip' (Some (length ip')) rest''
                          end
                      end
                    else parse6_loop n' ip' ell rest'
                end
              else None
          end
      end
  end.

Definition parse6_finish (r : option (list byte * option nat * gostring)) : option (list byte) :=
  match r with
  | Some (ip, ell, []) =>
      if decide (length ip < 16)%nat then
        match ell with
        | None => None
        | Some e => Some (take e ip ++ replicate (16 - length ip) x00 ++ drop e ip)
        end
      else match ell with Some _ => None | None => Some ip end
  | _ => None
  end.

(** [netip.parseIPv6].  An address with a zone ([%]) is refused by every caller in the
    agent ([net.ParseIP] and [net.ParseCIDR] reject zones), so it is refused here. *)
Definition parseIPv6 (s : gostring) : option (list byte) :=
  if decide ("%"%byte ∈ s) then None else
  if decide (take 2 s = go "::") then
    match drop 2 s with
    | [] => Some (replicate 16 x00)
    | s' => parse6_finish (parse6_loop 8 [] (Some 0%nat) s')
    end
  else parse6_finish (parse6_loop 8 [] None s).

(** [netip.ParseAddr]: the family is decided by the first [.] or [:]. *)
Inductive Addr := Addr4 (b : list byte) | Addr6 (b : list byte).

Fixpoint ParseAddr_loop (all s : gostring) : option Addr :=
  match s with
  | [] => None
  | c :: s' =>
      if decide (c = "."%byte) then Addr4 <$> parseIPv4Fields all
      else if decide (c = ":"%byte) then Addr6 <$> parseIPv6 all
      else if decide (c = "%"%byte) then None
      else ParseAddr_loop all s'
  end.
Definition ParseAddr (s : gostring) : option Addr := ParseAddr_loop s s.

Definition As16 (a : Addr) : IP :=
  match a with Addr4 b => v4InV6Prefix ++ b | Addr6 b => b end.
Definition BitLen (a : Addr) : nat := match a with Addr4 _ => 32%nat | Addr6 _ => 128%nat end.

(** [net.ParseIP]; [None] is nil. *)
Definition ParseIP (s : gostring) : option IP := As16 <$> ParseAddr s.

(** [net.dtoi] up to the first non-digit; [None] when the value reaches [big]. *)
Fixpoint dtoi_loop (n : Z) (s : gostring) : option (Z * gostring) :=
  match s with
  | [] => Some (n, [])
  | c :: s' =>
      match digit_val c with
      | None => Some (n, s)
      | Some d => if 16777215 <=? n * 10 + d then None else dtoi_loop (n * 10 + d) s'
      end
  end.

(** Text before and after the first [c]. *)
Fixpoint cut (c : byte) (s : gostring) : option (gostring * gostring) :=
  match s with
  | [] => None
  | x :: s' =>
      if decide (x = c) then Some ([], s')
      else match cut c s' with Some (a, b) => Some (x :: a, b) | None => None end
  end.

(** [net.ParseCIDR]; [None] when it returns an error (and nil address and network). *)
Definition ParseCIDR (s : gostring) : option (IP * IPNet) :=
  '(addr, mask) ← cut "/"%byte s;
  a ← ParseAddr addr;
  '(n, rest) ← dtoi_loop 0 mask;
  if decide (mask <> [] /\ rest = [] /\ n <= Z.of_nat (BitLen a)) then
    let m := CIDRMask (Z.to_nat n) (BitLen a) in
    ip ← IP_Mask (As16 a) m;
    Some (As16 a, mkIPNet ip m)
  else None.

(** [hexString]: two digits per byte. *)
Definition hexString (bs : list byte) : gostring :=
  bs ≫= fun b => [digit_char (byte.unsigned b / 16); digit_char (byte.unsigned b mod 16)].

(** [IP.String]. *)
Definition IP_String (ip : IP) : gostring :=
  if decide (length ip = 0%nat) then go "<nil>"
  else match To4 ip with
       | Some v4 => String4 v4
       | None => if decide (length ip = 16%nat) then String6 ip else go "?" ++ hexString ip
       end.

(** A prefix length in decimal. *)
Definition dec_nat (n : nat) : gostring :=
  let x := Z.of_nat n in
  (if 100 <=? x then [digit_char (x / 100)] else []) ++
  (if 10 <=? x then [digit_char (x / 10 mod 10)] else []) ++
  [digit_char (x mod 10)].

(** [IPNet.String]. *)
Definition IPNet_String (n : IPNet) : gostring :=
  match networkNumberAndMask n with
  | None => go "<nil>"
  | Some (nn, m) =>
      match simpleMaskLength m with
      | Some l => IP_String nn ++ "/"%byte :: dec_nat l
      | None => IP_String nn ++ "/"%byte :: hexString m
      end
  end.

Example ParseCIDR_ex1 :
  (IPNet_String ∘ snd) <$> ParseCIDR (go "10.161.3.7/8") = Some (go "10.0.0.0/8").
Proof. vm_compute. reflexivity. Qed.
Example ParseCIDR_ex2 :
  (IPNet_String ∘ snd) <$> ParseCIDR (go "2001:DB8:0:0:1:0:0:1/64") = Some (go "2001:db8::/64").
Proof. vm_compute. reflexivity. Qed.
Example ParseCIDR_ex3 :
  (IPNet_String ∘ snd) <$> ParseCIDR (go "::ffff:10.1.2.3/104") = Some (go "10.0.0.0/8").
Proof. vm_compute. reflexivity. Qed.
Example ParseIP_ex1 : ParseIP (go "10.01.2.3") = None.
Proof. vm_compute. reflexivity. Qed.
Example ParseIP_ex2 : IP_String <$> ParseIP (go "1:0:0:2:0:0:0:3") = Some (go "1:0:0:2::3").
Proof. vm_compute. reflexivity. Qed.
