(* ===== verification/NetIPFacts.v ===== *)
(** Results about the model of Go's [net] package: prefix bits of addresses and masks,
    and the round trips between networks and their canonical text. *)
From S2P Require Import Prelude NetIP.

(** * Bits of addresses, most significant first *)
Definition byte_bits (b : byte) : list bool :=
  (fun i => Z.testbit (byte.unsigned b) (7 - Z.of_nat i)) <$> seq 0 8.
Definition ip_bits (ip : list byte) : list bool := ip ≫= byte_bits.

Lemma length_byte_bits b : length (byte_bits b) = 8%nat.
Proof. done. Qed.

Lemma ip_bits_cons b ip : ip_bits (b :: ip) = byte_bits b ++ ip_bits ip.
Proof. done. Qed.

Lemma ip_bits_app a b : ip_bits (a ++ b) = ip_bits a ++ ip_bits b.
Proof. apply bind_app. Qed.

#[global] Arguments byte_bits : simpl never.
#[global] Arguments ip_bits : simpl never.

Lemma length_ip_bits ip : length (ip_bits ip) = (8 * length ip)%nat.
Proof.
  induction ip as [|b ip IH]; [done|].
  rewrite ip_bits_cons, length_app, IH, length_byte_bits. cbn. lia.
Qed.

Lemma byte_bits_inj a b : byte_bits a = byte_bits b -> a = b.
Proof.
  pose (val := fun l : list bool => fold_left (fun z (x : bool) => 2 * z + (if x then 1 else 0)) l 0).
  assert (forall b, byte.of_Z (val (byte_bits b)) = b) as Hval.
  { apply (forall_bytes (fun c => byte.of_Z (val (byte_bits c)) = c)). vm_compute. reflexivity. }
  intros H. rewrite <-(Hval a), <-(Hval b). by rewrite H.
Qed.

Lemma ip_bits_inj a b : length a = length b -> ip_bits a = ip_bits b -> a = b.
Proof.
  revert b. induction a as [|x a IH]; intros [|y b]; cbn; intros Hl H; try done.
  injection Hl as Hl. rewrite !ip_bits_cons in H.
  apply app_inj_1 in H as [Hx H]; [|done].
  apply byte_bits_inj in Hx. subst. f_equal. by apply IH.
Qed.

(** The byte of a prefix mask with [k] leading ones. *)
Definition mask_byte (k : nat) : byte := byte.of_Z (Z.lnot (Z.shiftr 255 (Z.of_nat k))).

Lemma byte_and_mask_bits a k :
  (k <= 8)%nat -> byte_bits (byte_and a (mask_byte k)) = take k (byte_bits a) ++ replicate (8 - k) false.
Proof.
  intros Hk. revert a.
  do 9 (destruct k as [|k];
    [apply (forall_bytes (fun a => byte_bits (byte_and a (mask_byte _)) = _));
     vm_compute; reflexivity|]). lia.
Qed.

Lemma byte_and_ff a : byte_and a xff = a.
Proof. revert a. apply (forall_bytes (fun a => byte_and a xff = a)). vm_compute. reflexivity. Qed.

Lemma length_CIDRMask_loop l n : length (CIDRMask_loop l n) = l.
Proof. revert n; induction l; intros; cbn; [done|]. case_decide; cbn; by rewrite IHl. Qed.

Lemma CIDRMask_loop_0 l : CIDRMask_loop l 0 = replicate l x00.
Proof. induction l; cbn; [done|]. by rewrite IHl. Qed.

Lemma mask_bits l ip n :
  length ip = l -> (n <= 8 * l)%nat ->
  ip_bits (mask_bytes ip (CIDRMask_loop l n)) = take n (ip_bits ip) ++ replicate (8 * l - n) false.
Proof.
  revert ip n. induction l as [|l IH]; intros [|b ip] n; cbn [length]; intros Hl Hn; try lia.
  { replace n with 0%nat by lia. done. }
  injection Hl as Hl. cbn [CIDRMask_loop].
  rewrite ip_bits_cons, take_app, length_byte_bits.
  case_decide as H8; unfold mask_bytes; cbn [zip_with];
    change (zip_with byte_and ip ?m) with (mask_bytes ip m);
    rewrite ip_bits_cons.
  - rewrite IH, byte_and_ff, (take_ge (byte_bits b)) by (rewrite ?length_byte_bits; lia).
    rewrite <-app_assoc. do 3 f_equal. lia.
  - rewrite IH by lia. change (byte.of_Z (Z.lnot (Z.shiftr 255 (Z.of_nat n)))) with (mask_byte n).
    rewrite byte_and_mask_bits by lia.
    replace (n - 8)%nat with 0%nat by lia. rewrite !take_0, app_nil_r, app_nil_l, <-app_assoc.
    f_equal. rewrite <-replicate_add. f_equal. lia.
Qed.

Lemma mask_bytes_eq l a b n :
  length a = l -> length b = l -> (n <= 8 * l)%nat ->
  mask_bytes a (CIDRMask_loop l n) = mask_bytes b (CIDRMask_loop l n) <->
  take n (ip_bits a) = take n (ip_bits b).
Proof.
  intros Ha Hb Hn. split.
  - intros H. apply (f_equal ip_bits) in H. rewrite !mask_bits in H by done.
    apply app_inj_1 in H as [H _]; [done|]. rewrite !length_take, !length_ip_bits. lia.
  - intros H. apply ip_bits_inj.
    + unfold mask_bytes. rewrite !length_zip_with, length_CIDRMask_loop. lia.
    + by rewrite !mask_bits, H.
Qed.

Lemma leading_ones_mask k : (k <= 8)%nat -> leading_ones (mask_byte k) = Some k.
Proof. intros Hk. do 9 (destruct k as [|k]; [vm_compute; reflexivity|]). lia. Qed.

Lemma simpleMaskLength_mask l n :
  (n <= 8 * l)%nat -> simpleMaskLength (CIDRMask_loop l n) = Some n.
Proof.
  revert n. induction l as [|l IH]; intros n Hn; cbn [CIDRMask_loop].
  { cbn. f_equal. lia. }
  destruct (decide (8 <= n)%nat) as [H8|H8]; cbn [simpleMaskLength].
  - rewrite decide_True by done. rewrite IH by lia. cbn. f_equal. lia.
  - change (byte.of_Z (Z.lnot (Z.shiftr 255 (Z.of_nat n)))) with (mask_byte n).
    rewrite decide_False.
    + rewrite leading_ones_mask by lia. rewrite CIDRMask_loop_0.
      rewrite decide_True; [done|]. apply Forall_replicate. done.
    + change xff with (mask_byte 8). intros Heq.
      apply (f_equal leading_ones) in Heq. rewrite !leading_ones_mask in Heq by lia.
      injection Heq. lia.
Qed.

Lemma Mask_Size_mask l n :
  (n <= 8 * l)%nat -> Mask_Size (CIDRMask_loop l n) = (n, (l * 8)%nat).
Proof.
  intros H. unfold Mask_Size. by rewrite simpleMaskLength_mask, length_CIDRMask_loop.
Qed.

(** * Canonical networks

    What [net.ParseCIDR] returns for an address that is not an IPv4-mapped IPv6 one: a
    prefix mask of the address's width and no bits beyond the prefix. *)
Definition width_ok (ip : IP) : Prop :=
  length ip = 4%nat \/ (length ip = 16%nat /\ To4 ip = None).

Definition canonical (n : IPNet) : Prop :=
  width_ok (net_ip n) /\
  exists ones, (ones <= 8 * length (net_ip n))%nat /\
    net_mask n = CIDRMask_loop (length (net_ip n)) ones /\
    drop ones (ip_bits (net_ip n)) = replicate (8 * length (net_ip n) - ones) false.

Definition net_ones (n : IPNet) : nat := fst (Mask_Size (net_mask n)).
Definition net_prefix (n : IPNet) : list bool := take (net_ones n) (ip_bits (net_ip n)).

Lemma canonical_mask n :
  canonical n ->
  (net_ones n <= 8 * length (net_ip n))%nat /\
  net_mask n = CIDRMask_loop (length (net_ip n)) (net_ones n) /\
  ip_bits (net_ip n) = net_prefix n ++ replicate (8 * length (net_ip n) - net_ones n) false.
Proof.
  intros [_ (k & Hk & Hm & Hd)].
  assert (net_ones n = k) as <-.
  { unfold net_ones. by rewrite Hm, Mask_Size_mask. }
  split; [done|]. split; [done|]. unfold net_prefix. rewrite <-Hd. by rewrite take_drop.
Qed.

Lemma length_net_prefix n : canonical n -> length (net_prefix n) = net_ones n.
Proof.
  intros Hn. pose proof (canonical_mask n Hn) as (? & _ & _).
  unfold net_prefix. rewrite length_take, length_ip_bits. lia.
Qed.

Lemma canonical_ext n n' :
  canonical n -> canonical n' -> length (net_ip n) = length (net_ip n') ->
  net_prefix n = net_prefix n' -> n = n'.
Proof.
  intros Hn Hn' Hl Hp.
  assert (net_ones n = net_ones n') as Ho by (rewrite <-!length_net_prefix by done; congruence).
  destruct (canonical_mask n Hn) as (_ & Hm & Hb), (canonical_mask n' Hn') as (_ & Hm' & Hb').
  destruct n as [a m], n' as [a' m']. cbn in *. f_equal.
  - apply ip_bits_inj; [done|]. rewrite Hb, Hb'. congruence.
  - congruence.
Qed.

(** An address as [normalizeIP] and [Contains] see it: 4 bytes when it has an IPv4 form. *)
Definition norm_ip (ip : IP) : IP := default ip (To4 ip).

Lemma norm_ip_width ip : width_ok ip -> norm_ip ip = ip.
Proof.
  unfold norm_ip. intros [H|[_ ->]]; [|done]. unfold To4. by rewrite decide_True.
Qed.

Lemma networkNumberAndMask_canonical n :
  canonical n -> networkNumberAndMask n = Some (net_ip n, net_mask n).
Proof.
  intros Hn. pose proof (canonical_mask n Hn) as (_ & Hm & _). destruct Hn as [Hw _].
  assert (length (net_mask n) = length (net_ip n)) as Hl by (by rewrite Hm, length_CIDRMask_loop).
  unfold networkNumberAndMask.
  replace (match To4 (net_ip n) with Some v4 => v4 | None => net_ip n end)
    with (net_ip n) by (symmetry; by apply norm_ip_width).
  destruct Hw as [H4|[H6 _]].
  - by rewrite !decide_True by (done || lia).
  - rewrite decide_True by lia. rewrite decide_False by lia.
    rewrite decide_True by lia. by rewrite decide_False by lia.
Qed.

(** [Contains] is agreement on the prefix bits, within one address family. *)
Lemma Contains_bits n ip :
  canonical n ->
  Contains n ip = true <->
  length (norm_ip ip) = length (net_ip n) /\ take (net_ones n) (ip_bits (norm_ip ip)) = net_prefix n.
Proof.
  intros Hn. destruct (canonical_mask n Hn) as (Hle & Hm & _).
  unfold Contains. rewrite networkNumberAndMask_canonical by done.
  fold (norm_ip ip). rewrite bool_decide_eq_true, Hm. unfold net_prefix.
  split; intros [Hl H]; (split; [done|]); apply mask_bytes_eq in H || apply mask_bytes_eq; done || lia.
Qed.

(** * Text of IPv4 addresses *)
Lemma parse4_dec b f s :
  parse4_loop 0 0 f (dec_byte b ++ s) = parse4_loop (length (dec_byte b)) (byte.unsigned b) f s.
Proof. destruct b; reflexivity. Qed.

Lemma length_dec_byte b : (0 < length (dec_byte b))%nat.
Proof. unfold dec_byte. rewrite !length_app. cbn. lia. Qed.

Lemma dec_byte_digits b : Forall (fun c => is_Some (digit_val c)) (dec_byte b).
Proof.
  revert b. apply (forall_bytes (fun b => Forall (fun c => is_Some (digit_val c)) (dec_byte b))).
  vm_compute. reflexivity.
Qed.

Lemma parse4_dot b f s :
  s <> [] -> (length f < 3)%nat ->
  parse4_loop 0 0 f (dec_byte b ++ "."%byte :: s) = parse4_loop 0 0 (f ++ [b]) s.
Proof.
  intros Hs Hf. rewrite parse4_dec. pose proof (length_dec_byte b).
  cbn [parse4_loop]. change (digit_val ".") with (@None Z). cbn match.
  rewrite decide_True by done. rewrite decide_False by (intros [?|[?|?]]; done || lia).
  by rewrite byte.of_Z_unsigned.
Qed.

Lemma app_digits_ne b s : dec_byte b ++ s <> [].
Proof. pose proof (length_dec_byte b). destruct (dec_byte b); cbn in *; [lia|done]. Qed.

Lemma parse4_String4 ip : length ip = 4%nat -> parseIPv4Fields (String4 ip) = Some ip.
Proof.
  intros H. destruct ip as [|a [|b [|c [|d [|]]]]]; try done.
  unfold parseIPv4Fields, String4. cbn [fmap list_fmap join_with].
  rewrite <-(app_nil_r (dec_byte d)).
  rewrite !parse4_dot by (apply app_digits_ne || (cbn; lia)).
  rewrite parse4_dec. cbn [app parse4_loop length]. rewrite decide_True by done.
  by rewrite byte.of_Z_unsigned.
Qed.

(** * Text of IPv6 addresses *)
Definition group_ok (g : Z) : Prop := 0 <= g < 65536.

Lemma hex_val_digit d : 0 <= d < 16 -> hex_val (digit_char d) = Some d.
Proof.
  intros H. assert (d ∈ seqZ 0 16) as Hin by (apply elem_of_seqZ; lia).
  clear H. revert d Hin. apply Forall_forall. repeat (constructor; [reflexivity|]). constructor.
Qed.

Lemma hex_scan_step d off acc s :
  0 <= d < 16 -> (off <= 3)%nat -> acc * 16 + d <= 65535 ->
  hex_scan off acc (digit_char d :: s) = hex_scan (S off) (acc * 16 + d) s.
Proof.
  intros Hd Ho Ha. cbn [hex_scan]. rewrite hex_val_digit by done.
  rewrite decide_False by lia. by rewrite (proj2 (Z.ltb_ge _ _)) by lia.
Qed.

(** A text that does not continue a hexadecimal field. *)
Definition no_hex (s : gostring) : Prop :=
  match s with [] => True | c :: _ => hex_val c = None end.

Lemma hex_scan_end off acc s : no_hex s -> hex_scan off acc s = Some (off, acc, s).
Proof. destruct s as [|c s]; cbn; [done|]. by intros ->. Qed.

Lemma hex_scan_group g s :
  group_ok g -> no_hex s ->
  hex_scan 0 0 (hex_group g ++ s) = Some (length (hex_group g), g, s).
Proof.
  unfold group_ok. intros Hg Hs. unfold hex_group.
  destruct (Z.leb_spec 4096 g); [|destruct (Z.leb_spec 256 g); [|destruct (Z.leb_spec 16 g)]];
    rewrite ?(proj2 (Z.leb_le 256 g)), ?(proj2 (Z.leb_le 16 g)),
      ?(proj2 (Z.leb_gt 256 g)), ?(proj2 (Z.leb_gt 16 g)) by lia;
    cbn [app length];
    repeat (rewrite hex_scan_step; [|Z.to_euclidean_division_equations; lia ..]);
    rewrite hex_scan_end by done; do 3 f_equal; Z.to_euclidean_division_equations; lia.
Qed.

Lemma hex_group_ne g : (0 < length (hex_group g))%nat.
Proof. unfold hex_group. rewrite !length_app. cbn. lia. Qed.

Lemma hex_group_digits g : group_ok g -> Forall (fun c => is_Some (hex_val c)) (hex_group g).
Proof.
  unfold group_ok, hex_group. intros Hg.
  repeat apply Forall_app_2; repeat case_match; repeat constructor;
    rewrite hex_val_digit by (Z.to_euclidean_division_equations; lia); eauto.
Qed.

Definition bytes_of (gs : list Z) : list byte := gs ≫= group_bytes.

Lemma bytes_of_cons g gs : bytes_of (g :: gs) = group_bytes g ++ bytes_of gs.
Proof. done. Qed.

Lemma length_bytes_of gs : length (bytes_of gs) = (2 * length gs)%nat.
Proof. induction gs as [|g gs IH]; [done|]. rewrite bytes_of_cons, length_app, IH. cbn. lia. Qed.

Lemma bytes_of_groups k ip : length ip = (2 * k)%nat -> bytes_of (groups ip) = ip.
Proof.
  revert ip. induction k as [|k IH]; intros [|hi [|lo ip]]; cbn [length]; intros; try done || lia.
  cbn [groups]. rewrite bytes_of_cons, IH by lia. cbn.
  pose proof (byte.unsigned_range hi). pose proof (byte.unsigned_range lo).
  replace ((byte.unsigned hi * 256 + byte.unsigned lo) / 256) with (byte.unsigned hi)
    by (Z.to_euclidean_division_equations; lia).
  replace ((byte.unsigned hi * 256 + byte.unsigned lo) mod 256) with (byte.unsigned lo)
    by (Z.to_euclidean_division_equations; lia).
  by rewrite !byte.of_Z_unsigned.
Qed.

Lemma length_groups k ip : length ip = (2 * k)%nat -> length (groups ip) = k.
Proof.
  revert ip. induction k as [|k IH]; intros [|hi [|lo ip]]; cbn [length groups]; intros; try done || lia.
  f_equal. apply IH. lia.
Qed.

Lemma groups_ok k ip : length ip = (2 * k)%nat -> Forall group_ok (groups ip).
Proof.
  revert ip. induction k as [|k IH]; intros [|hi [|lo ip]]; cbn [length groups]; intros; try lia; try constructor.
  - pose proof (byte.unsigned_range hi). pose proof (byte.unsigned_range lo). unfold group_ok. lia.
  - apply IH. lia.
Qed.

(** Text of a non-empty run of groups. *)
Definition join6 (gs : list Z) : gostring := join_with ":"%byte (hex_group <$> gs).

Lemma join6_cons g g' gs : join6 (g :: g' :: gs) = hex_group g ++ ":"%byte :: join6 (g' :: gs).
Proof. done. Qed.

Lemma join6_head g gs :
  group_ok g -> exists c s, join6 (g :: gs) = c :: s /\ is_Some (hex_val c).
Proof.
  intros Hg. pose proof (hex_group_ne g). pose proof (hex_group_digits g Hg) as Hd.
  destruct (hex_group g) as [|c h] eqn:E; [cbn in *; lia|].
  apply Forall_cons in Hd as [Hc _].
  destruct gs as [|g' gs]; [|rewrite join6_cons]; unfold join6; cbn; rewrite E; eauto.
Qed.

Lemma hex_val_not_colon c : is_Some (hex_val c) -> c <> ":"%byte /\ c <> "."%byte /\ c <> "%"%byte.
Proof. intros [x H]. repeat split; intros ->; done. Qed.

Lemma parse6_step n ip ell g s :
  group_ok g ->
  parse6_loop (S n) ip ell (hex_group g ++ ":"%byte :: s) =
  match s with
  | [] => None
  | c :: s' =>
      if decide (c = ":"%byte) then
        match ell with
        | Some _ => None
        | None =>
            match s' with
            | [] => Some (ip ++ group_bytes g, Some (length (ip ++ group_bytes g)), [])
            | _ => parse6_loop n (ip ++ group_bytes g) (Some (length (ip ++ group_bytes g))) s'
            end
        end
      else parse6_loop n (ip ++ group_bytes g) ell s
  end.
Proof.
  intros Hg. cbn [parse6_loop]. rewrite hex_scan_group by done.
  pose proof (hex_group_ne g). rewrite decide_False by lia.
  rewrite decide_False, decide_True by done. done.
Qed.

Lemma parse6_join n ip ell gs :
  gs <> [] -> Forall group_ok gs -> (length gs <= n)%nat ->
  parse6_loop n ip ell (join6 gs) = Some (ip ++ bytes_of gs, ell, []).
Proof.
  revert n ip. induction gs as [|g gs IH]; intros [|n] ip Hne Hok Hn; cbn [length] in *; try done || lia.
  apply Forall_cons in Hok as [Hg Hgs]. rewrite bytes_of_cons.
  destruct gs as [|g' gs].
  - change (join6 [g]) with (hex_group g). rewrite <-(app_nil_r (hex_group g)).
    cbn [parse6_loop]. rewrite hex_scan_group by done.
    pose proof (hex_group_ne g). rewrite decide_False by lia. done.
  - rewrite join6_cons, parse6_step by done.
    destruct (join6_head g' gs) as (c & s & E & Hc); [by apply Forall_cons in Hgs as [??]|].
    rewrite E, decide_False by (by apply hex_val_not_colon). rewrite <-E.
    rewrite IH by (done || (cbn in *; lia)). by rewrite <-app_assoc.
Qed.

Lemma parse6_ellipsis n ip gs t :
  gs <> [] -> Forall group_ok gs -> (length gs <= n)%nat ->
  parse6_loop n ip None (join6 gs ++ go "::" ++ t) =
  let ip' := ip ++ bytes_of gs in
  match t with
  | [] => Some (ip', Some (length ip'), [])
  | _ => parse6_loop (n - length gs) ip' (Some (length ip')) t
  end.
Proof.
  revert n ip. induction gs as [|g gs IH]; intros [|n] ip Hne Hok Hn; cbn [length] in *; try done || lia.
  apply Forall_cons in Hok as [Hg Hgs]. rewrite bytes_of_cons.
  destruct gs as [|g' gs].
  - change (join6 [g]) with (hex_group g). change (go "::" ++ t) with (":"%byte :: ":"%byte :: t).
    rewrite parse6_step, decide_True by done.
    change (bytes_of []) with (@nil byte). rewrite app_nil_r. cbn zeta.
    replace (S n - S (length (@nil Z)))%nat with n by (cbn; lia). done.
  - rewrite join6_cons, <-app_assoc. cbn [app]. rewrite parse6_step by done.
    destruct (join6_head g' gs) as (c & s & E & Hc); [by apply Forall_cons in Hgs as [??]|].
    rewrite E. cbn [app]. rewrite decide_False by (by apply hex_val_not_colon).
    change (c :: s ++ ?x) with ((c :: s) ++ x). rewrite <-E.
    rewrite IH by (done || (cbn in *; lia)). rewrite <-app_assoc. done.
Qed.

Lemma zero_prefix_spec gs :
  (zero_prefix gs <= length gs)%nat /\ take (zero_prefix gs) gs = replicate (zero_prefix gs) 0.
Proof.
  induction gs as [|g gs [IH1 IH2]]; cbn; [done|].
  destruct (Z.eqb_spec g 0); cbn; [|split; [lia|done]].
  split; [lia|]. by rewrite IH2, e.
Qed.

Lemma zero_run_spec i gs best s l :
  zero_run i gs best = Some (s, l) ->
  best = Some (s, l) \/
  exists j, s = (i + j)%nat /\ (2 <= l)%nat /\ (j + l <= length gs)%nat /\
            take l (drop j gs) = replicate l 0.
Proof.
  revert i best. induction gs as [|g gs IH]; intros i best H; [by left|].
  cbn [zero_run] in H. apply IH in H as [H|(j & -> & Hl & Hle & Ht)].
  - case_decide as Hd; [|by left]. injection H as <- <-. right. exists 0%nat.
    destruct (zero_prefix_spec (g :: gs)) as [Hp1 Hp2]. destruct Hd as [Hd _].
    rewrite drop_0. split; [lia|]. split; [done|]. split; done.
  - right. exists (S j). cbn. repeat split; lia || done.
Qed.

Lemma bytes_of_app a b : bytes_of (a ++ b) = bytes_of a ++ bytes_of b.
Proof. apply bind_app. Qed.

Lemma bytes_of_zeros l : bytes_of (replicate l 0) = replicate (2 * l) x00.
Proof.
  induction l as [|l IH]; [done|]. cbn [replicate]. rewrite bytes_of_cons, IH.
  replace (2 * S l)%nat with (S (S (2 * l))) by lia. done.
Qed.

(** The characters of an IPv6 text. *)
Definition char6 (c : byte) : Prop := is_Some (hex_val c) \/ c = ":"%byte.

Lemma join6_chars gs : Forall group_ok gs -> Forall char6 (join6 gs).
Proof.
  induction 1 as [|g gs Hg Hgs IH]; [constructor|].
  assert (Forall char6 (hex_group g)) as Hh.
  { eapply Forall_impl; [by apply hex_group_digits|]. intros; by left. }
  destruct gs as [|g' gs]; [done|]. rewrite join6_cons.
  apply Forall_app_2; [done|]. constructor; [by right|done].
Qed.

Lemma text6_chars gs : Forall group_ok gs -> Forall char6 (text6 gs).
Proof.
  intros H. unfold text6. destruct (zero_run 0 gs None) as [[s l]|]; [|by apply join6_chars].
  repeat apply Forall_app_2.
  - by apply join6_chars, Forall_take.
  - repeat constructor; by right.
  - by apply join6_chars, Forall_drop.
Qed.

Lemma char6_facts c : char6 c -> c <> "."%byte /\ c <> "%"%byte /\ c <> "/"%byte.
Proof. intros [[x H]| ->]; repeat split; try intros ->; done. Qed.

Lemma ParseAddr_loop6 all s :
  Forall char6 s -> ":"%byte ∈ s -> ParseAddr_loop all s = Addr6 <$> parseIPv6 all.
Proof.
  induction 1 as [|c s Hc Hs IH]; intros Hin; [by apply not_elem_of_nil in Hin|].
  cbn [ParseAddr_loop]. destruct (char6_facts c Hc) as (H1 & H2 & _).
  rewrite decide_False by done. case_decide; [done|]. rewrite decide_False by done.
  apply IH. apply elem_of_cons in Hin as [?|?]; [congruence|done].
Qed.

Lemma parse6_finish_expand pre post l :
  (length pre + l + length post = 8)%nat -> (0 < l)%nat ->
  parse6_finish (Some (bytes_of pre ++ bytes_of post, Some (length (bytes_of pre)), [])) =
  Some (bytes_of (pre ++ replicate l 0 ++ post)).
Proof.
  intros Hl Hp. unfold parse6_finish.
  rewrite decide_True by (rewrite length_app, !length_bytes_of; lia).
  rewrite take_app_length, drop_app_length, !bytes_of_app, bytes_of_zeros, length_app, !length_bytes_of.
  do 4 f_equal. lia.
Qed.

Lemma take2_not_colons c s : is_Some (hex_val c) -> take 2 (c :: s) <> go "::".
Proof. intros Hc H. cbn in H. injection H as -> _. by apply hex_val_not_colon in Hc as [? _]. Qed.

Lemma parse6_String6 ip : length ip = 16%nat -> parseIPv6 (String6 ip) = Some ip.
Proof.
  intros Hl. unfold String6.
  pose proof (groups_ok 8 ip Hl) as Hok. pose proof (length_groups 8 ip Hl) as Hlen.
  rewrite <-(bytes_of_groups 8 ip Hl) at 2.
  unfold parseIPv6. rewrite decide_False.
  2: { intros Hin. apply text6_chars in Hok. rewrite Forall_forall in Hok.
       apply Hok, char6_facts in Hin. naive_solver. }
  generalize dependent (groups ip). intros gs Hok Hlen. unfold text6.
  destruct (zero_run 0 gs None) as [[s l]|] eqn:E.
  2: { destruct gs as [|g gs]; [done|].
       destruct (join6_head g gs) as (c & t & Et & Hc); [by apply Forall_cons in Hok as [??]|].
       fold (join6 (g :: gs)). rewrite decide_False by (rewrite Et; by apply take2_not_colons).
       rewrite parse6_join by (done || lia). cbn [parse6_finish app].
       by rewrite decide_False by (rewrite length_bytes_of; lia). }
  apply zero_run_spec in E as [E|(j & -> & H2 & Hle & Hz)]; [done|]. rewrite Nat.add_0_l in *.
  set (pre := take j gs). set (post := drop (j + l) gs).
  assert (gs = pre ++ replicate l 0 ++ post) as Hgs.
  { unfold pre, post. rewrite <-Hz, <-drop_drop, take_drop. by rewrite take_drop. }
  assert (length pre = j /\ length post = 8 - (j + l))%nat as [Hpre Hpost].
  { unfold pre, post. rewrite length_take, length_drop. lia. }
  assert (Forall group_ok pre) as Hokpre by (by apply Forall_take).
  assert (Forall group_ok post) as Hokpost by (by apply Forall_drop).
  fold (join6 pre) (join6 post). rewrite Hgs. clearbody pre post. clear Hgs Hz.
  destruct pre as [|g pre].
  - change (join6 []) with (@nil byte). cbn [app]. rewrite decide_True by done.
    change (drop 2 (go "::" ++ join6 post)) with (join6 post).
    destruct post as [|g' post].
    + replace l with 8%nat by (cbn in *; lia). done.
    + destruct (join6_head g' post) as (c & t & Et & Hc); [by apply Forall_cons in Hokpost as [??]|].
      rewrite Et, <-Et. rewrite parse6_join by (done || lia).
      apply (parse6_finish_expand [] (g' :: post) l); cbn in *; lia.
  - destruct (join6_head g pre) as (c & t & Et & Hc); [by apply Forall_cons in Hokpre as [??]|].
    rewrite decide_False by (rewrite Et; cbn [app]; by apply take2_not_colons).
    rewrite parse6_ellipsis by (done || lia). cbn zeta. cbn [app].
    destruct post as [|g' post].
    + etrans; [|apply (parse6_finish_expand (g :: pre) [] l); cbn in *; lia].
      change (bytes_of []) with (@nil byte). by rewrite app_nil_r.
    + destruct (join6_head g' post) as (c' & t' & Et' & Hc'); [by apply Forall_cons in Hokpost as [??]|].
      rewrite Et', <-Et'. rewrite parse6_join by (done || lia).
      apply (parse6_finish_expand (g :: pre) (g' :: post) l); cbn in *; lia.
Qed.

(** * Addresses and networks *)
Definition char4 (c : byte) : Prop := is_Some (digit_val c) \/ c = "."%byte.

Lemma char4_facts c : char4 c -> c <> ":"%byte /\ c <> "%"%byte /\ c <> "/"%byte.
Proof. intros [[x H]| ->]; repeat split; try intros ->; done. Qed.

Lemma String4_chars ip : Forall char4 (String4 ip).
Proof.
  unfold String4. induction ip as [|b ip IH]; [constructor|].
  assert (Forall char4 (dec_byte b)) as Hb.
  { eapply Forall_impl; [apply dec_byte_digits|]. by left. }
  destruct ip as [|b' ip]; [done|]. cbn [fmap list_fmap join_with].
  apply Forall_app_2; [done|]. constructor; [by right|apply IH].
Qed.

Lemma ParseAddr_loop4 all s :
  Forall char4 s -> "."%byte ∈ s -> ParseAddr_loop all s = Addr4 <$> parseIPv4Fields all.
Proof.
  induction 1 as [|c s Hc Hs IH]; intros Hin; [by apply not_elem_of_nil in Hin|].
  cbn [ParseAddr_loop]. destruct (char4_facts c Hc) as (H1 & H2 & _).
  case_decide; [done|]. rewrite !decide_False by done.
  apply IH. apply elem_of_cons in Hin as [?|?]; [congruence|done].
Qed.

Lemma ParseAddr_String4 ip : length ip = 4%nat -> ParseAddr (String4 ip) = Some (Addr4 ip).
Proof.
  intros Hl. unfold ParseAddr. rewrite ParseAddr_loop4.
  - by rewrite parse4_String4.
  - apply String4_chars.
  - destruct ip as [|a [|b ip]]; [done..|]. unfold String4. cbn. set_solver.
Qed.

Lemma colon_in_join6 g g' gs : ":"%byte ∈ join6 (g :: g' :: gs).
Proof. rewrite join6_cons. set_solver. Qed.

Lemma colon_in_text6 gs : (2 <= length gs)%nat -> ":"%byte ∈ text6 gs.
Proof.
  intros Hl. unfold text6. destruct (zero_run 0 gs None) as [[s l]|].
  - rewrite !elem_of_app. right. left. cbn. set_solver.
  - destruct gs as [|g [|g' gs]]; cbn in Hl; [lia..|]. apply colon_in_join6.
Qed.

Lemma ParseAddr_String6 ip : length ip = 16%nat -> ParseAddr (String6 ip) = Some (Addr6 ip).
Proof.
  intros Hl. unfold ParseAddr. rewrite ParseAddr_loop6.
  - by rewrite parse6_String6.
  - by apply text6_chars, (groups_ok 8).
  - apply colon_in_text6. rewrite (length_groups 8) by done. lia.
Qed.

Lemma cut_app c a b : c ∉ a -> cut c (a ++ c :: b) = Some (a, b).
Proof.
  induction a as [|x a IH]; cbn; intros H; [by rewrite decide_True|].
  apply not_elem_of_cons in H as [Hx Ha]. rewrite decide_False by done. by rewrite IH.
Qed.

Lemma dtoi_dec_nat n : (n <= 128)%nat -> dtoi_loop 0 (dec_nat n) = Some (Z.of_nat n, []).
Proof.
  intros Hn. assert (n ∈ seq 0 129) as Hin by (apply elem_of_seq; lia).
  clear Hn. revert n Hin. apply Forall_forall.
  apply (bool_decide_unpack _). vm_compute. exact I.
Qed.

Lemma dec_nat_ne n : dec_nat n <> [].
Proof. unfold dec_nat. intros H. apply app_nil in H as [_ H]. by apply app_nil in H as [_ H]. Qed.

(** The address that denotes the same host in 16 bytes. *)
Definition addr_of (ip : IP) : Addr := if decide (length ip = 4%nat) then Addr4 ip else Addr6 ip.

Lemma addr_of_4 ip : length ip = 4%nat -> addr_of ip = Addr4 ip.
Proof. intros H. unfold addr_of. by rewrite decide_True. Qed.
Lemma addr_of_6 ip : length ip = 16%nat -> addr_of ip = Addr6 ip.
Proof. intros H. unfold addr_of. by rewrite decide_False by lia. Qed.

Lemma BitLen_addr_of ip : width_ok ip -> BitLen (addr_of ip) = (8 * length ip)%nat.
Proof. unfold addr_of. intros [H|[H _]]; case_decide; cbn; lia. Qed.

Lemma IP_String_parse ip :
  width_ok ip -> ParseAddr (IP_String ip) = Some (addr_of ip) /\ "/"%byte ∉ IP_String ip.
Proof.
  intros Hw. unfold IP_String, addr_of. rewrite decide_False by (destruct Hw as [?|[? ?]]; lia).
  destruct Hw as [H4|[H6 Ht]].
  - unfold To4. rewrite !(decide_True (P := length ip = 4%nat)) by done.
    split; [by apply ParseAddr_String4|]. intros Hin.
    pose proof (String4_chars ip) as Hc. rewrite Forall_forall in Hc.
    apply Hc, char4_facts in Hin. naive_solver.
  - rewrite Ht, decide_True, decide_False by (done || lia).
    split; [by apply ParseAddr_String6|]. intros Hin.
    pose proof (text6_chars (groups ip) (groups_ok 8 ip H6)) as Hc. rewrite Forall_forall in Hc.
    apply Hc, char6_facts in Hin. naive_solver.
Qed.

Lemma IP_Mask_4 ip m :
  length ip = 4%nat -> length m = 4%nat -> IP_Mask (v4InV6Prefix ++ ip) m = Some (mask_bytes ip m).
Proof.
  intros Hi Hm. unfold IP_Mask.
  rewrite (decide_False (P := length m = 16%nat /\ _)) by (intros [? _]; lia).
  rewrite (decide_True (P := length m = 4%nat /\ _))
    by (rewrite length_app, take_app_length', Hi by done; done).
  rewrite drop_app_length' by done. rewrite decide_True by lia. done.
Qed.

Lemma IP_Mask_6 ip m :
  length ip = 16%nat -> length m = 16%nat -> IP_Mask ip m = Some (mask_bytes ip m).
Proof.
  intros Hi Hm. unfold IP_Mask.
  rewrite (decide_False (P := length m = 16%nat /\ _)) by (intros (_ & ? & _); lia).
  rewrite (decide_False (P := length m = 4%nat /\ _)) by (intros [? _]; lia).
  rewrite decide_True by lia. done.
Qed.

Lemma CIDRMask_bytes k l : CIDRMask k (8 * l) = CIDRMask_loop l k.
Proof. unfold CIDRMask. by rewrite Nat.mul_comm, Nat.div_mul by lia. Qed.

Lemma IP_Mask_addr ip k :
  width_ok ip ->
  IP_Mask (As16 (addr_of ip)) (CIDRMask k (8 * length ip)) =
    Some (mask_bytes ip (CIDRMask_loop (length ip) k)).
Proof.
  intros Hw. rewrite CIDRMask_bytes. destruct Hw as [H4|[H6 Ht]].
  - rewrite addr_of_4 by done. apply IP_Mask_4; [done|]. by rewrite length_CIDRMask_loop.
  - rewrite addr_of_6 by done. apply IP_Mask_6; [done|]. by rewrite length_CIDRMask_loop.
Qed.

Lemma mask_canonical n :
  canonical n -> mask_bytes (net_ip n) (net_mask n) = net_ip n.
Proof.
  intros Hn. destruct (canonical_mask n Hn) as (Hle & Hm & Hb).
  apply ip_bits_inj.
  - unfold mask_bytes. rewrite length_zip_with, Hm, length_CIDRMask_loop. lia.
  - rewrite Hm, mask_bits by done. fold (net_prefix n). by rewrite <-Hb.
Qed.

(** The text of a network parses back to the network. *)
Lemma ParseCIDR_String n :
  canonical n -> ParseCIDR (IPNet_String n) = Some (As16 (addr_of (net_ip n)), n).
Proof.
  intros Hn. destruct (canonical_mask n Hn) as (Hle & Hm & _). pose proof (proj1 Hn) as Hw.
  destruct (IP_String_parse _ Hw) as [Hp Hsl].
  unfold IPNet_String. rewrite networkNumberAndMask_canonical by done.
  rewrite Hm at 1. rewrite simpleMaskLength_mask by done.
  unfold ParseCIDR. rewrite cut_app by done. cbn [mbind option_bind].
  rewrite Hp. cbn [mbind option_bind].
  rewrite dtoi_dec_nat by (destruct Hw as [?|[? ?]]; lia). cbn [mbind option_bind].
  rewrite BitLen_addr_of by done.
  rewrite decide_True by (split; [apply dec_nat_ne|split; [done|lia]]).
  rewrite Nat2Z.id, IP_Mask_addr by done. cbn [mbind option_bind].
  rewrite CIDRMask_bytes, <-Hm, mask_canonical by done. by destruct n.
Qed.

Lemma IPNet_String_inj n n' :
  canonical n -> canonical n' -> IPNet_String n = IPNet_String n' -> n = n'.
Proof.
  intros Hn Hn' H. apply (f_equal ParseCIDR) in H. rewrite !ParseCIDR_String in H by done. congruence.
Qed.

(** * What [ParseCIDR] returns *)
Lemma parse4_loop_length dig val f s b : parse4_loop dig val f s = Some b -> length b = 4%nat.
Proof.
  revert dig val f. induction s as [|c s IH]; intros dig val f; cbn [parse4_loop].
  - case_decide; [|done]. intros [= <-]. rewrite length_app. cbn. lia.
  - repeat case_match; try done; apply IH.
Qed.

Lemma parse6_loop_length n ip ell s r ell' s' :
  (length ip + 2 * n = 16)%nat -> parse6_loop n ip ell s = Some (r, ell', s') -> (length r <= 16)%nat.
Proof.
  revert ip ell s. induction n as [|n IH]; intros ip ell s Hl; cbn [parse6_loop].
  { intros [= <- <- <-]. lia. }
  repeat case_match; intros; simplify_eq; try done;
    rewrite ?length_app in *; cbn [group_bytes length] in *; try lia;
    try (eapply IH; [|eassumption]; rewrite length_app; cbn; lia).
  match goal with H : parseIPv4Fields _ = Some _ |- _ => apply parse4_loop_length in H end. lia.
Qed.

Lemma parse6_finish_length r b :
  (forall ip ell s, r = Some (ip, ell, s) -> (length ip <= 16)%nat) ->
  parse6_finish r = Some b -> length b = 16%nat.
Proof.
  intros Hr. unfold parse6_finish. repeat case_match; intros; simplify_eq;
    specialize (Hr _ _ _ eq_refl); rewrite ?length_app, ?length_replicate, ?length_take, ?length_drop; lia.
Qed.

Lemma parseIPv6_length s b : parseIPv6 s = Some b -> length b = 16%nat.
Proof.
  unfold parseIPv6. case_decide; [done|]. case_decide.
  - case_match; [by intros [= <-]|]. apply parse6_finish_length.
    intros ip ell s' Hr. eapply (parse6_loop_length 8); [|done]. done.
  - apply parse6_finish_length.
    intros ip ell s' Hr. eapply (parse6_loop_length 8); [|done]. done.
Qed.

Lemma ParseAddr_width s a :
  ParseAddr s = Some a ->
  match a with Addr4 b => length b = 4%nat | Addr6 b => length b = 16%nat end.
Proof.
  unfold ParseAddr. generalize s at 2 as r. intros r. induction r as [|c r IH]; cbn; [done|].
  repeat case_decide; [| |done|done]; intros Hf; apply fmap_Some in Hf as (b & Hb & ->).
  - by eapply parse4_loop_length.
  - by eapply parseIPv6_length.
Qed.

Lemma mask_bytes_length ip l k : length ip = l -> length (mask_bytes ip (CIDRMask_loop l k)) = l.
Proof. intros. unfold mask_bytes. rewrite length_zip_with, length_CIDRMask_loop. lia. Qed.

Lemma masked_canonical ip k :
  (k <= 8 * length ip)%nat ->
  let m := CIDRMask_loop (length ip) k in
  width_ok (mask_bytes ip m) -> canonical (mkIPNet (mask_bytes ip m) m).
Proof.
  intros Hk m Hw. split; [done|]. cbn [net_ip net_mask]. exists k.
  unfold m. rewrite mask_bytes_length by done. split; [done|]. split; [done|].
  rewrite mask_bits by done. rewrite drop_app_length'; [done|].
  rewrite length_take, length_ip_bits. lia.
Qed.

(** The address returned has 16 bytes; the network has the width of the parsed address and
    is canonical unless it is an IPv4-mapped IPv6 network. *)
Lemma ParseCIDR_inv s a n :
  ParseCIDR s = Some (a, n) ->
  length a = 16%nat /\
  (length (net_ip n) = 4%nat \/ length (net_ip n) = 16%nat) /\
  (width_ok (net_ip n) -> canonical n).
Proof.
  unfold ParseCIDR.
  destruct (cut _ _) as [[addr mask]|]; cbn [mbind option_bind]; [|done].
  destruct (ParseAddr addr) as [ad|] eqn:Ea; cbn [mbind option_bind]; [|done].
  destruct (dtoi_loop 0 mask) as [[k rest]|]; cbn [mbind option_bind]; [|done].
  case_decide as Hd; [|done]. destruct Hd as (_ & _ & Hk). apply ParseAddr_width in Ea.
  destruct ad as [b|b]; cbn [As16 BitLen] in *; cbn zeta.
  - rewrite (CIDRMask_bytes _ 4 : CIDRMask _ 32 = _).
    rewrite IP_Mask_4 by (done || apply length_CIDRMask_loop). intros H. apply Some_pair_inv in H as [-> ->].
    cbn [net_ip]. rewrite mask_bytes_length, length_app, Ea by done.
    split; [done|]. split; [by left|]. rewrite <-Ea. apply masked_canonical. lia.
  - rewrite (CIDRMask_bytes _ 16 : CIDRMask _ 128 = _).
    rewrite IP_Mask_6 by (done || apply length_CIDRMask_loop). intros H. apply Some_pair_inv in H as [-> ->].
    cbn [net_ip]. rewrite mask_bytes_length by done.
    split; [done|]. split; [by right|]. rewrite <-Ea. apply masked_canonical. lia.
Qed.

(** Canonicalising a canonical text changes nothing. *)
Lemma ParseCIDR_canonical_idem s a n :
  ParseCIDR s = Some (a, n) -> width_ok (net_ip n) ->
  ParseCIDR (IPNet_String n) = Some (As16 (addr_of (net_ip n)), n).
Proof. intros H Hw. apply ParseCIDR_String. by eapply ParseCIDR_inv. Qed.

(** ** IPv4-mapped networks

    [net.ParseCIDR] keeps an IPv4-mapped IPv6 network ([::ffff:10.0.0.0/104]) in 16 bytes;
    [Contains] and [String] see its 4-byte form. *)
Definition eff (n : IPNet) : IPNet :=
  match networkNumberAndMask n with Some (i, m) => mkIPNet i m | None => n end.

Lemma eff_canonical n : canonical n -> eff n = n.
Proof. intros H. unfold eff. rewrite networkNumberAndMask_canonical by done. by destruct n. Qed.

Lemma drop_CIDRMask i l k :
  (8 * i <= k)%nat -> drop i (CIDRMask_loop (i + l) k) = CIDRMask_loop l (k - 8 * i).
Proof.
  revert k. induction i as [|i IH]; intros k Hk; [by rewrite Nat.sub_0_r|].
  cbn [Nat.add CIDRMask_loop]. rewrite decide_True by lia. cbn [drop]. rewrite IH by lia. f_equal. lia.
Qed.

Lemma mapped_ones b k :
  length b = 16%nat -> (k <= 128)%nat ->
  take 12 (mask_bytes b (CIDRMask_loop 16 k)) = v4InV6Prefix -> (96 <= k)%nat.
Proof.
  intros Hb Hk Hp. destruct (decide (96 <= k)%nat) as [|Hlt]; [done|exfalso].
  pose proof (mask_bits 16 b k Hb ltac:(lia)) as Hbits.
  rewrite <-(take_drop 12 (mask_bytes _ _)), Hp, ip_bits_app in Hbits.
  apply (f_equal (fun l => l !! 95%nat)) in Hbits.
  rewrite lookup_app_l in Hbits by (rewrite length_ip_bits; cbn; lia).
  rewrite lookup_app_r in Hbits by (rewrite length_take, length_ip_bits; lia).
  rewrite lookup_replicate_2 in Hbits by (rewrite length_take, length_ip_bits; lia).
  vm_compute in Hbits. congruence.
Qed.

Lemma To4_mapped ip v4 : length ip = 16%nat -> To4 ip = Some v4 -> take 12 ip = v4InV6Prefix /\ v4 = drop 12 ip.
Proof.
  intros Hl. unfold To4. rewrite decide_False by lia. case_decide as H; [|done].
  intros [= <-]. naive_solver.
Qed.

(** Every parsed network has a canonical form that [Contains] and [String] agree with; its
    prefix is [96] shorter when it is IPv4-mapped. *)
(** A 16-byte network is the masked address. *)
Lemma ParseCIDR_masked s a n :
  ParseCIDR s = Some (a, n) -> length (net_ip n) = 16%nat ->
  exists b k, length b = 16%nat /\ (k <= 128)%nat /\ net_mask n = CIDRMask_loop 16 k /\
    net_ip n = mask_bytes b (CIDRMask_loop 16 k).
Proof.
  intros HP H16. revert HP. unfold ParseCIDR.
  destruct (cut _ _) as [[addr mask]|]; cbn [mbind option_bind]; [|done].
  destruct (ParseAddr addr) as [ad|] eqn:Ea; cbn [mbind option_bind]; [|done].
  destruct (dtoi_loop 0 mask) as [[k rest]|]; cbn [mbind option_bind]; [|done].
  case_decide as Hd; [|done]. destruct Hd as (_ & _ & Hk). apply ParseAddr_width in Ea.
  destruct ad as [b|b]; cbn [As16 BitLen] in *; cbn zeta.
  - rewrite (CIDRMask_bytes _ 4 : CIDRMask _ 32 = _).
    rewrite IP_Mask_4 by (done || apply length_CIDRMask_loop).
    intros H. apply Some_pair_inv in H as [-> ->]. cbn [net_ip] in H16.
    rewrite mask_bytes_length in H16; done.
  - rewrite (CIDRMask_bytes _ 16 : CIDRMask _ 128 = _).
    rewrite IP_Mask_6 by (done || apply length_CIDRMask_loop).
    intros H. apply Some_pair_inv in H as [-> ->]. exists b, (Z.to_nat k). repeat split; try done. lia.
Qed.

(** The bits of a masked IPv4-mapped address past the mask, in its last four bytes, are zero. *)
Lemma mapped_low_bits b k ip :
  length b = 16%nat -> (96 <= k <= 128)%nat -> ip = mask_bytes b (CIDRMask_loop 16 k) ->
  length ip = 16%nat -> take 12 ip = v4InV6Prefix ->
  drop (k - 96) (ip_bits (drop 12 ip)) = replicate (128 - k) false.
Proof.
  intros Hb Hk Hi H16 Hpre.
  pose proof (mask_bits 16 b k Hb ltac:(lia)) as Hbits. rewrite <-Hi in Hbits.
  rewrite <-(take_drop 12 ip) in Hbits at 1. rewrite ip_bits_app in Hbits.
  apply (f_equal (drop k)) in Hbits.
  rewrite drop_app in Hbits.
  rewrite drop_app_length' in Hbits by (rewrite length_take, length_ip_bits; lia).
  rewrite drop_ge in Hbits by (rewrite length_ip_bits, Hpre; cbn; lia).
  rewrite length_ip_bits, Hpre in Hbits. cbn [app] in Hbits.
  change (8 * length v4InV6Prefix)%nat with 96%nat in Hbits. exact Hbits.
Qed.

Lemma ParseCIDR_eff s a n :
  ParseCIDR s = Some (a, n) ->
  canonical (eff n) /\ networkNumberAndMask n = Some (net_ip (eff n), net_mask (eff n)) /\
  net_ip (eff n) = norm_ip (net_ip n) /\
  ((n = eff n /\ To4 (net_ip n) = (if decide (length (net_ip n) = 4%nat) then Some (net_ip n) else None)) \/
   (length (net_ip n) = 16%nat /\ length (net_ip (eff n)) = 4%nat /\
    To4 (net_ip n) = Some (net_ip (eff n)) /\
    Mask_Size (net_mask n) = (96 + net_ones (eff n), 128)%nat)).
Proof.
  intros HP. destruct (ParseCIDR_inv s a n HP) as (_ & Hl & Hc).
  assert (width_ok (net_ip n) \/ exists v4, length (net_ip n) = 16%nat /\ To4 (net_ip n) = Some v4) as Hcase.
  { destruct Hl as [H|H]; [by left; left|].
    destruct (To4 (net_ip n)) as [v4|] eqn:E; [by right; exists v4|left; by right]. }
  destruct Hcase as [Hw|(v4 & H16 & Hv4)].
  { specialize (Hc Hw). rewrite eff_canonical by done. split; [done|].
    split; [by apply networkNumberAndMask_canonical|]. split; [by rewrite norm_ip_width|].
    left. split; [done|]. destruct Hw as [H|[H1 H2]].
    - unfold To4. by rewrite !decide_True.
    - rewrite H2. by rewrite decide_False by lia. }
  destruct (To4_mapped _ _ H16 Hv4) as [Hpre ->].
  destruct (ParseCIDR_masked s a n HP H16) as (b & k & Hb & Hk & Hm & Hi).
  assert (96 <= k)%nat as H96 by (rewrite Hi in Hpre; by eapply mapped_ones).
  assert (networkNumberAndMask n = Some (drop 12 (net_ip n), CIDRMask_loop 4 (k - 96))) as HN.
  { unfold networkNumberAndMask. rewrite Hv4.
    rewrite decide_True by (left; rewrite length_drop; lia).
    rewrite Hm, length_CIDRMask_loop. rewrite decide_False by done. rewrite decide_True by done.
    rewrite decide_True by (rewrite length_drop; lia).
    do 2 f_equal. apply (drop_CIDRMask 12 4 k). lia. }
  assert (eff n = mkIPNet (drop 12 (net_ip n)) (CIDRMask_loop 4 (k - 96))) as He by (unfold eff; by rewrite HN).
  assert (length (drop 12 (net_ip n)) = 4%nat) as H4 by (rewrite length_drop; lia).
  rewrite He. cbn [net_ip net_mask]. split; [|split; [done|]].
  - split; cbn [net_ip net_mask]; [by left|]. exists (k - 96)%nat. rewrite H4. split; [lia|]. split; [done|].
    rewrite (mapped_low_bits b k _ Hb ltac:(lia) Hi H16 Hpre). f_equal. lia.
  - split; [unfold norm_ip; by rewrite Hv4|]. right. split; [done|]. split; [done|]. split; [done|].
    rewrite Hm, Mask_Size_mask by lia. unfold net_ones. cbn [net_mask].
    rewrite Mask_Size_mask by lia. cbn [fst]. f_equal. lia.
Qed.

(** [String] and [Contains] see a network through its canonical form. *)
Lemma ParseCIDR_views s a n :
  ParseCIDR s = Some (a, n) ->
  IPNet_String n = IPNet_String (eff n) /\ (forall ip, Contains n ip = Contains (eff n) ip).
Proof.
  intros H. destruct (ParseCIDR_eff s a n H) as (Hc & HN & _).
  pose proof (networkNumberAndMask_canonical _ Hc) as HN'.
  split; [|intros ip]; unfold IPNet_String, Contains; by rewrite HN, HN'.
Qed.

(** The canonical text of a parsed network parses to its canonical form. *)
Lemma ParseCIDR_canonicalised s a n :
  ParseCIDR s = Some (a, n) ->
  ParseCIDR (IPNet_String n) = Some (As16 (addr_of (net_ip (eff n))), eff n).
Proof.
  intros H. destruct (ParseCIDR_views s a n H) as [-> _].
  destruct (ParseCIDR_eff s a n H) as (Hc & _). by apply ParseCIDR_String.
Qed.

#[export] Hint Resolve ParseCIDR_String networkNumberAndMask_canonical : agent.
