(* ===== verification/ApiTypes.v ===== *)
(** The custom resources of [api/v1alpha1] (PolicyEndpoint, ClusterPolicyEndpoint) and the
    agent's own small types of [pkg/types]: the data every component exchanges. *)
From S2P Require Import Prelude.

(** A [*corev1.Protocol]: the address, which Go's [%v] prints, and the string it points to. *)
Record ProtocolPtr := mkProtocolPtr { ptr_addr : Z; ptr_val : gostring }.

Definition ProtocolTCP : gostring := go "TCP".
Definition ProtocolUDP : gostring := go "UDP".
Definition ProtocolSCTP : gostring := go "SCTP".

Abbreviation NetworkAddress := gostring (only parsing).
Abbreviation DomainName := gostring (only parsing).

(** Transport port and protocol; [None] is a nil pointer, the integers are int32. *)
Record Port := mkPort {
  Protocol : option ProtocolPtr;
  Port_Port : option Z;
  EndPort : option Z
}.

Record EndpointInfo := mkEndpointInfo {
  CIDR : NetworkAddress;
  DomainName_ : DomainName;
  Except : list NetworkAddress;
  Ports : list Port
}.

Record PodEndpoint := mkPodEndpoint {
  HostIP : NetworkAddress;
  pe_PodIP : NetworkAddress;
  pe_Name : gostring;
  pe_Namespace : gostring
}.

Record PolicyReference := mkPolicyReference { ref_Name : gostring; ref_Namespace : gostring }.

(** [networking.PolicyType]. *)
Definition PolicyTypeIngress : gostring := go "Ingress".
Definition PolicyTypeEgress : gostring := go "Egress".

(** The label selector the spec also carries is not read by the agent. *)
Record PolicyEndpointSpec := mkPolicyEndpointSpec {
  PolicyRef : PolicyReference;
  PodIsolation : list gostring;
  PodSelectorEndpoints : list PodEndpoint;
  Ingress : list EndpointInfo;
  Egress : list EndpointInfo
}.

(** The object metadata the agent reads. *)
Record ObjectMeta := mkObjectMeta {
  meta_Name : gostring;
  meta_Namespace : gostring;
  Annotations : option (gmap gostring gostring);
  DeletionTimestamp : option Z
}.

Record PolicyEndpoint := mkPolicyEndpoint { pe_meta : ObjectMeta; pe_Spec : PolicyEndpointSpec }.

(** ** Cluster policies *)
Abbreviation Tier := gostring (only parsing).
Definition AdminTier : Tier := go "Admin".
Definition BaselineTier : Tier := go "Baseline".

Abbreviation ClusterNetworkPolicyRuleAction := gostring (only parsing).
Definition ClusterNetworkPolicyRuleActionAccept : ClusterNetworkPolicyRuleAction := go "Accept".
Definition ClusterNetworkPolicyRuleActionDeny : ClusterNetworkPolicyRuleAction := go "Deny".
Definition ClusterNetworkPolicyRuleActionPass : ClusterNetworkPolicyRuleAction := go "Pass".

Record ClusterEndpointInfo := mkClusterEndpointInfo {
  c_CIDR : NetworkAddress;
  c_Ports : list Port;
  c_DomainName : DomainName;
  c_Action : ClusterNetworkPolicyRuleAction
}.

Record ClusterPolicyEndpointSpec := mkClusterPolicyEndpointSpec {
  c_PolicyRef : gostring;
  c_Tier : Tier;
  c_Priority : Z;
  c_PodSelectorEndpoints : list PodEndpoint;
  c_Ingress : list ClusterEndpointInfo;
  c_Egress : list ClusterEndpointInfo
}.

Record ClusterPolicyEndpoint := mkClusterPolicyEndpoint {
  cpe_meta : ObjectMeta;
  cpe_Spec : ClusterPolicyEndpointSpec
}.

(** ** [pkg/types] *)
Record NamespacedName := mkNamespacedName { Name : gostring; Namespace : gostring }.
Record Pod := mkPod { pod_nn : NamespacedName; PodIP : NetworkAddress }.

#[global] Instance ProtocolPtr_eq_dec : EqDecision ProtocolPtr.
Proof. solve_decision. Defined.
#[global] Instance Port_eq_dec : EqDecision Port.
Proof. solve_decision. Defined.
#[global] Instance EndpointInfo_eq_dec : EqDecision EndpointInfo.
Proof. solve_decision. Defined.
#[global] Instance NamespacedName_eq_dec : EqDecision NamespacedName.
Proof. solve_decision. Defined.
#[global] Instance Pod_eq_dec : EqDecision Pod.
Proof. solve_decision. Defined.
#[global] Program Instance NamespacedName_countable : Countable NamespacedName :=
  inj_countable' (fun n => (Name n, Namespace n)) (fun p => mkNamespacedName p.1 p.2) _.
Next Obligation. by intros []. Qed.

Module L4Rule.
(** [types.L4Rule]. *)
Record t := mk { L4PortProtocolInfo : Port; Priority : Z }.

(** Two nil pointers, or two pointers to equal values. *)
Definition ptr_equal {A B} `{EqDecision B} (v : A -> B) (a b : option A) : bool :=
  match a, b with
  | None, None => true
  | Some x, Some y => bool_decide (v x = v y)
  | _, _ => false
  end.

(** [L4Rule.Equal]. *)
Definition Equal (l other : t) : bool :=
  if negb (Priority l =? Priority other) then false else
  let port1 := L4PortProtocolInfo l in
  let port2 := L4PortProtocolInfo other in
  if negb (ptr_equal ptr_val (Protocol port1) (Protocol port2)) then false else
  if negb (ptr_equal id (Port_Port port1) (Port_Port port2)) then false else
  ptr_equal id (EndPort port1) (EndPort port2).

(** The pointed-to contents of a rule. *)
Definition contents (l : t) : Z * option gostring * option Z * option Z :=
  (Priority l, ptr_val <$> Protocol (L4PortProtocolInfo l),
    Port_Port (L4PortProtocolInfo l), EndPort (L4PortProtocolInfo l)).

Lemma ptr_equal_spec {A B} `{EqDecision B} (v : A -> B) a b :
  ptr_equal v a b = true <-> v <$> a = v <$> b.
Proof. destruct a, b; cbn; rewrite ?bool_decide_eq_true; split; congruence. Qed.

Lemma ptr_equal_false {A B} `{EqDecision B} (v : A -> B) a b :
  ptr_equal v a b = false -> v <$> a <> v <$> b.
Proof. intros H Heq. apply ptr_equal_spec in Heq. congruence. Qed.

Lemma Equal_contents l other : Equal l other = true <-> contents l = contents other.
Proof.
  unfold Equal, contents.
  destruct (Z.eqb_spec (Priority l) (Priority other)); cbn [negb]; [|split; [done|congruence]].
  destruct (ptr_equal ptr_val _ _) eqn:E1; cbn [negb];
    [apply ptr_equal_spec in E1|apply ptr_equal_false in E1; split; [done|congruence]].
  destruct (ptr_equal id (Port_Port _) _) eqn:E2; cbn [negb];
    [apply ptr_equal_spec in E2
    |apply ptr_equal_false in E2; rewrite !option_fmap_id in E2; split; [done|congruence]].
  rewrite ptr_equal_spec. rewrite !option_fmap_id in *. split; congruence.
Qed.
End L4Rule.
