(* ===== verification/Utils.v ===== *)
(** [pkg/utils/utils.go]: names and pin paths, the byte encoding of the eBPF map keys and
    values, and the conntrack key conversions. *)
From S2P Require Import Prelude NetIP NetIPFacts ApiTypes.

(** * Constants *)
Definition TCP_PROTOCOL_NUMBER : Z := 6.
Definition UDP_PROTOCOL_NUMBER : Z := 17.
Definition SCTP_PROTOCOL_NUMBER : Z := 132.
Definition ICMP_PROTOCOL_NUMBER : Z := 1.
Definition RESERVED_IP_PROTOCOL_NUMBER : Z := 255.
Definition ANY_IP_PROTOCOL : Z := 254.
Definition TRIE_KEY_LENGTH : nat := 8.
Definition TRIE_V6_KEY_LENGTH : nat := 20.
Definition TRIE_VALUE_LENGTH : nat := 288.
Definition ADMIN_TRIE_VALUE_LENGTH : nat := 384.
Definition BPF_PROGRAMS_PIN_PATH_DIRECTORY : gostring := go "/sys/fs/bpf/globals/aws/programs/".
Definition BPF_MAPS_PIN_PATH_DIRECTORY : gostring := go "/sys/fs/bpf/globals/aws/maps/".
Definition TC_INGRESS_PROG : gostring := go "handle_ingress".
Definition TC_EGRESS_PROG : gostring := go "handle_egress".
Definition TC_INGRESS_MAP : gostring := go "ingress_map".
Definition TC_EGRESS_MAP : gostring := go "egress_map".
Definition TC_CLUSTER_POLICY_INGRESS_MAP : gostring := go "cp_ingress_map".
Definition TC_CLUSTER_POLICY_EGRESS_MAP : gostring := go "cp_egress_map".
Definition TC_INGRESS_POD_STATE_MAP : gostring := go "ingress_pod_state_map".
Definition TC_EGRESS_POD_STATE_MAP : gostring := go "egress_pod_state_map".
Definition CATCH_ALL_PROTOCOL : gostring := go "ANY_IP_PROTOCOL".
Definition DENY_ALL_PROTOCOL : gostring := go "RESERVED_IP_PROTOCOL_NUMBER".
Definition ErrFileExists : gostring := go "file exists".
Definition ErrInvalidFilterList : gostring := go "failed to get filter list".
Definition ErrMissingFilter : gostring := go "no active filter to detach".

(** * Modes and protocol names *)
Definition Strict : gostring := go "strict".
Definition Standard : gostring := go "standard".

Definition IsValidNetworkPolicyEnforcingMode (input : gostring) : bool :=
  bool_decide (to_lower input = Strict) || bool_decide (to_lower input = Standard).
Definition IsStrictMode (input : gostring) : bool := bool_decide (to_lower input = Strict).
Definition IsStandardMode (input : gostring) : bool := bool_decide (to_lower input = Standard).

Definition GetProtocol (protocolNum : Z) : gostring :=
  if protocolNum =? TCP_PROTOCOL_NUMBER then go "TCP"
  else if protocolNum =? UDP_PROTOCOL_NUMBER then go "UDP"
  else if protocolNum =? SCTP_PROTOCOL_NUMBER then go "SCTP"
  else if protocolNum =? ICMP_PROTOCOL_NUMBER then go "ICMP"
  else if protocolNum =? RESERVED_IP_PROTOCOL_NUMBER then go "RESERVED"
  else if protocolNum =? ANY_IP_PROTOCOL then go "ANY PROTOCOL"
  else go "UNKNOWN".

(** [strconv.Atoi] with its error dropped: 0 on a syntax error, the int64 bound on overflow. *)
Fixpoint digits_val (n : Z) (s : gostring) : option Z :=
  match s with
  | [] => Some n
  | c :: s' => match digit_val c with Some d => digits_val (n * 10 + d) s' | None => None end
  end.
Definition Atoi (s : gostring) : Z :=
  let '(neg, body) :=
    match s with
    | c :: s' => if decide (c = "-"%byte) then (true, s')
                 else if decide (c = "+"%byte) then (false, s') else (false, s)
    | [] => (false, s)
    end in
  match body with
  | [] => 0
  | _ => match digits_val 0 body with
         | None => 0
         | Some v => if neg then Z.max (- 2 ^ 63) (- v) else Z.min (2 ^ 63 - 1) v
         end
  end.

(** [strconv.Itoa]; an [int] has at most 19 digits. *)
Fixpoint dec_digits (fuel : nat) (n : Z) : gostring :=
  match fuel with
  | O => []
  | S fuel' => if n <? 10 then [digit_char n] else dec_digits fuel' (n / 10) ++ [digit_char (n mod 10)]
  end.
Definition Itoa (n : Z) : gostring := if n <? 0 then "-"%byte :: dec_digits 20 (- n) else dec_digits 20 n.

(** * Names and pin paths *)
Definition GetPodNamespacedName (podName podNamespace : gostring) : gostring :=
  podName ++ go "_" ++ podNamespace.

(** The common part of the two identifier functions: dots become underscores and the last
    ["-"]-separated component is dropped. *)
Definition podIdentifierPrefix (podName : gostring) : gostring :=
  let podName := if contains_byte "."%byte podName then replace_byte "."%byte "_"%byte podName
                 else podName in
  if contains_byte "-"%byte podName then
    let tmpName := split_on "-"%byte podName in
    join_with "-"%byte (take (length tmpName - 1) tmpName)
  else podName.

Definition GetPodIdentifier (podName podNamespace : gostring) : gostring :=
  podIdentifierPrefix podName ++ go "@" ++ podNamespace.

Definition LegacyGetPodIdentifier (podName podNamespace : gostring) : gostring :=
  podIdentifierPrefix podName ++ go "-" ++ podNamespace.

Definition GetPodIdentifierFromBPFPinPath (pinPath : gostring) : outcome (gostring * gostring) :=
  name ← index (split_on "/"%byte pinPath) 7;
  let parts := split_on "_"%byte name in
  if decide (length parts < 2)%nat then Panic (go "slice bounds out of range")
  else
    direction ← index parts (length parts - 1);
    Ret (join_with "_"%byte (take (length parts - 2) parts), direction).

Definition GetBPFPinPathFromPodIdentifier (podIdentifier direction : gostring) : gostring :=
  let progName := if decide (direction = go "egress") then TC_EGRESS_PROG else TC_INGRESS_PROG in
  BPF_PROGRAMS_PIN_PATH_DIRECTORY ++ podIdentifier ++ go "_" ++ progName.

Definition GetBPFMapPinPathFromPodIdentifier (podIdentifier direction : gostring) :
    gostring * gostring :=
  let '(mapName, clusterPolicyMapName) :=
    if decide (direction = go "egress") then (TC_EGRESS_MAP, TC_CLUSTER_POLICY_EGRESS_MAP)
    else (TC_INGRESS_MAP, TC_CLUSTER_POLICY_INGRESS_MAP) in
  (BPF_MAPS_PIN_PATH_DIRECTORY ++ podIdentifier ++ go "_" ++ mapName,
   BPF_MAPS_PIN_PATH_DIRECTORY ++ podIdentifier ++ go "_" ++ clusterPolicyMapName).

Definition GetPodStateBPFMapPinPathFromPodIdentifier (podIdentifier direction : gostring) : gostring :=
  let mapName := if decide (direction = go "egress") then TC_EGRESS_POD_STATE_MAP
                 else TC_INGRESS_POD_STATE_MAP in
  BPF_MAPS_PIN_PATH_DIRECTORY ++ podIdentifier ++ go "_" ++ mapName.

Definition GetPolicyEndpointIdentifier (policyEndpointName policyNamespace : gostring) : gostring :=
  policyEndpointName ++ policyNamespace.

(** [policyEndpointName[0:strings.LastIndex(policyEndpointName, "-")]]. *)
Definition GetParentNPNameFromPEName (policyEndpointName : gostring) : outcome gostring :=
  match last_index "-"%byte policyEndpointName with
  | Some i => Ret (take i policyEndpointName)
  | None => Panic (go "slice bounds out of range [:-1]")
  end.

(** * Map keys and values *)
Definition ComputeTrieKey (n : IPNet) (isIPv6Enabled : bool) : gostring :=
  let prefixLen := fst (Mask_Size (net_mask n)) in
  let key := replicate (if isIPv6Enabled then TRIE_V6_KEY_LENGTH else TRIE_KEY_LENGTH) x00 in
  let key := write_at 0 (le32 (Z.of_nat prefixLen)) key in
  write_at 4 (net_ip n) key.

Record L4Rule := mkL4Rule {
  L4PortProtocolInfo : Port;
  Action : ClusterNetworkPolicyRuleAction;
  Priority : Z
}.

#[global] Instance L4Rule_eq_dec : EqDecision L4Rule.
Proof. solve_decision. Defined.

Definition IsL4RuleEmpty (p : L4Rule) : bool :=
  let i := L4PortProtocolInfo p in
  match Protocol i, Port_Port i, EndPort i with
  | None, None, None => true
  | _, _, _ => false
  end.

Definition ActionDeny : Z := 0.
Definition ActionAccept : Z := 1.
Definition ActionPass : Z := 2.

Definition deriveActionValueForCPE (action : ClusterNetworkPolicyRuleAction) : Z :=
  if decide (action = ClusterNetworkPolicyRuleActionDeny) then ActionDeny
  else if decide (action = ClusterNetworkPolicyRuleActionAccept) then ActionAccept
  else if decide (action = ClusterNetworkPolicyRuleActionPass) then ActionPass
  else ActionPass.

Definition deriveProtocolValueForCPE (l4Info : Port) : Z :=
  match Protocol l4Info with
  | None => TCP_PROTOCOL_NUMBER
  | Some p =>
      if decide (ptr_val p = ProtocolUDP) then UDP_PROTOCOL_NUMBER
      else if decide (ptr_val p = ProtocolSCTP) then SCTP_PROTOCOL_NUMBER
      else if decide (ptr_val p = CATCH_ALL_PROTOCOL) then ANY_IP_PROTOCOL
      else if decide (ptr_val p = DENY_ALL_PROTOCOL) then RESERVED_IP_PROTOCOL_NUMBER
      else TCP_PROTOCOL_NUMBER
  end.

(** The loop of [ComputeTrieValueForCPE]: [startOffset] and [value] are its state. *)
Fixpoint trieValueForCPE_loop (l4Info : list L4Rule) (startOffset : nat) (value : gostring) : outcome gostring :=
  match l4Info with
  | [] => Ret value
  | l4Entry :: l4Info' =>
      if decide (ADMIN_TRIE_VALUE_LENGTH <= startOffset)%nat then Ret value
      else
        let info := L4PortProtocolInfo l4Entry in
        let '(protocol, startPort, endPort) :=
          if IsL4RuleEmpty l4Entry then (ANY_IP_PROTOCOL, 0, 0)
          else (deriveProtocolValueForCPE info, default 0 (Port_Port info), default 0 (EndPort info)) in
        let action := deriveActionValueForCPE (Action l4Entry) in
        let priority := Priority l4Entry * 10 + action in
        value ← PutUint32 startOffset protocol value;
        value ← PutUint32 (startOffset + 4) priority value;
        value ← PutUint32 (startOffset + 8) startPort value;
        value ← PutUint32 (startOffset + 12) endPort value;
        trieValueForCPE_loop l4Info' (startOffset + 16) value
  end.

Definition ComputeTrieValueForCPE (l4Info : list L4Rule) : outcome gostring :=
  trieValueForCPE_loop l4Info 0 (replicate ADMIN_TRIE_VALUE_LENGTH x00).

Definition deriveProtocolValue (l4Info : Port) (allowAll denyAll : bool) : Z :=
  if denyAll then RESERVED_IP_PROTOCOL_NUMBER
  else if allowAll then ANY_IP_PROTOCOL
  else match Protocol l4Info with
       | None => ANY_IP_PROTOCOL
       | Some p =>
           if decide (ptr_val p = ProtocolTCP) then TCP_PROTOCOL_NUMBER
           else if decide (ptr_val p = ProtocolUDP) then UDP_PROTOCOL_NUMBER
           else if decide (ptr_val p = ProtocolSCTP) then SCTP_PROTOCOL_NUMBER
           else if decide (ptr_val p = CATCH_ALL_PROTOCOL) then ANY_IP_PROTOCOL
           else if decide (ptr_val p = DENY_ALL_PROTOCOL) then RESERVED_IP_PROTOCOL_NUMBER
           else ANY_IP_PROTOCOL
       end.

(** The loop of [ComputeTrieValue]. *)
Fixpoint trieValue_loop (allowAll denyAll : bool) (l4Info : list Port) (startOffset : nat)
    (value : gostring) : outcome gostring :=
  match l4Info with
  | [] => Ret value
  | l4Entry :: l4Info' =>
      if decide (TRIE_VALUE_LENGTH <= startOffset)%nat then Ret value
      else
        let protocol := deriveProtocolValue l4Entry allowAll denyAll in
        value ← PutUint32 startOffset protocol value;
        value ← PutUint32 (startOffset + 4) (default 0 (Port_Port l4Entry)) value;
        value ← PutUint32 (startOffset + 8) (default 0 (EndPort l4Entry)) value;
        trieValue_loop allowAll denyAll l4Info' (startOffset + 12) value
  end.

Definition ComputeTrieValue (l4Info : list Port) (allowAll denyAll : bool) : outcome gostring :=
  let value := replicate TRIE_VALUE_LENGTH x00 in
  let allowAll := if decide (l4Info = []) then true else allowAll in
  if allowAll || denyAll then
    let protocol := deriveProtocolValue (mkPort None None None) allowAll denyAll in
    value ← PutUint32 0 protocol value;
    value ← PutUint32 4 0 value;
    value ← PutUint32 8 0 value;
    trieValue_loop allowAll denyAll l4Info 12 value
  else trieValue_loop allowAll denyAll l4Info 0 value.

(** * Errors and CIDR tests *)
Definition IsFileExistsError (error : gostring) : bool := bool_decide (error = ErrFileExists).

Definition IsInvalidFilterListError (error : gostring) : bool :=
  bool_decide (head (split_on ":"%byte error) = Some ErrInvalidFilterList).

Definition IsMissingFilterError (error : gostring) : bool :=
  bool_decide (head (split_on "-"%byte error) = Some ErrMissingFilter).

Definition IsNodeIP (nodeIP ipCidr : gostring) : bool :=
  ip_Equal (ParseIP nodeIP) (fst <$> ParseCIDR ipCidr).

Definition IsNonHostCIDR (ipAddr : gostring) : outcome bool :=
  mask ← index (split_on "/"%byte ipAddr) 1;
  Ret (negb (bool_decide (mask = go "32")) && negb (bool_decide (mask = go "128"))).

(** * Addresses as integers *)
Definition ConvIntToIPv4 (ipaddr : Z) : list byte := le32 ipaddr.

Definition ConvIPv4ToInt (ipaddr : list byte) : outcome Z :=
  b0 ← index ipaddr 0; b1 ← index ipaddr 1; b2 ← index ipaddr 2; b3 ← index ipaddr 3;
  Ret (Z.lor (Z.lor (Z.lor (Z.shiftl (byte.unsigned b0) 24) (Z.shiftl (byte.unsigned b1) 16))
                    (Z.shiftl (byte.unsigned b2) 8)) (byte.unsigned b3)).

Definition ConvIntToIPv4NetworkOrder (ipaddr : Z) : list byte := rev (le32 ipaddr).

Definition ConvByteArrayToIP (ipInInt : Z) : gostring := IP_String (ConvIntToIPv4 ipInInt).

(** * Conntrack keys *)
Record ConntrackKey := mkConntrackKey {
  Source_ip : Z; Source_port : Z; Dest_ip : Z; Dest_port : Z;
  ct_Protocol : Z; Owner_ip : Z; Ifindex : Z
}.

(** The blank padding fields of the Go struct take part in neither equality nor hashing. *)
Record ConntrackKeyV6 := mkConntrackKeyV6 {
  Source_ip6 : list byte; Source_port6 : Z; Dest_ip6 : list byte; Dest_port6 : Z;
  ct_Protocol6 : Z; Owner_ip6 : list byte; Ifindex6 : Z
}.

Record ConntrackVal := mkConntrackVal { ct_Value : Z; LastSeen : Z }.

#[global] Instance ConntrackKey_eq_dec : EqDecision ConntrackKey.
Proof. solve_decision. Defined.
#[global] Instance ConntrackKeyV6_eq_dec : EqDecision ConntrackKeyV6.
Proof. solve_decision. Defined.
#[global] Instance ConntrackVal_eq_dec : EqDecision ConntrackVal.
Proof. solve_decision. Defined.
#[global] Program Instance ConntrackKey_countable : Countable ConntrackKey :=
  inj_countable'
    (fun k => (Source_ip k, Source_port k, Dest_ip k, Dest_port k, ct_Protocol k, Owner_ip k, Ifindex k))
    (fun '(a, b, c, d, e, f, g) => mkConntrackKey a b c d e f g) _.
Next Obligation. by intros []. Qed.
#[global] Program Instance ConntrackKeyV6_countable : Countable ConntrackKeyV6 :=
  inj_countable'
    (fun k => (Source_ip6 k, Source_port6 k, Dest_ip6 k, Dest_port6 k, ct_Protocol6 k, Owner_ip6 k, Ifindex6 k))
    (fun '(a, b, c, d, e, f, g) => mkConntrackKeyV6 a b c d e f g) _.
Next Obligation. by intros []. Qed.

(** The memory of the struct on a little-endian machine, padding zero. *)
Definition ConvConntrackV6ToByte (key : ConntrackKeyV6) : gostring :=
  Source_ip6 key ++ le_split 2 (Source_port6 key) ++ [x00; x00] ++
  Dest_ip6 key ++ le_split 2 (Dest_port6 key) ++ le_split 1 (ct_Protocol6 key) ++ [x00] ++
  Owner_ip6 key ++ le_split 4 (Ifindex6 key).

Definition ConvByteToConntrackV6 (keyByte : gostring) : ConntrackKeyV6 :=
  let mem := take 60 (keyByte ++ replicate 60 x00) in
  let field off len := take len (drop off mem) in
  mkConntrackKeyV6 (field 0 16)%nat (le_combine (field 16 2)%nat) (field 20 16)%nat
    (le_combine (field 36 2)%nat) (le_combine (field 38 1)%nat) (field 40 16)%nat
    (le_combine (field 56 4)%nat).

Record BPFTrieVal := mkBPFTrieVal { tv_Protocol : Z; tv_StartPort : Z; tv_EndPort : Z }.
Record BPFL4PriorityVal := mkBPFL4PriorityVal {
  pv_Protocol : Z; pv_Priority : Z; pv_StartPort : Z; pv_EndPort : Z
}.

#[global] Instance BPFTrieVal_eq_dec : EqDecision BPFTrieVal.
Proof. solve_decision. Defined.
#[global] Instance BPFL4PriorityVal_eq_dec : EqDecision BPFL4PriorityVal.
Proof. solve_decision. Defined.

(** A map value read back as an array of [n] structs of [k] 32-bit words, the view the CLI
    ([var values [24]utils.BPFTrieVal]) and the eBPF programs ([struct lpm_trie_val *]) have. *)
Fixpoint read_words (k : nat) (v : gostring) : list Z :=
  match k with O => [] | S k' => of_le32 (take 4 v) :: read_words k' (drop 4 v) end.
Fixpoint read_entries (k n : nat) (v : gostring) : list (list Z) :=
  match n with O => [] | S n' => read_words k v :: read_entries k n' (drop (4 * k) v) end.

Definition to_BPFTrieVal (ws : list Z) : BPFTrieVal :=
  mkBPFTrieVal (nth 0 ws 0) (nth 1 ws 0) (nth 2 ws 0).
Definition to_BPFL4PriorityVal (ws : list Z) : BPFL4PriorityVal :=
  mkBPFL4PriorityVal (nth 0 ws 0) (nth 1 ws 0) (nth 2 ws 0) (nth 3 ws 0).

Definition read_BPFTrieVals (v : gostring) : list BPFTrieVal := to_BPFTrieVal <$> read_entries 3 24 v.
Definition read_BPFL4PriorityVals (v : gostring) : list BPFL4PriorityVal :=
  to_BPFL4PriorityVal <$> read_entries 4 24 v.
