(* ===== verification/UtilsFacts.v ===== *)
(** Properties of [pkg/utils]: identifiers and pin paths, map keys and values, conntrack
    conversions. *)
From S2P Require Import Prelude NetIP NetIPFacts ApiTypes Utils.

(** * Writing and reading runs of 32-bit words *)
Fixpoint write_words (off : nat) (ws : list Z) (buf : gostring) : outcome gostring :=
  match ws with
  | [] => Ret buf
  | w :: ws' => buf ← PutUint32 off w buf; write_words (off + 4) ws' buf
  end.

Definition enc_words (ws : list Z) : gostring := ws ≫= le32.

Lemma enc_words_cons w ws : enc_words (w :: ws) = le32 w ++ enc_words ws.
Proof. done. Qed.

Lemma length_enc_words ws : length (enc_words ws) = (4 * length ws)%nat.
Proof.
  induction ws as [|w ws IH]; [done|].
  rewrite enc_words_cons, length_app, IH, length_le32. cbn. lia.
Qed.

Lemma write_words_spec pre ws m :
  write_words (length pre) ws (pre ++ replicate (4 * length ws + m) x00) =
  Ret (pre ++ enc_words ws ++ replicate m x00).
Proof.
  revert pre. induction ws as [|w ws IH]; intros pre; [done|].
  cbn [write_words]. rewrite enc_words_cons.
  replace (4 * length (w :: ws) + m)%nat with (4 + (4 * length ws + m))%nat by (cbn; lia).
  rewrite PutUint32_fits by (rewrite length_app, length_replicate; lia). cbn [mbind outcome_bind].
  rewrite replicate_add, write_at_app by (rewrite length_le32; done).
  rewrite app_assoc.
  replace (length pre + 4)%nat with (length (pre ++ le32 w)) by (rewrite length_app, length_le32; done).
  rewrite IH. by rewrite <-!app_assoc.
Qed.

Lemma read_words_enc ws v :
  Forall (fun w => 0 <= w < 2 ^ 32) ws -> read_words (length ws) (enc_words ws ++ v) = ws.
Proof.
  induction 1 as [|w ws Hw Hws IH]; [done|]. cbn [length read_words]. rewrite enc_words_cons, <-app_assoc.
  rewrite take_app_length', drop_app_length' by (by rewrite length_le32).
  by rewrite of_le32_le32, u32_small, IH.
Qed.

Lemma read_words_zero k v : read_words k (replicate (4 * k) x00 ++ v) = replicate k 0.
Proof.
  induction k as [|k IH]; [done|]. cbn [read_words replicate].
  replace (4 * S k)%nat with (4 + 4 * k)%nat by lia.
  rewrite replicate_add, <-app_assoc, take_app_length', drop_app_length' by done.
  by rewrite IH.
Qed.

Lemma read_entries_enc k n (es : list (list Z)) :
  (length es <= n)%nat ->
  Forall (fun ws => length ws = k /\ Forall (fun w => 0 <= w < 2 ^ 32) ws) es ->
  read_entries k n ((es ≫= enc_words) ++ replicate (4 * k * (n - length es)) x00) =
  es ++ replicate (n - length es) (replicate k 0).
Proof.
  revert n. induction es as [|e es IH]; intros n Hn Hall.
  - cbn [mbind list_bind app length]. rewrite Nat.sub_0_r. clear Hn Hall.
    induction n as [|n IHn]; [done|]. cbn [read_entries replicate].
    replace (4 * k * S n)%nat with (4 * k + 4 * k * n)%nat by lia.
    rewrite replicate_add, read_words_zero, drop_app_length' by (by rewrite length_replicate).
    by rewrite IHn.
  - apply Forall_cons in Hall as [[He Hr] Hall]. destruct n as [|n]; [cbn in Hn; lia|].
    change ((e :: es) ≫= enc_words) with (enc_words e ++ (es ≫= enc_words)).
    cbn [read_entries length]. rewrite Nat.sub_succ, <-app_assoc. subst k.
    rewrite read_words_enc by done. rewrite drop_app_length' by (rewrite length_enc_words; lia).
    rewrite IH by (done || (cbn in Hn; lia)). done.
Qed.

(** * Map values *)

(** The three words stored for one port entry. *)
Definition port_words (p : Port) : list Z :=
  [deriveProtocolValue p false false; default 0 (Port_Port p); default 0 (EndPort p)].

(** Filling a buffer of [slots] entries of [k] words, from entry [length es]. *)
Definition filled (k slots : nat) (es : list (list Z)) : gostring :=
  (es ≫= enc_words) ++ replicate (4 * k * (slots - length es)) x00.

Lemma length_bind_words k (es : list (list Z)) :
  Forall (fun ws => length ws = k) es -> length (es ≫= enc_words) = (4 * k * length es)%nat.
Proof.
  induction 1 as [|e es He Hes IH]; [by rewrite Nat.mul_0_r|].
  change ((e :: es) ≫= enc_words) with (enc_words e ++ (es ≫= enc_words)).
  rewrite length_app, IH, length_enc_words. cbn [length]. lia.
Qed.

Lemma filled_step k slots es ws off :
  off = (4 * k * length es)%nat ->
  Forall (fun ws => length ws = k) es -> length ws = k -> (length es < slots)%nat ->
  write_words off ws (filled k slots es) = Ret (filled k slots (es ++ [ws])).
Proof.
  intros -> Hes Hw Hlt. unfold filled. rewrite <-(length_bind_words k es) by done.
  replace (4 * k * (slots - length es))%nat
    with (4 * length ws + 4 * k * (slots - length (es ++ [ws])))%nat
    by (rewrite length_app; cbn [length]; nia).
  rewrite write_words_spec, bind_app, <-app_assoc. do 2 f_equal.
  cbn. by rewrite app_nil_r.
Qed.

Definition wrap_words (ws : list Z) : list Z := u32 <$> ws.

Lemma read_filled k slots es :
  (length es <= slots)%nat ->
  Forall (fun ws => length ws = k) es ->
  read_entries k slots (filled k slots es) =
  (wrap_words <$> es) ++ replicate (slots - length es) (replicate k 0).
Proof.
  intros Hn Hk. unfold filled.
  assert (es ≫= enc_words = (wrap_words <$> es) ≫= enc_words) as ->.
  { clear. induction es as [|e es IH]; [done|]. cbn [mbind list_bind fmap list_fmap]. f_equal; [|done].
    unfold enc_words. induction e as [|w e IHe]; [done|].
    cbn [wrap_words mbind list_bind fmap list_fmap]. f_equal; [|done].
    unfold le32, u32. by rewrite le_split_mod. }
  rewrite <-(length_fmap wrap_words es) at 1 2. rewrite read_entries_enc.
  - by rewrite length_fmap.
  - by rewrite length_fmap.
  - apply Forall_fmap. eapply Forall_impl; [done|]. cbn. intros ws Hws. unfold wrap_words. rewrite length_fmap.
    split; [done|]. apply Forall_fmap, Forall_true. intros w. apply u32_bound.
Qed.

Lemma write_words_3 n a b c v (k : gostring -> outcome gostring) :
  (v ← PutUint32 n a v; v ← PutUint32 (n + 4) b v; v ← PutUint32 (n + 8) c v; k v) = write_words n [a; b; c] v ≫= k.
Proof.
  cbn [write_words]. rewrite <-!Nat.add_assoc. cbn [Nat.add].
  by repeat match goal with |- context [PutUint32 ?o ?w ?b] => destruct (PutUint32 o w b); cbn [mbind outcome_bind] end.
Qed.

Lemma write_words_4 n a b c d v (k : gostring -> outcome gostring) :
  (v ← PutUint32 n a v; v ← PutUint32 (n + 4) b v; v ← PutUint32 (n + 8) c v; v ← PutUint32 (n + 12) d v; k v) =
  write_words n [a; b; c; d] v ≫= k.
Proof.
  cbn [write_words]. rewrite <-!Nat.add_assoc. cbn [Nat.add].
  by repeat match goal with |- context [PutUint32 ?o ?w ?b] => destruct (PutUint32 o w b); cbn [mbind outcome_bind] end.
Qed.

Lemma trieValue_loop_spec l es :
  Forall (fun ws => length ws = 3%nat) es -> (length es <= 24)%nat ->
  trieValue_loop false false l (12 * length es) (filled 3 24 es) =
  Ret (filled 3 24 (es ++ (port_words <$> take (24 - length es) l))).
Proof.
  revert es. induction l as [|p l IH]; intros es Hes Hle; cbn [trieValue_loop].
  { by rewrite take_nil, app_nil_r. }
  unfold TRIE_VALUE_LENGTH. case_decide as Hfull.
  { replace (24 - length es)%nat with 0%nat by lia. by rewrite app_nil_r. }
  rewrite write_words_3. change [deriveProtocolValue p false false; _; _] with (port_words p).
  rewrite filled_step by (done || lia). cbn [mbind outcome_bind].
  replace (12 * length es + 12)%nat with (12 * length (es ++ [port_words p]))%nat
    by (rewrite length_app; cbn [length]; lia).
  rewrite IH.
  - do 2 f_equal. rewrite <-app_assoc. f_equal. rewrite length_app. cbn [length].
    destruct (24 - length es)%nat as [|j] eqn:E; [lia|].
    replace (24 - (length es + 1))%nat with j by lia. done.
  - apply Forall_app_2; [done|]. by repeat constructor.
  - rewrite length_app. cbn. lia.
Qed.

Definition port_val (p : Port) : BPFTrieVal := to_BPFTrieVal (u32 <$> port_words p).
Definition zero_val : BPFTrieVal := mkBPFTrieVal 0 0 0.

(** The entries of a value: the first 24 ports, or one for all traffic when there is none. *)
Definition slot_words (l : list Port) : list (list Z) :=
  if decide (l = []) then [[ANY_IP_PROTOCOL; 0; 0]] else port_words <$> take 24 l.
Definition trie_value (l : list Port) : gostring := filled 3 24 (slot_words l).

Lemma slot_words_ok l : (length (slot_words l) <= 24)%nat /\ Forall (fun ws => length ws = 3%nat) (slot_words l).
Proof.
  unfold slot_words. case_decide; [split; [cbn; lia|by repeat constructor]|]. rewrite length_fmap, length_take. split; [lia|].
  apply Forall_fmap, Forall_true. done.
Qed.

(** The computation of a value never slices past its buffer. *)
Lemma ComputeTrieValue_spec l : ComputeTrieValue l false false = Ret (trie_value l).
Proof.
  unfold ComputeTrieValue, trie_value, slot_words. case_decide as Hl; [subst; vm_compute; reflexivity|]. cbn [orb].
  change (replicate TRIE_VALUE_LENGTH x00) with (filled 3 24 []).
  pose proof (trieValue_loop_spec l [] ltac:(apply Forall_nil_2) ltac:(cbn; lia)) as Hspec.
  cbn [app length] in Hspec. rewrite Nat.mul_0_r in Hspec. by rewrite Hspec.
Qed.

Lemma ComputeTrieValue_all : ComputeTrieValue [] true false = Ret (trie_value []).
Proof. vm_compute. reflexivity. Qed.

(** The value of a non-empty port list holds its first 24 entries, then zeros. *)
Lemma read_trie_value l :
  l <> [] -> read_BPFTrieVals (trie_value l) = (port_val <$> take 24 l) ++ replicate (24 - length l) zero_val.
Proof.
  intros Hl. destruct (slot_words_ok l) as [Hn Hk]. unfold trie_value, read_BPFTrieVals. rewrite read_filled by done.
  unfold slot_words. rewrite decide_False by done.
  rewrite fmap_app, length_fmap, length_take. f_equal; [by rewrite <-!list_fmap_compose|]. rewrite fmap_replicate. f_equal. lia.
Qed.

(** The allow-all value. *)
Lemma read_trie_value_all : read_BPFTrieVals (trie_value []) = mkBPFTrieVal ANY_IP_PROTOCOL 0 0 :: replicate 23 zero_val.
Proof. vm_compute. reflexivity. Qed.

(** ** Cluster policy values *)
Definition rule_words (r : L4Rule) : list Z :=
  let info := L4PortProtocolInfo r in
  if IsL4RuleEmpty r then [ANY_IP_PROTOCOL; Priority r * 10 + deriveActionValueForCPE (Action r); 0; 0]
  else [deriveProtocolValueForCPE info; Priority r * 10 + deriveActionValueForCPE (Action r);
        default 0 (Port_Port info); default 0 (EndPort info)].

Lemma length_rule_words r : length (rule_words r) = 4%nat.
Proof. unfold rule_words. by destruct (IsL4RuleEmpty r). Qed.

Lemma trieValueForCPE_loop_spec l es :
  Forall (fun ws => length ws = 4%nat) es -> (length es <= 24)%nat ->
  trieValueForCPE_loop l (16 * length es) (filled 4 24 es) =
  Ret (filled 4 24 (es ++ (rule_words <$> take (24 - length es) l))).
Proof.
  revert es. induction l as [|r l IH]; intros es Hes Hle; cbn [trieValueForCPE_loop].
  { by rewrite take_nil, app_nil_r. }
  unfold ADMIN_TRIE_VALUE_LENGTH. case_decide as Hfull.
  { replace (24 - length es)%nat with 0%nat by lia. by rewrite app_nil_r. }
  etrans; [|etrans; [apply (IH (es ++ [rule_words r]))|]].
  - pose proof (filled_step 4 24 es (rule_words r) (16 * length es) ltac:(lia) Hes (length_rule_words r) ltac:(lia)) as Hw.
    replace (16 * length (es ++ [rule_words r]))%nat with (16 * length es + 16)%nat by (rewrite length_app; cbn [length]; lia).
    unfold rule_words at 1 in Hw. destruct (IsL4RuleEmpty r); cbn zeta; rewrite write_words_4, Hw; done.
  - apply Forall_app_2; [done|]. repeat constructor. apply length_rule_words.
  - rewrite length_app. cbn. lia.
  - do 2 f_equal. rewrite <-app_assoc. f_equal. rewrite length_app. cbn [length].
    destruct (24 - length es)%nat as [|j] eqn:E; [lia|].
    replace (24 - (length es + 1))%nat with j by lia. done.
Qed.

Definition rule_val (r : L4Rule) : BPFL4PriorityVal := to_BPFL4PriorityVal (u32 <$> rule_words r).
Definition zero_rule_val : BPFL4PriorityVal := mkBPFL4PriorityVal 0 0 0 0.

Definition cp_value (l : list L4Rule) : gostring := filled 4 24 (rule_words <$> take 24 l).

Lemma rule_slots_ok l : (length (rule_words <$> take 24 l) <= 24)%nat /\ Forall (fun ws => length ws = 4%nat) (rule_words <$> take 24 l).
Proof. rewrite length_fmap, length_take. split; [lia|]. apply Forall_fmap, Forall_true. intros; apply length_rule_words. Qed.

Lemma ComputeTrieValueForCPE_spec l : ComputeTrieValueForCPE l = Ret (cp_value l).
Proof.
  unfold ComputeTrieValueForCPE, cp_value. change (replicate ADMIN_TRIE_VALUE_LENGTH x00) with (filled 4 24 []).
  pose proof (trieValueForCPE_loop_spec l [] ltac:(apply Forall_nil_2) ltac:(cbn; lia)) as Hspec.
  cbn [app length] in Hspec. rewrite Nat.mul_0_r in Hspec. by rewrite Hspec.
Qed.

Lemma read_cp_value l :
  read_BPFL4PriorityVals (cp_value l) = (rule_val <$> take 24 l) ++ replicate (24 - length l) zero_rule_val.
Proof.
  destruct (rule_slots_ok l) as [Hn Hk]. unfold cp_value, read_BPFL4PriorityVals. rewrite read_filled by done.
  rewrite fmap_app, length_fmap, length_take. f_equal; [by rewrite <-!list_fmap_compose|]. rewrite fmap_replicate. f_equal. lia.
Qed.

Lemma length_filled k slots es : (length es <= slots)%nat -> Forall (fun ws => length ws = k) es ->
  length (filled k slots es) = (4 * k * slots)%nat.
Proof. intros Hn Hk. unfold filled. rewrite length_app, length_replicate, (length_bind_words k) by done. nia. Qed.

Lemma length_trie_value l : length (trie_value l) = TRIE_VALUE_LENGTH.
Proof. destruct (slot_words_ok l). unfold trie_value. by rewrite length_filled. Qed.

Lemma length_cp_value rules : length (cp_value rules) = ADMIN_TRIE_VALUE_LENGTH.
Proof. destruct (rule_slots_ok rules). unfold cp_value. by rewrite length_filled. Qed.

(** C20: The map values have a fixed size and hold at most 24 entries.  However many ports or rules
    an address has: both computations return a value and never slice past the end of their
    buffer, which would panic; the value of a port list is 288 bytes and that of a rule list
    384, what the kernel maps are created for; read back as the classifier reads it, the value
    is the first 24 entries, each as 32-bit words, followed by zeros; so what comes after the
    24th entry is not enforced. *)
Theorem trie_value_bounds (l : list Port) (rules : list L4Rule) (Hl : l <> []) :
  (exists v, ComputeTrieValue l false false = Ret v /\ length v = TRIE_VALUE_LENGTH /\
     read_BPFTrieVals v = (port_val <$> take 24 l) ++ replicate (24 - length l) zero_val) /\
  (exists v, ComputeTrieValueForCPE rules = Ret v /\ length v = ADMIN_TRIE_VALUE_LENGTH /\
     read_BPFL4PriorityVals v = (rule_val <$> take 24 rules) ++ replicate (24 - length rules) zero_rule_val).
Proof.
  split; eexists.
  - split; [apply ComputeTrieValue_spec|]. split; [apply length_trie_value|by apply read_trie_value].
  - split; [apply ComputeTrieValueForCPE_spec|]. split; [apply length_cp_value|apply read_cp_value].
Qed.

(** Thirty ports: the value holds the first 24. *)
Definition thirty_ports : list Port := (fun n => mkPort None (Some (Z.of_nat n)) None) <$> seq 1 30.
Lemma trie_value_bounds_witness :
  exists v, ComputeTrieValue thirty_ports false false = Ret v /\ length v = 288%nat /\ length (read_BPFTrieVals v) = 24%nat.
Proof.
  destruct (trie_value_bounds thirty_ports [] ltac:(discriminate)) as ((v & Hv & H1 & H2) & _). exists v.
  split; [exact Hv|]. split; [exact H1|]. rewrite H2. vm_compute. reflexivity.
Defined.

(** * Map keys *)

(** A network of the cluster's address family. *)
Definition in_family (v6 : bool) (n : IPNet) : Prop :=
  length (net_ip n) = if v6 then 16%nat else 4%nat.

Lemma ComputeTrieKey_spec n v6 :
  in_family v6 n -> ComputeTrieKey n v6 = le32 (Z.of_nat (net_ones n)) ++ net_ip n.
Proof.
  unfold in_family, ComputeTrieKey. intros Hf. fold (net_ones n).
  set (k := le32 _). assert (length k = 4%nat) as Hk by apply length_le32. clearbody k.
  replace (replicate (if v6 then TRIE_V6_KEY_LENGTH else TRIE_KEY_LENGTH) x00)
    with (replicate 4 x00 ++ replicate (length (net_ip n)) x00)
    by (rewrite Hf; by destruct v6).
  pose proof (write_at_app [] (replicate 4 x00) (replicate (length (net_ip n)) x00) k) as E1.
  cbn [app length] in E1. rewrite E1 by (by rewrite Hk).
  pose proof (write_at_app k (replicate (length (net_ip n)) x00) [] (net_ip n)) as E2.
  rewrite !app_nil_r, Hk in E2. apply E2. by rewrite length_replicate.
Qed.

(** Distinct canonical networks of one family have distinct map keys. *)
Lemma ComputeTrieKey_inj v6 n n' :
  canonical n -> canonical n' -> in_family v6 n -> in_family v6 n' ->
  ComputeTrieKey n v6 = ComputeTrieKey n' v6 -> n = n'.
Proof.
  intros Hn Hn' Hf Hf'. rewrite !ComputeTrieKey_spec by done. intros H.
  apply app_inj_1 in H as [Hk Hip]; [|by rewrite !length_le32].
  assert (forall m, canonical m -> (net_ones m <= 128)%nat) as Hb.
  { intros m Hm. pose proof (canonical_mask m Hm) as (? & _). destruct Hm as [[?|[??]] _]; lia. }
  apply le32_inj in Hk. rewrite !u32_small in Hk by (pose proof (Hb n Hn); pose proof (Hb n' Hn'); lia).
  apply canonical_ext; [done..|congruence|].
  unfold net_prefix. rewrite Hip. f_equal. lia.
Qed.

(** * Identifiers and pin paths *)

Lemma pinpath_read (podIdentifier direction : gostring)
    (Hslash : ("/"%byte ∉ podIdentifier))
    (Hdir : direction = go "ingress" \/ direction = go "egress") :
  GetPodIdentifierFromBPFPinPath (GetBPFPinPathFromPodIdentifier podIdentifier direction) =
  Ret (podIdentifier, direction).
Proof.
  assert (exists d, ("/"%byte ∉ d) /\ ("_"%byte ∉ d) /\ d = direction /\
    GetBPFPinPathFromPodIdentifier podIdentifier direction =
    go "/sys/fs/bpf/globals/aws/programs/" ++ podIdentifier ++ go "_handle_" ++ d) as (d & Hd & Hu & <- & ->).
  { exists direction. destruct Hdir as [-> | ->]; repeat split; try done;
      intros Hin; vm_compute in Hin; repeat (apply elem_of_cons in Hin as [?|Hin]; [done|]);
      by apply not_elem_of_nil in Hin. }
  unfold GetPodIdentifierFromBPFPinPath.
  assert (split_on "/"%byte (go "/sys/fs/bpf/globals/aws/programs/" ++ podIdentifier ++ go "_handle_" ++ d) =
    [go ""; go "sys"; go "fs"; go "bpf"; go "globals"; go "aws"; go "programs";
     podIdentifier ++ go "_handle_" ++ d]) as ->.
  { change (go "/sys/fs/bpf/globals/aws/programs/" ++ ?x)
      with (go "/sys/fs/bpf/globals/aws/programs" ++ "/"%byte :: x).
    rewrite split_on_app. rewrite (split_on_single _ (podIdentifier ++ _)); [vm_compute; reflexivity|].
    rewrite !not_elem_of_app. split; [done|]. split; [|done].
    apply (bool_decide_unpack _). vm_compute. exact I. }
  cbn [index lookup list_lookup mbind outcome_bind].
  change (go "_handle_" ++ d) with ("_"%byte :: go "handle" ++ "_"%byte :: d).
  rewrite !split_on_app, (split_on_single _ d) by done.
  change (split_on "_"%byte (go "handle") ++ [d]) with [go "handle"; d].
  rewrite length_app. cbn [length]. rewrite decide_False by lia. unfold index.
  rewrite lookup_app_r by lia.
  replace (length (split_on "_"%byte podIdentifier) + 2 - 1 - length (split_on "_"%byte podIdentifier))%nat
    with 1%nat by lia. cbn [lookup list_lookup mbind outcome_bind].
  rewrite take_app_length' by lia. by rewrite join_split.
Qed.

(** C21: reading the pod identifier and direction back from the program pin path the agent
    builds returns exactly what the path was built from, for every identifier without a
    ["/"] (pod names and namespaces cannot contain one) and both directions, underscores in
    the identifier included. *)
Theorem pinpath_roundtrip (podIdentifier direction : gostring)
    (Hslash : ("/"%byte ∉ podIdentifier))
    (Hdir : direction = go "ingress" \/ direction = go "egress") :
  GetPodIdentifierFromBPFPinPath (GetBPFPinPathFromPodIdentifier podIdentifier direction) =
  Ret (podIdentifier, direction).
Proof. exact (pinpath_read podIdentifier direction Hslash Hdir). Qed.

Lemma pinpath_roundtrip_witness :
  ("/"%byte ∉ go "web_a@prod") /\
  GetPodIdentifierFromBPFPinPath (GetBPFPinPathFromPodIdentifier (go "web_a@prod") (go "egress")) =
  Ret (go "web_a@prod", go "egress").
Proof.
  assert ("/"%byte ∉ go "web_a@prod") as H by (apply (bool_decide_unpack _); vm_compute; exact I).
  split; [exact H|]. apply (pinpath_roundtrip (go "web_a@prod") (go "egress") H). right. reflexivity.
Defined.

(** The part of a pod name its replicas share: the text before the last ["-"]. *)
Definition pod_base (podName : gostring) : gostring :=
  match last_index "-"%byte podName with Some i => take i podName | None => podName end.

Lemma replace_byte_notin a b s : a ∉ s -> replace_byte a b s = s.
Proof.
  intros H. unfold replace_byte. induction s as [|x s IH]; [done|].
  apply not_elem_of_cons in H as [Hx Hs]. cbn. rewrite decide_False by done. f_equal. by apply IH.
Qed.

Lemma podIdentifierPrefix_base podName :
  podIdentifierPrefix podName = replace_byte "."%byte "_"%byte (pod_base podName).
Proof.
  unfold podIdentifierPrefix.
  replace (if contains_byte "."%byte podName then replace_byte "."%byte "_"%byte podName else podName)
    with (replace_byte "."%byte "_"%byte podName).
  2: { unfold contains_byte. case_bool_decide; [done|]. by apply replace_byte_notin. }
  unfold pod_base. destruct (last_index "-"%byte podName) as [i|] eqn:E.
  - assert ("-"%byte ∈ podName) as Hin.
    { destruct (decide ("-"%byte ∈ podName)) as [|Hn]; [done|].
      apply last_index_None in Hn. congruence. }
    apply list_elem_of_split_r in Hin as (p & t & -> & Ht).
    rewrite last_index_app in E by done. injection E as <-.
    rewrite take_app_length. unfold replace_byte. rewrite fmap_app. cbn [fmap list_fmap].
    rewrite decide_False by done. change ((fun x => _) <$> ?l) with (replace_byte "."%byte "_"%byte l).
    assert ("-"%byte ∉ replace_byte "."%byte "_"%byte t) as Ht'.
    { intros H. apply elem_of_replace_byte in H as [[? _]|[_ ?]]; done. }
    unfold contains_byte. rewrite bool_decide_eq_true_2 by set_solver.
    rewrite split_on_app, (split_on_single _ _ Ht'), length_app. cbn [length].
    rewrite take_app_length' by lia. apply join_split.
  - apply last_index_None in E. unfold contains_byte. rewrite bool_decide_eq_false_2; [done|].
    intros H. apply elem_of_replace_byte in H as [[? _]|[_ ?]]; done.
Qed.

Lemma pod_base_incl c podName : c ∈ pod_base podName -> c ∈ podName.
Proof.
  unfold pod_base. destruct (last_index _ _) as [i|]; [|done]. intros H.
  rewrite <-(take_drop i podName). set_solver.
Qed.

(** Two pods get the same pod identifier exactly when they share the name up to the last
    ["-"] and the namespace, for names without ["_"] or ["@"] and namespaces without ["@"]
    (DNS-1123 forbids all of them): the ["@"] separator and the ["."] to ["_"] substitution
    introduce no collision. *)
Theorem GetPodIdentifier_inj (n n' ns ns' : gostring)
    (Hn : ("_"%byte ∉ n) /\ ("@"%byte ∉ ns)) (Hn' : ("_"%byte ∉ n') /\ ("@"%byte ∉ ns')) :
  GetPodIdentifier n ns = GetPodIdentifier n' ns' <-> pod_base n = pod_base n' /\ ns = ns'.
Proof.
  destruct Hn as [Hn Hns], Hn' as [Hn' Hns'].
  unfold GetPodIdentifier. rewrite !podIdentifierPrefix_base. split; [|by intros [-> ->]].
  intros H. change (go "@" ++ ?x) with ("@"%byte :: x) in H.
  apply app_sep_inj in H as [H ->]; [|done..]. split; [|done].
  eapply replace_byte_inj; [| |done]; intros Hin; by apply pod_base_incl in Hin.
Qed.

Lemma GetPodIdentifier_inj_witness :
  (("_"%byte ∉ go "web.v1-abc") /\ ("@"%byte ∉ go "prod")) /\
  (GetPodIdentifier (go "web.v1-abc") (go "prod") = GetPodIdentifier (go "web.v1-xyz") (go "prod") <->
   pod_base (go "web.v1-abc") = pod_base (go "web.v1-xyz") /\ go "prod" = go "prod").
Proof.
  assert ((("_"%byte ∉ go "web.v1-abc") /\ ("@"%byte ∉ go "prod")) /\ (("_"%byte ∉ go "web.v1-xyz") /\ ("@"%byte ∉ go "prod")))
    as [H H'] by (apply (bool_decide_unpack _); vm_compute; exact I).
  split; [exact H|]. apply (GetPodIdentifier_inj (go "web.v1-abc") (go "web.v1-xyz") _ _ H H').
Defined.

(** The legacy separator did collide: two pods of different namespaces, one identifier. *)
Example LegacyGetPodIdentifier_collides :
  LegacyGetPodIdentifier (go "a-b-x") (go "c") = LegacyGetPodIdentifier (go "a-x") (go "b-c").
Proof. vm_compute. reflexivity. Qed.

(** The key under which the reconciler stores a PolicyEndpoint's pods is the plain
    concatenation of name and namespace, so PolicyEndpoints of different namespaces can share
    it; it is injective only among PolicyEndpoints of one namespace. *)
Theorem GetPolicyEndpointIdentifier_scope :
  (forall ns n n', GetPolicyEndpointIdentifier n ns = GetPolicyEndpointIdentifier n' ns -> n = n') /\
  exists n ns n' ns', n <> n' /\ ns <> ns' /\
    GetPolicyEndpointIdentifier n ns = GetPolicyEndpointIdentifier n' ns'.
Proof.
  split.
  - unfold GetPolicyEndpointIdentifier. intros ns n n' H. by apply app_inv_tail in H.
  - exists (go "np-abcde"), (go "f"), (go "np-abcd"), (go "ef").
    split; [done|]. split; [done|]. reflexivity.
Qed.

Lemma GetParentNPNameFromPEName_spec base suffix :
  "-"%byte ∉ suffix -> GetParentNPNameFromPEName (base ++ "-"%byte :: suffix) = Ret base.
Proof.
  intros H. unfold GetParentNPNameFromPEName. rewrite last_index_app by done.
  by rewrite take_app_length.
Qed.

Lemma GetParentNPNameFromPEName_panic n :
  "-"%byte ∉ n -> exists w, GetParentNPNameFromPEName n = Panic w.
Proof.
  intros H. unfold GetParentNPNameFromPEName. apply last_index_None in H. rewrite H. eauto.
Qed.

(** ** Decimal numbers *)
Lemma digit_char_val d : 0 <= d < 10 -> digit_val (digit_char d) = Some d.
Proof.
  intros Hd. assert (d = 0 \/ d = 1 \/ d = 2 \/ d = 3 \/ d = 4 \/ d = 5 \/ d = 6 \/ d = 7 \/ d = 8 \/ d = 9) as H by lia.
  repeat (destruct H as [->|H]; [reflexivity|]). by subst.
Qed.

Lemma digits_val_app n a b : digits_val n (a ++ b) = match digits_val n a with Some m => digits_val m b | None => None end.
Proof. revert n. induction a as [|c a IH]; intros n; cbn; [done|]. destruct (digit_val c); [apply IH|done]. Qed.

Lemma dec_digits_val fuel n : 0 <= n < 10 ^ Z.of_nat fuel -> digits_val 0 (dec_digits fuel n) = Some n.
Proof.
  revert n. induction fuel as [|fuel IH]; intros n Hn; [cbn in Hn; cbn; f_equal; lia|].
  cbn [dec_digits]. destruct (Z.ltb_spec n 10) as [Hlt|Hge].
  - cbn [digits_val]. rewrite digit_char_val by lia. done.
  - rewrite digits_val_app, IH.
    + cbn [digits_val]. rewrite digit_char_val by (apply Z.mod_pos_bound; lia).
      f_equal. pose proof (Z.div_mod n 10). lia.
    + rewrite Nat2Z.inj_succ, Z.pow_succ_r in Hn by lia. split; [apply Z.div_pos; lia|]. apply Z.div_lt_upper_bound; lia.
Qed.

(** The numbers of names and messages can be read back. *)
Lemma Atoi_Itoa n : 0 <= n < 2 ^ 63 -> Atoi (Itoa n) = n.
Proof.
  intros Hn. unfold Itoa. destruct (Z.ltb_spec n 0); [lia|].
  assert (digits_val 0 (dec_digits 20 n) = Some n) as Hd by (apply dec_digits_val; cbn; lia).
  unfold Atoi. destruct (dec_digits 20 n) as [|c s] eqn:E; [cbn in Hd; injection Hd as <-; done|].
  assert (digit_val "-"%byte = None /\ digit_val "+"%byte = None) as [Hm Hp] by (split; reflexivity).
  rewrite !decide_False by (intros ->; cbn [digits_val] in Hd; rewrite ?Hm, ?Hp in Hd; discriminate Hd).
  rewrite Hd. lia.
Qed.
