(* ===== verification/CidrTrie.v ===== *)
(** [pkg/fwruleprocessor/cidr_trie.go]: the binary trie that answers "which CIDRs contain
    this address", and its equivalence with a linear scan of the inserted CIDRs. *)
From S2P Require Import Prelude NetIP NetIPFacts.

(** A node holds two children and the key of the CIDR that ends there ([""] when none). *)
#[local] Set Warnings "-register-all".
Inductive cidrTrieNode : Type :=
| mkNode (child0 child1 : option cidrTrieNode) (cidrKey : gostring).

Definition newNode : cidrTrieNode := mkNode None None [].

Definition cidrKey (node : cidrTrieNode) : gostring := let 'mkNode _ _ k := node in k.
Definition children (node : cidrTrieNode) (bit : Z) : option cidrTrieNode :=
  let 'mkNode c0 c1 _ := node in if bit =? 0 then c0 else c1.
Definition set_child (bit : Z) (c : cidrTrieNode) (node : cidrTrieNode) : cidrTrieNode :=
  let 'mkNode c0 c1 k := node in
  if bit =? 0 then mkNode (Some c) c1 k else mkNode c0 (Some c) k.
Definition set_key (key : gostring) (node : cidrTrieNode) : cidrTrieNode :=
  let 'mkNode c0 c1 _ := node in mkNode c0 c1 key.

Record cidrTrie := mkTrie { v4Root : cidrTrieNode; v6Root : cidrTrieNode }.

Definition newCIDRTrie : cidrTrie := mkTrie newNode newNode.

(** [normalizeIP]: [None] when the result is the nil address. *)
Definition normalizeIP (ip : IP) : option IP * bool :=
  match To4 ip with
  | Some v4 => (Some v4, false)
  | None => match To16 ip with
            | Some v6 => (Some v6, true)
            | None => (None, false)
            end
  end.

Definition rootFor (t : cidrTrie) (isV6 : bool) : cidrTrieNode := if isV6 then v6Root t else v4Root t.
Definition set_root (t : cidrTrie) (isV6 : bool) (node : cidrTrieNode) : cidrTrie :=
  if isV6 then mkTrie (v4Root t) node else mkTrie node (v6Root t).

(** [(ip[i/8] >> (7 - i%8)) & 1]; both callers keep [i] below [8 * len(ip)]. *)
Definition bit_at (ip : IP) (i : nat) : Z :=
  let byteIdx := (i / 8)%nat in
  let bitIdx := 7 - Z.of_nat (i mod 8) in
  Z.land (Z.shiftr (byte.unsigned (ip !!! byteIdx)) bitIdx) 1.

(** The walk of [insert]: [n] bits are left, [i] is the next one. *)
Fixpoint insert_loop (ip : IP) (key : gostring) (n i : nat) (node : cidrTrieNode) : cidrTrieNode :=
  match n with
  | O => set_key key node
  | S n' =>
      let bit := bit_at ip i in
      let next := match children node bit with Some c => c | None => newNode end in
      set_child bit (insert_loop ip key n' (S i) next) node
  end.

Definition insert (t : cidrTrie) (cidrStr : gostring) : cidrTrie :=
  match ParseCIDR cidrStr with
  | None => t
  | Some (_, ipNet) =>
      match normalizeIP (net_ip ipNet) with
      | (None, _) => t
      | (Some ip, isV6) =>
          let '(ones, bits) := Mask_Size (net_mask ipNet) in
          if decide (bits = 0%nat) then t else
          let ones := if negb isV6 && bool_decide (bits = 128%nat) then Z.of_nat ones - 96
                      else Z.of_nat ones in
          let maxBits := Z.of_nat (length ip * 8) in
          if (ones <? 0) || (maxBits <? ones) then t else
          set_root t isV6 (insert_loop ip (IPNet_String ipNet) (Z.to_nat ones) 0 (rootFor t isV6))
      end
  end.

(** The walk of [findContainingKeys]. *)
Fixpoint find_loop (ipBytes : IP) (n i : nat) (node : cidrTrieNode) (result : list gostring) {struct n} :
    list gostring :=
  match n with
  | O => result
  | S n' =>
      match children node (bit_at ipBytes i) with
      | None => result
      | Some node =>
          let result := if decide (cidrKey node <> []) then result ++ [cidrKey node] else result in
          find_loop ipBytes n' (S i) node result
      end
  end.

Definition findContainingKeys (t : cidrTrie) (ip : IP) : list gostring :=
  match normalizeIP ip with
  | (None, _) => []
  | (Some ipBytes, isV6) =>
      let node := rootFor t isV6 in
      let result := if decide (cidrKey node <> []) then [cidrKey node] else [] in
      find_loop ipBytes (length ipBytes * 8) 0 node result
  end.

Example trie_ex :
  findContainingKeys
    (foldl insert newCIDRTrie
       (go <$> ["10.1.0.0/16"; "0.0.0.0/0"; "::/0"; "10.2.0.0/16"; "::ffff:10.1.2.0/120"; "bad"]%string))
    [x0a; x01; x02; x03] = go <$> ["0.0.0.0/0"; "10.1.0.0/16"; "10.1.2.0/24"]%string.
Proof. vm_compute. reflexivity. Qed.

(** * The trie as a finite map from bit paths to keys *)
Fixpoint node_key (node : cidrTrieNode) (path : list bool) {struct path} : gostring :=
  match path with
  | [] => cidrKey node
  | b :: path' =>
      match children node (Z.b2z b) with
      | Some c => node_key c path'
      | None => []
      end
  end.

Lemma node_key_new path : node_key newNode path = [].
Proof. destruct path as [|[] path]; done. Qed.

Lemma node_key_cons node b path :
  node_key node (b :: path) =
  match children node (Z.b2z b) with Some c => node_key c path | None => [] end.
Proof. done. Qed.

Lemma byte_bits_lookup b j :
  (j < 8)%nat -> byte_bits b !! j = Some (Z.testbit (byte.unsigned b) (7 - Z.of_nat j)).
Proof.
  intros Hj. unfold byte_bits. rewrite list_lookup_fmap, lookup_seq_lt by done. done.
Qed.

Lemma ip_bits_lookup ip i :
  (i < 8 * length ip)%nat ->
  ip_bits ip !! i = Some (Z.testbit (byte.unsigned (ip !!! (i / 8)%nat)) (7 - Z.of_nat (i mod 8))).
Proof.
  revert i. induction ip as [|b ip IH]; intros i Hi; cbn [length] in Hi; [lia|].
  rewrite ip_bits_cons, lookup_app. destruct (decide (i < 8)%nat) as [Hlt|Hge].
  - rewrite byte_bits_lookup by done. by rewrite Nat.div_small, Nat.mod_small by done.
  - rewrite lookup_ge_None_2 by (rewrite length_byte_bits; lia). rewrite length_byte_bits, IH by lia.
    assert (exists j, i = j + 1 * 8)%nat as [j ->] by (exists (i - 8)%nat; lia).
    rewrite Nat.div_add, Nat.Div0.mod_add, Nat.add_sub, (Nat.add_comm (j / 8)) by done. done.
Qed.

Lemma bit_at_bits ip i b : ip_bits ip !! i = Some b -> bit_at ip i = Z.b2z b.
Proof.
  intros H. assert (i < 8 * length ip)%nat as Hi.
  { rewrite <-length_ip_bits. by eapply lookup_lt_Some. }
  rewrite ip_bits_lookup in H by done. injection H as <-. unfold bit_at.
  rewrite (Z.land_ones _ 1) by lia. change (2 ^ 1) with 2.
  by rewrite <-Z.bit0_mod, Z.shiftr_spec by lia.
Qed.

Lemma drop_lookup_cons {A} (l : list A) i b : l !! i = Some b -> drop i l = b :: drop (S i) l.
Proof. intros H. by rewrite (drop_S _ _ _ H). Qed.

(** Inserting a key at the first [n] bits changes that path and no other. *)
Lemma node_key_insert ip key n i node path :
  (i + n <= 8 * length ip)%nat ->
  node_key (insert_loop ip key n i node) path =
  if decide (path = take n (drop i (ip_bits ip))) then key else node_key node path.
Proof.
  revert i node path. induction n as [|n IH]; intros i node path Hle.
  - rewrite take_0. destruct node, path; cbn; case_decide; done.
  - destruct (lookup_lt_is_Some_2 (ip_bits ip) i) as [b Hb]; [rewrite length_ip_bits; lia|].
    rewrite (drop_lookup_cons _ _ _ Hb). cbn [insert_loop take]. rewrite (bit_at_bits _ _ _ Hb).
    destruct path as [|c path].
    { rewrite decide_False by done. by destruct node, b. }
    assert (node_key (set_child (Z.b2z b)
              (insert_loop ip key n (S i) (match children node (Z.b2z b) with Some c => c | None => newNode end))
              node) (c :: path) =
            if decide (c = b) then
              node_key (insert_loop ip key n (S i)
                (match children node (Z.b2z b) with Some c => c | None => newNode end)) path
            else node_key node (c :: path)) as ->.
    { destruct node as [c0 c1 k], b, c; done. }
    destruct (decide (c = b)) as [->|Hne]; [|by rewrite decide_False by congruence].
    rewrite IH by lia. cbn [node_key].
    destruct (decide (path = take n (drop (S i) (ip_bits ip)))) as [->|Hp].
    + by rewrite decide_True.
    + rewrite decide_False by congruence.
      destruct (children node (Z.b2z b)); [done|apply node_key_new].
Qed.

(** The walk collects the keys at every prefix of the address. *)
Definition keys_along (node : cidrTrieNode) (bits : list bool) (start n : nat) : list gostring :=
  filter (fun k => k <> []) ((fun j => node_key node (take j bits)) <$> seq start n).

Lemma keys_along_none bits node n :
  (forall j, node_key node (take (S j) bits) = []) -> keys_along node bits 1 n = [].
Proof.
  intros H. unfold keys_along.
  enough (forall s, (1 <= s)%nat -> filter (fun k => k <> []) ((fun j => node_key node (take j bits)) <$> seq s n) = [])
    as Hs by (apply Hs; lia).
  induction n as [|n IH]; intros s Hs; [done|]. cbn [seq fmap list_fmap]. rewrite filter_cons_False.
  - apply IH. lia.
  - destruct s as [|s]; [lia|]. rewrite H. naive_solver.
Qed.

Lemma keys_along_cons node c b bits s n :
  children node (Z.b2z b) = Some c ->
  keys_along node (b :: bits) (S s) n = keys_along c bits s n.
Proof.
  intros Ec. unfold keys_along. revert s. induction n as [|n IH]; intros s; [done|].
  cbn [seq fmap list_fmap take]. rewrite node_key_cons, Ec, !filter_cons, IH. done.
Qed.

Lemma keys_along_first node bits n :
  keys_along node bits 0 (S n) =
  (if decide (cidrKey node <> []) then [cidrKey node] else []) ++ keys_along node bits 1 n.
Proof.
  unfold keys_along. cbn [seq fmap list_fmap]. rewrite filter_cons.
  change (node_key node (take 0 bits)) with (cidrKey node). repeat case_decide; done.
Qed.

Lemma find_loop_spec ip n i node result :
  (i + n <= 8 * length ip)%nat ->
  find_loop ip n i node result = result ++ keys_along node (drop i (ip_bits ip)) 1 n.
Proof.
  revert i node result. induction n as [|n IH]; intros i node result Hle; [by rewrite app_nil_r|].
  destruct (lookup_lt_is_Some_2 (ip_bits ip) i) as [b Hb]; [rewrite length_ip_bits; lia|].
  cbn [find_loop]. rewrite (drop_lookup_cons _ _ _ Hb), (bit_at_bits _ _ _ Hb).
  destruct (children node (Z.b2z b)) as [c|] eqn:Ec.
  - rewrite IH, (keys_along_cons _ _ _ _ _ _ Ec), keys_along_first by lia.
    case_decide; [by rewrite <-app_assoc|done].
  - rewrite keys_along_none; [by rewrite app_nil_r|]. intros j. cbn [take]. by rewrite node_key_cons, Ec.
Qed.

(** * The set of networks a trie holds *)
Definition v6_net (n : IPNet) : bool := bool_decide (length (net_ip n) = 16%nat).

Record trie_repr (t : cidrTrie) (nets : list IPNet) : Prop := {
  repr_canonical : Forall canonical nets;
  repr_keys : forall v6 path k, k <> [] ->
    node_key (rootFor t v6) path = k <->
    exists n, n ∈ nets /\ v6_net n = v6 /\ net_prefix n = path /\ k = IPNet_String n
}.

Lemma IPNet_String_ne n : canonical n -> IPNet_String n <> [].
Proof.
  intros Hn. unfold IPNet_String. rewrite networkNumberAndMask_canonical by done.
  destruct (simpleMaskLength _); intros H; by apply app_nil in H as [_ H].
Qed.

Lemma repr_new : trie_repr newCIDRTrie [].
Proof.
  split; [constructor|]. intros v6 path k Hk.
  replace (rootFor newCIDRTrie v6) with newNode by (by destruct v6).
  rewrite node_key_new. set_solver.
Qed.

(** [insert] stores a parsed network at the path of its prefix, in its family's trie. *)
Lemma insert_parsed t s a n :
  ParseCIDR s = Some (a, n) ->
  insert t s =
  set_root t (v6_net (eff n))
    (insert_loop (net_ip (eff n)) (IPNet_String (eff n)) (net_ones (eff n)) 0
       (rootFor t (v6_net (eff n)))).
Proof.
  intros HP. destruct (ParseCIDR_eff s a n HP) as (Hc & _ & Hi & Hcase).
  destruct (ParseCIDR_views s a n HP) as [HS _].
  destruct (canonical_mask _ Hc) as (Hle & Hm & _).
  unfold insert. rewrite HP, HS. unfold normalizeIP, v6_net.
  destruct Hcase as [[Hn HT]|(H16 & H4 & HT & HM)].
  - rewrite HT. rewrite <-Hn in *.
    assert (Mask_Size (net_mask n) = (net_ones n, (length (net_ip n) * 8)%nat)) as ->.
    { rewrite Hm at 1. by rewrite Mask_Size_mask. }
    destruct (proj1 Hc) as [H4|[H16 _]].
    + rewrite !decide_True by done. cbn [negb andb]. rewrite H4.
      rewrite decide_False by done. rewrite bool_decide_eq_false_2 by done.
      rewrite (bool_decide_eq_false_2 (4%nat = 16%nat)) by done.
      destruct (Z.ltb_spec (Z.of_nat (net_ones n)) 0); [lia|].
      destruct (Z.ltb_spec (Z.of_nat (4 * 8)) (Z.of_nat (net_ones n))); [lia|].
      cbn [orb]. by rewrite Nat2Z.id.
    + rewrite decide_False by lia. unfold To16. rewrite decide_False by lia. rewrite decide_True by done.
      cbn [negb andb]. rewrite H16. rewrite decide_False by done.
      rewrite (bool_decide_eq_true_2 (16%nat = 16%nat)) by done.
      destruct (Z.ltb_spec (Z.of_nat (net_ones n)) 0); [lia|].
      destruct (Z.ltb_spec (Z.of_nat (16 * 8)) (Z.of_nat (net_ones n))); [lia|].
      cbn [orb]. by rewrite Nat2Z.id.
  - rewrite HT, HM. rewrite decide_False by done. cbn [negb andb].
    rewrite bool_decide_eq_true_2 by done. rewrite H4.
    rewrite (bool_decide_eq_false_2 (4%nat = 16%nat)) by done.
    destruct (Z.ltb_spec (Z.of_nat (96 + net_ones (eff n)) - 96) 0); [lia|].
    destruct (Z.ltb_spec (Z.of_nat (4 * 8)) (Z.of_nat (96 + net_ones (eff n)) - 96)); [lia|].
    cbn [orb]. do 2 f_equal. lia.
Qed.

Lemma repr_insert t nets s a n :
  trie_repr t nets -> ParseCIDR s = Some (a, n) -> trie_repr (insert t s) (eff n :: nets).
Proof.
  intros [Hall Hkeys] HP. rewrite (insert_parsed t s a n HP).
  destruct (ParseCIDR_eff s a n HP) as (Hc & _). set (m := eff n) in *. clearbody m. clear HP n.
  destruct (canonical_mask _ Hc) as (Hle & _ & _).
  split; [by constructor|]. intros v6 path k Hk.
  assert (forall n, n ∈ nets -> canonical n) as Hcan by (by apply Forall_forall).
  assert (forall n, n ∈ nets -> v6_net n = v6_net m -> net_prefix n = net_prefix m -> n = m) as Huniq.
  { intros n Hn Hv Hp. apply canonical_ext; [by auto|done| |done].
    unfold v6_net in Hv. apply bool_decide_eq_bool_decide in Hv || idtac.
    destruct (proj1 (Hcan n Hn)) as [?|[? _]], (proj1 Hc) as [?|[? _]];
      repeat case_bool_decide; congruence || lia. }
  destruct (decide (v6_net m = v6)) as [<-|Hv].
  - assert (rootFor (set_root t (v6_net m)
              (insert_loop (net_ip m) (IPNet_String m) (net_ones m) 0 (rootFor t (v6_net m)))) (v6_net m) =
            insert_loop (net_ip m) (IPNet_String m) (net_ones m) 0 (rootFor t (v6_net m))) as ->
      by (by destruct (v6_net m)).
    rewrite node_key_insert by lia. change (drop 0 ?l) with l. fold (net_prefix m).
    case_decide as Hp.
    + split; [intros <-; exists m; set_solver|].
      intros (n & [->|Hn]%elem_of_cons & Hv & Hpn & ->); [done|]. rewrite (Huniq n); congruence.
    + rewrite Hkeys by done. split; intros (n & Hn & Hv & Hpn & ->); exists n; [set_solver|].
      apply elem_of_cons in Hn as [->|Hn]; [congruence|done].
  - assert (rootFor (set_root t (v6_net m)
              (insert_loop (net_ip m) (IPNet_String m) (net_ones m) 0 (rootFor t (v6_net m)))) v6 =
            rootFor t v6) as -> by (by destruct (v6_net m), v6).
    rewrite Hkeys by done. split; intros (n & Hn & Hv' & Hpn & ->); exists n; [set_solver|].
    apply elem_of_cons in Hn as [->|Hn]; [congruence|done].
Qed.

Definition ones_key (n : IPNet) : Z := Z.of_nat (net_ones n).

(** The keys collected at depths [s .. s+m-1] are those of the networks of that length whose
    prefix the bits start with. *)
Lemma keys_along_repr t nets v6 bits s m :
  trie_repr t nets -> (s + m <= S (length bits))%nat ->
  exists ns, keys_along (rootFor t v6) bits s m = IPNet_String <$> ns /\
    StronglySorted (fun a b => net_ones a < net_ones b)%nat ns /\
    forall n, n ∈ ns <-> n ∈ nets /\ v6_net n = v6 /\ net_prefix n = take (net_ones n) bits /\
                         (s <= net_ones n < s + m)%nat.
Proof.
  intros [Hall Hkeys]. assert (forall n, n ∈ nets -> canonical n) as Hcan by (by apply Forall_forall).
  revert s. induction m as [|m IH]; intros s Hle.
  { exists []. split; [done|]. split; [constructor|]. set_solver by lia. }
  destruct (IH (S s)) as (ns & Hns & Hsort & Hin); [lia|].
  assert (keys_along (rootFor t v6) bits s (S m) =
          (if decide (node_key (rootFor t v6) (take s bits) <> [])
           then [node_key (rootFor t v6) (take s bits)] else []) ++ (IPNet_String <$> ns)) as ->.
  { rewrite <-Hns. unfold keys_along. cbn [seq fmap list_fmap]. rewrite filter_cons.
    repeat case_decide; done. }
  assert (forall n, n ∈ nets -> net_prefix n = take s bits -> net_ones n = s) as Hs.
  { intros n Hn Hp. rewrite <-length_net_prefix by auto. rewrite Hp, length_take. lia. }
  case_decide as Hk.
  - destruct (proj1 (Hkeys v6 (take s bits) _ Hk) eq_refl) as (n & Hn & Hv & Hp & Hkn).
    exists (n :: ns). rewrite Hkn. split; [done|]. pose proof (Hs n Hn Hp) as Hns'.
    split.
    + constructor; [done|]. apply Forall_forall. intros n' Hn'. apply Hin in Hn'. lia.
    + intros n'. rewrite elem_of_cons, Hin. split.
      * intros [->|(? & ? & ? & ?)]; [|repeat split; done || lia].
        rewrite Hns'. repeat split; done || lia.
      * intros (Hn' & Hv' & Hp' & Hr). destruct (decide (net_ones n' = s)) as [He|He].
        -- left. rewrite He in Hp'. apply canonical_ext; [by auto|by auto| |congruence].
           unfold v6_net in *.
           destruct (proj1 (Hcan n Hn)) as [?|[? _]], (proj1 (Hcan n' Hn')) as [?|[? _]];
             subst v6; repeat case_bool_decide; congruence || lia.
        -- right. repeat split; done || lia.
  - exists ns. split; [done|]. split; [done|]. intros n. rewrite Hin.
    split; [intros (? & ? & ? & ?); repeat split; done || lia|].
    intros (Hn & Hv & Hp & Hr). repeat split; try done; try lia.
    destruct (decide (net_ones n = s)) as [He|He]; [|lia]. exfalso.
    rewrite He in Hp.
    assert (node_key (rootFor t v6) (take s bits) = IPNet_String n) as Hkn.
    { apply Hkeys; [by apply IPNet_String_ne; auto|]. exists n. done. }
    rewrite Hk in Hkn. symmetry in Hkn. by apply IPNet_String_ne in Hkn; auto.
Qed.

Lemma normalizeIP_norm ip :
  normalizeIP ip =
  if decide (length (norm_ip ip) = 4%nat \/ length (norm_ip ip) = 16%nat)
  then (Some (norm_ip ip), bool_decide (length (norm_ip ip) = 16%nat)) else (None, false).
Proof.
  unfold normalizeIP, norm_ip, To16. destruct (To4 ip) as [v4|] eqn:E; cbn [default from_option].
  - assert (length v4 = 4%nat) as H4.
    { unfold To4 in E. repeat case_decide; simplify_eq; [done|]. rewrite length_drop. lia. }
    cbn. unfold id. rewrite decide_True by lia. by rewrite bool_decide_eq_false_2 by lia.
  - assert (length ip <> 4%nat) by (intros H; unfold To4 in E; by rewrite decide_True in E).
    cbn. rewrite (decide_False (P := length ip = 4%nat)) by done.
    repeat case_decide; try lia; [by rewrite bool_decide_eq_true_2|done].
Qed.

(** The keys found are those of the networks that contain the address, by prefix length. *)
Lemma find_repr t nets ip :
  trie_repr t nets ->
  exists ns, findContainingKeys t ip = IPNet_String <$> ns /\
    StronglySorted (fun a b => net_ones a < net_ones b)%nat ns /\
    forall n, n ∈ ns <-> n ∈ nets /\ Contains n ip = true.
Proof.
  intros Hr. pose proof (repr_canonical _ _ Hr) as Hall. rewrite Forall_forall in Hall.
  unfold findContainingKeys. rewrite normalizeIP_norm. case_decide as Hlen.
  - set (ip' := norm_ip ip) in *. set (v6 := bool_decide (length ip' = 16%nat)).
    rewrite find_loop_spec by lia. change (drop 0 ?l) with l. rewrite <-keys_along_first.
    destruct (keys_along_repr t nets v6 (ip_bits ip') 0 (S (length ip' * 8))) as (ns & -> & Hs & Hin);
      [done|rewrite length_ip_bits; lia|].
    exists ns. split; [done|]. split; [done|]. intros n. rewrite Hin. fold ip'.
    split; intros (Hn & H); (split; [done|]); pose proof (Hall n Hn) as Hc.
    + destruct H as (Hv & Hp & _). apply Contains_bits; [done|]. fold ip'. split; [|done].
      unfold v6_net, v6 in Hv. destruct (proj1 Hc) as [?|[? _]]; repeat case_bool_decide; congruence || lia.
    + apply Contains_bits in H as [Hl Hp]; [|done]. fold ip' in Hl, Hp.
      destruct (canonical_mask n Hc) as (Hle & _ & _).
      split; [unfold v6_net, v6; by rewrite Hl|]. split; [done|lia].
  - exists []. split; [done|]. split; [constructor|]. intros n. split; [set_solver|].
    intros [Hn H]. apply Contains_bits in H as [Hl _]; [|by auto]. exfalso. apply Hlen. rewrite Hl.
    destruct (proj1 (Hall n Hn)) as [?|[? _]]; auto.
Qed.

(** * Equivalence with a linear scan *)
Definition parsed_nets (cidrs : list gostring) : list IPNet :=
  omap (fun s => (fun p => eff p.2) <$> ParseCIDR s) cidrs.

(** What the trie replaces: parse every CIDR, keep those that contain the address, one per
    network, ordered by prefix length. *)
Definition linear_scan (cidrs : list gostring) (ip : IP) : list gostring :=
  IPNet_String <$>
    slice_stable (fun a b => ones_key a <? ones_key b)
      (remove_dups (filter (fun n => Contains n ip = true) (parsed_nets cidrs))).

Lemma repr_foldl t nets cidrs :
  trie_repr t nets ->
  exists nets', trie_repr (foldl insert t cidrs) nets' /\
    forall n, n ∈ nets' <-> n ∈ nets \/ n ∈ parsed_nets cidrs.
Proof.
  revert t nets. induction cidrs as [|s cidrs IH]; intros t nets Hr; cbn [foldl].
  { exists nets. split; [done|]. set_solver. }
  unfold parsed_nets. cbn [omap list_omap]. destruct (ParseCIDR s) as [[a n]|] eqn:HP; cbn [fmap option_fmap option_map].
  - destruct (IH _ _ (repr_insert t nets s a n Hr HP)) as (nets' & Hr' & Hin).
    exists nets'. split; [done|]. intros m. rewrite Hin. unfold parsed_nets. set_solver.
  - assert (insert t s = t) as -> by (unfold insert; by rewrite HP). by apply IH.
Qed.

Lemma strictly_sorted_NoDup (l : list IPNet) :
  StronglySorted (fun a b => net_ones a < net_ones b)%nat l -> NoDup l.
Proof.
  induction 1 as [|n l Hs IH Hn]; constructor; [|done].
  intros Hin. rewrite Forall_forall in Hn. specialize (Hn n Hin). lia.
Qed.

Lemma same_length_same_net n n' ip :
  canonical n -> canonical n' -> Contains n ip = true -> Contains n' ip = true ->
  net_ones n = net_ones n' -> n = n'.
Proof.
  intros Hc Hc' H H' Ho. apply Contains_bits in H as [Hl Hp], H' as [Hl' Hp']; [|done..].
  apply canonical_ext; congruence.
Qed.

(** C10: [cidrTrie] is an index, not a policy: whatever CIDRs were inserted, in whatever order
    and however often, [findContainingKeys] returns exactly the canonical texts of the
    inserted networks that [net.IPNet.Contains] the address, each once, from the shortest to
    the longest prefix.  The right-hand side is the quadratic scan the trie replaces; IPv4,
    IPv6 and IPv4-mapped CIDRs and unparseable keys are covered. *)
Theorem trie_linear_scan (cidrs : list gostring) (ip : IP) :
  findContainingKeys (foldl insert newCIDRTrie cidrs) ip = linear_scan cidrs ip.
Proof.
  destruct (repr_foldl newCIDRTrie [] cidrs repr_new) as (nets & Hr & Hnets).
  destruct (find_repr _ _ ip Hr) as (ns & -> & Hs & Hin).
  unfold linear_scan. f_equal.
  pose proof (repr_canonical _ _ Hr) as Hall. rewrite Forall_forall in Hall.
  set (scan := remove_dups _).
  assert (forall n, n ∈ scan <-> n ∈ ns) as Hscan.
  { intros n. unfold scan. rewrite elem_of_remove_dups, list_elem_of_filter, Hin, Hnets. set_solver. }
  assert (ns ≡ₚ slice_stable (fun a b => ones_key a <? ones_key b) scan) as Hperm.
  { rewrite slice_stable_perm. apply NoDup_Permutation; [by apply strictly_sorted_NoDup|apply NoDup_remove_dups|].
    intros n. by rewrite Hscan. }
  apply (StronglySorted_unique_strong (key_le ones_key)).
  - intros a b Ha Hb H1 H2. rewrite <-Hperm in Hb. apply Hin in Ha as [Ha Ca], Hb as [Hb Cb].
    eapply same_length_same_net; eauto. unfold key_le, ones_key in *. lia.
  - eapply StronglySorted_ind with (R := fun a b => (net_ones a < net_ones b)%nat); [constructor| |exact Hs].
    intros a l _ IH Ha. constructor; [done|]. eapply Forall_impl; [done|]. unfold key_le, ones_key. lia.
  - apply slice_stable_sorted.
  - done.
Qed.
