(* ===== verification/FwRules.v ===== *)
(** [pkg/fwruleprocessor/fw_rule_processor.go]: firewall rules to eBPF map entries, for
    network policies and for cluster network policies.

    A Go map is a [gmap]; loops over Go maps take their order from a [MapOrder].  The rule
    slices handed to [append] come from decoded or deep-copied objects and from earlier
    [append]s whose result is stored once, so no two live slices share spare capacity and
    lists model them. *)
From S2P Require Import Prelude NetIP NetIPFacts ApiTypes Utils CidrTrie.

Definition BASELINE_TIER_PRIORITY_OFFSET : Z := 2000.

Record EbpfFirewallRules := mkEbpfFirewallRules {
  fw_Priority : Z;
  fw_Action : ClusterNetworkPolicyRuleAction;
  fw_DomainName : gostring;
  IPCidr : NetworkAddress;
  fw_Except : list NetworkAddress;
  L4Info : list Port
}.

Definition set_IPCidr (c : NetworkAddress) (r : EbpfFirewallRules) : EbpfFirewallRules :=
  mkEbpfFirewallRules (fw_Priority r) (fw_Action r) (fw_DomainName r) c (fw_Except r) (L4Info r).
Definition set_L4Info (l : list Port) (r : EbpfFirewallRules) : EbpfFirewallRules :=
  mkEbpfFirewallRules (fw_Priority r) (fw_Action r) (fw_DomainName r) (IPCidr r) (fw_Except r) l.
Definition set_Except (e : list NetworkAddress) (r : EbpfFirewallRules) : EbpfFirewallRules :=
  mkEbpfFirewallRules (fw_Priority r) (fw_Action r) (fw_DomainName r) (IPCidr r) e (L4Info r).

#[global] Instance EbpfFirewallRules_eq_dec : EqDecision EbpfFirewallRules.
Proof. solve_decision. Defined.

Record FirewallRuleProcessor := NewFirewallRuleProcessor {
  nodeIP : gostring;
  hostMask : gostring;
  enableIPv6 : bool
}.

(** ** Helpers *)

(** [isIPv6]. *)
Definition isIPv6 (cidr : gostring) : bool :=
  let ip := match ParseCIDR cidr with Some (ip, _) => Some ip | None => ParseIP cidr end in
  match ip with
  | None => false
  | Some ip => bool_decide (To4 ip = None)
  end.

Definition shouldSkipRule (f : FirewallRuleProcessor) (cidr : gostring) : bool :=
  if IsNodeIP (nodeIP f) cidr then true else
  let isIPv6CIDR := isIPv6 cidr in
  if enableIPv6 f && negb isIPv6CIDR then true else
  if negb (enableIPv6 f) && isIPv6CIDR then true else
  false.

(** Replace a parseable CIDR by its canonical text. *)
Definition canonicalize (cidr : gostring) : gostring :=
  match ParseCIDR cidr with Some (_, ipNet) => IPNet_String ipNet | None => cidr end.

(** [normalizeCIDR]; the namespace path has the same two steps inline. *)
Definition normalizeCIDR (f : FirewallRuleProcessor) (cidr : gostring) : gostring :=
  let cidr := if contains_byte "/"%byte cidr then cidr else cidr ++ hostMask f in
  canonicalize cidr.

(** [CATCH_ALL_PROTOCOL] and [DENY_ALL_PROTOCOL] are package variables: every entry points
    to the same address. *)
Definition CATCH_ALL_ADDR : Z := 1.
Definition DENY_ALL_ADDR : Z := 2.
Definition catchAllL4Entry : Port := mkPort (Some (mkProtocolPtr CATCH_ALL_ADDR CATCH_ALL_PROTOCOL)) None None.
Definition denyAllL4Entry : Port := mkPort (Some (mkProtocolPtr DENY_ALL_ADDR DENY_ALL_PROTOCOL)) None None.

Definition addCatchAllL4Entry (r : EbpfFirewallRules) : EbpfFirewallRules :=
  set_L4Info (L4Info r ++ [catchAllL4Entry]) r.
Definition addDenyAllL4Entry (r : EbpfFirewallRules) : EbpfFirewallRules :=
  set_L4Info (L4Info r ++ [denyAllL4Entry]) r.

(** The sort key of [sortFirewallRulesByPrefixLength], from the text of the rule's CIDR. *)
Definition rulePrefixLen (prefixLenStr : gostring) (r : EbpfFirewallRules) : Z :=
  let text := if contains_byte "/"%byte (IPCidr r) then IPCidr r else prefixLenStr in
  Atoi (nth 1 (split_on "/"%byte text) []).

(** The comparison indexes [strings.Split(prefixLenStr, "/")[1]], so it panics when the host
    mask has no ["/"]; it runs when there are two rules to compare. *)
Definition sortFirewallRulesByPrefixLength (rules : list EbpfFirewallRules) (prefixLenStr : gostring) :
    outcome (list EbpfFirewallRules) :=
  if decide (2 <= length rules)%nat then
    _ ← index (split_on "/"%byte prefixLenStr) 1;
    Ret (slice_stable (fun a b => rulePrefixLen prefixLenStr a <? rulePrefixLen prefixLenStr b) rules)
  else Ret rules.

(** Whether an address falls in one of a rule's excepts. *)
Definition foundInExcept (ip : IP) (excepts : list NetworkAddress) : bool :=
  existsb (fun e => match ParseCIDR e with
                    | Some (_, exceptEntry) => Contains exceptEntry ip
                    | None => false
                    end) excepts.

Definition checkAndDeriveL4InfoFromAnyMatchingCIDRsTrie (firewallRule : gostring) (trie : cidrTrie)
    (nonHostCIDRs : gmap gostring EbpfFirewallRules) : list Port :=
  match ParseCIDR firewallRule with
  | None => []
  | Some (_, ipToCheck) =>
      findContainingKeys trie (net_ip ipToCheck) ≫= fun cidrKey =>
        match nonHostCIDRs !! cidrKey with
        | None => []
        | Some info => if foundInExcept (net_ip ipToCheck) (fw_Except info) then [] else L4Info info
        end
  end.

(** [portKey] of [mergeDuplicateL4Info]. *)
Definition portKey (p : Port) : gostring * Z * Z :=
  (match Protocol p with Some pr => ptr_val pr | None => [] end,
   default 0 (Port_Port p), default 0 (EndPort p)).

Section processor.
Context `{!MapOrder}.

(** [mergeDuplicateL4Info]; [site] names the call. *)
Definition mergeDuplicateL4Info (site : gostring) (ports : list Port) : list Port :=
  dedup_by_key portKey site ports.

(** * Network policies *)

(** The maps the loop over the rules builds. *)
Record loopState := mkLoopState {
  cidrsMap : gmap gostring EbpfFirewallRules;
  exceptCidrs : gset gostring;
  nonHostCIDRs : gmap gostring EbpfFirewallRules;
  containmentTrie : cidrTrie
}.
Definition emptyState : loopState := mkLoopState ∅ ∅ ∅ newCIDRTrie.

(** One iteration. *)
Definition processRule (f : FirewallRuleProcessor) (st : loopState) (firewallRule : EbpfFirewallRules) :
  outcome loopState :=
  let cidr := if contains_byte "/"%byte (IPCidr firewallRule) then IPCidr firewallRule
          else IPCidr firewallRule ++ hostMask f in
  let cidr := canonicalize cidr in
  let firewallRule := set_IPCidr cidr firewallRule in
  if shouldSkipRule f cidr then Ret st else
  let exceptCidrs' := list_to_set (fw_Except firewallRule) ∪ exceptCidrs st in
  let firewallRule := if decide (L4Info firewallRule = []) then addCatchAllL4Entry firewallRule
                  else firewallRule in
  let firewallRule :=
    match cidrsMap st !! cidr with
    | Some existing =>
        set_Except (fw_Except firewallRule ++ fw_Except existing)
        (set_L4Info (L4Info firewallRule ++ L4Info existing) firewallRule)
    | None =>
        set_L4Info (L4Info firewallRule ++
          checkAndDeriveL4InfoFromAnyMatchingCIDRsTrie cidr (containmentTrie st) (nonHostCIDRs st))
        firewallRule
    end in
  let cidrsMap' := <[cidr := firewallRule]> (cidrsMap st) in
  nonHost ← IsNonHostCIDR cidr;
  if nonHost : bool then
    let alreadyInTrie := bool_decide (is_Some (nonHostCIDRs st !! cidr)) in
    Ret (mkLoopState cidrsMap' exceptCidrs' (<[cidr := firewallRule]> (nonHostCIDRs st))
       (if alreadyInTrie then containmentTrie st else insert (containmentTrie st) cidr))
  else Ret (mkLoopState cidrsMap' exceptCidrs' (nonHostCIDRs st) (containmentTrie st)).

Definition processRules (f : FirewallRuleProcessor) (rules : list EbpfFirewallRules) (st : loopState) :
  outcome loopState :=
  for_range (processRule f) rules st.

(** The loop over the excepts: a deny-all entry unless the CIDR has an entry already. *)
Definition addExcept (m : gmap gostring EbpfFirewallRules) (exceptCidr : gostring) :
  gmap gostring EbpfFirewallRules :=
  let canonicalExcept := canonicalize exceptCidr in
  match m !! canonicalExcept with
  | Some _ => m
  | None =>
      <[canonicalExcept := addDenyAllL4Entry (mkEbpfFirewallRules 0 [] [] canonicalExcept [] [])]> m
  end.

(** The loop that encodes the entries. *)
Definition encodeEntry (f : FirewallRuleProcessor) (firewallMap : gmap gostring gostring)
  (kv : gostring * EbpfFirewallRules) : outcome (gmap gostring gostring) :=
  let '(key, value) := kv in
  firewallMapKey ← deref (snd <$> ParseCIDR key);
  let firewallKey := ComputeTrieKey firewallMapKey (enableIPv6 f) in
  let l4 := if decide (L4Info value = []) then [] else mergeDuplicateL4Info key (L4Info value) in
  firewallValue ← ComputeTrieValue l4 false false;
  Ret (<[firewallKey := firewallValue]> firewallMap).

Definition encodeEntries (f : FirewallRuleProcessor) (kvs : list (gostring * EbpfFirewallRules))
  (firewallMap : gmap gostring gostring) : outcome (gmap gostring gostring) :=
  for_range (encodeEntry f) kvs firewallMap.

Definition ComputeMapEntriesFromEndpointRules (f : FirewallRuleProcessor)
  (firewallRules : list EbpfFirewallRules) : outcome (gmap gostring gostring) :=
  mapKey ← deref (snd <$> ParseCIDR (nodeIP f ++ hostMask f));
  value ← ComputeTrieValue [] true false;
  let firewallMap := {[ ComputeTrieKey mapKey (enableIPv6 f) := value ]} in
  firewallRules ← sortFirewallRulesByPrefixLength firewallRules (hostMask f);
  st ← processRules f firewallRules emptyState;
  let cidrsMap' := foldl addExcept (cidrsMap st) (go_range (go "exceptCidrs") (elements (exceptCidrs st))) in
  encodeEntries f (go_range (go "cidrsMap") (map_to_list cidrsMap')) firewallMap.

(** * Cluster network policies *)
Definition getPrefixLength (cidr : gostring) : Z :=
  let parts := split_on "/"%byte cidr in
  if decide (length parts <> 2%nat) then 32 else Atoi (nth 1 parts []).

Definition sortByCIDRLength (f : FirewallRuleProcessor) (rules : list EbpfFirewallRules) :
  list EbpfFirewallRules :=
  let prefix r := getPrefixLength (normalizeCIDR f (IPCidr r)) in
  slice_stable (fun a b => prefix a <? prefix b) rules.

(** [findMostSpecificOverlap]: the loop runs from the last processed CIDR to the first;
    [""] when none contains the current one. *)
Fixpoint overlap_loop (currentNet : option IPNet) (rev_processed : list gostring) : outcome gostring :=
  match rev_processed with
  | [] => Ret []
  | processedCIDR :: rest =>
      processedNet ← deref (snd <$> ParseCIDR processedCIDR);
      cur ← deref currentNet;
      if Contains processedNet (net_ip cur) then Ret processedCIDR
      else overlap_loop currentNet rest
  end.
Definition findMostSpecificOverlap (currentCIDR : gostring) (processedCIDRs : list gostring) :
  outcome gostring :=
  overlap_loop (snd <$> ParseCIDR currentCIDR) (reverse processedCIDRs).

(** The key is [fmt.Sprintf("%v-%d-%d-%d-%s", Protocol, ...)], where [%v] of the
    [*corev1.Protocol] prints the pointer; a nil protocol prints ["TCP"].  The separated
    text determines its components, which are the key here. *)
Definition l4RuleKey (p : L4Rule) : option Z * Z * Z * Z * gostring :=
  let info := L4PortProtocolInfo p in
  (ptr_addr <$> Protocol info, default 0 (Port_Port info), default 0 (EndPort info),
    Priority p, Action p).

Definition removeDuplicateL4Rules (site : gostring) (l4Rules : list L4Rule) : list L4Rule :=
  dedup_by_key l4RuleKey site l4Rules.

(** The rules one firewall rule contributes: one per port, or one for all ports. *)
Definition ownL4Rules (rule : EbpfFirewallRules) : list L4Rule :=
  if decide (L4Info rule = []) then [mkL4Rule (mkPort None None None) (fw_Action rule) (fw_Priority rule)]
  else (fun port => mkL4Rule port (fw_Action rule) (fw_Priority rule)) <$> L4Info rule.

Record clusterState := mkClusterState {
  cidrL4Rules : gmap gostring (list L4Rule);
  processedCIDRs : list gostring
}.

Definition processClusterRule (f : FirewallRuleProcessor) (st : clusterState) (rule : EbpfFirewallRules) :
  outcome clusterState :=
  let cidr := normalizeCIDR f (IPCidr rule) in
  if shouldSkipRule f cidr then Ret st else
  overlappingCIDR ← findMostSpecificOverlap cidr (processedCIDRs st);
  let current := default [] (cidrL4Rules st !! cidr) in
  let current :=
    if decide (overlappingCIDR <> []) then
      current ++ default [] (cidrL4Rules st !! overlappingCIDR)
    else current in
  Ret (mkClusterState (<[cidr := current ++ ownL4Rules rule]> (cidrL4Rules st))
     (processedCIDRs st ++ [cidr])).

Definition processClusterRules (f : FirewallRuleProcessor) (rules : list EbpfFirewallRules)
  (st : clusterState) : outcome clusterState :=
  for_range (processClusterRule f) rules st.

Definition encodeClusterEntry (f : FirewallRuleProcessor) (firewallMap : gmap gostring gostring)
  (kv : gostring * list L4Rule) : outcome (gmap gostring gostring) :=
  let '(cidr, l4Rules) := kv in
  let resolvedL4Rules := removeDuplicateL4Rules cidr l4Rules in
  firewallMapKey ← deref (snd <$> ParseCIDR cidr);
  firewallValue ← ComputeTrieValueForCPE resolvedL4Rules;
  Ret (<[ComputeTrieKey firewallMapKey (enableIPv6 f) := firewallValue]> firewallMap).

Definition encodeClusterEntries (f : FirewallRuleProcessor) (kvs : list (gostring * list L4Rule))
  (firewallMap : gmap gostring gostring) : outcome (gmap gostring gostring) :=
  for_range (encodeClusterEntry f) kvs firewallMap.

Definition ComputeClusterPolicyMapEntriesFromEndpointRules (f : FirewallRuleProcessor)
  (firewallRules : list EbpfFirewallRules) : outcome (gmap gostring gostring) :=
  mapKey ← deref (snd <$> ParseCIDR (nodeIP f ++ hostMask f));
  let nodeIPL4Rule := [mkL4Rule (mkPort None None None) (go "Accept") 0] in
  value ← ComputeTrieValueForCPE nodeIPL4Rule;
  let firewallMap := {[ ComputeTrieKey mapKey (enableIPv6 f) := value ]} in
  let firewallRules := sortByCIDRLength f firewallRules in
  st ← processClusterRules f firewallRules (mkClusterState ∅ []);
  encodeClusterEntries f (go_range (go "cidrL4Rules") (map_to_list (cidrL4Rules st))) firewallMap.
End processor.
