(* ===== verification/FwRulesFacts.v ===== *)
(** Results about [fw_rule_processor.go] that do not need the datapath: what the text-based
    tests of the code mean for parsed networks, and the invariant of the loops that build
    the per-CIDR rule lists. *)
From S2P Require Import Prelude NetIP NetIPFacts ApiTypes Utils UtilsFacts CidrTrie FwRules.

(** * Nested networks *)

(** Every address of [a] is in [b]. *)
Definition covers (b a : IPNet) : Prop :=
  length (net_ip a) = length (net_ip b) /\ net_prefix b `prefix_of` net_prefix a.

#[global] Instance covers_dec b a : Decision (covers b a).
Proof. unfold covers. apply _. Defined.

Lemma covers_refl a : covers a a.
Proof. by split. Qed.

Lemma covers_trans a b c : covers a b -> covers b c -> covers a c.
Proof. intros [H1 H2] [H3 H4]. split; [congruence|by etrans]. Qed.

Lemma take_prefix {A} (l k : list A) n : l = take n k -> l `prefix_of` k.
Proof. intros ->. apply prefix_take. Qed.

Lemma prefix_take_eq {A} (l k : list A) : l `prefix_of` k -> l = take (length l) k.
Proof. intros [x ->]. by rewrite take_app_length. Qed.

Lemma covers_ones a b : canonical a -> canonical b -> covers b a -> (net_ones b <= net_ones a)%nat.
Proof. intros Ha Hb [_ H]. rewrite <-!length_net_prefix by done. by apply prefix_length. Qed.

Lemma covers_antisym a b :
  canonical a -> canonical b -> covers b a -> net_ones b = net_ones a -> b = a.
Proof.
  intros Ha Hb [Hl Hp] Ho. apply canonical_ext; [done..|].
  rewrite (prefix_take_eq _ _ Hp), length_net_prefix, Ho, <-length_net_prefix by done.
  by rewrite firstn_all.
Qed.

(** Two networks with a common address are nested. *)
Lemma Contains_nested a b ip :
  canonical a -> canonical b -> Contains a ip = true -> Contains b ip = true ->
  (net_ones b <= net_ones a)%nat -> covers b a.
Proof.
  intros Ha Hb Ca Cb Ho. apply Contains_bits in Ca as [La Pa], Cb as [Lb Pb]; [|done..].
  split; [congruence|]. rewrite <-Pa, <-Pb.
  apply (take_prefix _ _ (net_ones b)). rewrite take_take. f_equal. lia.
Qed.

Lemma covers_Contains a b ip :
  canonical a -> canonical b -> covers b a -> Contains a ip = true -> Contains b ip = true.
Proof.
  intros Ha Hb Hc Ca. pose proof (covers_ones a b Ha Hb Hc) as Ho. destruct Hc as [Hl Hp].
  apply Contains_bits in Ca as [La Pa]; [|done]. apply Contains_bits; [done|].
  split; [congruence|]. rewrite (prefix_take_eq _ _ Hp), length_net_prefix, <-Pa, take_take by done.
  f_equal. lia.
Qed.

Lemma Contains_self n : canonical n -> Contains n (net_ip n) = true.
Proof.
  intros Hn. apply Contains_bits; [done|]. rewrite norm_ip_width by apply Hn. done.
Qed.

(** * What the code reads off the text of a CIDR *)
Lemma cut_spec c s a b : cut c s = Some (a, b) -> s = a ++ c :: b /\ c ∉ a.
Proof.
  revert a. induction s as [|x s IH]; intros a; cbn; [done|].
  case_decide as Hx; [intros [= <- <-]; subst; split; [done|apply not_elem_of_nil]|].
  destruct (cut c s) as [[a' b']|]; [|done]. intros [= <- <-].
  destruct (IH a' eq_refl) as [-> Hn]. split; [done|]. by apply not_elem_of_cons.
Qed.

Lemma dtoi_digits n s k : dtoi_loop n s = Some (k, []) -> digits_val n s = Some k.
Proof.
  revert n. induction s as [|c s IH]; intros n; cbn; [by intros [= <-]|].
  destruct (digit_val c) as [d|]; [|by intros [= _ ?]]. case_match; [done|]. apply IH.
Qed.

Lemma digits_val_chars n s k : digits_val n s = Some k -> Forall (fun c => is_Some (digit_val c)) s.
Proof.
  revert n. induction s as [|c s IH]; intros n; cbn; [constructor|].
  destruct (digit_val c) as [d|] eqn:E; [|done]. intros H. constructor; [by eexists|by eapply IH].
Qed.

Lemma digits_val_bounds n s k : 0 <= n -> digits_val n s = Some k -> 0 <= k.
Proof.
  revert n. induction s as [|c s IH]; intros n Hn; cbn; [by intros [= <-]|].
  unfold digit_val. destruct ((48 <=? byte.unsigned c) && (byte.unsigned c <=? 57)) eqn:E; [|done].
  apply andb_true_iff in E as [E1%Z.leb_le E2%Z.leb_le]. apply IH. lia.
Qed.

Lemma Atoi_digits s k : s <> [] -> digits_val 0 s = Some k -> k < 2 ^ 63 -> Atoi s = k.
Proof.
  intros Hne Hd Hk. pose proof (digits_val_chars _ _ _ Hd) as Hc.
  destruct s as [|c s]; [done|]. apply Forall_cons in Hc as [[d Hd'] _].
  unfold Atoi. rewrite !decide_False by (intros ->; done).
  rewrite Hd. pose proof (digits_val_bounds 0 _ _ ltac:(lia) Hd). lia.
Qed.

(** A parsed CIDR text is an address, a slash and the prefix length in decimal. *)
Lemma ParseCIDR_text s a n :
  ParseCIDR s = Some (a, n) ->
  exists addr mask, s = addr ++ "/"%byte :: mask /\ ("/"%byte ∉ addr) /\ ("/"%byte ∉ mask) /\
    Atoi mask = Z.of_nat (net_ones n).
Proof.
  unfold ParseCIDR. destruct (cut _ s) as [[addr mask]|] eqn:Ec; cbn [mbind option_bind]; [|done].
  apply cut_spec in Ec as [-> Hn].
  destruct (ParseAddr addr) as [ad|] eqn:Ea; cbn [mbind option_bind]; [|done].
  destruct (dtoi_loop 0 mask) as [[k rest]|] eqn:Ed; cbn [mbind option_bind]; [|done].
  case_decide as Hd; [|done]. destruct Hd as (Hm & -> & Hk).
  apply dtoi_digits in Ed. pose proof (digits_val_chars _ _ _ Ed) as Hc.
  pose proof (digits_val_bounds 0 _ _ ltac:(lia) Ed) as Hk0.
  intros H. exists addr, mask. split; [done|]. split; [done|]. split.
  - intros Hin. rewrite Forall_forall in Hc. destruct (Hc _ Hin) as [? [=]].
  - apply ParseAddr_width in Ea. rewrite (Atoi_digits mask k); [|done|done|].
    + revert H. destruct ad as [b|b]; cbn [As16 BitLen] in *; cbn zeta.
      * rewrite (CIDRMask_bytes _ 4 : CIDRMask _ 32 = _).
        rewrite IP_Mask_4 by (done || apply length_CIDRMask_loop).
        intros H. apply Some_pair_inv in H as [_ ->]. unfold net_ones. cbn [net_mask].
        rewrite Mask_Size_mask by lia. cbn. lia.
      * rewrite (CIDRMask_bytes _ 16 : CIDRMask _ 128 = _).
        rewrite IP_Mask_6 by (done || apply length_CIDRMask_loop).
        intros H. apply Some_pair_inv in H as [_ ->]. unfold net_ones. cbn [net_mask].
        rewrite Mask_Size_mask by lia. cbn. lia.
    + destruct ad; cbn in Hk; lia.
Qed.

(** The part of a CIDR text after the slash. *)
Lemma split_CIDR s a n :
  ParseCIDR s = Some (a, n) ->
  contains_byte "/"%byte s = true /\
  exists addr mask, split_on "/"%byte s = [addr; mask] /\ Atoi mask = Z.of_nat (net_ones n).
Proof.
  intros H. destruct (ParseCIDR_text s a n H) as (addr & mask & -> & Ha & Hm & Hk).
  split; [apply bool_decide_eq_true; set_solver|].
  exists addr, mask. rewrite split_on_app_sep, split_on_single by done. done.
Qed.

Lemma ParseCIDR_ones_le s a n : ParseCIDR s = Some (a, n) -> (net_ones n <= 128)%nat.
Proof.
  intros H. destruct (ParseCIDR_eff s a n H) as (Hc & _ & _ & Hcase).
  destruct (canonical_mask _ Hc) as (Hle & _ & _).
  destruct Hcase as [[-> _]|(_ & H4 & _ & HM)].
  - destruct (proj1 Hc) as [?|[? _]]; lia.
  - unfold net_ones in *. rewrite HM. cbn [fst]. lia.
Qed.

Lemma canonical_ones_le n : canonical n -> (net_ones n <= 128)%nat.
Proof. intros H. eapply ParseCIDR_ones_le, ParseCIDR_String, H. Qed.

Lemma dec_nat_inj a b : (a <= 128)%nat -> (b <= 128)%nat -> dec_nat a = dec_nat b -> a = b.
Proof.
  intros Ha Hb H. apply (f_equal (dtoi_loop 0)) in H. rewrite !dtoi_dec_nat in H by done.
  injection H. lia.
Qed.

Lemma IPNet_String_canonical n :
  canonical n -> IPNet_String n = IP_String (net_ip n) ++ "/"%byte :: dec_nat (net_ones n).
Proof.
  intros Hn. destruct (canonical_mask n Hn) as (Hle & Hm & _).
  unfold IPNet_String. rewrite networkNumberAndMask_canonical by done.
  rewrite Hm at 1. by rewrite simpleMaskLength_mask.
Qed.

Lemma slash_notin_dec n : (n <= 128)%nat -> "/"%byte ∉ dec_nat n.
Proof.
  intros Hn Hin. pose proof (dtoi_dec_nat n Hn) as H. apply dtoi_digits, digits_val_chars in H.
  rewrite Forall_forall in H. by destruct (H _ Hin).
Qed.

Lemma split_String n :
  canonical n -> split_on "/"%byte (IPNet_String n) = [IP_String (net_ip n); dec_nat (net_ones n)].
Proof.
  intros Hn. rewrite IPNet_String_canonical by done.
  pose proof (canonical_ones_le n Hn). destruct (IP_String_parse (net_ip n) (proj1 Hn)) as [_ Hs].
  by rewrite split_on_app_sep, split_on_single by (done || by apply slash_notin_dec).
Qed.

(** [IsNonHostCIDR] looks at the mask's text only: [/32] counts as a host in IPv6 too. *)
Definition host_len (n : IPNet) : bool :=
  bool_decide (net_ones n = 32%nat) || bool_decide (net_ones n = 128%nat).

Lemma IsNonHostCIDR_String n : canonical n -> IsNonHostCIDR (IPNet_String n) = Ret (negb (host_len n)).
Proof.
  intros Hn. unfold IsNonHostCIDR. rewrite split_String by done.
  transitivity (Ret (negb (bool_decide (dec_nat (net_ones n) = dec_nat 32)) &&
                     negb (bool_decide (dec_nat (net_ones n) = dec_nat 128)))); [reflexivity|].
  pose proof (canonical_ones_le n Hn) as Hle. unfold host_len. rewrite negb_orb. f_equal.
  f_equal; f_equal; apply bool_decide_ext; (split; [apply dec_nat_inj; lia|congruence]).
Qed.

Lemma canonicalize_parsed s a n : ParseCIDR s = Some (a, n) -> canonicalize s = IPNet_String (eff n).
Proof. intros H. unfold canonicalize. rewrite H. by destruct (ParseCIDR_views s a n H) as [-> _]. Qed.

Lemma canonicalize_String n : canonical n -> canonicalize (IPNet_String n) = IPNet_String n.
Proof. intros H. unfold canonicalize. by rewrite ParseCIDR_String. Qed.

Lemma To4_mapped_form ip : length ip = 4%nat -> To4 (v4InV6Prefix ++ ip) = Some ip.
Proof.
  intros H. unfold To4. rewrite length_app, H. rewrite decide_False by done.
  rewrite decide_True; [by rewrite drop_app_length'|]. split; [done|]. by rewrite take_app_length'.
Qed.

Lemma As16_addr_inj a b : width_ok a -> width_ok b -> As16 (addr_of a) = As16 (addr_of b) -> a = b.
Proof.
  intros Ha Hb. unfold addr_of.
  destruct Ha as [Ha|[Ha Ha']], Hb as [Hb|[Hb Hb']]; repeat case_decide; cbn [As16]; intros Heq; try lia.
  - by simplify_list_eq.
  - exfalso. subst b. by rewrite To4_mapped_form in Hb'.
  - exfalso. subst a. by rewrite To4_mapped_form in Ha'.
  - done.
Qed.

Lemma isIPv6_String n : canonical n -> isIPv6 (IPNet_String n) = v6_net n.
Proof.
  intros Hn. unfold isIPv6. rewrite ParseCIDR_String by done. unfold v6_net.
  apply bool_decide_ext. unfold addr_of. destruct (proj1 Hn) as [H|[H HT]].
  - rewrite decide_True by done. cbn [As16]. rewrite To4_mapped_form by done. split; [done|lia].
  - rewrite decide_False by lia. cbn [As16]. naive_solver.
Qed.

(** * A configured processor *)

(** What [NewFirewallRuleProcessor] is called with: the node's address in the cluster's
    family and that family's host mask ([bpf_client.go], [NewBpfClient]). *)
Record processor_ok (f : FirewallRuleProcessor) (node : IP) : Prop := {
  ok_width : width_ok node;
  ok_family : enableIPv6 f = bool_decide (length node = 16%nat);
  ok_mask : hostMask f = if enableIPv6 f then go "/128" else go "/32";
  ok_node : ParseAddr (nodeIP f) = Some (addr_of node);
  ok_slash : "/"%byte ∉ nodeIP f
}.

Definition host_net (ip : IP) : IPNet := mkIPNet ip (CIDRMask_loop (length ip) (8 * length ip)).

Lemma host_net_canonical ip : width_ok ip -> canonical (host_net ip).
Proof.
  intros H. split; [done|]. exists (8 * length ip)%nat. cbn [net_ip net_mask host_net].
  split; [lia|]. split; [done|]. rewrite drop_ge by (rewrite length_ip_bits; lia).
  by rewrite Nat.sub_diag.
Qed.

Lemma host_net_ones ip : net_ones (host_net ip) = (8 * length ip)%nat.
Proof. unfold net_ones. cbn [net_mask host_net]. by rewrite Mask_Size_mask. Qed.

Lemma mask_full ip : mask_bytes ip (CIDRMask_loop (length ip) (8 * length ip)) = ip.
Proof.
  apply ip_bits_inj; [unfold mask_bytes; rewrite length_zip_with, length_CIDRMask_loop; lia|].
  rewrite mask_bits, Nat.sub_diag, app_nil_r by done. rewrite take_ge; [done|]. rewrite length_ip_bits. lia.
Qed.

Lemma ParseCIDR_node f node :
  processor_ok f node ->
  ParseCIDR (nodeIP f ++ hostMask f) = Some (As16 (addr_of node), host_net node).
Proof.
  intros [Hw Hf Hm Hn Hs]. unfold ParseCIDR.
  assert (hostMask f = "/"%byte :: dec_nat (8 * length node)) as ->.
  { rewrite Hm, Hf. destruct Hw as [H|[H _]]; rewrite H; done. }
  rewrite cut_app by done. cbn [mbind option_bind]. rewrite Hn. cbn [mbind option_bind].
  rewrite dtoi_dec_nat by (destruct Hw as [?|[? _]]; lia). cbn [mbind option_bind].
  rewrite BitLen_addr_of by done. rewrite decide_True by (split; [apply dec_nat_ne|split; [done|lia]]).
  cbn zeta. rewrite Nat2Z.id, IP_Mask_addr by done. cbn [mbind option_bind].
  rewrite mask_full. unfold host_net. by rewrite CIDRMask_bytes.
Qed.

(** A rule is skipped when its network address is the node's or it is of the other family. *)
Lemma shouldSkipRule_String f node n :
  processor_ok f node -> canonical n ->
  shouldSkipRule f (IPNet_String n) = false <-> net_ip n <> node /\ v6_net n = enableIPv6 f.
Proof.
  intros [Hw _ _ Hn _] Hc. unfold shouldSkipRule, IsNodeIP, ParseIP.
  rewrite Hn, ParseCIDR_String, isIPv6_String by done. cbn [fmap option_fmap option_map fst ip_Equal].
  assert (forall ip, width_ok ip -> length (As16 (addr_of ip)) = 16%nat) as Hlen.
  { intros ip [H|[H _]]; [rewrite addr_of_4 by done|rewrite addr_of_6 by done]; cbn [As16];
      rewrite ?length_app, H; done. }
  rewrite decide_True by (by rewrite !Hlen by (done || apply Hc)).
  case_bool_decide as He.
  - apply As16_addr_inj in He; [|done|apply Hc]. naive_solver.
  - assert (net_ip n <> node) by (intros E; apply He; by rewrite E). destruct (enableIPv6 f), (v6_net n); naive_solver.
Qed.

(** * Live rules *)

(** The text of a rule's CIDR with its mask. *)
Definition rule_text (f : FirewallRuleProcessor) (cidr : gostring) : gostring :=
  if contains_byte "/"%byte cidr then cidr else cidr ++ hostMask f.

Abbreviation netrule := (IPNet * EbpfFirewallRules)%type (only parsing).

(** The network of an address or CIDR text, when it is of the cluster's address family. *)
Definition cidr_net (f : FirewallRuleProcessor) (cidr : gostring) : option IPNet :=
  match ParseCIDR (rule_text f cidr) with
  | Some (_, n) => if decide (v6_net (eff n) = enableIPv6 f) then Some (eff n) else None
  | None => None
  end.
Definition rule_net (f : FirewallRuleProcessor) (r : EbpfFirewallRules) : option IPNet := cidr_net f (IPCidr r).

(** The rules of a policy that are about the cluster's address family, with their networks. *)
Definition policy_rules (f : FirewallRuleProcessor) (rules : list EbpfFirewallRules) : list netrule :=
  omap (fun r => (fun n => (n, r)) <$> rule_net f r) rules.

(** Those whose network does not start at the node's address; a rule for the node itself is
    redundant, since the node is always allowed. *)
Definition live_net (f : FirewallRuleProcessor) (r : EbpfFirewallRules) : option IPNet :=
  n ← rule_net f r; if decide (ParseIP (nodeIP f) = Some (As16 (addr_of (net_ip n)))) then None else Some n.
Definition live_rules (f : FirewallRuleProcessor) (rules : list EbpfFirewallRules) : list netrule :=
  omap (fun r => (fun n => (n, r)) <$> live_net f r) rules.

(** No rule on a network of several addresses starts at the node's address. *)
Definition node_hosts (f : FirewallRuleProcessor) (node : IP) (rules : list EbpfFirewallRules) : Prop :=
  forall q, q ∈ policy_rules f rules -> net_ip q.1 = node -> q.1 = host_net node.

Lemma node_hosts_nil f node : node_hosts f node [].
Proof. intros q Hq. by apply not_elem_of_nil in Hq. Qed.

(** The ports of a rule: all of them when it names none. *)
Definition ports_of (r : EbpfFirewallRules) : list Port :=
  if decide (L4Info r = []) then [catchAllL4Entry] else L4Info r.

(** The CIDR of a rule parses; in an IPv6 cluster a text that does not is ignored. *)
Definition readable (f : FirewallRuleProcessor) (r : EbpfFirewallRules) : Prop :=
  let text := rule_text f (IPCidr r) in
  is_Some (ParseCIDR text) \/ (ParseCIDR text = None /\ ParseIP text = None /\ enableIPv6 f = true).

(** Moreover the CIDR of a live rule is not written in IPv4-mapped form, and it is not an IPv6
    [/32], which [IsNonHostCIDR] takes for a host. *)
Definition rule_ok (f : FirewallRuleProcessor) (r : EbpfFirewallRules) : Prop :=
  readable f r /\
  forall a n, ParseCIDR (rule_text f (IPCidr r)) = Some (a, n) -> live_net f r <> None ->
    eff n = n /\ (enableIPv6 f = true -> net_ones n <> 32%nat).

Record live_ok (f : FirewallRuleProcessor) (node : IP) (n : IPNet) : Prop := {
  lo_canonical : canonical n;
  lo_family : v6_net n = enableIPv6 f;
  lo_node : net_ip n <> node;
  lo_host : host_len n = true -> net_ones n = (8 * length (net_ip n))%nat
}.

Lemma rule_net_parsed f r n :
  rule_net f r = Some n ->
  exists a n', ParseCIDR (rule_text f (IPCidr r)) = Some (a, n') /\ n = eff n' /\ canonical n /\
    v6_net n = enableIPv6 f /\ normalizeCIDR f (IPCidr r) = IPNet_String n.
Proof.
  unfold rule_net, cidr_net. destruct (ParseCIDR _) as [[a n']|] eqn:E; [|done]. case_decide as Hv; [|done]. intros [= <-].
  exists a, n'. split; [done|]. split; [done|]. split; [by destruct (ParseCIDR_eff _ _ _ E)|]. split; [done|].
  unfold normalizeCIDR. fold (rule_text f (IPCidr r)). by eapply canonicalize_parsed.
Qed.

Lemma live_net_Some f node r n :
  processor_ok f node -> live_net f r = Some n <-> rule_net f r = Some n /\ net_ip n <> node.
Proof.
  intros Hp. unfold live_net. destruct (rule_net f r) as [m|] eqn:E; cbn [mbind option_bind]; [|naive_solver].
  destruct (rule_net_parsed f r m E) as (_ & _ & _ & _ & Hc & _).
  unfold ParseIP. rewrite (ok_node _ _ Hp). cbn [fmap option_fmap option_map]. case_decide as Hd.
  - split; [done|]. intros [[= <-] Hn]. injection Hd as Hd. destruct Hn. symmetry. by apply As16_addr_inj; [apply Hp|apply Hc|].
  - split; [intros [= <-]|by intros [[= <-] _]]. split; [done|]. intros Heq. apply Hd. by rewrite Heq.
Qed.

Lemma live_net_parsed f r n :
  live_net f r = Some n ->
  exists a n', ParseCIDR (rule_text f (IPCidr r)) = Some (a, n') /\ n = eff n' /\ normalizeCIDR f (IPCidr r) = IPNet_String n.
Proof.
  unfold live_net. destruct (rule_net f r) as [m|] eqn:E; cbn [mbind option_bind]; [|done]. case_decide; [done|]. intros [= <-].
  destruct (rule_net_parsed f r m E) as (a & n' & ? & ? & _ & _ & ?). eauto.
Qed.

(** The code skips exactly the rules that are not live. *)
Lemma skip_live f node r :
  processor_ok f node -> readable f r -> shouldSkipRule f (normalizeCIDR f (IPCidr r)) = bool_decide (live_net f r = None).
Proof.
  intros Hp [[[a n] HP]|(HN & Hip & Hv)].
  - assert (normalizeCIDR f (IPCidr r) = IPNet_String (eff n)) as -> by (by eapply canonicalize_parsed).
    destruct (ParseCIDR_eff _ _ _ HP) as (Hc & _). pose proof (shouldSkipRule_String f node (eff n) Hp Hc) as Hs.
    assert (live_net f r = Some (eff n) <-> net_ip (eff n) <> node /\ v6_net (eff n) = enableIPv6 f) as Hl.
    { rewrite (live_net_Some f node) by done. unfold rule_net, cidr_net. rewrite HP. case_decide; naive_solver. }
    case_bool_decide as Hd.
    + apply not_false_iff_true. intros Hf%Hs%Hl. congruence.
    + apply Hs, Hl. destruct (live_net f r) as [m|] eqn:E; [|done].
      destruct (live_net_parsed f r m E) as (a' & n' & HP' & -> & _). congruence.
  - assert (normalizeCIDR f (IPCidr r) = rule_text f (IPCidr r)) as ->.
    { unfold normalizeCIDR. fold (rule_text f (IPCidr r)). unfold canonicalize. by rewrite HN. }
    assert (live_net f r = None) as -> by (unfold live_net, rule_net, cidr_net; by rewrite HN).
    unfold shouldSkipRule, IsNodeIP, isIPv6, ParseIP in *. rewrite HN, (ok_node _ _ Hp), Hv in *.
    destruct (ParseAddr (rule_text f (IPCidr r))); done.
Qed.

Lemma live_not_skipped f node r n :
  processor_ok f node -> live_net f r = Some n -> shouldSkipRule f (IPNet_String n) = false.
Proof.
  intros Hp Hl. destruct (live_net_parsed f r n Hl) as (a & n' & HP & _ & <-).
  rewrite (skip_live f node) by (done || (left; eauto)). by rewrite Hl.
Qed.

Lemma v6_length n : canonical n -> length (net_ip n) = if v6_net n then 16%nat else 4%nat.
Proof. intros [[H|[H _]] _]; unfold v6_net; case_bool_decide; lia. Qed.

Lemma live_net_ok f node r n :
  processor_ok f node -> rule_ok f r -> live_net f r = Some n -> live_ok f node n.
Proof.
  intros Hp [_ Hr] Hl. destruct (live_net_parsed f r n Hl) as (a & n' & HP & -> & _).
  apply (live_net_Some f node) in Hl as Hl'; [|done]. destruct Hl' as [Hn Hnode].
  destruct (rule_net_parsed f r _ Hn) as (_ & _ & _ & _ & Hc & Hfam & _).
  destruct (Hr a n' HP) as [Heff H32]; [by rewrite Hl|]. rewrite Heff in *.
  split; [done|done|done|]. intros Hh. rewrite v6_length, Hfam by done.
  destruct (canonical_mask n' Hc) as (Hle & _ & _). rewrite v6_length, Hfam in Hle by done.
  apply orb_true_iff in Hh as [Hh%bool_decide_eq_true|Hh%bool_decide_eq_true];
    destruct (enableIPv6 f); [by apply H32 in Hh|lia..].
Qed.

(** The sort key of a live rule is its prefix length. *)
Lemma rulePrefixLen_live f node r n :
  processor_ok f node -> rule_ok f r -> live_net f r = Some n ->
  rulePrefixLen (hostMask f) r = ones_key n.
Proof.
  intros Hp [_ Hr] Hl. destruct (live_net_parsed f r n Hl) as (a & n' & HP & -> & HN).
  destruct (Hr a n' HP) as [Heff _]; [by rewrite Hl|]. rewrite Heff. unfold ones_key.
  unfold rulePrefixLen, rule_text in *. destruct (contains_byte "/"%byte (IPCidr r)) eqn:Ec.
  - destruct (split_CIDR _ _ _ HP) as (_ & addr & mask & -> & Hk). by rewrite <-Hk.
  - apply bool_decide_eq_false in Ec.
    assert (hostMask f = "/"%byte :: drop 1 (hostMask f)) as Hm.
    { rewrite (ok_mask _ _ Hp). by destruct (enableIPv6 f). }
    assert ("/"%byte ∉ drop 1 (hostMask f)) as Hd.
    { rewrite (ok_mask _ _ Hp). destruct (enableIPv6 f); apply (bool_decide_unpack _); vm_compute; exact I. }
    destruct (split_CIDR _ _ _ HP) as (_ & addr & mask & Hsp & Hk).
    rewrite Hm in Hsp. rewrite split_on_app_sep, split_on_single in Hsp by done.
    injection Hsp as _ Hmask. rewrite Hm.
    change ("/"%byte :: drop 1 (hostMask f)) with ([] ++ "/"%byte :: drop 1 (hostMask f)).
    rewrite split_on_app_sep, split_on_single by (done || apply not_elem_of_nil).
    cbn [nth]. by rewrite Hmask, Hk.
Qed.

(** * The loop over the rules *)

(** The entry a live rule leaves in [cidrsMap]. *)
Definition new_entry (st : loopState) (n : IPNet) (r : EbpfFirewallRules) : EbpfFirewallRules :=
  let inherited :=
    match cidrsMap st !! IPNet_String n with
    | Some e => (L4Info e, fw_Except e)
    | None => (checkAndDeriveL4InfoFromAnyMatchingCIDRsTrie (IPNet_String n) (containmentTrie st)
                 (nonHostCIDRs st), [])
    end in
  mkEbpfFirewallRules (fw_Priority r) (fw_Action r) (fw_DomainName r) (IPNet_String n)
    (fw_Except r ++ inherited.2) (ports_of r ++ inherited.1).

Definition live_step (st : loopState) (n : IPNet) (r : EbpfFirewallRules) : loopState :=
  let key := IPNet_String n in
  let e := new_entry st n r in
  mkLoopState (<[key := e]> (cidrsMap st)) (list_to_set (fw_Except r) ∪ exceptCidrs st)
    (if host_len n then nonHostCIDRs st else <[key := e]> (nonHostCIDRs st))
    (if host_len n || bool_decide (is_Some (nonHostCIDRs st !! key)) then containmentTrie st
     else insert (containmentTrie st) key).

Lemma processRule_live f node st r n :
  processor_ok f node -> live_net f r = Some n -> canonical n -> processRule f st r = Ret (live_step st n r).
Proof.
  intros Hp Hl Hc. pose proof (live_not_skipped f node r n Hp Hl) as Hs. destruct (live_net_parsed f r n Hl) as (a & n' & HP & -> & HN).
  unfold processRule. fold (rule_text f (IPCidr r)).
  change (canonicalize (rule_text f (IPCidr r))) with (normalizeCIDR f (IPCidr r)).
  rewrite HN, Hs, IsNonHostCIDR_String by done. unfold_outcome.
  set (m := eff n') in *.
  assert (forall r', r' = set_IPCidr (IPNet_String m) r ->
    match cidrsMap st !! IPNet_String m with
    | Some existing =>
        set_Except (fw_Except (if decide (L4Info r' = []) then addCatchAllL4Entry r' else r') ++ fw_Except existing)
          (set_L4Info (L4Info (if decide (L4Info r' = []) then addCatchAllL4Entry r' else r') ++ L4Info existing)
             (if decide (L4Info r' = []) then addCatchAllL4Entry r' else r'))
    | None =>
        set_L4Info (L4Info (if decide (L4Info r' = []) then addCatchAllL4Entry r' else r') ++
          checkAndDeriveL4InfoFromAnyMatchingCIDRsTrie (IPNet_String m) (containmentTrie st) (nonHostCIDRs st))
          (if decide (L4Info r' = []) then addCatchAllL4Entry r' else r')
    end = new_entry st m r) as He.
  { intros r' ->. unfold new_entry, ports_of. destruct r as [? ? ? ? ex l4]. cbn [L4Info set_IPCidr fw_Except].
    destruct l4 as [|p l4]; [rewrite !decide_True by done|rewrite !decide_False by done];
      destruct (cidrsMap st !! IPNet_String m); cbn; by rewrite ?app_nil_r. }
  rewrite (He _ eq_refl). unfold live_step.
  destruct (host_len m); cbn [negb orb]; [done|]. by destruct (bool_decide _).
Qed.

Lemma processRule_skipped f st r :
  shouldSkipRule f (normalizeCIDR f (IPCidr r)) = true -> processRule f st r = Ret st.
Proof.
  intros H. unfold processRule. fold (rule_text f (IPCidr r)).
  change (canonicalize (rule_text f (IPCidr r))) with (normalizeCIDR f (IPCidr r)). by rewrite H.
Qed.

(** The state after the live rules [P]: one entry per network, holding the ports of the
    rules that cover it and the excepts of the rules on it. *)
Record loop_inv (P : list netrule) (st : loopState) : Prop := {
  inv_dom : forall key, is_Some (cidrsMap st !! key) <-> exists q, q ∈ P /\ key = IPNet_String q.1;
  inv_ports : forall q e p, q ∈ P -> cidrsMap st !! IPNet_String q.1 = Some e ->
    p ∈ L4Info e <-> exists q', q' ∈ P /\ covers q'.1 q.1 /\ p ∈ ports_of q'.2;
  inv_excepts : forall q e x, q ∈ P -> cidrsMap st !! IPNet_String q.1 = Some e ->
    x ∈ fw_Except e <-> exists q', q' ∈ P /\ q'.1 = q.1 /\ x ∈ fw_Except q'.2;
  inv_nonHost : forall q, q ∈ P ->
    nonHostCIDRs st !! IPNet_String q.1 = if host_len q.1 then None else cidrsMap st !! IPNet_String q.1;
  inv_nonHost_dom : forall key, is_Some (nonHostCIDRs st !! key) -> is_Some (cidrsMap st !! key);
  inv_trie : exists nets, trie_repr (containmentTrie st) nets /\
    forall n, n ∈ nets <-> (exists q, q ∈ P /\ q.1 = n) /\ host_len n = false;
  inv_exceptCidrs : forall x, x ∈ exceptCidrs st <-> exists q, q ∈ P /\ x ∈ fw_Except q.2
}.

Lemma loop_inv_empty : loop_inv [] emptyState.
Proof.
  split; cbn.
  - intros key. rewrite lookup_empty. split; [by intros []|set_solver].
  - set_solver.
  - set_solver.
  - set_solver.
  - intros key. rewrite lookup_empty. by intros [].
  - exists []. split; [apply repr_new|]. set_solver.
  - set_solver.
Qed.

(** An except of one rule meets no other rule, unless that rule has the same CIDR and the
    same except; it lies strictly inside its own rule's CIDR. *)
Definition disjoint_nets (a b : IPNet) : Prop := forall ip, Contains a ip = true -> Contains b ip = false.

Definition except_ok (f : FirewallRuleProcessor) (node : IP) (L : list netrule) (q : netrule) (x : gostring) : Prop :=
  exists a e, ParseCIDR x = Some (a, e) /\ eff e = e /\ v6_net e = enableIPv6 f /\ e <> host_net node /\
    (net_ones q.1 < net_ones e)%nat /\
    forall q', q' ∈ L -> (q'.1 = q.1 /\ x ∈ fw_Except q'.2) \/ disjoint_nets e q'.1.

Definition excepts_ok (f : FirewallRuleProcessor) (node : IP) (L : list netrule) : Prop :=
  forall q x, q ∈ L -> x ∈ fw_Except q.2 -> except_ok f node L q x.

Lemma foundInExcept_true ip xs :
  foundInExcept ip xs = true <-> exists x a e, x ∈ xs /\ ParseCIDR x = Some (a, e) /\ Contains e ip = true.
Proof.
  unfold foundInExcept. rewrite existsb_exists. split.
  - intros (x & Hx & H). apply list_elem_of_In in Hx. destruct (ParseCIDR x) as [[a e]|] eqn:E; [|done]. eauto 8.
  - intros (x & a & e & Hx & HP & Hc). exists x. split; [by apply list_elem_of_In|]. by rewrite HP.
Qed.

Section loop.
Context (f : FirewallRuleProcessor) (node : IP) (L : list netrule).
Context (HL : forall q, q ∈ L -> live_ok f node q.1) (HE : excepts_ok f node L).

(** What a new CIDR inherits: the ports of every rule that covers it. *)
Lemma derive_ports P st n r p :
  loop_inv P st -> (forall q, q ∈ P -> q ∈ L) -> (n, r) ∈ L ->
  (forall q, q ∈ P -> net_ones q.1 <= net_ones n)%nat ->
  (forall q, q ∈ P -> q.1 <> n) ->
  p ∈ checkAndDeriveL4InfoFromAnyMatchingCIDRsTrie (IPNet_String n) (containmentTrie st) (nonHostCIDRs st) <->
  exists q, q ∈ P /\ covers q.1 n /\ p ∈ ports_of q.2.
Proof.
  intros Hinv HP Hn Hsort Hnew. pose proof (lo_canonical _ _ _ (HL _ Hn)) as Hc. cbn in Hc.
  assert (forall q, q ∈ P -> canonical q.1) as Hcan by (intros q Hq; apply (lo_canonical f node), HL; auto).
  unfold checkAndDeriveL4InfoFromAnyMatchingCIDRsTrie. rewrite ParseCIDR_String by done.
  destruct (inv_trie _ _ Hinv) as (nets & Hr & Hnets).
  destruct (find_repr _ _ (net_ip n) Hr) as (ns & -> & _ & Hin).
  assert (forall q e, q ∈ P -> cidrsMap st !! IPNet_String q.1 = Some e ->
        foundInExcept (net_ip n) (fw_Except e) = false) as Hex.
  { intros q e Hq He. destruct (foundInExcept _ _) eqn:E; [exfalso|done].
    apply foundInExcept_true in E as (x & a & m & Hx & HPx & Hcx).
    apply (inv_excepts _ _ Hinv q e x Hq He) in Hx as (q' & Hq' & Hqq & Hx).
    destruct (HE q' x (HP _ Hq') Hx) as (a' & e' & HPx' & _ & _ & _ & _ & Hall).
    assert (e' = m) as -> by congruence.
    destruct (Hall _ Hn) as [[Heq _]|Hd]; [cbn in Heq; by apply (Hnew q')|].
    specialize (Hd _ Hcx). cbn in Hd. rewrite Contains_self in Hd; done. }
  rewrite list_elem_of_bind. split.
  - intros (key & Hp & Hkey). apply list_elem_of_fmap in Hkey as (m & -> & Hm).
    apply Hin in Hm as [Hm Hcm]. apply Hnets in Hm as [(q & Hq & <-) Hh].
    rewrite (inv_nonHost _ _ Hinv q Hq), Hh in Hp.
    destruct (cidrsMap st !! IPNet_String q.1) as [e|] eqn:He; [|by apply not_elem_of_nil in Hp].
    rewrite (Hex q e Hq He) in Hp.
    apply (inv_ports _ _ Hinv q e p Hq He) in Hp as (q' & Hq' & Hcov & Hp).
    exists q'. split; [done|]. split; [|done]. eapply covers_trans; [done|].
    eapply (Contains_nested n q.1 (net_ip n)); auto using Contains_self.
  - intros (q & Hq & Hcov & Hp). exists (IPNet_String q.1).
    assert (host_len q.1 = false) as Hh.
    { destruct (host_len q.1) eqn:Hh; [exfalso|done].
      apply (lo_host _ _ _ (HL q (HP q Hq))) in Hh. apply (Hnew q Hq).
      apply covers_antisym; [done|auto|done|].
      pose proof (covers_ones n q.1 Hc (Hcan q Hq) Hcov) as Ho.
      destruct (canonical_mask n Hc) as (Hle & _ & _). destruct Hcov as [Hlen _]. lia. }
    split.
    + rewrite (inv_nonHost _ _ Hinv q Hq), Hh.
      destruct (proj2 (inv_dom _ _ Hinv (IPNet_String q.1))) as [e He]; [eauto|].
      rewrite He, (Hex q e Hq He). apply (inv_ports _ _ Hinv q e p Hq He).
      exists q. split; [done|]. split; [apply covers_refl|done].
    + apply list_elem_of_fmap. exists q.1. split; [done|]. apply Hin. split.
      * apply Hnets. eauto.
      * eapply covers_Contains; [done|auto|done|by apply Contains_self].
Qed.

Lemma live_String_inj q q' : q ∈ L -> q' ∈ L -> IPNet_String q.1 = IPNet_String q'.1 -> q.1 = q'.1.
Proof. intros Hq Hq'. apply IPNet_String_inj; by eapply lo_canonical, HL. Qed.

(** One iteration, with [P] the live rules before it. *)
Section step.
Context (P : list netrule) (st : loopState) (n : IPNet) (r : EbpfFirewallRules).
Context (Hinv : loop_inv P st) (HP : forall q, q ∈ P -> q ∈ L) (Hn : (n, r) ∈ L).
Context (Hsort : forall q, q ∈ P -> (net_ones q.1 <= net_ones n)%nat).
Let P' := P ++ [(n, r)].

Lemma step_mem q : q ∈ P' <-> q ∈ P \/ q = (n, r).
Proof. unfold P'. set_solver. Qed.

Lemma step_live q : q ∈ P' -> q ∈ L.
Proof. intros [?| ->]%step_mem; auto. Qed.

Lemma step_canonical q : q ∈ P' -> canonical q.1.
Proof. intros Hq. by eapply lo_canonical, HL, step_live. Qed.

Lemma step_inj q : q ∈ P' -> IPNet_String q.1 = IPNet_String n -> q.1 = n.
Proof. intros Hq. apply (live_String_inj q (n, r)); auto using step_live. Qed.

Lemma step_ne q : q ∈ P' -> q.1 <> n -> IPNet_String n <> IPNet_String q.1.
Proof. intros Hq Hne Heq. by apply Hne, step_inj. Qed.

(** No earlier CIDR is strictly inside the new one. *)
Lemma step_not_inside q : q ∈ P -> covers n q.1 -> q.1 = n.
Proof.
  intros Hq Hc. symmetry. pose proof (Hsort q Hq).
  assert (canonical n) by (apply (step_canonical (n, r)), step_mem; auto).
  assert (canonical q.1) by (apply step_canonical, step_mem; auto).
  apply covers_antisym; [done..|]. apply Nat.le_antisymm; auto using covers_ones.
Qed.

Lemma step_existing e :
  cidrsMap st !! IPNet_String n = Some e -> exists q, q ∈ P /\ q.1 = n.
Proof.
  intros Ee. destruct (proj1 (inv_dom _ _ Hinv _) (mk_is_Some _ _ Ee)) as (q & Hq & Hs).
  exists q. split; [done|]. apply step_inj; [by apply step_mem; left|done].
Qed.

Lemma step_absent : cidrsMap st !! IPNet_String n = None -> forall q, q ∈ P -> q.1 <> n.
Proof.
  intros HN q Hq Hqn. apply eq_None_not_Some in HN. apply HN, (inv_dom _ _ Hinv).
  exists q. by rewrite Hqn.
Qed.

Lemma step_ports p :
  p ∈ L4Info (new_entry st n r) <-> exists q, q ∈ P' /\ covers q.1 n /\ p ∈ ports_of q.2.
Proof.
  unfold new_entry. cbn [L4Info]. rewrite elem_of_app. split.
  - intros [Hp|Hp]; [exists (n, r); rewrite step_mem; auto using covers_refl|].
    enough (exists q, q ∈ P /\ covers q.1 n /\ p ∈ ports_of q.2) as (q & Hq & ?)
      by (exists q; rewrite step_mem; auto).
    destruct (cidrsMap st !! IPNet_String n) as [e|] eqn:Ee; cbn [fst] in Hp.
    + destruct (step_existing e Ee) as (q & Hq & <-). by apply (inv_ports P st Hinv q e).
    + eapply derive_ports in Hp; eauto using step_absent.
  - intros (q & [Hq| ->]%step_mem & Hc & Hp); [right|by left].
    destruct (cidrsMap st !! IPNet_String n) as [e|] eqn:Ee; cbn [fst].
    + destruct (step_existing e Ee) as (q' & Hq' & <-). apply (inv_ports P st Hinv q' e); eauto.
    + eapply derive_ports; eauto using step_absent.
Qed.

Lemma step_excepts x :
  x ∈ fw_Except (new_entry st n r) <-> exists q, q ∈ P' /\ q.1 = n /\ x ∈ fw_Except q.2.
Proof.
  unfold new_entry. cbn [fw_Except]. rewrite elem_of_app. split.
  - intros [Hx|Hx]; [exists (n, r); rewrite step_mem; auto|].
    destruct (cidrsMap st !! IPNet_String n) as [e|] eqn:Ee; cbn [snd] in Hx; [|by apply not_elem_of_nil in Hx].
    destruct (step_existing e Ee) as (q & Hq & Hqn). rewrite <-Hqn in Ee.
    apply (inv_excepts P st Hinv q e) in Hx as (q' & ? & ? & ?); [|done..].
    exists q'. rewrite step_mem. split; [auto|]. split; [congruence|done].
  - intros (q & [Hq| ->]%step_mem & Hc & Hx); [right|by left].
    destruct (cidrsMap st !! IPNet_String n) as [e|] eqn:Ee; cbn [snd]; [|by apply step_absent in Hc].
    subst n. apply (inv_excepts P st Hinv q e); eauto.
Qed.

Lemma step_nonHost q :
  q ∈ P' -> nonHostCIDRs (live_step st n r) !! IPNet_String q.1 =
    if host_len q.1 then None else cidrsMap (live_step st n r) !! IPNet_String q.1.
Proof.
  intros Hq. cbn [live_step cidrsMap nonHostCIDRs]. destruct (decide (q.1 = n)) as [Hqn|Hqn].
  - rewrite Hqn. destruct (host_len n) eqn:Hh; [|by rewrite !lookup_insert_eq].
    destruct (nonHostCIDRs st !! IPNet_String n) as [e'|] eqn:En; [exfalso|done].
    destruct (inv_nonHost_dom _ _ Hinv _ (mk_is_Some _ _ En)) as [e He].
    destruct (step_existing e He) as (q' & Hq' & Hqn').
    pose proof (inv_nonHost _ _ Hinv q' Hq') as Hnh. rewrite Hqn', Hh in Hnh. congruence.
  - pose proof (step_ne q Hq Hqn). apply step_mem in Hq as [Hq| ->]; [|done].
    rewrite (lookup_insert_ne (cidrsMap st)) by done.
    destruct (host_len n); rewrite ?lookup_insert_ne by done; by apply (inv_nonHost P st).
Qed.

Lemma step_trie :
  exists nets, trie_repr (containmentTrie (live_step st n r)) nets /\
  forall m, m ∈ nets <-> (exists q, q ∈ P' /\ q.1 = m) /\ host_len m = false.
Proof.
  cbn [live_step containmentTrie]. destruct (inv_trie _ _ Hinv) as (nets & Hr & Hnets).
  destruct (host_len n || _) eqn:Hb.
  - exists nets. split; [done|]. intros m. rewrite Hnets. split; intros [(q & Hq & <-) Hm].
    + split; [exists q; rewrite step_mem; auto|done].
    + apply step_mem in Hq as [Hq| ->]; [eauto|]. cbn in *. rewrite Hm in Hb.
      apply bool_decide_eq_true, (inv_nonHost_dom _ _ Hinv) in Hb as [e He].
      destruct (step_existing e He) as (q & ? & ?). eauto.
  - apply orb_false_iff in Hb as [Hh _].
    assert (canonical n) as Hc by (apply (step_canonical (n, r)), step_mem; auto).
    exists (n :: nets). split.
    + rewrite <-(eff_canonical n Hc) at 2. eapply repr_insert; [done|]. by rewrite ParseCIDR_String.
    + intros m. rewrite elem_of_cons, Hnets. split.
      * intros [->|[(q & Hq & <-) Hm]]; [split; [exists (n, r)|done]|split; [exists q|done]];
          rewrite step_mem; auto.
      * intros [(q & Hq & <-) Hm]. apply step_mem in Hq as [Hq| ->]; [right; eauto|by left].
Qed.

Lemma live_step_inv : loop_inv P' (live_step st n r).
Proof.
  split; [| | |apply step_nonHost| |apply step_trie|];
    cbn [live_step cidrsMap exceptCidrs nonHostCIDRs].
  - intros key. destruct (decide (key = IPNet_String n)) as [->|Hk].
    + rewrite lookup_insert_eq. split; [|eauto]. intros _. exists (n, r). rewrite step_mem. auto.
    + rewrite lookup_insert_ne by done. rewrite (inv_dom _ _ Hinv). split; intros (q & Hq & ->).
      * exists q. rewrite step_mem. auto.
      * apply step_mem in Hq as [Hq| ->]; [eauto|done].
  - intros q e p Hq. destruct (decide (q.1 = n)) as [Hqn|Hqn].
    + rewrite Hqn, lookup_insert_eq. intros [= <-]. apply step_ports.
    + rewrite lookup_insert_ne by (by apply step_ne).
      apply step_mem in Hq as [Hq| ->]; [|done]. intros He. rewrite (inv_ports _ _ Hinv q e p Hq He).
      split; intros (q' & Hq' & Hc & Hp); exists q'; [rewrite step_mem; auto|].
      apply step_mem in Hq' as [?| ->]; [auto|]. exfalso. by apply Hqn, step_not_inside.
  - intros q e x Hq. destruct (decide (q.1 = n)) as [Hqn|Hqn].
    + rewrite Hqn, lookup_insert_eq. intros [= <-]. apply step_excepts.
    + rewrite lookup_insert_ne by (by apply step_ne).
      apply step_mem in Hq as [Hq| ->]; [|done]. intros He. rewrite (inv_excepts _ _ Hinv q e x Hq He).
      split; intros (q' & Hq' & Hc & Hp); exists q'; [rewrite step_mem; auto|].
      apply step_mem in Hq' as [?| ->]; [auto|]. done.
  - intros key. destruct (decide (key = IPNet_String n)) as [->|Hk]; [rewrite lookup_insert_eq; eauto|].
    rewrite lookup_insert_ne by done.
    destruct (host_len n); rewrite ?lookup_insert_ne by done; apply (inv_nonHost_dom _ _ Hinv).
  - intros x. rewrite elem_of_union, elem_of_list_to_set, (inv_exceptCidrs _ _ Hinv). split.
    + intros [Hx|(q & Hq & Hx)]; [exists (n, r)|exists q]; rewrite step_mem; auto.
    + intros (q & [Hq| ->]%step_mem & Hx); [right; eauto|by left].
Qed.
End step.
End loop.

Lemma elem_of_live_rules f rules q :
  q ∈ live_rules f rules <-> q.2 ∈ rules /\ live_net f q.2 = Some q.1.
Proof.
  unfold live_rules. rewrite list_elem_of_omap. split.
  - intros (r & Hr & H). apply fmap_Some in H as (n & Hn & ->). done.
  - intros [Hr Hl]. exists q.2. split; [done|]. rewrite Hl. by destruct q.
Qed.

Lemma live_rules_cons f r rules :
  live_rules f (r :: rules) =
  match live_net f r with Some n => (n, r) :: live_rules f rules | None => live_rules f rules end.
Proof. unfold live_rules. cbn. by destruct (live_net f r). Qed.

Lemma loop_inv_ext P P' st : (forall q, q ∈ P <-> q ∈ P') -> loop_inv P st -> loop_inv P' st.
Proof.
  intros Hx [H1 H2 H3 H4 H5 (nets & H6 & H6') H7].
  split; try setoid_rewrite <-Hx; try done. by exists nets.
Qed.

Lemma processRules_inv f node L rules P st :
  processor_ok f node -> excepts_ok f node L ->
  (forall q, q ∈ L -> live_ok f node q.1) ->
  Forall (rule_ok f) rules ->
  (forall q, q ∈ P \/ q ∈ live_rules f rules -> q ∈ L) ->
  (forall q r n, q ∈ P -> r ∈ rules -> live_net f r = Some n -> net_ones q.1 <= net_ones n)%nat ->
  StronglySorted (key_le (rulePrefixLen (hostMask f))) rules ->
  loop_inv P st ->
  exists st', processRules f rules st = Ret st' /\ loop_inv (P ++ live_rules f rules) st'.
Proof.
  intros Hp HE HL. unfold processRules. revert P st. induction rules as [|r rules IH]; intros P st Hok HPL Hle Hs Hinv.
  { exists st. split; [done|]. by rewrite app_nil_r. }
  apply Forall_cons in Hok as [Hr Hok]. apply StronglySorted_inv in Hs as [Hs Hhd].
  rewrite Forall_forall in Hhd. rewrite live_rules_cons in HPL |- *. cbn [for_range].
  destruct (live_net f r) as [n|] eqn:El.
  - pose proof (live_net_ok f node r n Hp Hr El) as Hlo.
    rewrite (processRule_live f node st r n Hp El (lo_canonical _ _ _ Hlo)). cbn [mbind outcome_bind].
    destruct (IH (P ++ [(n, r)]) (live_step st n r)) as (st' & Hst' & Hinv').
    + done.
    + intros q Hq. apply HPL. set_solver.
    + intros q r' n' Hq Hr' Hl'. apply elem_of_app in Hq as [Hq|Hq%list_elem_of_singleton].
      * apply (Hle q r' n'); set_solver.
      * subst q. cbn. specialize (Hhd r' Hr'). unfold key_le in Hhd.
        rewrite Forall_forall in Hok.
        rewrite (rulePrefixLen_live f node r n), (rulePrefixLen_live f node r' n') in Hhd by auto.
        unfold ones_key in Hhd. lia.
    + done.
    + apply (live_step_inv f node L); [done|done|done| | |].
      * intros q Hq. apply HPL. auto.
      * apply HPL. set_solver.
      * intros q Hq. apply (Hle q r n); set_solver.
    + exists st'. split; [done|]. by rewrite <-app_assoc in Hinv'.
  - rewrite processRule_skipped by (rewrite (skip_live f node), El by (done || apply Hr); done). cbn [mbind outcome_bind].
    apply IH; auto. intros q r' n' Hq Hr'. apply Hle; set_solver.
Qed.

Lemma sort_rules f node rules :
  processor_ok f node ->
  exists sorted, sortFirewallRulesByPrefixLength rules (hostMask f) = Ret sorted /\
    sorted ≡ₚ rules /\ StronglySorted (key_le (rulePrefixLen (hostMask f))) sorted.
Proof.
  intros Hp. unfold sortFirewallRulesByPrefixLength. case_decide as Hlen.
  - assert (exists m, index (split_on "/"%byte (hostMask f)) 1 = Ret m) as [m ->].
    { rewrite (ok_mask _ _ Hp). destruct (enableIPv6 f); eexists; vm_compute; reflexivity. }
    eexists. split; [reflexivity|]. split; [apply slice_stable_perm|apply slice_stable_sorted].
  - exists rules. split; [done|]. split; [done|].
    destruct rules as [|r [|r' rules]]; [constructor|repeat constructor|cbn in Hlen; lia].
Qed.

(** The loop never panics on such rules and ends in the state the invariant describes. *)
Lemma processRules_result f node rules :
  processor_ok f node -> Forall (rule_ok f) rules -> excepts_ok f node (live_rules f rules) ->
  exists sorted st, sortFirewallRulesByPrefixLength rules (hostMask f) = Ret sorted /\
    processRules f sorted emptyState = Ret st /\ loop_inv (live_rules f rules) st.
Proof.
  intros Hp Hok HE. destruct (sort_rules f node rules Hp) as (sorted & Hsort & Hperm & Hs).
  assert (forall q, q ∈ live_rules f sorted <-> q ∈ live_rules f rules) as Hmem.
  { intros q. rewrite !elem_of_live_rules. by rewrite Hperm. }
  assert (Forall (rule_ok f) sorted) as Hok' by (by rewrite Hperm).
  destruct (processRules_inv f node (live_rules f rules) sorted [] emptyState) as (st & Hst & Hinv).
  - done.
  - done.
  - intros q [Hq Hl]%elem_of_live_rules. rewrite Forall_forall in Hok. by eapply live_net_ok; eauto.
  - done.
  - intros q [?%not_elem_of_nil|Hq]; [done|by apply Hmem].
  - intros q r n ?%not_elem_of_nil. done.
  - done.
  - apply loop_inv_empty.
  - exists sorted, st. split; [done|]. split; [done|]. eapply loop_inv_ext; [|exact Hinv]. exact Hmem.
Qed.

(** * Excepts and encoding *)
Definition deny_entry (key : gostring) : EbpfFirewallRules :=
  mkEbpfFirewallRules 0 [] [] key [] [denyAllL4Entry].

Lemma addExcepts_lookup l m key :
  foldl addExcept m l !! key =
  match m !! key with
  | Some e => Some e
  | None => if decide (key ∈ canonicalize <$> l) then Some (deny_entry key) else None
  end.
Proof.
  revert m. induction l as [|x l IH]; intros m; cbn [foldl fmap list_fmap].
  { rewrite decide_False by apply not_elem_of_nil. by destruct (m !! key). }
  rewrite IH. unfold addExcept. destruct (m !! canonicalize x) as [e'|] eqn:Ex.
  - destruct (m !! key) as [e|] eqn:Ek; [done|].
    assert (key <> canonicalize x) by congruence.
    repeat case_decide; set_solver.
  - destruct (decide (key = canonicalize x)) as [->|Hne].
    + rewrite lookup_insert_eq, Ex. rewrite decide_True by set_solver. done.
    + rewrite lookup_insert_ne by done. destruct (m !! key); [done|].
      repeat case_decide; set_solver.
Qed.
