(* ===== verification/Datapath.v ===== *)
(** [pkg/ebpf/c/tc.v4ingress.bpf.c]: the evaluation of a packet against the maps the agent
    writes, from the parsed headers on.  The other three classifiers evaluate the same way
    on their own maps.

    The lookup in a [BPF_MAP_TYPE_LPM_TRIE] is the kernel's: it is a parameter ([LPM]) with
    its documented law, longest matching prefix, and [lpm_scan] is an instance. *)
From S2P Require Import Prelude NetIP NetIPFacts ApiTypes Utils.

(** * The kernel's longest-prefix-match map *)

(** A key is a 32-bit prefix length and the address bytes. *)
Definition key_plen (k : gostring) : nat := Z.to_nat (of_le32 (take 4 k)).
Definition key_data (k : gostring) : gostring := drop 4 k.

Definition key_matches (k ip : gostring) : Prop :=
  length (key_data k) = length ip /\ (key_plen k <= 8 * length ip)%nat /\
  take (key_plen k) (ip_bits (key_data k)) = take (key_plen k) (ip_bits ip).

#[global] Instance key_matches_dec k ip : Decision (key_matches k ip).
Proof. unfold key_matches. apply _. Defined.

(** The entry a lookup of a full-length key returns. *)
Definition lpm_entry (m : gmap gostring gostring) (ip v : gostring) : Prop :=
  exists k, m !! k = Some v /\ key_matches k ip /\
    forall k' v', m !! k' = Some v' -> key_matches k' ip -> (key_plen k' <= key_plen k)%nat.

Class LPM := {
  bpf_map_lookup_lpm : gmap gostring gostring -> gostring -> option gostring;
  lookup_lpm_None : forall m ip, bpf_map_lookup_lpm m ip = None ->
    forall k v, m !! k = Some v -> ~ key_matches k ip;
  lookup_lpm_Some : forall m ip v, bpf_map_lookup_lpm m ip = Some v -> lpm_entry m ip v
}.

(** * Constants *)
Definition RESERVED_IP_PROTOCOL : Z := 255.
Definition ANY_PORT : Z := 0.
Definition POLICIES_APPLIED : Z := 0.
Definition DEFAULT_ALLOW : Z := 1.
Definition DEFAULT_DENY : Z := 2.
Definition ERROR_TIER : Z := 0.
Definition ADMIN_TIER : Z := 1.
Definition NETWORK_POLICY_TIER : Z := 2.
Definition BASELINE_TIER : Z := 3.
Definition DEFAULT_TIER : Z := 4.
Definition ACTION_DENY : Z := 0.
Definition ACTION_ALLOW : Z := 1.
Definition ACTION_PASS : Z := 2.
Definition MAX_RULE_PRIORITY : Z := 65536.
Definition ADMIN_TIER_PRIORITY_LIMIT : Z := 1000.

Inductive bpf_ret := BPF_OK | BPF_DROP.
#[global] Instance bpf_ret_eq_dec : EqDecision bpf_ret.
Proof. solve_decision. Defined.

Definition GET_CT_VAL (a b : Z) : Z :=
  if (a =? DEFAULT_ALLOW) && (b =? DEFAULT_ALLOW) then 2
  else if (a =? DEFAULT_ALLOW) && (b =? DEFAULT_DENY) then 3
  else if (a =? DEFAULT_ALLOW) && (b =? POLICIES_APPLIED) then 4
  else if (a =? POLICIES_APPLIED) && (b =? DEFAULT_ALLOW) then 5
  else if (a =? POLICIES_APPLIED) && (b =? DEFAULT_DENY) then 6
  else if (a =? POLICIES_APPLIED) && (b =? POLICIES_APPLIED) then 7
  else 7.

(** * Evaluation against the two rule maps *)

(** The port test of [evaluateNamespacePolicyByLookUp]. *)
Definition np_port_match (v : BPFTrieVal) (dest_port : Z) : bool :=
  (tv_StartPort v =? ANY_PORT) || (dest_port =? tv_StartPort v) ||
  ((tv_StartPort v <? dest_port) && (dest_port <=? tv_EndPort v)).

Definition np_entry_match (v : BPFTrieVal) (protocol dest_port : Z) : bool :=
  ((tv_Protocol v =? ANY_IP_PROTOCOL) && np_port_match v dest_port) ||
  ((tv_Protocol v =? protocol) && np_port_match v dest_port).

Fixpoint np_loop (vals : list BPFTrieVal) (protocol dest_port : Z) : Z :=
  match vals with
  | [] => ACTION_DENY
  | v :: vals' =>
      if tv_Protocol v =? RESERVED_IP_PROTOCOL then ACTION_DENY
      else if np_entry_match v protocol dest_port then ACTION_ALLOW
      else np_loop vals' protocol dest_port
  end.

(** The match test of [evaluateClusterPolicyByLookUp]. *)
Definition cp_entry_match (v : BPFL4PriorityVal) (protocol dest_port : Z) : bool :=
  (pv_Protocol v =? ANY_IP_PROTOCOL) ||
  ((pv_Protocol v =? protocol) &&
   ((pv_StartPort v =? ANY_PORT) || (dest_port =? pv_StartPort v) ||
    ((0 <? pv_EndPort v) && (pv_StartPort v <=? dest_port) && (dest_port <=? pv_EndPort v)))).

Record cp_result := mkCpResult {
  admin_tier_priority : Z; admin_tier_action : Z;
  baseline_tier_priority : Z; baseline_tier_action : Z
}.
Definition cp_init : cp_result := mkCpResult MAX_RULE_PRIORITY ACTION_PASS MAX_RULE_PRIORITY ACTION_PASS.

Definition cp_step (protocol dest_port : Z) (r : cp_result) (v : BPFL4PriorityVal) : cp_result :=
  let priority := pv_Priority v / 10 in
  let action := pv_Priority v mod 10 in
  if cp_entry_match v protocol dest_port then
    let '(ap, aa) :=
      if (priority <? admin_tier_priority r) ||
         ((priority =? admin_tier_priority r) && (action <? admin_tier_action r))
      then (priority, action) else (admin_tier_priority r, admin_tier_action r) in
    let '(bp, ba) :=
      if (ADMIN_TIER_PRIORITY_LIMIT <? priority) &&
         ((priority <? baseline_tier_priority r) ||
          ((priority =? baseline_tier_priority r) && (action <? baseline_tier_action r)))
      then (priority, action) else (baseline_tier_priority r, baseline_tier_action r) in
    mkCpResult ap aa bp ba
  else r.

(** * The classifier *)
Record data_t := mkData {
  ev_src_ip : Z; ev_src_port : Z; ev_dest_ip : Z; ev_dest_port : Z; ev_protocol : Z;
  ev_verdict : Z; ev_packet_sz : Z; ev_is_egress : Z; ev_tier : Z
}.

(** The maps a classifier reads and writes. *)
Record dp_state := mkDp {
  ingress_map : gmap gostring gostring;
  cp_ingress_map : gmap gostring gostring;
  ingress_pod_state_map : gmap Z Z;
  aws_conntrack_map : gmap ConntrackKey ConntrackVal;
  policy_events : list data_t
}.

Definition set_conntrack (c : gmap ConntrackKey ConntrackVal) (s : dp_state) : dp_state :=
  mkDp (ingress_map s) (cp_ingress_map s) (ingress_pod_state_map s) c (policy_events s).
(** The ring buffer [policy_events], 512 KiB in [v4events.bpf.c] and [v6events.bpf.c].  A record
    takes an 8-byte header and the struct, rounded up to 8; the kernel keeps the records that
    have not been read within one byte less than the buffer, and when one does not fit
    [bpf_ringbuf_output] fails, which the classifiers ignore. *)
Definition RINGBUF_SIZE : Z := 512 * 1024.
Definition record_len (size : Z) : Z := (size + 8 + 7) / 8 * 8.
Definition ringbuf_fits (size : Z) (unread : nat) : bool := (Z.of_nat unread + 1) * record_len size <=? RINGBUF_SIZE - 1.
Definition bpf_ringbuf_output {A} (size : Z) (rb : list A) (e : A) : list A :=
  if ringbuf_fits size (length rb) then rb ++ [e] else rb.

(** [sizeof(struct data_t)]. *)
Definition SIZEOF_DATA_T : Z := 32.
Definition output_event (e : data_t) (s : dp_state) : dp_state :=
  mkDp (ingress_map s) (cp_ingress_map s) (ingress_pod_state_map s) (aws_conntrack_map s)
    (bpf_ringbuf_output SIZEOF_DATA_T (policy_events s) e).

(** The parsed headers; addresses are the 32-bit words of the packet, ports host order. *)
Record packet := mkPacket {
  saddr : Z; daddr : Z; ip_protocol : Z; l4_src_port : Z; l4_dst_port : Z;
  skb_ifindex : Z; skb_len : Z
}.

Section classifier.
Context `{!LPM}.

Definition evaluateNamespacePolicyByLookUp (m : gmap gostring gostring) (trie_ip : gostring)
  (protocol dest_port pod_state : Z) : Z :=
  match bpf_map_lookup_lpm m trie_ip with
  | None => if negb (pod_state =? POLICIES_APPLIED) then ACTION_PASS else ACTION_DENY
  | Some v => np_loop (read_BPFTrieVals v) protocol dest_port
  end.

Definition evaluateClusterPolicyByLookUp (m : gmap gostring gostring) (trie_ip : gostring)
  (protocol dest_port : Z) : cp_result :=
  match bpf_map_lookup_lpm m trie_ip with
  | None => cp_init
  | Some v => foldl (cp_step protocol dest_port) cp_init (read_BPFL4PriorityVals v)
  end.

(** The decision of [evaluateFlow]: the return value and the tier reported. *)
Definition decideFlow (np cp : gmap gostring gostring) (trie_ip : gostring)
  (protocol dest_port pod_state : Z) : bpf_ret * option Z :=
  let r := evaluateClusterPolicyByLookUp cp trie_ip protocol dest_port in
  let namespace :=
    let verdict := evaluateNamespacePolicyByLookUp np trie_ip protocol dest_port pod_state in
  if verdict =? ACTION_ALLOW then (BPF_OK, Some NETWORK_POLICY_TIER)
  else if verdict =? ACTION_DENY then (BPF_DROP, Some NETWORK_POLICY_TIER)
  else if verdict =? ACTION_PASS then
    if baseline_tier_action r =? ACTION_DENY then (BPF_DROP, Some BASELINE_TIER)
  else if baseline_tier_action r =? ACTION_ALLOW then (BPF_OK, Some BASELINE_TIER)
  else if baseline_tier_action r =? ACTION_PASS then
    if pod_state =? DEFAULT_ALLOW then (BPF_OK, Some DEFAULT_TIER)
    else if pod_state =? DEFAULT_DENY then (BPF_DROP, Some DEFAULT_TIER)
    else (BPF_DROP, None)
  else (BPF_DROP, None)
  else (BPF_DROP, None) in
  if admin_tier_priority r <=? ADMIN_TIER_PRIORITY_LIMIT then
    if admin_tier_action r =? ACTION_DENY then (BPF_DROP, Some ADMIN_TIER)
  else if admin_tier_action r =? ACTION_ALLOW then (BPF_OK, Some ADMIN_TIER)
  else namespace
  else namespace.

Definition evaluateFlow (s : dp_state) (trie_ip : gostring) (flow_key : ConntrackKey)
  (pod_state_val now : Z) (evt : data_t) (pod_state : Z) : bpf_ret * dp_state :=
  let '(ret, tier) := decideFlow (ingress_map s) (cp_ingress_map s) trie_ip
                    (ct_Protocol flow_key) (Dest_port flow_key) pod_state in
  let s := match ret with
       | BPF_OK => set_conntrack (<[flow_key := mkConntrackVal pod_state_val now]> (aws_conntrack_map s)) s
       | BPF_DROP => s
       end in
  match tier with
  | None => (ret, s)
  | Some t =>
      (ret, output_event (mkData (ev_src_ip evt) (ev_src_port evt) (ev_dest_ip evt) (ev_dest_port evt)
                        (ev_protocol evt) (match ret with BPF_OK => 1 | BPF_DROP => 0 end)
                        (ev_packet_sz evt) (ev_is_egress evt) t) s)
  end.

(** [handle_ingress] on a well-formed IPv4 packet, at time [now]. *)
Definition handle_ingress (s : dp_state) (p : packet) (now : Z) : bpf_ret * dp_state :=
  let trie_ip := le32 (saddr p) in
  let flow_key := mkConntrackKey (saddr p) (l4_src_port p) (daddr p) (l4_dst_port p) (ip_protocol p)
                (daddr p) (skb_ifindex p) in
  let evt := mkData (saddr p) (l4_src_port p) (daddr p) (l4_dst_port p) (ip_protocol p) 0
           (skb_len p) 0 0 in
  match ingress_pod_state_map s !! 0, ingress_pod_state_map s !! 1 with
  | Some pst, Some clusterpolicy_pst =>
      let ct_pod_state_val := GET_CT_VAL pst clusterpolicy_pst in
      match aws_conntrack_map s !! flow_key with
      | Some flow_val =>
          if ct_Value flow_val =? ct_pod_state_val then
            (BPF_OK, set_conntrack (<[flow_key := mkConntrackVal (ct_Value flow_val) now]>
                                  (aws_conntrack_map s)) s)
          else
            let '(ret, s) := evaluateFlow s trie_ip flow_key ct_pod_state_val now evt pst in
            match ret with
            | BPF_DROP => (BPF_DROP, set_conntrack (delete flow_key (aws_conntrack_map s)) s)
            | BPF_OK => (BPF_OK, s)
            end
      | None =>
          let reverse_flow_key := mkConntrackKey (daddr p) (l4_dst_port p) (saddr p) (l4_src_port p)
                                (ip_protocol p) (daddr p) (skb_ifindex p) in
          match aws_conntrack_map s !! reverse_flow_key with
          | Some reverse_flow_val =>
              (BPF_OK, set_conntrack (<[reverse_flow_key :=
                      mkConntrackVal (ct_Value reverse_flow_val) now]> (aws_conntrack_map s)) s)
          | None => evaluateFlow s trie_ip flow_key ct_pod_state_val now evt pst
          end
      end
  | _, _ =>
      (BPF_DROP, output_event (mkData (ev_src_ip evt) (ev_src_port evt) (ev_dest_ip evt) (ev_dest_port evt)
                             (ev_protocol evt) 0 (ev_packet_sz evt) (ev_is_egress evt) ERROR_TIER) s)
  end.
End classifier.

(** * An instance of the kernel lookup: scan for the longest matching key *)
Definition longer (best : option (gostring * gostring)) (kv : gostring * gostring) :
    option (gostring * gostring) :=
  match best with
  | None => Some kv
  | Some b => if decide (key_plen b.1 < key_plen kv.1)%nat then Some kv else best
  end.
Definition scan_lookup (m : gmap gostring gostring) (ip : gostring) : option gostring :=
  snd <$> foldl longer None (filter (fun kv => key_matches kv.1 ip) (map_to_list m)).

Lemma longer_spec l best :
  match foldl longer best l with
  | None => best = None /\ l = []
  | Some kv => (kv ∈ l \/ best = Some kv) /\
      (forall kv', kv' ∈ l \/ best = Some kv' -> (key_plen kv'.1 <= key_plen kv.1)%nat)
  end.
Proof.
  revert best. induction l as [|x l IH]; intros best; cbn [foldl].
  - destruct best as [b|]; [|done]. set_solver.
  - specialize (IH (longer best x)). destruct (foldl longer (longer best x) l) as [kv|].
    + destruct IH as [Hin Hmax].
      destruct best as [b|]; cbn in *; [case_decide|].
      * split; [set_solver|]. intros kv' [[->|H']%elem_of_cons|[= <-]]; [by apply Hmax; right|by apply Hmax; left|].
        specialize (Hmax x ltac:(by right)). lia.
      * split; [set_solver|]. intros kv' [[->|H']%elem_of_cons|[= <-]]; [|by apply Hmax; left|by apply Hmax; right].
        specialize (Hmax b ltac:(by right)). lia.
      * split; [set_solver|]. intros kv' [[->|H']%elem_of_cons|?]; [by apply Hmax; right|by apply Hmax; left|done].
    + destruct IH as [H _]. destruct best; cbn in H; [case_decide|]; done.
Qed.

Definition lpm_scan : LPM.
Proof.
  refine {| bpf_map_lookup_lpm := scan_lookup |}.
  - intros m ip H k v Hk Hm. unfold scan_lookup in H. apply fmap_None in H.
    pose proof (longer_spec (filter (fun kv => key_matches kv.1 ip) (map_to_list m)) None) as Hs.
    rewrite H in Hs. destruct Hs as [_ Hs].
    assert ((k, v) ∈ filter (fun kv => key_matches kv.1 ip) (map_to_list m)) as Hin.
    { apply list_elem_of_filter. split; [done|]. by apply elem_of_map_to_list. }
    rewrite Hs in Hin. by apply not_elem_of_nil in Hin.
  - intros m ip v H. unfold scan_lookup in H. apply fmap_Some in H as ([k v'] & H & ->).
    pose proof (longer_spec (filter (fun kv => key_matches kv.1 ip) (map_to_list m)) None) as Hs.
    rewrite H in Hs. destruct Hs as [[Hin|?] Hmax]; [|done].
    apply list_elem_of_filter in Hin as [Hm Hin]. apply elem_of_map_to_list in Hin.
    exists k. split; [done|]. split; [done|]. intros k' w Hk' Hm'.
    apply (Hmax (k', w)). left. apply list_elem_of_filter. split; [done|]. by apply elem_of_map_to_list.
Defined.
