(* ===== verification/DatapathFacts.v ===== *)
(** Properties of the classifier: connection tracking and the pod state. *)
From S2P Require Import Prelude NetIP NetIPFacts ApiTypes Utils UtilsFacts Datapath.

Definition flow_key_of (p : packet) : ConntrackKey :=
  mkConntrackKey (saddr p) (l4_src_port p) (daddr p) (l4_dst_port p) (ip_protocol p) (daddr p) (skb_ifindex p).

(** The agent rewrites the two rule maps. *)
Definition set_rules (np cp : gmap gostring gostring) (s : dp_state) : dp_state :=
  mkDp np cp (ingress_pod_state_map s) (aws_conntrack_map s) (policy_events s).

Section facts.
Context `{!LPM}.

Lemma evaluateFlow_state s ip k val now evt pst ret s' :
  evaluateFlow s ip k val now evt pst = (ret, s') ->
  ingress_pod_state_map s' = ingress_pod_state_map s /\
  aws_conntrack_map s' = match ret with
                     | BPF_OK => <[k := mkConntrackVal val now]> (aws_conntrack_map s)
                     | BPF_DROP => aws_conntrack_map s
                     end.
Proof.
  unfold evaluateFlow. destruct (decideFlow _ _ _ _ _ _) as [r [t|]]; intros [= <- <-]; by destruct r.
Qed.

(** What a packet leaves in the conntrack table when both pod states are present. *)
Lemma handle_ingress_conntrack s p now pst cst ret s' :
  ingress_pod_state_map s !! 0 = Some pst -> ingress_pod_state_map s !! 1 = Some cst ->
  handle_ingress s p now = (ret, s') ->
  ingress_pod_state_map s' = ingress_pod_state_map s /\
  match ret with
  | BPF_DROP => aws_conntrack_map s' !! flow_key_of p = None
  | BPF_OK =>
      (exists seen, aws_conntrack_map s' !! flow_key_of p = Some (mkConntrackVal (GET_CT_VAL pst cst) seen)) \/
      (aws_conntrack_map s' !! flow_key_of p = None /\
        is_Some (aws_conntrack_map s' !! mkConntrackKey (daddr p) (l4_dst_port p) (saddr p) (l4_src_port p)
                                      (ip_protocol p) (daddr p) (skb_ifindex p)))
  end.
Proof.
  intros Hp Hc. unfold handle_ingress. rewrite Hp, Hc. fold (flow_key_of p).
  destruct (aws_conntrack_map s !! flow_key_of p) as [v|] eqn:Ek.
  - destruct (Z.eqb_spec (ct_Value v) (GET_CT_VAL pst cst)) as [Hv|Hv].
    + intros [= <- <-]. split; [done|]. left. exists now. cbn. by rewrite lookup_insert_eq, Hv.
    + destruct (evaluateFlow _ _ _ _ _ _ _) as [r s1] eqn:Ee. apply evaluateFlow_state in Ee as [H1 H2].
      destruct r; intros [= <- <-]; (split; [done|]); cbn.
      * left. exists now. by rewrite H2, lookup_insert_eq.
      * by rewrite lookup_delete_eq.
  - set (rk := mkConntrackKey _ _ _ _ _ _ _).
    destruct (aws_conntrack_map s !! rk) as [v|] eqn:Er.
    + intros [= <- <-]. split; [done|]. right. cbn. rewrite lookup_insert_eq. split; [|eauto].
      rewrite lookup_insert_ne; [done|]. intros Heq. rewrite Heq in Er. congruence.
    + intros Ee. apply evaluateFlow_state in Ee as [H1 H2]. split; [done|].
      rewrite H2. destruct ret; [left; exists now; by rewrite lookup_insert_eq|done].
Qed.
End facts.

(** Connection tracking is sound for the pod states in force.  When both pod state
    entries exist: a packet that is dropped leaves no conntrack entry for its flow, so no
    later packet of that flow is let through as established; and a packet that is accepted is
    accepted again, at any later time and whatever the agent has written to the rule maps in
    between, as long as the pod states and the table are unchanged. *)
Theorem conntrack_sound `{!LPM} (s : dp_state) (p : packet) (now : Z) (pst cst : Z) (ret : bpf_ret) (s' : dp_state)
    (Hp : ingress_pod_state_map s !! 0 = Some pst) (Hc : ingress_pod_state_map s !! 1 = Some cst)
    (Hrun : handle_ingress s p now = (ret, s')) :
  match ret with
  | BPF_DROP => aws_conntrack_map s' !! flow_key_of p = None
  | BPF_OK => forall np cp now', fst (handle_ingress (set_rules np cp s') p now') = BPF_OK
  end.
Proof.
  destruct (handle_ingress_conntrack s p now pst cst ret s' Hp Hc Hrun) as [Hst Hres].
  destruct ret; [|done]. intros np cp now'. unfold handle_ingress. cbn [set_rules ingress_pod_state_map aws_conntrack_map].
  rewrite Hst, Hp, Hc. fold (flow_key_of p). destruct Hres as [[seen ->]|[-> [v Hv]]].
  - cbn. by rewrite Z.eqb_refl.
  - by rewrite Hv.
Qed.

Definition ex_packet : packet := mkPacket 0x0101000A 0x0201000A 6 40000 80 7 60.
Definition ex_dp : dp_state := mkDp ∅ ∅ {[0 := DEFAULT_ALLOW; 1 := DEFAULT_ALLOW]} ∅ [].

Lemma conntrack_sound_witness :
  fst (@handle_ingress lpm_scan ex_dp ex_packet 5) = BPF_OK /\
  forall np cp now',
    fst (@handle_ingress lpm_scan (set_rules np cp (snd (@handle_ingress lpm_scan ex_dp ex_packet 5))) ex_packet now') = BPF_OK.
Proof.
  split; [reflexivity|].
  exact (@conntrack_sound lpm_scan ex_dp ex_packet 5 DEFAULT_ALLOW DEFAULT_ALLOW BPF_OK
           (snd (@handle_ingress lpm_scan ex_dp ex_packet 5)) eq_refl eq_refl eq_refl).
Defined.

(** With no policy in force the pod state alone decides: on empty rule maps a new flow
    is accepted in state DEFAULT_ALLOW and recorded, and dropped in every other state
    (DEFAULT_DENY and POLICIES_APPLIED) with an event that names the tier. *)
Theorem default_state_decides `{!LPM} (ip : gostring) (protocol dest_port pod_state : Z) :
  decideFlow ∅ ∅ ip protocol dest_port pod_state =
  if pod_state =? DEFAULT_ALLOW then (BPF_OK, Some DEFAULT_TIER)
  else if pod_state =? DEFAULT_DENY then (BPF_DROP, Some DEFAULT_TIER)
  else if pod_state =? POLICIES_APPLIED then (BPF_DROP, Some NETWORK_POLICY_TIER)
  else (BPF_DROP, None).
Proof.
  assert (bpf_map_lookup_lpm ∅ ip = None) as HN.
  { destruct (bpf_map_lookup_lpm ∅ ip) eqn:E; [|done].
    apply lookup_lpm_Some in E as (k & Hk & _). by rewrite lookup_empty in Hk. }
  unfold decideFlow, evaluateClusterPolicyByLookUp, evaluateNamespacePolicyByLookUp. rewrite HN.
  unfold POLICIES_APPLIED, DEFAULT_ALLOW, DEFAULT_DENY. cbn [admin_tier_priority cp_init].
  destruct (Z.eqb_spec pod_state 1) as [->|H1]; [done|].
  destruct (Z.eqb_spec pod_state 2) as [->|H2]; [done|].
  destruct (Z.eqb_spec pod_state 0) as [->|H0]; [done|]. cbn.
  destruct (Z.eqb_spec pod_state 1); [done|]. by destruct (Z.eqb_spec pod_state 2).
Qed.

(** The value a flow is tagged with distinguishes the pod state pairs, except that
    DEFAULT_DENY shares the tag of (POLICIES_APPLIED, POLICIES_APPLIED): a flow accepted
    under policies is not re-evaluated when the pod falls back to DEFAULT_DENY. *)
Theorem GET_CT_VAL_collision (b : Z) :
  GET_CT_VAL DEFAULT_DENY b = GET_CT_VAL POLICIES_APPLIED POLICIES_APPLIED.
Proof. reflexivity. Qed.
