(* ===== verification/NetworkPolicySem.v ===== *)
(** From policy rules to packets: the entries [ComputeMapEntriesFromEndpointRules] writes,
    looked up by the classifier, allow exactly what the rules allow. *)
From S2P Require Import Prelude NetIP NetIPFacts ApiTypes Utils UtilsFacts CidrTrie FwRules FwRulesFacts Datapath.

(** * What a rule means *)

(** A port entry allows a protocol number and a destination port: no protocol is any
    protocol, no port is any port, and an end port makes the port a range. *)
Definition port_allows (p : Port) (protocol dest_port : Z) : Prop :=
  match Protocol p with
  | None => True
  | Some q =>
      (ptr_val q = ProtocolTCP -> protocol = 6) /\ (ptr_val q = ProtocolUDP -> protocol = 17) /\
      (ptr_val q = ProtocolSCTP -> protocol = 132)
  end /\
  match Port_Port p with
  | None => True
  | Some s => s = 0 \/ dest_port = s \/ exists e, EndPort p = Some e /\ s <= dest_port <= e
  end.

Definition port_num (z : option Z) : Prop := match z with None => True | Some z => 0 <= z <= 65535 end.

(** Ports as the API server admits them. *)
Record port_ok (p : Port) : Prop := {
  po_port : port_num (Port_Port p);
  po_end : port_num (EndPort p);
  po_proto : forall q, Protocol p = Some q -> ptr_val q <> DENY_ALL_PROTOCOL
}.

Lemma u32_port z : port_num z -> u32 (default 0 z) = default 0 z.
Proof. intros H. apply u32_small. destruct z; cbn in *; lia. Qed.

Lemma port_val_ok p :
  port_ok p ->
  port_val p = mkBPFTrieVal (deriveProtocolValue p false false) (default 0 (Port_Port p)) (default 0 (EndPort p)).
Proof.
  intros [H1 H2 _]. unfold port_val, port_words, to_BPFTrieVal. cbn [fmap list_fmap nth].
  rewrite !u32_port by done. rewrite u32_small; [done|].
  unfold deriveProtocolValue. destruct (Protocol p); repeat case_decide; vm_compute; split; congruence.
Qed.

(** The classifier's test of one entry agrees with the meaning of the port. *)
Lemma np_entry_match_port p protocol dest_port :
  port_ok p -> 0 <= dest_port <= 65535 ->
  np_entry_match (port_val p) protocol dest_port = true <-> port_allows p protocol dest_port.
Proof.
  intros Hok Hd. rewrite port_val_ok by done. destruct Hok as [H1 H2 H3].
  unfold np_entry_match, np_port_match, port_allows. cbn [tv_Protocol tv_StartPort tv_EndPort].
  set (pm := (_ =? ANY_PORT) || _ || _).
  assert (pm = true <-> match Port_Port p with
                        | None => True
                        | Some s => s = 0 \/ dest_port = s \/ exists e, EndPort p = Some e /\ s <= dest_port <= e
                        end) as Hpm.
  { unfold pm, ANY_PORT. destruct (Port_Port p) as [s|]; cbn [default from_option id] in *; [|done].
    unfold id. destruct (EndPort p) as [e|]; cbn in *;
      rewrite !orb_true_iff, andb_true_iff, !Z.eqb_eq, Z.ltb_lt, Z.leb_le; split; intros; [| |lia|naive_solver].
    - destruct (decide (s <= dest_port <= e)); [right; right; eauto|lia].
    - destruct H as [?|[?|(e' & [= <-] & ?)]]; lia. }
  rewrite <-Hpm. clear Hpm. clearbody pm.
  assert ((deriveProtocolValue p false false =? ANY_IP_PROTOCOL) || (deriveProtocolValue p false false =? protocol) = true
          <-> match Protocol p with
              | None => True
              | Some q => (ptr_val q = ProtocolTCP -> protocol = 6) /\ (ptr_val q = ProtocolUDP -> protocol = 17) /\
                          (ptr_val q = ProtocolSCTP -> protocol = 132)
              end) as <-.
  { unfold deriveProtocolValue. destruct (Protocol p) as [q|]; [|done]. specialize (H3 q eq_refl).
    repeat case_decide; rewrite ?orb_true_iff, ?Z.eqb_eq; unfold ANY_IP_PROTOCOL, TCP_PROTOCOL_NUMBER,
      UDP_PROTOCOL_NUMBER, SCTP_PROTOCOL_NUMBER;
      repeat match goal with H : ptr_val q = _ |- _ => rewrite H in * end; naive_solver lia. }
  destruct pm; cbn; rewrite ?andb_true_r, ?andb_false_r; naive_solver.
Qed.

(** * Reading back a value *)
Lemma portKey_val p p' : portKey p = portKey p' -> port_val p = port_val p'.
Proof.
  unfold portKey, port_val, port_words. intros [= Hp H1 H2]. rewrite H1, H2.
  assert (deriveProtocolValue p false false = deriveProtocolValue p' false false) as ->; [|done].
  unfold deriveProtocolValue. destruct (Protocol p) as [q|], (Protocol p') as [q'|].
  - by rewrite Hp.
  - by rewrite Hp.
  - by rewrite <-Hp.
  - done.
Qed.

Definition distinct_ports (ports : list Port) : nat := length (remove_dups (portKey <$> ports)).

(** A verdict that allows exactly when [P] holds, and denies otherwise. *)
Definition verdict_is (v : Z) (P : Prop) : Prop := (v = ACTION_ALLOW /\ P) \/ (v = ACTION_DENY /\ ~ P).

Lemma verdict_is_iff v P Q : (P <-> Q) -> verdict_is v P -> verdict_is v Q.
Proof. unfold verdict_is. tauto. Qed.

Section sem.
Context `{!MapOrder}.

(** The classifier on a value: it allows iff a port of the list does. *)
Lemma np_loop_ports l protocol dest_port k :
  Forall port_ok l -> protocol <> 0 -> 0 <= dest_port <= 65535 ->
  verdict_is (np_loop ((port_val <$> l) ++ replicate k zero_val) protocol dest_port)
  (exists p, p ∈ l /\ port_allows p protocol dest_port).
Proof.
  intros Hl Hp Hd. induction Hl as [|p l Hok Hl IH]; cbn [fmap list_fmap app np_loop].
  - right. split; [|set_solver]. induction k as [|k IH]; [done|]. cbn [replicate np_loop].
    assert (np_entry_match zero_val protocol dest_port = false) as ->; [|done].
    unfold np_entry_match. cbn [tv_Protocol zero_val]. by rewrite (proj2 (Z.eqb_neq 0 protocol)) by lia.
  - assert ((tv_Protocol (port_val p) =? RESERVED_IP_PROTOCOL) = false) as ->.
    { rewrite port_val_ok by done. cbn [tv_Protocol]. unfold deriveProtocolValue.
      destruct Hok as [_ _ H3]. destruct (Protocol p) as [q|]; [|done]. specialize (H3 q eq_refl).
      repeat case_decide; done. }
    destruct (np_entry_match (port_val p) protocol dest_port) eqn:E.
    + left. split; [done|]. exists p. split; [set_solver|]. by apply np_entry_match_port.
    + destruct IH as [[IH1 (p' & ? & ?)]|[IH1 IH2]]; [left; split; [done|]; exists p'; set_solver|].
      right. split; [done|]. intros (p' & [->|Hp']%elem_of_cons & Ha); [|naive_solver].
      apply np_entry_match_port in Ha; [|done..]. congruence.
Qed.

(** The value stored for an entry of [cidrsMap]. *)
Definition enc (key : gostring) (e : EbpfFirewallRules) : gostring :=
  trie_value (if decide (L4Info e = []) then [] else mergeDuplicateL4Info key (L4Info e)).

Lemma enc_verdict key e protocol dest_port :
  L4Info e <> [] -> Forall port_ok (L4Info e) -> (distinct_ports (L4Info e) <= 24)%nat ->
  protocol <> 0 -> 0 <= dest_port <= 65535 ->
  verdict_is (np_loop (read_BPFTrieVals (enc key e)) protocol dest_port)
  (exists p, p ∈ L4Info e /\ port_allows p protocol dest_port).
Proof.
  intros Hne Hok Hlen Hp Hd. unfold enc. rewrite decide_False by done.
  destruct (dedup_by_key_spec portKey key (L4Info e)) as (Hsub & Hcov & Hl).
  fold (mergeDuplicateL4Info key (L4Info e)) in *. fold (distinct_ports (L4Info e)) in Hl.
  set (l := mergeDuplicateL4Info key (L4Info e)) in *.
  rewrite Forall_forall in Hok.
  rewrite read_trie_value.
  - rewrite take_ge by lia. eapply verdict_is_iff; [|apply np_loop_ports; [|done..]].
    + split.
      * intros (p & Hin & Ha). eauto.
      * intros (p & Hin & Ha). destruct (Hcov p Hin) as (p' & Hin' & Hk). exists p'. split; [done|].
        apply np_entry_match_port; [by auto|done|]. rewrite (portKey_val _ _ Hk).
        apply np_entry_match_port; auto.
    + apply Forall_forall. auto.
  - destruct (L4Info e) as [|p0 l0]; [done|]. destruct (Hcov p0) as (p' & Hin & _); [set_solver|].
    intros Hnil. rewrite Hnil in Hin. by apply not_elem_of_nil in Hin.
Qed.

(** * Maps keyed by networks *)
Definition net_ok (v6 : bool) (n : IPNet) : Prop := canonical n /\ in_family v6 n.

Definition table_of (v6 : bool) (m : gmap gostring gostring) (T : IPNet -> gostring -> Prop) : Prop :=
  forall k v, m !! k = Some v <-> exists n, T n v /\ net_ok v6 n /\ k = ComputeTrieKey n v6.

Lemma table_of_iff v6 m T T' :
  (forall n v, net_ok v6 n -> T n v <-> T' n v) -> table_of v6 m T -> table_of v6 m T'.
Proof. intros Hiff HT k v. rewrite (HT k v). split; intros (n & ? & Hn & ?); exists n; naive_solver. Qed.

Lemma table_of_insert v6 m T n v :
  net_ok v6 n -> (forall w, ~ T n w) -> table_of v6 m T ->
  table_of v6 (<[ComputeTrieKey n v6 := v]> m) (fun n' v' => T n' v' \/ (n' = n /\ v' = v)).
Proof.
  intros Hn Hnew HT k w. destruct (decide (k = ComputeTrieKey n v6)) as [->|Hk].
  - rewrite lookup_insert_eq. split; [intros [= <-]; exists n; auto|].
    intros (n' & Hx & Hn' & Hk). apply ComputeTrieKey_inj in Hk as ->; [|by apply Hn|by apply Hn'|by apply Hn|by apply Hn'].
    destruct Hx as [Hx|[_ ->]]; [by apply Hnew in Hx|done].
  - rewrite lookup_insert_ne by done. rewrite (HT k w). split.
    + intros (n' & ? & ? & ?). exists n'. auto.
    + intros (n' & [?|[-> _]] & ? & ?); [eauto|done].
Qed.

(** A loop that stores one value per key, when every key is the text of a network. *)
Lemma for_range_table {V} (v6 : bool) (encode : gostring -> V -> gostring)
  (step : gmap gostring gostring -> gostring * V -> outcome (gmap gostring gostring)) kvs m0 T0 :
  (forall m n e, canonical n ->
    step m (IPNet_String n, e) = Ret (<[ComputeTrieKey n v6 := encode (IPNet_String n) e]> m)) ->
  table_of v6 m0 T0 -> NoDup kvs.*1 ->
  (forall kv, kv ∈ kvs -> exists n, kv.1 = IPNet_String n /\ net_ok v6 n /\ forall v, ~ T0 n v) ->
  exists m, for_range step kvs m0 = Ret m /\
  table_of v6 m
  (fun n v => T0 n v \/ exists e, (IPNet_String n, e) ∈ kvs /\ v = encode (IPNet_String n) e).
Proof.
  intros Hstep. revert m0 T0.
  induction kvs as [|[key e] kvs IH]; intros m0 T0 HT Hnd Hkeys; cbn [for_range].
  { exists m0. split; [done|]. eapply table_of_iff; [|done]. set_solver. }
  apply NoDup_cons in Hnd as [Hnotin Hnd].
  destruct (Hkeys (key, e)) as (n & Hkey & Hn & Hnew); [set_solver|]. cbn in Hkey. subst key.
  rewrite Hstep by apply Hn. cbn [mbind outcome_bind].
  destruct (IH (<[ComputeTrieKey n v6 := encode (IPNet_String n) e]> m0)
           (fun n' v' => T0 n' v' \/ (n' = n /\ v' = encode (IPNet_String n) e))) as (m & Hm & Hmt).
  - by apply table_of_insert.
  - done.
  - intros [key' e'] Hin. destruct (Hkeys (key', e')) as (n' & Hkey & Hn' & Hnew'); [set_solver|].
    cbn in Hkey. subst key'. exists n'. split; [done|]. split; [done|]. intros v [?|[-> _]]; [by eapply Hnew'|].
    apply Hnotin. apply list_elem_of_fmap. by exists (IPNet_String n, e').
  - exists m. split; [done|]. eapply table_of_iff; [|exact Hmt]. intros n' v [Hc' Hf']. cbn. split.
    + intros [[?|[-> ->]]|(e' & Hin & ->)]; [by left|right; exists e; set_solver|right; exists e'; set_solver].
    + intros [?|(e' & Hin & ->)]; [by left; left|].
      apply elem_of_cons in Hin as [Heq|Hin]; [|right; eauto]. injection Heq as Hs ->. left; right.
      apply IPNet_String_inj in Hs as ->; [done|done|apply Hn].
Qed.

Lemma encodeEntry_String f m n e :
  canonical n ->
  encodeEntry f m (IPNet_String n, e) = Ret (<[ComputeTrieKey n (enableIPv6 f) := enc (IPNet_String n) e]> m).
Proof. intros Hn. unfold encodeEntry, enc. rewrite ParseCIDR_String by done. cbn. by rewrite ComputeTrieValue_spec. Qed.

(** The table with the node's entry alone. *)
Lemma table_of_singleton v6 n v :
  net_ok v6 n -> table_of v6 {[ComputeTrieKey n v6 := v]} (fun n' v' => n' = n /\ v' = v).
Proof.
  intros Hn. pose proof (table_of_insert v6 ∅ (fun _ _ => False) n v Hn) as HT.
  rewrite insert_empty in HT. eapply table_of_iff; [|apply HT].
  - cbn. naive_solver.
  - naive_solver.
  - intros k w. rewrite lookup_empty. naive_solver.
Qed.
End sem.

(** * Longest-prefix match over networks *)
Section lpm.
Context `{!LPM}.

Lemma key_plen_net v6 n : net_ok v6 n -> key_plen (ComputeTrieKey n v6) = net_ones n /\
  key_data (ComputeTrieKey n v6) = net_ip n.
Proof.
  intros [Hc Hf]. pose proof (canonical_ones_le n Hc). rewrite ComputeTrieKey_spec by done.
  unfold key_plen, key_data. rewrite take_app_length', drop_app_length' by (by rewrite length_le32).
  rewrite of_le32_le32, u32_small by lia. split; [lia|done].
Qed.

Lemma key_matches_net v6 n ip :
  net_ok v6 n -> width_ok ip -> length ip = (if v6 then 16 else 4)%nat ->
  key_matches (ComputeTrieKey n v6) ip <-> Contains n ip = true.
Proof.
  intros Hn Hw Hl. destruct (key_plen_net v6 n Hn) as [Hp Hd]. destruct Hn as [Hc Hf].
  destruct (canonical_mask n Hc) as (Hle & _ & _). unfold in_family in Hf.
  rewrite Contains_bits by done. rewrite norm_ip_width by done. unfold key_matches, net_prefix.
  rewrite Hp, Hd. split; [intros (? & _ & ?)|intros (? & ?)]; repeat split; congruence || lia.
Qed.

(** A lookup finds the longest network of the table that contains the address. *)
Lemma lpm_table v6 m T ip :
  table_of v6 m T -> width_ok ip -> length ip = (if v6 then 16 else 4)%nat ->
  (bpf_map_lookup_lpm m ip = None /\ forall n v, T n v -> net_ok v6 n -> Contains n ip = false) \/
  (exists n v, bpf_map_lookup_lpm m ip = Some v /\ T n v /\ net_ok v6 n /\ Contains n ip = true /\
    forall n' v', T n' v' -> net_ok v6 n' -> Contains n' ip = true -> (net_ones n' <= net_ones n)%nat).
Proof.
  intros HT Hw Hl. destruct (bpf_map_lookup_lpm m ip) as [v|] eqn:E.
  - right. apply lookup_lpm_Some in E as (k & Hk & Hm & Hmax).
    apply HT in Hk as (n & Hn & Hok & ->). exists n, v.
    rewrite key_matches_net in Hm by done. repeat split; try done; try apply Hok.
    intros n' v' Hn' Hok' Hc'.
    rewrite <-(proj1 (key_plen_net v6 n Hok)), <-(proj1 (key_plen_net v6 n' Hok')).
    apply (Hmax _ v'); [|by apply key_matches_net]. apply HT. eauto.
  - left. split; [done|]. intros n v Hn Hok. destruct (Contains n ip) eqn:Ec; [exfalso|done].
    eapply (lookup_lpm_None m ip E (ComputeTrieKey n v6) v); [apply HT; eauto|by apply key_matches_net].
Qed.
End lpm.

(** * The network policy of a pod, end to end *)

(** The ports of the rules whose CIDR covers [n]. *)
Definition covering_ports (L : list netrule) (n : IPNet) : list Port :=
  filter (fun q => covers q.1 n) L ≫= fun q => ports_of q.2.

Record rules_wf (f : FirewallRuleProcessor) (node : IP) (rules : list EbpfFirewallRules) : Prop := {
  wf_cidrs : Forall (rule_ok f) rules;
  wf_excepts : excepts_ok f node (live_rules f rules);
  wf_ports : forall q, q ∈ live_rules f rules -> Forall port_ok (L4Info q.2);
  (** at most 24 distinct ports apply to a CIDR: the map value holds no more *)
  wf_budget : forall q, q ∈ live_rules f rules ->
    (distinct_ports (covering_ports (live_rules f rules) q.1) <= 24)%nat
}.

(** The meaning of a rule on a network: the network contains the address, none of the rule's
    excepts does, and the rule names no ports or one of them matches. *)
Definition rule_allows (q : netrule) (ip : IP) (protocol dest_port : Z) : Prop :=
  Contains q.1 ip = true /\
  (forall x a e, x ∈ fw_Except q.2 -> ParseCIDR x = Some (a, e) -> Contains e ip = false) /\
  (L4Info q.2 = [] \/ exists p, p ∈ L4Info q.2 /\ port_allows p protocol dest_port).

(** The meaning of a policy: some rule of the cluster's address family allows the packet. *)
Definition allows (f : FirewallRuleProcessor) (rules : list EbpfFirewallRules) (ip : IP)
    (protocol dest_port : Z) : Prop :=
  exists q, q ∈ policy_rules f rules /\ rule_allows q ip protocol dest_port.

(** The same over the live rules. *)
Definition live_allows (f : FirewallRuleProcessor) (rules : list EbpfFirewallRules) (ip : IP)
    (protocol dest_port : Z) : Prop :=
  exists q, q ∈ live_rules f rules /\ rule_allows q ip protocol dest_port.

Lemma elem_of_policy_rules f rules q :
  q ∈ policy_rules f rules <-> q.2 ∈ rules /\ rule_net f q.2 = Some q.1.
Proof.
  unfold policy_rules. rewrite list_elem_of_omap. split.
  - intros (r & Hr & H). apply fmap_Some in H as (n & Hn & ->). done.
  - intros [Hr Hl]. exists q.2. split; [done|]. rewrite Hl. by destruct q.
Qed.

Lemma port_allows_catchAll protocol dest_port : port_allows catchAllL4Entry protocol dest_port.
Proof. split; [|done]. cbn. repeat split; intros H; discriminate H. Qed.

Lemma ports_of_allows r protocol dest_port :
  (exists p, p ∈ ports_of r /\ port_allows p protocol dest_port) <->
  L4Info r = [] \/ exists p, p ∈ L4Info r /\ port_allows p protocol dest_port.
Proof.
  unfold ports_of. case_decide as Hd; [|naive_solver]. split; [by left|]. intros _. exists catchAllL4Entry.
  split; [by apply list_elem_of_singleton|apply port_allows_catchAll].
Qed.

Lemma foundInExcept_false ip xs :
  foundInExcept ip xs = false <-> forall x a e, x ∈ xs -> ParseCIDR x = Some (a, e) -> Contains e ip = false.
Proof.
  rewrite <-not_true_iff_false, foundInExcept_true. split.
  - intros H x a e Hx HP. destruct (Contains e ip) eqn:E; [|done]. destruct H. exists x, a, e. done.
  - intros H (x & a & e & Hx & HP & Hc). rewrite (H x a e) in Hc; done.
Qed.

(** As the proofs use it: in terms of the code's test of excepts and with the port that matches. *)
Lemma rule_allows_alt q ip protocol dest_port :
  rule_allows q ip protocol dest_port <->
  Contains q.1 ip = true /\ foundInExcept ip (fw_Except q.2) = false /\ exists p, p ∈ ports_of q.2 /\ port_allows p protocol dest_port.
Proof. unfold rule_allows. by rewrite foundInExcept_false, ports_of_allows. Qed.

Lemma live_allows_alt f rules ip protocol dest_port :
  live_allows f rules ip protocol dest_port <->
  exists q p, q ∈ live_rules f rules /\ Contains q.1 ip = true /\
    foundInExcept ip (fw_Except q.2) = false /\ p ∈ ports_of q.2 /\ port_allows p protocol dest_port.
Proof. unfold live_allows. setoid_rewrite rule_allows_alt. naive_solver. Qed.

Lemma port_ok_catchAll : port_ok catchAllL4Entry.
Proof. split; [done|done|]. intros q [= <-]. done. Qed.

Lemma ports_of_ok r : Forall port_ok (L4Info r) -> Forall port_ok (ports_of r).
Proof.
  intros H. unfold ports_of. case_decide; [|done]. constructor; [apply port_ok_catchAll|constructor].
Qed.

Lemma distinct_ports_ext l l' : (forall p, p ∈ l <-> p ∈ l') -> distinct_ports l = distinct_ports l'.
Proof.
  intros H. unfold distinct_ports. apply Permutation_length.
  apply NoDup_Permutation; [apply NoDup_remove_dups..|]. intros k. rewrite !elem_of_remove_dups.
  rewrite !list_elem_of_fmap. split; intros (p & ? & ?%H); eauto.
Qed.

Section endtoend.
Context `{!MapOrder, !LPM}.
Context (f : FirewallRuleProcessor) (node : IP) (rules : list EbpfFirewallRules).
Context (Hproc : processor_ok f node) (Hwf : rules_wf f node rules).
Let L := live_rules f rules.

Lemma live_ok_L q : q ∈ L -> live_ok f node q.1.
Proof.
  intros [Hq Hl]%elem_of_live_rules. pose proof (wf_cidrs _ _ _ Hwf) as Hc. rewrite Forall_forall in Hc.
  by eapply live_net_ok; eauto.
Qed.

Lemma live_net_okay q : q ∈ L -> net_ok (enableIPv6 f) q.1.
Proof.
  intros Hq. destruct (live_ok_L q Hq) as [Hc Hf _ _]. split; [done|].
  unfold in_family. by rewrite v6_length, Hf.
Qed.

Lemma except_net q x :
  q ∈ L -> x ∈ fw_Except q.2 ->
  exists a e, ParseCIDR x = Some (a, e) /\ net_ok (enableIPv6 f) e /\ canonicalize x = IPNet_String e /\
  e <> host_net node /\ (net_ones q.1 < net_ones e)%nat /\
  forall q', q' ∈ L -> (q'.1 = q.1 /\ x ∈ fw_Except q'.2) \/ disjoint_nets e q'.1.
Proof.
  intros Hq Hx. destruct (wf_excepts _ _ _ Hwf q x Hq Hx) as (a & e & HP & He & Hv & Hn & Ho & Hd).
  destruct (ParseCIDR_eff _ _ _ HP) as (Hc & _). rewrite He in Hc.
  exists a, e. split; [done|]. split; [split; [done|]; unfold in_family; by rewrite v6_length, Hv|].
  split; [rewrite (canonicalize_parsed _ _ _ HP); by rewrite He|]. done.
Qed.

(** An except meets no rule other than those on its own rule's CIDR. *)
Lemma except_not_rule q x a e q' :
  q ∈ L -> x ∈ fw_Except q.2 -> ParseCIDR x = Some (a, e) -> q' ∈ L -> q'.1 <> e.
Proof.
  intros Hq Hx HP Hq' <-. destruct (except_net q x Hq Hx) as (a' & e' & HP' & [Hc _] & _ & _ & Ho & Hd).
  assert (e' = q'.1) as -> by congruence.
  destruct (Hd q' Hq') as [[Heq _]|Hdis]; [rewrite Heq in Ho; lia|].
  specialize (Hdis (net_ip q'.1)). rewrite Contains_self in Hdis by done. by specialize (Hdis eq_refl).
Qed.

(** What [cidrsMap] holds when it is encoded. *)
Record final_map (cm : gmap gostring EbpfFirewallRules) : Prop := {
  fin_rule : forall q, q ∈ L -> exists e, cm !! IPNet_String q.1 = Some e /\
  forall p, p ∈ L4Info e <-> exists q', q' ∈ L /\ covers q'.1 q.1 /\ p ∈ ports_of q'.2;
  fin_except : forall q x a e, q ∈ L -> x ∈ fw_Except q.2 -> ParseCIDR x = Some (a, e) ->
  cm !! IPNet_String e = Some (deny_entry (IPNet_String e));
  fin_dom : forall key e, cm !! key = Some e ->
  (exists q, q ∈ L /\ key = IPNet_String q.1) \/
  (exists q x a n, q ∈ L /\ x ∈ fw_Except q.2 /\ ParseCIDR x = Some (a, n) /\ key = IPNet_String n)
}.

Lemma final_map_of st l :
  loop_inv L st -> l ≡ₚ elements (exceptCidrs st) -> final_map (foldl addExcept (cidrsMap st) l).
Proof.
  intros Hinv Hl.
  assert (forall key, key ∈ canonicalize <$> l <->
        exists q x a n, q ∈ L /\ x ∈ fw_Except q.2 /\ ParseCIDR x = Some (a, n) /\ key = IPNet_String n) as Hex.
  { intros key. rewrite list_elem_of_fmap. setoid_rewrite Hl. setoid_rewrite elem_of_elements.
    setoid_rewrite (inv_exceptCidrs _ _ Hinv). split.
    - intros (x & -> & q & Hq & Hx). destruct (except_net q x Hq Hx) as (a & e & HP & _ & Hs & _). eauto 10.
    - intros (q & x & a & n & Hq & Hx & HP & ->). exists x. split; [|eauto].
      destruct (except_net q x Hq Hx) as (a' & e & HP' & _ & Hs & _). congruence. }
  split.
  - intros q Hq. destruct (proj2 (inv_dom _ _ Hinv (IPNet_String q.1))) as [e He]; [eauto|].
    exists e. rewrite addExcepts_lookup, He. split; [done|]. intros p. by apply (inv_ports L st).
  - intros q x a e Hq Hx HP. rewrite addExcepts_lookup.
    destruct (cidrsMap st !! IPNet_String e) as [e'|] eqn:Ee.
    + exfalso. destruct (proj1 (inv_dom _ _ Hinv _) (mk_is_Some _ _ Ee)) as (q' & Hq' & Hs).
      apply (except_not_rule q x a e q' Hq Hx HP Hq'). symmetry.
      destruct (except_net q x Hq Hx) as (a' & e2 & HP' & [Hc _] & _).
      apply IPNet_String_inj; [congruence|apply (live_net_okay q' Hq')|done].
    + rewrite decide_True; [done|]. apply Hex. eauto 10.
  - intros key e. rewrite addExcepts_lookup. destruct (cidrsMap st !! key) as [e'|] eqn:Ee.
    + intros _. left. apply (inv_dom _ _ Hinv). eauto.
    + case_decide as Hin; [|done]. intros _. right. by apply Hex.
Qed.

Lemma final_map_keys cm key e :
  final_map cm -> cm !! key = Some e ->
  exists n, key = IPNet_String n /\ net_ok (enableIPv6 f) n /\ n <> host_net node.
Proof.
  intros Hcm He. destruct (fin_dom _ Hcm _ _ He) as [(q & Hq & ->)|(q & x & a & n & Hq & Hx & HP & ->)].
  - exists q.1. split; [done|]. split; [by apply live_net_okay|].
    intros Heq. apply (lo_node _ _ _ (live_ok_L q Hq)). by rewrite Heq.
  - exists n. split; [done|]. destruct (except_net q x Hq Hx) as (a' & e' & HP' & Hok & _ & Hne & _).
    assert (e' = n) as <- by congruence. done.
Qed.

Definition node_value : gostring := trie_value [].

(** The node's entry, and one entry per CIDR. *)
Definition np_table (cm : gmap gostring EbpfFirewallRules) (n : IPNet) (v : gostring) : Prop :=
  (n = host_net node /\ v = node_value) \/
  exists e, cm !! IPNet_String n = Some e /\ v = enc (IPNet_String n) e.

Lemma node_net_ok : net_ok (enableIPv6 f) (host_net node).
Proof.
  split; [apply host_net_canonical, Hproc|]. unfold in_family. cbn [host_net net_ip].
  rewrite (ok_family _ _ Hproc). destruct (ok_width _ _ Hproc) as [Hw|[Hw _]]; rewrite Hw; done.
Qed.

(** No well-formed rule set makes the computation panic or fail. *)
Lemma compute_result :
  exists m cm, ComputeMapEntriesFromEndpointRules f rules = Ret m /\ final_map cm /\
  table_of (enableIPv6 f) m (np_table cm).
Proof.
  destruct (processRules_result f node rules Hproc (wf_cidrs _ _ _ Hwf) (wf_excepts _ _ _ Hwf))
    as (sorted & st & Hsort & Hst & Hinv).
  unfold ComputeMapEntriesFromEndpointRules. rewrite (ParseCIDR_node f node Hproc).
  cbn [fmap option_fmap option_map snd deref mbind outcome_bind]. rewrite ComputeTrieValue_all. cbn [mbind outcome_bind]. rewrite Hsort.
  cbn [mbind outcome_bind]. rewrite Hst. cbn [mbind outcome_bind].
  set (cm := foldl addExcept (cidrsMap st) (go_range (go "exceptCidrs") (elements (exceptCidrs st)))).
  assert (final_map cm) as Hcm by (apply final_map_of; [done|apply go_range_perm]).
  unfold encodeEntries.
  destruct (for_range_table (enableIPv6 f) enc (encodeEntry f) (go_range (go "cidrsMap") (map_to_list cm))
          {[ComputeTrieKey (host_net node) (enableIPv6 f) := node_value]}
          (fun n v => n = host_net node /\ v = node_value)) as (m & Hm & HT).
  - intros m n e. apply encodeEntry_String.
  - apply table_of_singleton, node_net_ok.
  - rewrite go_range_perm. apply NoDup_fst_map_to_list.
  - intros [key e] Hin. rewrite go_range_perm in Hin. apply elem_of_map_to_list in Hin.
    destruct (final_map_keys cm key e Hcm Hin) as (n & -> & Hok & Hne). exists n. naive_solver.
  - exists m, cm. split; [done|]. split; [done|]. eapply table_of_iff; [|exact HT].
    intros n v Hok. unfold np_table. setoid_rewrite go_range_perm. by setoid_rewrite elem_of_map_to_list.
Qed.

(** ** The verdict on an address *)
Section address.
Context (ip : IP) (protocol dest_port : Z).
Context (Hip : width_ok ip) (Hlen : length ip = length node).
Context (Hproto : protocol <> 0) (Hport : 0 <= dest_port <= 65535).
Context (cm : gmap gostring EbpfFirewallRules) (Hcm : final_map cm).

Lemma Contains_host : Contains (host_net node) ip = true <-> ip = node.
Proof.
  pose proof (ok_width _ _ Hproc) as Hw. rewrite Contains_bits by (by apply host_net_canonical).
  unfold net_prefix. rewrite norm_ip_width, host_net_ones by done. cbn [net_ip host_net].
  rewrite !take_ge by (rewrite length_ip_bits; lia).
  split; [intros [? ?]; by apply ip_bits_inj|by intros ->].
Qed.

Lemma rule_entry_ok q e :
  q ∈ L -> cm !! IPNet_String q.1 = Some e ->
  L4Info e <> [] /\ Forall port_ok (L4Info e) /\ (distinct_ports (L4Info e) <= 24)%nat.
Proof.
  intros Hq He. destruct (fin_rule _ Hcm q Hq) as (e' & He' & Hports). assert (e' = e) as -> by congruence.
  assert (ports_of q.2 <> []) as Hne by (unfold ports_of; by case_decide).
  split; [|split].
  - destruct (ports_of q.2) as [|p l] eqn:Ep; [done|]. intros Hnil.
    assert (p ∈ L4Info e) as Hp by (apply Hports; exists q; rewrite Ep; auto using covers_refl, list_elem_of_here).
    rewrite Hnil in Hp. by apply not_elem_of_nil in Hp.
  - apply Forall_forall. intros p (q' & Hq' & _ & Hp)%Hports.
    pose proof (ports_of_ok _ (wf_ports _ _ _ Hwf q' Hq')) as Hall. rewrite Forall_forall in Hall. auto.
  - erewrite distinct_ports_ext; [apply (wf_budget _ _ _ Hwf q Hq)|]. intros p. rewrite Hports.
    unfold covering_ports. rewrite list_elem_of_bind. setoid_rewrite list_elem_of_filter. naive_solver.
Qed.

Lemma deny_verdict key : np_loop (read_BPFTrieVals (enc key (deny_entry key))) protocol dest_port = ACTION_DENY.
Proof.
  assert (mergeDuplicateL4Info key [denyAllL4Entry] = [denyAllL4Entry]) as Hm.
  { unfold mergeDuplicateL4Info, dedup_by_key.
    assert (go_range key (map_to_list (first_by_key portKey [denyAllL4Entry])) =
      [(portKey denyAllL4Entry, denyAllL4Entry)]) as ->; [|done].
    apply Permutation_singleton_r. rewrite go_range_perm. unfold first_by_key. cbn [foldl]. rewrite lookup_empty.
    by rewrite insert_empty, map_to_list_singleton. }
  unfold enc. cbn [deny_entry L4Info]. rewrite decide_False by done. rewrite Hm. vm_compute. done.
Qed.

(** When the longest match is a rule's CIDR, no except of a containing rule applies. *)
Lemma rule_match q q' :
  q ∈ L -> Contains q.1 ip = true ->
  (forall n v, np_table cm n v -> net_ok (enableIPv6 f) n -> Contains n ip = true -> (net_ones n <= net_ones q.1)%nat) ->
  q' ∈ L -> foundInExcept ip (fw_Except q'.2) = false.
Proof.
  intros Hq Hc Hmax Hq'. destruct (foundInExcept _ _) eqn:E; [exfalso|done].
  apply foundInExcept_true in E as (x & a & e & Hx & HP & Hce).
  pose proof (fin_except _ Hcm q' x a e Hq' Hx HP) as He.
  destruct (except_net q' x Hq' Hx) as (a' & e' & HP' & Hok & _ & _ & Ho & Hd).
  assert (e' = e) as -> by congruence.
  assert (net_ones e <= net_ones q.1)%nat as Hle by (eapply Hmax; [right; eauto|done|done]).
  destruct (Hd q Hq) as [[Heq _]|Hdis]; [rewrite Heq in Hle; lia|].
  apply Hdis in Hce. congruence.
Qed.

Lemma verdict_table m :
  table_of (enableIPv6 f) m (np_table cm) ->
  verdict_is (evaluateNamespacePolicyByLookUp m ip protocol dest_port POLICIES_APPLIED)
  (ip = node \/ live_allows f rules ip protocol dest_port).
Proof.
  intros HT. eapply verdict_is_iff; [apply or_iff_compat_l; symmetry; apply live_allows_alt|]. assert (length ip = if enableIPv6 f then 16 else 4)%nat as Hl.
  { rewrite Hlen. apply (proj2 node_net_ok). }
  assert (forall q, q ∈ L -> exists v, np_table cm q.1 v) as Hrule.
  { intros q Hq. destruct (fin_rule _ Hcm q Hq) as (e & He & _). eexists. right. eauto. }
  unfold evaluateNamespacePolicyByLookUp.
  destruct (lpm_table _ m _ ip HT Hip Hl) as [[-> Hnone]|(n & v & -> & Hn & Hok & Hc & Hmax)].
  - right. split; [done|]. intros [Heq|(q & p & Hq & Hcq & _)].
    + apply Contains_host in Heq. rewrite (Hnone _ node_value) in Heq; [done|by left|apply node_net_ok].
    + destruct (Hrule q Hq) as [v Hv]. rewrite (Hnone _ _ Hv (live_net_okay q Hq)) in Hcq. done.
  - destruct Hn as [[-> ->]|(e & He & ->)].
    { left. split; [unfold node_value; by rewrite read_trie_value_all|].
      left. by apply Contains_host. }
    assert (ip <> node) as Hnn.
    { intros Heq. destruct (final_map_keys cm _ e Hcm He) as (n' & Hs & Hok' & Hne).
      apply IPNet_String_inj in Hs as <-; [|apply Hok|apply Hok']. apply Contains_host in Heq. apply Hne.
      eapply same_length_same_net; [apply Hok|apply node_net_ok|done|done|].
      apply Nat.le_antisymm; [|eapply Hmax; [by left|apply node_net_ok|done]].
      destruct (canonical_mask n (proj1 Hok)) as (Hle & _ & _).
      rewrite host_net_ones. rewrite <-Hlen, Hl. destruct Hok as [_ Hf]. unfold in_family in Hf. lia. }
    destruct (fin_dom _ Hcm _ _ He) as [(q & Hq & Hs)|(q & x & a & n' & Hq & Hx & HP & Hs)].
    + apply IPNet_String_inj in Hs as ->; [|apply Hok|apply (live_net_okay q Hq)].
      destruct (rule_entry_ok q e Hq He) as (Hne & Hall & H24).
      eapply verdict_is_iff; [|by apply enc_verdict].
      destruct (fin_rule _ Hcm q Hq) as (e' & He' & Hports). assert (e' = e) as -> by congruence.
      split.
      * intros (p & (q' & Hq' & Hcov & Hp)%Hports & Ha). right. exists q', p. split; [done|].
        split; [eapply covers_Contains; [apply Hok|apply (live_net_okay q' Hq')|done|done]|].
        split; [by eapply (rule_match q q')|done].
      * intros [?|(q' & p & Hq' & Hc' & _ & Hp & Ha)]; [done|]. exists p. split; [|done].
        apply Hports. exists q'. split; [done|]. split; [|done].
        destruct (Hrule q' Hq') as [v' Hv']. eapply (Contains_nested q.1 q'.1 ip); auto.
        -- apply Hok. -- apply (live_net_okay q' Hq'). -- by eapply Hmax; [|apply live_net_okay|].
    + destruct (except_net q x Hq Hx) as (a' & e' & HP' & Hok' & _ & _ & _ & Hd).
      assert (e' = n') as -> by congruence.
      apply IPNet_String_inj in Hs as ->; [|apply Hok|apply Hok'].
      rewrite (fin_except _ Hcm q x a n' Hq Hx HP) in He. injection He as <-.
      right. split; [apply deny_verdict|]. intros [?|(q' & p & Hq' & Hc' & Hnx & _)]; [done|].
      destruct (Hd q' Hq') as [[Heq Hx']|Hdis]; [|by rewrite Hdis in Hc'].
      assert (foundInExcept ip (fw_Except q'.2) = true) by (apply foundInExcept_true; eauto 8). congruence.
Qed.

(** Away from the node, the live rules are all the rules when none starts at its address. *)
Lemma live_allows_all :
  node_hosts f node rules -> ip = node \/ live_allows f rules ip protocol dest_port <-> ip = node \/ allows f rules ip protocol dest_port.
Proof.
  intros Hn. split; (intros [?|(q & Hq & Ha)]; [by left|]).
  - apply elem_of_live_rules in Hq as [Hq Hl]. apply (live_net_Some f node) in Hl as [Hl _]; [|done].
    right. exists q. split; [by apply elem_of_policy_rules|done].
  - destruct (decide (net_ip q.1 = node)) as [He|He].
    + left. apply Contains_host. rewrite <-(Hn q Hq He). apply Ha.
    + right. exists q. split; [|done]. apply elem_of_policy_rules in Hq as [Hq Hr].
      apply elem_of_live_rules. split; [done|]. by apply (live_net_Some f node).
Qed.
End address.
End endtoend.


(** C16: The enforcement does not depend on Go's randomised map iteration: two runs of
    [ComputeMapEntriesFromEndpointRules] on the same well-formed rules, under any two
    iteration orders, give maps on which the classifier reaches the same verdict for every
    packet (the port lists themselves may be permuted). *)
Theorem np_order_independent `{!LPM} (o1 o2 : MapOrder) (f : FirewallRuleProcessor) (node : IP)
    (rules : list EbpfFirewallRules) (ip : IP) (protocol dest_port : Z)
    (Hproc : processor_ok f node) (Hwf : rules_wf f node rules)
    (Hip : width_ok ip) (Hlen : length ip = length node)
    (Hproto : protocol <> 0) (Hport : 0 <= dest_port <= 65535) :
  exists m1 m2,
    @ComputeMapEntriesFromEndpointRules o1 f rules = Ret m1 /\
    @ComputeMapEntriesFromEndpointRules o2 f rules = Ret m2 /\
    evaluateNamespacePolicyByLookUp m1 ip protocol dest_port POLICIES_APPLIED =
    evaluateNamespacePolicyByLookUp m2 ip protocol dest_port POLICIES_APPLIED.
Proof.
  destruct (@compute_result o1 f node rules Hproc Hwf) as (m1 & cm1 & Hm1 & Hcm1 & HT1).
  destruct (@compute_result o2 f node rules Hproc Hwf) as (m2 & cm2 & Hm2 & Hcm2 & HT2).
  exists m1, m2. split; [done|]. split; [done|].
  pose proof (@verdict_table o1 _ f node rules Hproc Hwf ip protocol dest_port Hip Hlen Hproto Hport cm1 Hcm1 m1 HT1) as V1.
  pose proof (@verdict_table o2 _ f node rules Hproc Hwf ip protocol dest_port Hip Hlen Hproto Hport cm2 Hcm2 m2 HT2) as V2.
  unfold verdict_is in *. destruct V1 as [[-> ?]|[-> ?]], V2 as [[-> ?]|[-> ?]]; tauto.
Qed.

(** ** A concrete rule set *)
Definition ex_node : IP := [xc0; xa8; x00; x01].
Definition ex_f : FirewallRuleProcessor := NewFirewallRuleProcessor (go "192.168.0.1") (go "/32") false.
Definition ex_tcp (port : Z) : Port := mkPort (Some (mkProtocolPtr 100 ProtocolTCP)) (Some port) None.
Definition ex_rule (cidr : string) (excepts : list string) (ports : list Port) : EbpfFirewallRules :=
  mkEbpfFirewallRules 0 [] [] (go cidr) (go <$> excepts) ports.

(** 10.0.0.0/8 on port 80 except 10.2.0.0/16, and the nested 10.1.0.0/16 on port 443. *)
Definition ex_rules : list EbpfFirewallRules :=
  [ex_rule "10.1.0.0/16" [] [ex_tcp 443]; ex_rule "10.0.0.0/8" ["10.2.0.0/16"%string] [ex_tcp 80]].

Lemma ex_processor_ok : processor_ok ex_f ex_node.
Proof.
  split; [by left|reflexivity|reflexivity|vm_compute; reflexivity|].
  apply (bool_decide_unpack _). vm_compute. exact I.
Qed.

Lemma disjoint_by_covers a b :
  canonical a -> canonical b -> ~ covers a b -> ~ covers b a -> disjoint_nets a b.
Proof.
  intros Ha Hb H1 H2 ip Ca. destruct (Contains b ip) eqn:Cb; [exfalso|done].
  destruct (decide (net_ones a <= net_ones b)%nat).
  - apply H1. by eapply Contains_nested.
  - apply H2. eapply Contains_nested; [| |done|done|lia]; done.
Qed.

Definition ex_live : list netrule :=
  [(mkIPNet [x0a; x01; x00; x00] [xff; xff; x00; x00], ex_rule "10.1.0.0/16" [] [ex_tcp 443]);
   (mkIPNet [x0a; x00; x00; x00] [xff; x00; x00; x00], ex_rule "10.0.0.0/8" ["10.2.0.0/16"%string] [ex_tcp 80])].

Lemma ex_live_eq : live_rules ex_f ex_rules = ex_live.
Proof. vm_compute. reflexivity. Qed.

Lemma ex_canonical_4 a m k :
  length a = 4%nat -> (k <= 32)%nat -> m = CIDRMask_loop 4 k -> mask_bytes a m = a -> canonical (mkIPNet a m).
Proof.
  intros H Hk -> Hm. rewrite <-Hm. rewrite <-H at 1 2. apply masked_canonical; [lia|]. left.
  rewrite H. by rewrite Hm.
Qed.

(** A rule whose CIDR is written canonically is well formed. *)
Lemma rule_ok_intro f r :
  match ParseCIDR (rule_text f (IPCidr r)) with
  | Some (_, n) => bool_decide (eff n = n) && negb (enableIPv6 f && bool_decide (net_ones n = 32%nat))
  | None => false
  end = true -> rule_ok f r.
Proof.
  intros H. destruct (ParseCIDR _) as [[a n]|] eqn:E; [|done]. apply andb_true_iff in H as [He%bool_decide_eq_true H].
  split; [left; eauto|]. intros a' n' HP _. assert (n' = n) as -> by congruence. split; [done|]. intros Hv H32.
  rewrite Hv, H32 in H. done.
Qed.

Lemma ex_rules_wf : rules_wf ex_f ex_node ex_rules.
Proof.
  split.
  - apply Forall_cons; split; [|apply Forall_cons; split; [|constructor]]; apply rule_ok_intro; vm_compute; done.
  - rewrite ex_live_eq. intros q x Hq Hx.
    assert (q = (mkIPNet [x0a; x00; x00; x00] [xff; x00; x00; x00],
                 ex_rule "10.0.0.0/8" ["10.2.0.0/16"%string] [ex_tcp 80]) /\ x = go "10.2.0.0/16") as [-> ->].
    { unfold ex_live in Hq. rewrite !elem_of_cons in Hq. destruct Hq as [->|[->|Hq]]; cbn in Hx; set_solver. }
    eexists _, _. split; [vm_compute; reflexivity|]. split; [vm_compute; reflexivity|].
    split; [vm_compute; reflexivity|]. split; [vm_compute; congruence|]. split; [vm_compute; lia|].
    intros q' Hq'. unfold ex_live in Hq'. rewrite !elem_of_cons in Hq'.
    destruct Hq' as [->|[->|Hq']]; [right|left|by apply not_elem_of_nil in Hq'].
    + apply disjoint_by_covers.
      * by eapply (ex_canonical_4 _ _ 16); [done|lia|..].
      * by eapply (ex_canonical_4 _ _ 16); [done|lia|..].
      * apply (bool_decide_unpack _). vm_compute. exact I.
      * apply (bool_decide_unpack _). vm_compute. exact I.
    + split; [done|]. cbn. set_solver.
  - rewrite ex_live_eq. intros q Hq. unfold ex_live in Hq. rewrite !elem_of_cons in Hq.
    destruct Hq as [->|[->|Hq]]; [..|by apply not_elem_of_nil in Hq];
      (repeat constructor; cbn; try lia; intros ? [= <-]; done).
  - rewrite ex_live_eq. intros q Hq. unfold ex_live in Hq. rewrite !elem_of_cons in Hq.
    destruct Hq as [->|[->|Hq]]; [..|by apply not_elem_of_nil in Hq]; vm_compute; lia.
Qed.

Lemma ex_node_hosts : node_hosts ex_f ex_node ex_rules.
Proof.
  intros q Hq. assert (policy_rules ex_f ex_rules = ex_live) as E by (vm_compute; reflexivity). rewrite E in Hq.
  unfold ex_live in Hq. rewrite !elem_of_cons in Hq. destruct Hq as [->|[->|Hq]]; [done..|by apply not_elem_of_nil in Hq].
Qed.


Lemma np_order_independent_witness :
  exists m1 m2,
    @ComputeMapEntriesFromEndpointRules listed_order ex_f ex_rules = Ret m1 /\
    @ComputeMapEntriesFromEndpointRules reverse_order ex_f ex_rules = Ret m2 /\
    @evaluateNamespacePolicyByLookUp lpm_scan m1 [x0a; x01; x05; x05] 6 443 POLICIES_APPLIED =
    @evaluateNamespacePolicyByLookUp lpm_scan m2 [x0a; x01; x05; x05] 6 443 POLICIES_APPLIED.
Proof.
  apply (@np_order_independent lpm_scan listed_order reverse_order ex_f ex_node ex_rules
           [x0a; x01; x05; x05] 6 443 ex_processor_ok ex_rules_wf); [by left|reflexivity|lia|lia].
Defined.
