(* ===== verification/NetworkPolicyLimits.v ===== *)
(** Rule sets outside the hypotheses of the end-to-end theorem, evaluated: what the code
    does there.  Each result runs [ComputeMapEntriesFromEndpointRules] and the classifier on a
    concrete input and contrasts the verdict with the meaning of the rules. *)
From S2P Require Import Prelude NetIP NetIPFacts ApiTypes Utils UtilsFacts CidrTrie FwRules FwRulesFacts Datapath NetworkPolicySem.

(** The verdict for an address, with some iteration order and the scanning lookup. *)
Definition verdict (o : MapOrder) (f : FirewallRuleProcessor) (rules : list EbpfFirewallRules)
    (ip : IP) (protocol dest_port : Z) : outcome Z :=
  m ← @ComputeMapEntriesFromEndpointRules o f rules;
  Ret (@evaluateNamespacePolicyByLookUp lpm_scan m ip protocol dest_port POLICIES_APPLIED).

Definition f6 : FirewallRuleProcessor := NewFirewallRuleProcessor (go "fd00::1") (go "/128") true.

(** [allows] from an index into the rules and one of their ports. *)
Lemma allows_intro f rules ip protocol dest_port i n r p :
  policy_rules f rules !! i = Some (n, r) -> Contains n ip = true ->
  foundInExcept ip (fw_Except r) = false -> p ∈ ports_of r -> port_allows p protocol dest_port ->
  allows f rules ip protocol dest_port.
Proof. intros H Hc Hx Hp Ha. exists (n, r). split; [by eapply list_elem_of_lookup_2|]. apply rule_allows_alt. eauto. Qed.

Ltac by_allows i :=
  eapply (allows_intro _ _ _ _ _ i); [vm_compute; reflexivity|vm_compute; reflexivity|vm_compute; reflexivity
    |apply list_elem_of_here|repeat split; vm_compute; first [congruence | auto]].

(** An IPv6 [/32] is taken for a host by [IsNonHostCIDR], so a more specific CIDR does not
    inherit its ports: port 80 is allowed for 2001:db8::/32 but not inside 2001:db8:1::/48. *)
Theorem ipv6_slash32_not_inherited :
  let rules := [ex_rule "2001:db8::/32" [] [ex_tcp 80]; ex_rule "2001:db8:1::/48" [] [ex_tcp 443]] in
  let ip := default [] (ParseIP (go "2001:db8:1::5")) in
  allows f6 rules ip 6 80 /\ verdict listed_order f6 rules ip 6 80 = Ret ACTION_DENY.
Proof. split; [by_allows 0%nat|vm_compute; reflexivity]. Qed.

(** The deny entry of one rule's except also hides the other rules that contain it: 443 is
    open to everyone, yet denied in the except of the 10.0.0.0/8 rule. *)
Theorem except_hides_other_rules :
  let rules := [ex_rule "0.0.0.0/0" [] [ex_tcp 443]; ex_rule "10.0.0.0/8" ["10.1.0.0/16"%string] [ex_tcp 80]] in
  let ip := [x0a; x01; x00; x01] in
  allows ex_f rules ip 6 443 /\ verdict listed_order ex_f rules ip 6 443 = Ret ACTION_DENY.
Proof. split; [by_allows 0%nat|vm_compute; reflexivity]. Qed.

(** A CIDR is tested against excepts by its network address only: 10.1.0.0/16 is taken to be
    inside the except 10.1.0.0/24 and inherits nothing. *)
Theorem except_tests_network_address :
  let rules := [ex_rule "10.0.0.0/8" ["10.1.0.0/24"%string] [ex_tcp 80]; ex_rule "10.1.0.0/16" [] [ex_tcp 443]] in
  let ip := [x0a; x01; x05; x05] in
  allows ex_f rules ip 6 80 /\ verdict listed_order ex_f rules ip 6 80 = Ret ACTION_DENY.
Proof. split; [by_allows 0%nat|vm_compute; reflexivity]. Qed.

(** Inherited ports escape an except: 10.1.1.200 is in the except of the only rule with
    port 80, but 10.1.1.128/25 inherits port 80 through 10.1.0.0/16. *)
Theorem inherited_ports_escape_except :
  let rules := [ex_rule "10.0.0.0/8" ["10.1.1.0/24"%string] [ex_tcp 80]; ex_rule "10.1.0.0/16" [] [ex_tcp 443];
                ex_rule "10.1.1.128/25" [] [ex_tcp 22]] in
  let ip := [x0a; x01; x01; xc8] in
  ~ allows ex_f rules ip 6 80 /\ verdict listed_order ex_f rules ip 6 80 = Ret ACTION_ALLOW.
Proof.
  split; [|vm_compute; reflexivity]. intros (q & Hq & (Hc & Hx & p & Hp & Ha)%rule_allows_alt).
  assert (policy_rules ex_f
            [ex_rule "10.0.0.0/8" ["10.1.1.0/24"%string] [ex_tcp 80]; ex_rule "10.1.0.0/16" [] [ex_tcp 443];
             ex_rule "10.1.1.128/25" [] [ex_tcp 22]] =
          [(mkIPNet [x0a; x00; x00; x00] [xff; x00; x00; x00], ex_rule "10.0.0.0/8" ["10.1.1.0/24"%string] [ex_tcp 80]);
           (mkIPNet [x0a; x01; x00; x00] [xff; xff; x00; x00], ex_rule "10.1.0.0/16" [] [ex_tcp 443]);
           (mkIPNet [x0a; x01; x01; x80] [xff; xff; xff; x80], ex_rule "10.1.1.128/25" [] [ex_tcp 22])]) as E
    by (vm_compute; reflexivity).
  rewrite E, !elem_of_cons in Hq. destruct Hq as [->|[->|[->|Hq]]]; [vm_compute in Hx; discriminate Hx| | |by apply not_elem_of_nil in Hq].
  - apply list_elem_of_singleton in Hp as ->. destruct Ha as [_ [Hz|[Hz|(e & Hz & _)]]]; discriminate Hz.
  - apply list_elem_of_singleton in Hp as ->. destruct Ha as [_ [Hz|[Hz|(e & Hz & _)]]]; discriminate Hz.
Qed.

(** An except without a mask, or one that does not parse, crashes the agent. *)
Theorem bare_except_panics :
  exists w, verdict listed_order ex_f [ex_rule "0.0.0.0/0" ["10.0.0.1"%string] [ex_tcp 80]] [x0a; x00; x00; x01] 6 80 = Panic w.
Proof. eexists. vm_compute. reflexivity. Qed.

(** Excepts are not filtered by family: in an IPv4 cluster the except 2001:db8::/32 becomes
    the 8-byte key of 32.1.13.184/32 and denies that address. *)
Theorem ipv6_except_denies_ipv4_host :
  let rules := [ex_rule "0.0.0.0/0" ["2001:db8::/32"%string] [ex_tcp 80]] in
  let ip := [x20; x01; x0d; xb8] in
  allows ex_f rules ip 6 80 /\ verdict listed_order ex_f rules ip 6 80 = Ret ACTION_DENY.
Proof. split; [by_allows 0%nat|vm_compute; reflexivity]. Qed.

(** An except that is the node's address replaces the node's allow-all entry. *)
Theorem except_of_node_denies_node :
  verdict listed_order ex_f [ex_rule "0.0.0.0/0" ["192.168.0.1/32"%string] [ex_tcp 80]] ex_node 6 10250 = Ret ACTION_DENY.
Proof. vm_compute. reflexivity. Qed.

(** A CIDR whose network address is the node's is taken for the node and dropped: with node
    192.168.0.128 the rule 192.168.0.128/25 allows nothing. *)
Theorem node_network_rule_dropped :
  let f := NewFirewallRuleProcessor (go "192.168.0.128") (go "/32") false in
  let rules := [ex_rule "192.168.0.128/25" [] [ex_tcp 80]] in
  let ip := [xc0; xa8; x00; x82] in
  allows f rules ip 6 80 /\ verdict listed_order f rules ip 6 80 = Ret ACTION_DENY.
Proof. split; [by_allows 0%nat|vm_compute; reflexivity]. Qed.

(** The zero padding of a value matches IP protocol 0: a packet whose protocol field is 0
    (for IPv6, one that starts with a hop-by-hop header) is allowed from any address that has
    an entry with fewer than 24 ports. *)
Theorem zero_padding_allows_protocol_0 :
  let rules := [ex_rule "10.0.0.0/8" [] [ex_tcp 443]] in
  let ip := [x0a; x00; x00; x01] in
  ~ port_allows (ex_tcp 443) 0 0 /\ verdict listed_order ex_f rules ip 0 0 = Ret ACTION_ALLOW.
Proof.
  split; [|vm_compute; reflexivity]. intros [(H & _) _]. specialize (H eq_refl). done.
Qed.
