(* ===== verification/ClusterPolicySem.v ===== *)
(** Cluster network policies, end to end: the entries
    [ComputeClusterPolicyMapEntriesFromEndpointRules] writes make the classifier pick the
    highest-priority matching rule of every CIDR that contains the address. *)
From S2P Require Import Prelude NetIP NetIPFacts ApiTypes Utils UtilsFacts CidrTrie FwRules FwRulesFacts Datapath NetworkPolicySem.

(** * The loop over the rules *)

Lemma live_canonical f r n : live_net f r = Some n -> canonical n.
Proof.
  intros Hl. destruct (live_net_parsed f r n Hl) as (a & n' & HP & -> & _).
  by destruct (ParseCIDR_eff _ _ _ HP) as (Hc & _).
Qed.

Lemma getPrefixLength_live f r n :
  live_net f r = Some n -> getPrefixLength (normalizeCIDR f (IPCidr r)) = ones_key n.
Proof.
  intros Hl. pose proof (live_canonical f r n Hl) as Hc.
  destruct (live_net_parsed f r n Hl) as (_ & _ & _ & _ & ->).
  unfold getPrefixLength. destruct (split_CIDR _ _ _ (ParseCIDR_String n Hc)) as (_ & a & m & -> & Hm).
  rewrite decide_False by naive_solver. done.
Qed.

(** The search runs over the processed CIDRs from the last to the first and stops at the
    first that contains the current one: the longest, as they are sorted. *)
Lemma overlap_loop_spec n (D : list netrule) :
  Forall (fun q => canonical q.1) D -> StronglySorted (fun a b => net_ones b.1 <= net_ones a.1)%nat D ->
  let found := overlap_loop (Some n) ((fun q => IPNet_String q.1) <$> D) in
  (found = Ret [] /\ forall q, q ∈ D -> Contains q.1 (net_ip n) = false) \/
  (exists q, q ∈ D /\ found = Ret (IPNet_String q.1) /\ Contains q.1 (net_ip n) = true /\
     forall q', q' ∈ D -> Contains q'.1 (net_ip n) = true -> (net_ones q'.1 <= net_ones q.1)%nat).
Proof.
  intros Hall Hs. revert Hall. induction Hs as [|q D Hs IH Hq]; intros Hall; cbn zeta.
  { left. split; [done|]. set_solver. }
  apply Forall_cons in Hall as [Hc Hall]. cbn [fmap list_fmap overlap_loop].
  rewrite ParseCIDR_String by done. cbn [fmap option_fmap option_map snd deref mbind outcome_bind].
  destruct (Contains q.1 (net_ip n)) eqn:E.
  - right. exists q. split; [set_solver|]. split; [done|]. split; [done|].
    rewrite Forall_forall in Hq. intros q' [->|Hq']%elem_of_cons _; [done|by apply Hq].
  - destruct (IH Hall) as [[Hf Hnone]|(q' & Hin & Hf & Hc' & Hmax)]; cbn zeta in *.
    + left. split; [done|]. intros q' [->|?]%elem_of_cons; auto.
    + right. exists q'. split; [set_solver|]. split; [done|]. split; [done|].
      intros q2 [->|?]%elem_of_cons; [congruence|auto].
Qed.

Lemma StronglySorted_reverse {A} (R : A -> A -> Prop) l :
  StronglySorted R l -> StronglySorted (fun a b => R b a) (reverse l).
Proof.
  induction 1 as [|x l Hs IH Hx]; [constructor|]. rewrite reverse_cons. apply StronglySorted_app_2; [|done|repeat constructor].
  intros a b Ha ->%list_elem_of_singleton. rewrite elem_of_reverse in Ha. rewrite Forall_forall in Hx. by apply Hx.
Qed.

Record cluster_inv (P : list netrule) (st : clusterState) : Prop := {
  cinv_dom : forall key, is_Some (cidrL4Rules st !! key) <-> exists q, q ∈ P /\ key = IPNet_String q.1;
  cinv_rules : forall q ls l, q ∈ P -> cidrL4Rules st !! IPNet_String q.1 = Some ls ->
    l ∈ ls <-> exists q', q' ∈ P /\ covers q'.1 q.1 /\ l ∈ ownL4Rules q'.2;
  cinv_processed : processedCIDRs st = (fun q => IPNet_String q.1) <$> P
}.

Section step.
Context (P : list netrule) (st : clusterState) (n : IPNet) (r : EbpfFirewallRules).
Context (Hinv : cluster_inv P st) (Hcan : forall q, q ∈ P -> canonical q.1) (Hn : canonical n).
Context (Hsort : forall q, q ∈ P -> (net_ones q.1 <= net_ones n)%nat).
Context (HP : StronglySorted (fun a b => net_ones a.1 <= net_ones b.1)%nat P).
Let P' := P ++ [(n, r)].

(** The overlap found is the most specific CIDR around [n]. *)
Lemma most_specific_overlap :
  (findMostSpecificOverlap (IPNet_String n) (processedCIDRs st) = Ret [] /\
    forall q, q ∈ P -> ~ covers q.1 n) \/
  (exists q, q ∈ P /\ findMostSpecificOverlap (IPNet_String n) (processedCIDRs st) = Ret (IPNet_String q.1) /\
    forall q', q' ∈ P -> covers q'.1 n <-> covers q'.1 q.1).
Proof.
  unfold findMostSpecificOverlap. rewrite ParseCIDR_String by done. cbn [fmap option_fmap option_map snd].
  rewrite (cinv_processed _ _ Hinv), <-fmap_reverse.
  destruct (overlap_loop_spec n (reverse P)) as [[-> Hnone]|(q & Hq & -> & Hc & Hmax)].
  - apply Forall_forall. intros q Hq. rewrite elem_of_reverse in Hq. auto.
  - by apply (StronglySorted_reverse (fun a b => net_ones a.1 <= net_ones b.1)%nat).
  - left. split; [done|]. intros q Hq Hcov. rewrite <-elem_of_reverse in Hq. apply Hnone in Hq as Hf. rewrite elem_of_reverse in Hq.
    rewrite (covers_Contains n q.1) in Hf; auto using Contains_self. done.
  - right. rewrite elem_of_reverse in Hq. exists q. split; [done|]. split; [done|].
    assert (covers q.1 n) as Hqn by (eapply (Contains_nested n q.1 (net_ip n)); auto using Contains_self).
    intros q' Hq'. split; [intros Hcov|intros Hcov; by eapply covers_trans].
    assert (Contains q'.1 (net_ip n) = true) as Hc' by (eapply covers_Contains; eauto using Contains_self).
    eapply (Contains_nested q.1 q'.1 (net_ip n)); auto. apply Hmax; [by rewrite elem_of_reverse|done].
Qed.

Definition cluster_step (over : gostring) : clusterState :=
  let current := default [] (cidrL4Rules st !! IPNet_String n) in
  let current := if decide (over <> []) then current ++ default [] (cidrL4Rules st !! over) else current in
  mkClusterState (<[IPNet_String n := current ++ ownL4Rules r]> (cidrL4Rules st))
  (processedCIDRs st ++ [IPNet_String n]).

Lemma cstep_mem q : q ∈ P' <-> q ∈ P \/ q = (n, r).
Proof. unfold P'. set_solver. Qed.

Lemma cstep_canonical q : q ∈ P' -> canonical q.1.
Proof. intros [?| ->]%cstep_mem; auto. Qed.

(** The rules of the new entry are those of every CIDR around it, its own included. *)
Lemma cstep_rules over l :
  findMostSpecificOverlap (IPNet_String n) (processedCIDRs st) = Ret over ->
  l ∈ default [] (cidrL4Rules (cluster_step over) !! IPNet_String n) <->
  exists q, q ∈ P' /\ covers q.1 n /\ l ∈ ownL4Rules q.2.
Proof.
  intros Hover. cbn [cluster_step cidrL4Rules]. rewrite lookup_insert_eq. cbn [default from_option].
  unfold id. rewrite elem_of_app.
  assert (forall l, l ∈ default [] (cidrL4Rules st !! IPNet_String n) ->
        exists q, q ∈ P /\ covers q.1 n /\ l ∈ ownL4Rules q.2) as Hcur.
  { intros l' Hl. destruct (cidrL4Rules st !! IPNet_String n) as [ls|] eqn:E; [|by apply not_elem_of_nil in Hl].
    destruct (proj1 (cinv_dom _ _ Hinv _) (mk_is_Some _ _ E)) as (q & Hq & Hs).
    apply IPNet_String_inj in Hs; [|auto..]. rewrite Hs in E |- *. by eapply (cinv_rules P st). }
  assert (l ∈ (if decide (over <> []) then default [] (cidrL4Rules st !! IPNet_String n) ++
             default [] (cidrL4Rules st !! over) else default [] (cidrL4Rules st !! IPNet_String n)) <->
      exists q, q ∈ P /\ covers q.1 n /\ l ∈ ownL4Rules q.2) as ->.
  { destruct most_specific_overlap as [[Hov Hnone]|(q & Hq & Hov & Hcov)];
      rewrite Hov in Hover; injection Hover as <-.
    - rewrite decide_False by naive_solver. split; [apply Hcur|].
      intros (q & Hq & Hc & _). by apply Hnone in Hc.
    - rewrite decide_True by (by apply IPNet_String_ne; auto).
      destruct (proj2 (cinv_dom _ _ Hinv (IPNet_String q.1))) as [ls Hls]; [eauto|].
      rewrite Hls. cbn [default from_option]. unfold id. rewrite elem_of_app, (cinv_rules _ _ Hinv q ls l Hq Hls).
      split.
      + intros [Hl|(q' & Hq' & Hc & Hl)]; [by apply Hcur|]. exists q'. by rewrite Hcov.
      + intros (q' & Hq' & Hc & Hl). right. exists q'. by rewrite <-Hcov. }
  split.
  - intros [(q & ? & ? & ?)|Hl]; [exists q; rewrite cstep_mem; auto|].
    exists (n, r). rewrite cstep_mem. auto using covers_refl.
  - intros (q & [Hq| ->]%cstep_mem & Hc & Hl); [left; eauto|by right].
Qed.

Lemma cluster_step_inv over :
  findMostSpecificOverlap (IPNet_String n) (processedCIDRs st) = Ret over ->
  cluster_inv P' (cluster_step over).
Proof.
  intros Hover. split.
  - intros key. cbn [cluster_step cidrL4Rules]. destruct (decide (key = IPNet_String n)) as [->|Hk].
    + rewrite lookup_insert_eq. split; [|eauto]. intros _. exists (n, r). rewrite cstep_mem. auto.
    + rewrite lookup_insert_ne by done. rewrite (cinv_dom _ _ Hinv). split; intros (q & Hq & ->).
      * exists q. rewrite cstep_mem. auto.
      * apply cstep_mem in Hq as [Hq| ->]; [eauto|done].
  - intros q ls l Hq. destruct (decide (q.1 = n)) as [Hqn|Hqn].
    + rewrite Hqn. intros Hls. pose proof (cstep_rules over l Hover) as H. by rewrite Hls in H.
    + assert (IPNet_String n <> IPNet_String q.1) as Hne
        by (intros Heq; apply Hqn; symmetry; apply IPNet_String_inj; auto using cstep_canonical).
      cbn [cluster_step cidrL4Rules]. rewrite lookup_insert_ne by done.
      apply cstep_mem in Hq as [Hq| ->]; [|done]. intros Hls. rewrite (cinv_rules _ _ Hinv q ls l Hq Hls).
      split; intros (q' & Hq' & Hc & Hl); exists q'; [rewrite cstep_mem; auto|].
      apply cstep_mem in Hq' as [?| ->]; [auto|]. exfalso. apply Hqn. symmetry.
      apply covers_antisym; auto. apply Nat.le_antisymm; auto using covers_ones.
  - cbn [cluster_step processedCIDRs]. rewrite (cinv_processed _ _ Hinv). unfold P'. by rewrite fmap_app.
Qed.
End step.

Lemma processClusterRule_live f node st r n over :
  processor_ok f node -> live_net f r = Some n -> findMostSpecificOverlap (IPNet_String n) (processedCIDRs st) = Ret over ->
  processClusterRule f st r = Ret (cluster_step st n r over).
Proof.
  intros Hp Hl Hover. pose proof (live_not_skipped f node r n Hp Hl) as Hs. destruct (live_net_parsed f r n Hl) as (_ & _ & _ & _ & HN).
  unfold processClusterRule. rewrite HN, Hs, Hover. done.
Qed.

Lemma processClusterRules_inv f node rules P st :
  processor_ok f node -> Forall (readable f) rules -> (forall q, q ∈ P -> canonical q.1) ->
  (forall q r n, q ∈ P -> r ∈ rules -> live_net f r = Some n -> net_ones q.1 <= net_ones n)%nat ->
  StronglySorted (fun a b => net_ones a.1 <= net_ones b.1)%nat P ->
  StronglySorted (key_le (fun r => getPrefixLength (normalizeCIDR f (IPCidr r)))) rules ->
  cluster_inv P st ->
  exists st', processClusterRules f rules st = Ret st' /\ cluster_inv (P ++ live_rules f rules) st'.
Proof.
  intros Hp. unfold processClusterRules. revert P st.
  induction rules as [|r rules IH]; intros P st Hok HPc Hle HPs Hs Hinv.
  { exists st. split; [done|]. by rewrite app_nil_r. }
  apply Forall_cons in Hok as [Hr Hok]. apply StronglySorted_inv in Hs as [Hs Hhd].
  rewrite Forall_forall in Hhd. rewrite live_rules_cons. cbn [for_range].
  destruct (live_net f r) as [n|] eqn:El.
  - pose proof (live_canonical f r n El) as Hc.
    assert (forall q, q ∈ P -> net_ones q.1 <= net_ones n)%nat as Hqn
      by (intros q Hq; apply (Hle q r n); set_solver).
    assert (exists over, findMostSpecificOverlap (IPNet_String n) (processedCIDRs st) = Ret over) as [over Hover].
    { destruct (most_specific_overlap P st n Hinv HPc Hc Hqn HPs) as [[-> _]|(q & _ & -> & _)]; eauto. }
    rewrite (processClusterRule_live f node st r n over Hp El Hover). cbn [mbind outcome_bind].
    destruct (IH (P ++ [(n, r)]) (cluster_step st n r over)) as (st' & Hst' & Hinv').
    + done.
    + intros q [Hq|Hq%list_elem_of_singleton]%elem_of_app; [auto|by subst q].
    + intros q r' n' Hq Hr' Hl'. apply elem_of_app in Hq as [Hq|Hq%list_elem_of_singleton].
      * apply (Hle q r' n'); set_solver.
      * subst q. cbn. specialize (Hhd r' Hr'). unfold key_le in Hhd.
        rewrite (getPrefixLength_live f r n), (getPrefixLength_live f r' n') in Hhd by auto.
        unfold ones_key in Hhd. lia.
    + apply StronglySorted_app_2; [|done|repeat constructor].
      intros a b Ha ->%list_elem_of_singleton. cbn. auto.
    + done.
    + apply cluster_step_inv; auto.
    + exists st'. split; [done|]. by rewrite <-app_assoc in Hinv'.
  - assert (processClusterRule f st r = Ret st) as ->.
    { unfold processClusterRule. by rewrite (skip_live f node), El by done. }
    cbn [mbind outcome_bind]. apply IH; auto. intros q r' n' Hq Hr'. apply Hle; set_solver.
Qed.

Lemma live_rules_perm f l l' : l ≡ₚ l' -> forall q, q ∈ live_rules f l <-> q ∈ live_rules f l'.
Proof. intros Hl q. rewrite !elem_of_live_rules. by rewrite Hl. Qed.

(** * What a cluster rule means *)

(** The protocols of the API and their numbers in an IP header. *)
Inductive api_protocol : gostring -> Z -> Prop :=
| api_TCP : api_protocol (go "TCP") 6
| api_UDP : api_protocol (go "UDP") 17
| api_SCTP : api_protocol (go "SCTP") 132.

(** A port entry with no field matches everything; otherwise the protocol, TCP when none is
    given, must be the packet's, and so must the port, when one is given. *)
Definition cport_matches (p : Port) (protocol dest_port : Z) : Prop :=
  (Protocol p = None /\ Port_Port p = None /\ EndPort p = None) \/
  api_protocol (default (go "TCP") (ptr_val <$> Protocol p)) protocol /\
  match Port_Port p with
  | None => True
  | Some s => dest_port = s \/ exists e, EndPort p = Some e /\ s <= dest_port <= e
  end.

(** Ties between rules of one priority: Deny goes first, then Accept, then the rest. *)
Definition action_order (a : ClusterNetworkPolicyRuleAction) : Z :=
  if decide (a = go "Deny") then 0 else if decide (a = go "Accept") then 1 else 2.

Definition l4_matches (l : L4Rule) (protocol dest_port : Z) : Prop := cport_matches (L4PortProtocolInfo l) protocol dest_port.
Definition rank (l : L4Rule) : Z * Z := (Priority l, action_order (Action l)).

(** Port entries as the API server admits them, and priorities as the controller computes them. *)
Record l4_ok (l : L4Rule) : Prop := {
  l4_proto : forall q, Protocol (L4PortProtocolInfo l) = Some q -> ptr_val q ∈ [go "TCP"; go "UDP"; go "SCTP"];
  l4_port : forall s, Port_Port (L4PortProtocolInfo l) = Some s -> 1 <= s <= 65535;
  l4_end : forall e, EndPort (L4PortProtocolInfo l) = Some e -> 1 <= e <= 65535;
  l4_prio : 0 <= Priority l <= 65535
}.

Lemma action_value a : deriveActionValueForCPE a = action_order a.
Proof. unfold deriveActionValueForCPE, action_order. repeat case_decide; done. Qed.

Lemma empty_rule_spec l : IsL4RuleEmpty l = true <->
  Protocol (L4PortProtocolInfo l) = None /\ Port_Port (L4PortProtocolInfo l) = None /\ EndPort (L4PortProtocolInfo l) = None.
Proof. unfold IsL4RuleEmpty. repeat case_match; naive_solver. Qed.

Lemma protocol_value_spec l protocol : l4_ok l ->
  let pv := deriveProtocolValueForCPE (L4PortProtocolInfo l) in
  0 <= pv < 2 ^ 32 /\ pv <> ANY_IP_PROTOCOL /\
  (pv = protocol <-> api_protocol (default (go "TCP") (ptr_val <$> Protocol (L4PortProtocolInfo l))) protocol).
Proof.
  intros Hok. unfold deriveProtocolValueForCPE. pose proof (l4_proto _ Hok) as Hp.
  assert (forall t n, api_protocol t n -> (t = go "TCP" -> n = 6) /\ (t = go "UDP" -> n = 17) /\ (t = go "SCTP" -> n = 132)) as Hinv.
  { intros t n []; repeat split; done. }
  destruct (Protocol _) as [q|]; cbn [fmap option_fmap option_map default from_option].
  - specialize (Hp q eq_refl). rewrite !elem_of_cons in Hp. unfold id. destruct Hp as [Hq|[Hq|[Hq|Hq]]]; [..|by apply not_elem_of_nil in Hq];
      rewrite Hq; (split; [vm_compute; split; congruence|]); (split; [discriminate|]); vm_compute deriveProtocolValueForCPE;
      (split; [intros <-; constructor|intros Ha%Hinv; symmetry; naive_solver]).
  - split; [vm_compute; split; congruence|]. split; [discriminate|]. split; [intros <-; constructor|]. intros Ha%Hinv. symmetry. naive_solver.
Qed.

Lemma action_range a : 0 <= deriveActionValueForCPE a <= 2.
Proof. unfold deriveActionValueForCPE. repeat case_decide; vm_compute; split; congruence. Qed.

Lemma rule_val_spec l protocol dest_port :
  l4_ok l -> 0 <= dest_port <= 65535 ->
  (cp_entry_match (rule_val l) protocol dest_port = true <-> l4_matches l protocol dest_port) /\
  (pv_Priority (rule_val l) / 10, pv_Priority (rule_val l) mod 10) = rank l.
Proof.
  intros Hok Hd. pose proof (l4_prio _ Hok) as H3. pose proof (action_range (Action l)) as Ha.
  assert (port_num (Port_Port (L4PortProtocolInfo l))) as H1.
  { destruct (Port_Port _) as [s|] eqn:E; [|done]. apply (l4_port _ Hok) in E. cbn. lia. }
  assert (port_num (EndPort (L4PortProtocolInfo l))) as H2.
  { destruct (EndPort _) as [s|] eqn:E; [|done]. apply (l4_end _ Hok) in E. cbn. lia. }
  assert (rank l = (Priority l, deriveActionValueForCPE (Action l))) as -> by (unfold rank; by rewrite action_value).
  set (act := deriveActionValueForCPE (Action l)) in *.
  assert (u32 (Priority l * 10 + act) = Priority l * 10 + act) as Hp by (apply u32_small; lia).
  assert (Hrank : (Priority l * 10 + act) / 10 = Priority l /\ (Priority l * 10 + act) mod 10 = act).
  { split; symmetry; [apply (Z.div_unique _ 10 _ act)|apply (Z.mod_unique _ 10 (Priority l))]; lia. }
  destruct (protocol_value_spec l protocol Hok) as (Hpv & Hany & _). pose proof (empty_rule_spec l) as Hempty.
  unfold rule_val, rule_words. fold act.
  destruct (IsL4RuleEmpty l) eqn:Ee; cbn [fmap list_fmap to_BPFL4PriorityVal nth pv_Priority];
    rewrite Hp; destruct Hrank as [-> ->]; (split; [|done]).
  { unfold cp_entry_match. cbn [pv_Protocol]. split; [|intros _; vm_compute; done]. intros _. left. by apply Hempty. }
  unfold l4_matches, cport_matches. rewrite <-Hempty.
  destruct (protocol_value_spec l protocol Hok) as (_ & _ & <-).
  unfold cp_entry_match. cbn [pv_Protocol pv_StartPort pv_EndPort]. rewrite !u32_port by done. rewrite u32_small by done.
  rewrite !orb_true_iff, !andb_true_iff, !orb_true_iff, !andb_true_iff, !Z.eqb_eq, Z.ltb_lt, !Z.leb_le.
  unfold ANY_PORT. set (pv := deriveProtocolValueForCPE _) in *. pose proof (l4_port _ Hok) as Hs. pose proof (l4_end _ Hok) as Hend.
  destruct (Port_Port (L4PortProtocolInfo l)) as [s|]; cbn [default from_option] in *; unfold id; [|naive_solver].
  specialize (Hs s eq_refl). destruct (EndPort (L4PortProtocolInfo l)) as [e|]; cbn [default from_option] in *; unfold id; cbn in *.
  - specialize (Hend e eq_refl). split.
    + intros [?|[? [[?|?]|?]]]; [done|lia|right; auto|]. right. split; [done|]. right. exists e. split; [done|lia].
    + intros [?|[? [?|(e' & [= <-] & ?)]]]; [done|right; auto|]. right. split; [done|right; lia].
  - split; [intros [?|[? [[?|?]|?]]]; [done|lia|right; auto|lia]|]. intros [?|[? [?|(e' & ? & _)]]]; [done|right; auto|done].
Qed.

(** * The classifier's choice: the least (priority, action) *)
Definition lexle (a b : Z * Z) : Prop := a.1 < b.1 \/ (a.1 = b.1 /\ a.2 <= b.2).

(** [r] is the least element of [S], or the default [(MAX_RULE_PRIORITY, PASS)] when nothing
    in [S] is below it. *)
Definition least (S : Z * Z -> Prop) (d r : Z * Z) : Prop :=
  (r = d \/ S r) /\ forall x, x = d \/ S x -> lexle r x.

Lemma least_unique S d r r' : least S d r -> least S d r' -> r = r'.
Proof.
  intros [H1 H2] [H3 H4]. specialize (H2 r' H3). specialize (H4 r H1).
  destruct r, r'. unfold lexle in *. cbn in *. f_equal; lia.
Qed.

Lemma least_iff S S' d r : (forall x, S x <-> S' x) -> least S d r -> least S' d r.
Proof. intros H [H1 H2]. split; [naive_solver|]. intros x Hx. apply H2. naive_solver. Qed.

Definition val_rank (v : BPFL4PriorityVal) : Z * Z := (pv_Priority v / 10, pv_Priority v mod 10).

Definition val_ranks (vals : list BPFL4PriorityVal) (protocol dest_port : Z) (x : Z * Z) : Prop :=
  exists v, v ∈ vals /\ cp_entry_match v protocol dest_port = true /\ x = val_rank v.

Definition default_rank : Z * Z := (MAX_RULE_PRIORITY, ACTION_PASS).

Lemma least_step (S : Z * Z -> Prop) d r x :
  least S d r ->
  let better := (x.1 <? r.1) || ((x.1 =? r.1) && (x.2 <? r.2)) in
  least (fun y => S y \/ y = x) d (if better then x else r).
Proof.
  intros [H1 H2]. cbn zeta. destruct x as [xp xa], r as [rp ra]. cbn [fst snd].
  destruct ((xp <? rp) || ((xp =? rp) && (xa <? ra))) eqn:E.
  - rewrite orb_true_iff, andb_true_iff, Z.eqb_eq, !Z.ltb_lt in E. split; [auto|].
    intros y [Hy|[Hy| ->]]; [|..|unfold lexle; cbn; lia];
      (pose proof (H2 y ltac:(auto)) as Hle; unfold lexle in *; cbn in *; lia).
  - rewrite orb_false_iff, andb_false_iff, Z.eqb_neq, !Z.ltb_ge in E. split; [destruct H1; auto|].
    intros y [Hy|[Hy| ->]]; [by apply H2; left|by apply H2; right|unfold lexle; cbn; lia].
Qed.

Lemma cp_fold_least vals protocol dest_port :
  let r := foldl (cp_step protocol dest_port) cp_init vals in
  least (val_ranks vals protocol dest_port) default_rank (admin_tier_priority r, admin_tier_action r) /\
  least (fun x => val_ranks vals protocol dest_port x /\ ADMIN_TIER_PRIORITY_LIMIT < x.1) default_rank
    (baseline_tier_priority r, baseline_tier_action r).
Proof.
  cbn zeta. induction vals as [|v vals IH] using rev_ind.
  { unfold val_ranks, least, lexle. cbn. split; (split; [by left|]); intros x [->|Hx]; cbn; try lia; set_solver. }
  rewrite foldl_app. cbn [foldl]. set (r := foldl (cp_step protocol dest_port) cp_init vals) in *.
  assert (forall x, val_ranks (vals ++ [v]) protocol dest_port x <->
            val_ranks vals protocol dest_port x \/ (cp_entry_match v protocol dest_port = true /\ x = val_rank v)) as Hx.
  { intros x. unfold val_ranks. split.
    - intros (w & [?| ->%list_elem_of_singleton]%elem_of_app & ? & ?); eauto.
    - intros [(w & ? & ? & ?)|[? ?]]; eexists; (split; [apply elem_of_app|done]); [by left|right; by apply list_elem_of_singleton]. }
  destruct IH as [IH1 IH2]. unfold cp_step. fold (val_rank v).
  destruct (cp_entry_match v protocol dest_port) eqn:Em.
  - split.
    + eapply least_iff; [intros x; symmetry; etrans; [apply Hx|]|].
      { instantiate (1 := fun y => val_ranks vals protocol dest_port y \/ y = val_rank v). naive_solver. }
      pose proof (least_step _ _ _ (val_rank v) IH1) as H. cbn [val_rank fst snd] in H.
      destruct (_ || _); destruct (_ && _); exact H.
    + destruct (Z.ltb_spec ADMIN_TIER_PRIORITY_LIMIT (pv_Priority v / 10)) as [Hlt|Hge].
      * eapply least_iff; [intros x; symmetry; etrans; [apply and_iff_compat_r, Hx|]|].
        { instantiate (1 := fun y => (val_ranks vals protocol dest_port y /\ ADMIN_TIER_PRIORITY_LIMIT < y.1) \/ y = val_rank v).
          unfold val_rank. naive_solver. }
        pose proof (least_step _ _ _ (val_rank v) IH2) as H. cbn [val_rank fst snd] in H.
        cbn [andb]. destruct ((_ <? admin_tier_priority r) || _); destruct (_ || _); exact H.
      * cbn [andb]. eapply least_iff; [|destruct (_ || _); exact IH2].
        intros x. rewrite Hx. cbn. unfold val_rank. split; [naive_solver|].
        intros [[?|[_ ->]] ?]; [done|cbn in *; lia].
  - split; (eapply least_iff; [|first [exact IH1|exact IH2]]); intros x; rewrite Hx; naive_solver.
Qed.

(** * End to end *)

(** The L4 rules of the CIDRs that cover [n]. *)
Definition covering_l4 (L : list netrule) (n : IPNet) : list L4Rule :=
  filter (fun q => covers q.1 n) L ≫= fun q => ownL4Rules q.2.

(** Two pointers with the same address point to the same protocol. *)
Definition same_heap (l l' : L4Rule) : Prop :=
  ptr_addr <$> Protocol (L4PortProtocolInfo l) = ptr_addr <$> Protocol (L4PortProtocolInfo l') ->
  ptr_val <$> Protocol (L4PortProtocolInfo l) = ptr_val <$> Protocol (L4PortProtocolInfo l').

Definition live_l4 (f : FirewallRuleProcessor) (rules : list EbpfFirewallRules) (l : L4Rule) : Prop :=
  exists q, q ∈ live_rules f rules /\ l ∈ ownL4Rules q.2.

Record crules_wf (f : FirewallRuleProcessor) (rules : list EbpfFirewallRules) : Prop := {
  cwf_cidrs : Forall (readable f) rules;
  cwf_l4 : forall l, live_l4 f rules l -> l4_ok l;
  cwf_heap : forall l l', live_l4 f rules l -> live_l4 f rules l' -> same_heap l l';
  (** at most 24 distinct rules apply to a CIDR: the map value holds no more *)
  cwf_budget : forall q, q ∈ live_rules f rules ->
    (length (remove_dups (l4RuleKey <$> covering_l4 (live_rules f rules) q.1)) <= 24)%nat
}.

(** A rule on a network matches a packet. *)
Definition crule_matches (q : netrule) (ip : IP) (protocol dest_port : Z) : Prop :=
  Contains q.1 ip = true /\ (L4Info q.2 = [] \/ exists p, p ∈ L4Info q.2 /\ cport_matches p protocol dest_port).

(** The priorities and actions of the rules that match a packet. *)
Definition matching (f : FirewallRuleProcessor) (rules : list EbpfFirewallRules) (ip : IP)
    (protocol dest_port : Z) (x : Z * Z) : Prop :=
  exists q, q ∈ policy_rules f rules /\ crule_matches q ip protocol dest_port /\ x = (fw_Priority q.2, action_order (fw_Action q.2)).

(** The same over the live rules, in terms of the entries the code makes of them. *)
Definition live_matching (f : FirewallRuleProcessor) (rules : list EbpfFirewallRules) (ip : IP)
    (protocol dest_port : Z) (x : Z * Z) : Prop :=
  exists q l, q ∈ live_rules f rules /\ Contains q.1 ip = true /\ l ∈ ownL4Rules q.2 /\
    l4_matches l protocol dest_port /\ x = rank l.

Lemma ownL4Rules_matches r protocol dest_port x :
  (exists l, l ∈ ownL4Rules r /\ l4_matches l protocol dest_port /\ x = rank l) <->
  (L4Info r = [] \/ exists p, p ∈ L4Info r /\ cport_matches p protocol dest_port) /\ x = (fw_Priority r, action_order (fw_Action r)).
Proof.
  unfold ownL4Rules. case_decide as Hd.
  - setoid_rewrite list_elem_of_singleton. split; [intros (l & -> & _ & ->); auto|]. intros [_ ->].
    eexists. split; [done|]. split; [by left|done].
  - setoid_rewrite list_elem_of_fmap. split.
    + intros (l & (p & -> & Hp) & Hm & ->). split; [right; eauto|done].
    + intros [[?|(p & Hp & Hm)] ->]; [done|]. exists (mkL4Rule p (fw_Action r) (fw_Priority r)). split; [eauto|]. split; [exact Hm|done].
Qed.

(** For an address other than the node's, the live rules are all the rules when no rule on a
    network of several addresses starts at the node's. *)
Lemma matching_live f node rules ip protocol dest_port x :
  processor_ok f node -> node_hosts f node rules -> width_ok ip -> length ip = length node -> ip <> node ->
  live_matching f rules ip protocol dest_port x <-> matching f rules ip protocol dest_port x.
Proof.
  intros Hp Hn Hip Hlen Hne. split.
  - intros (q & l & Hq & Hc & Hl). apply elem_of_live_rules in Hq as [Hq Hv]. apply (live_net_Some f node) in Hv as [Hv _]; [|done].
    exists q. split; [by apply elem_of_policy_rules|]. destruct (proj1 (ownL4Rules_matches q.2 protocol dest_port x)); [eauto|].
    split; [split; done|done].
  - intros (q & Hq & [Hc Hm] & Hx). destruct (decide (net_ip q.1 = node)) as [He|He].
    { destruct Hne. apply (Contains_host f node Hp ip Hip Hlen). by rewrite <-(Hn q Hq He). }
    apply elem_of_policy_rules in Hq as [Hq Hr].
    destruct (proj2 (ownL4Rules_matches q.2 protocol dest_port x) (conj Hm Hx)) as (l & Hl & Hml & Hxl).
    exists q, l. split; [|done]. apply elem_of_live_rules. split; [done|]. by apply (live_net_Some f node).
Qed.

(** Rules with equal de-duplication keys match the same packets with the same rank. *)
Lemma l4RuleKey_same l l' :
  l4_ok l -> l4_ok l' -> same_heap l l' -> l4RuleKey l = l4RuleKey l' -> rule_val l = rule_val l'.
Proof.
  intros Hok Hok' Hh Hk. unfold l4RuleKey in Hk. injection Hk as Hp H1 H2 H3 H4.
  specialize (Hh Hp). destruct l as [[pr po en] ac pri], l' as [[pr' po' en'] ac' pri'].
  destruct Hok as [_ Ho1 Ho2 _], Hok' as [_ Ho1' Ho2' _]. cbn in *.
  assert (po = po') as ->.
  { destruct po as [s|], po' as [s'|]; cbn in H1; [congruence|specialize (Ho1 s eq_refl); lia|specialize (Ho1' s' eq_refl); lia|done]. }
  assert (en = en') as ->.
  { destruct en as [s|], en' as [s'|]; cbn in H2; [congruence|specialize (Ho2 s eq_refl); lia|specialize (Ho2' s' eq_refl); lia|done]. }
  subst pri' ac'. unfold rule_val, rule_words, IsL4RuleEmpty, deriveProtocolValueForCPE. cbn.
  destruct pr as [pr|], pr' as [pr'|]; cbn in *; try done. injection Hh as Hh. by rewrite Hh.
Qed.

Section endtoend.
Context `{!MapOrder, !LPM}.
Context (f : FirewallRuleProcessor) (node : IP) (rules : list EbpfFirewallRules).
Context (Hproc : processor_ok f node) (Hwf : crules_wf f rules).
Let L := live_rules f rules.

Lemma clive_net_ok q : q ∈ L -> net_ok (enableIPv6 f) q.1 /\ q.1 <> host_net node.
Proof.
  intros [Hq Hl]%elem_of_live_rules. pose proof (live_canonical f _ _ Hl) as Hc.
  apply (live_net_Some f node) in Hl as [Hl Hn]; [|done]. destruct (rule_net_parsed f _ _ Hl) as (_ & _ & _ & _ & _ & Hv & _).
  split; [split; [done|]; unfold in_family; by rewrite v6_length, Hv|].
  intros Heq. apply Hn. by rewrite Heq.
Qed.

Definition encC (key : gostring) (ls : list L4Rule) : gostring :=
  cp_value (removeDuplicateL4Rules key ls).

Definition node_rule_value : gostring :=
  cp_value [mkL4Rule (mkPort None None None) (go "Accept") 0].

Definition cp_table (st : clusterState) (n : IPNet) (v : gostring) : Prop :=
  (n = host_net node /\ v = node_rule_value) \/
  exists ls, cidrL4Rules st !! IPNet_String n = Some ls /\ v = encC (IPNet_String n) ls.

(** No well-formed rule set makes the computation panic or fail. *)
Lemma cluster_compute_result :
  exists m st, ComputeClusterPolicyMapEntriesFromEndpointRules f rules = Ret m /\
  cluster_inv (live_rules f (sortByCIDRLength f rules)) st /\ table_of (enableIPv6 f) m (cp_table st).
Proof.
  unfold ComputeClusterPolicyMapEntriesFromEndpointRules. rewrite (ParseCIDR_node f node Hproc).
  cbn [fmap option_fmap option_map snd deref mbind outcome_bind].
  assert (sortByCIDRLength f rules ≡ₚ rules) as Hperm by apply slice_stable_perm.
  rewrite ComputeTrieValueForCPE_spec. cbn [mbind outcome_bind].
  destruct (processClusterRules_inv f node (sortByCIDRLength f rules) [] (mkClusterState ∅ [])) as (st & Hst & Hinv).
  - done.
  - rewrite Hperm. apply Hwf.
  - set_solver.
  - set_solver.
  - constructor.
  - apply slice_stable_sorted.
  - split; [|set_solver|done]. intros key. cbn. rewrite lookup_empty. split; [by intros []|set_solver].
  - rewrite Hst. cbn [mbind outcome_bind]. cbn [app] in Hinv. unfold encodeClusterEntries.
    destruct (for_range_table (enableIPv6 f) encC (encodeClusterEntry f)
            (go_range (go "cidrL4Rules") (map_to_list (cidrL4Rules st)))
            {[ComputeTrieKey (host_net node) (enableIPv6 f) := node_rule_value]}
            (fun n v => n = host_net node /\ v = node_rule_value)) as (m & Hm & HT).
    + intros m n ls Hn. unfold encodeClusterEntry. rewrite ParseCIDR_String by done. cbn. by rewrite ComputeTrieValueForCPE_spec.
    + by apply table_of_singleton, node_net_ok.
    + rewrite go_range_perm. apply NoDup_fst_map_to_list.
    + intros [key ls] Hin. rewrite go_range_perm in Hin. apply elem_of_map_to_list in Hin.
      destruct (proj1 (cinv_dom _ _ Hinv key) (mk_is_Some _ _ Hin)) as (q & Hq & ->).
      rewrite (live_rules_perm f _ _ Hperm) in Hq. exists q.1.
      destruct (clive_net_ok q Hq). split; [done|]. split; [done|]. naive_solver.
    + exists m, st. split; [done|]. split; [done|]. eapply table_of_iff; [|exact HT]. intros n v Hok.
      unfold cp_table. setoid_rewrite go_range_perm. by setoid_rewrite elem_of_map_to_list.
Qed.

(** The entry of a CIDR: the least rank among the rules of every CIDR around it. *)
Section entry.
Context (protocol dest_port : Z) (Hproto : protocol <> 0) (Hport : 0 <= dest_port <= 65535).

Definition l4_ranks (ls : list L4Rule) (x : Z * Z) : Prop :=
  exists l, l ∈ ls /\ l4_matches l protocol dest_port /\ x = rank l.

Lemma encC_ranks key ls x :
  (forall l, l ∈ ls -> live_l4 f rules l) -> (length (remove_dups (l4RuleKey <$> ls)) <= 24)%nat ->
  val_ranks (read_BPFL4PriorityVals (encC key ls)) protocol dest_port x <-> l4_ranks ls x.
Proof.
  intros Hls Hlen. unfold encC. rewrite read_cp_value.
  destruct (dedup_by_key_spec l4RuleKey key ls) as (Hsub & Hcov & Hl).
  fold (removeDuplicateL4Rules key ls) in *. set (l := removeDuplicateL4Rules key ls) in *.
  rewrite take_ge by lia. unfold val_ranks, l4_ranks. split.
  - intros (v & Hv & Hm & ->). apply elem_of_app in Hv as [Hv|Hv].
    + apply list_elem_of_fmap in Hv as (r & -> & Hr). exists r. split; [auto|].
      destruct (rule_val_spec r protocol dest_port (cwf_l4 _ _ Hwf r (Hls r (Hsub r Hr))) Hport) as [H1 H2].
      split; [by apply H1|exact H2].
    + apply elem_of_replicate in Hv as [-> _]. unfold cp_entry_match in Hm. cbn [zero_rule_val pv_Protocol] in Hm.
      rewrite (proj2 (Z.eqb_neq 0 protocol)) in Hm by lia. done.
  - intros (r & Hr & Hm & ->). destruct (Hcov r Hr) as (r' & Hr' & Hk).
    pose proof (Hls r Hr) as Hlr. pose proof (Hls r' (Hsub r' Hr')) as Hlr'.
    assert (rule_val r' = rule_val r) as Heq
      by (apply l4RuleKey_same; [by apply Hwf|by apply Hwf|by apply (cwf_heap _ _ Hwf)|done]).
    exists (rule_val r'). split; [apply elem_of_app; left; by apply list_elem_of_fmap_2|]. rewrite Heq.
    destruct (rule_val_spec r protocol dest_port (cwf_l4 _ _ Hwf r Hlr) Hport) as [H1 H2].
    split; [by apply H1|by rewrite <-H2].
Qed.

(** The longest matching CIDR's entry ranks the rules of every CIDR with the address. *)
Lemma entry_matching st q ls ip x :
  cluster_inv (live_rules f (sortByCIDRLength f rules)) st ->
  q ∈ L -> cidrL4Rules st !! IPNet_String q.1 = Some ls -> Contains q.1 ip = true ->
  (forall q', q' ∈ L -> Contains q'.1 ip = true -> (net_ones q'.1 <= net_ones q.1)%nat) ->
  val_ranks (read_BPFL4PriorityVals (encC (IPNet_String q.1) ls)) protocol dest_port x <->
  live_matching f rules ip protocol dest_port x.
Proof.
  intros Hinv Hq Hls Hc Hmax.
  assert (sortByCIDRLength f rules ≡ₚ rules) as Hperm by apply slice_stable_perm.
  assert (forall l, l ∈ ls <-> exists q', q' ∈ L /\ covers q'.1 q.1 /\ l ∈ ownL4Rules q'.2) as Hl.
  { intros l. rewrite (cinv_rules _ _ Hinv q ls l); [|by apply (live_rules_perm f _ _ Hperm)|done].
    split; intros (q' & Hq' & ?); exists q'; (split; [by apply (live_rules_perm f _ _ Hperm)|done]). }
  rewrite encC_ranks.
  - unfold l4_ranks, live_matching. split.
    + intros (l & (q' & Hq' & Hcov & Hin)%Hl & Hm & ->). exists q', l. split; [done|]. split; [|done].
      eapply (covers_Contains q.1); [apply (clive_net_ok q Hq)|apply (clive_net_ok q' Hq')|done|done].
    + intros (q' & l & Hq' & Hc' & Hin & Hm & ->). exists l. split; [|done]. apply Hl. exists q'.
      split; [done|]. split; [|done].
      eapply (Contains_nested q.1 q'.1 ip); [apply (clive_net_ok q Hq)|apply (clive_net_ok q' Hq')|done|done|auto].
  - intros l (q' & Hq' & _ & Hin)%Hl. by exists q'.
  - pose proof (cwf_budget _ _ Hwf q Hq) as Hb.
    erewrite Permutation_length; [exact Hb|]. apply NoDup_Permutation; [apply NoDup_remove_dups..|].
    intros k. rewrite !elem_of_remove_dups, !list_elem_of_fmap. unfold covering_l4.
    setoid_rewrite list_elem_of_bind. setoid_rewrite list_elem_of_filter. setoid_rewrite Hl. naive_solver.
Qed.

Lemma single_rank vals x :
  val_ranks vals protocol dest_port x -> (forall y, val_ranks vals protocol dest_port y -> y = x) ->
  x.1 < MAX_RULE_PRIORITY ->
  admin_tier_priority (foldl (cp_step protocol dest_port) cp_init vals) = x.1 /\
  admin_tier_action (foldl (cp_step protocol dest_port) cp_init vals) = x.2.
Proof.
  intros Hin Hall Hx. destruct (cp_fold_least vals protocol dest_port) as [[H1 H2] _].
  generalize dependent (foldl (cp_step protocol dest_port) cp_init vals). intros r H1 H2.
  pose proof (H2 _ (or_intror Hin)) as Hle. destruct H1 as [H1|H1].
  - injection H1 as H1 H1'. unfold lexle in Hle. cbn in Hle. lia.
  - apply Hall in H1. by rewrite <-H1.
Qed.

(** The node's entry accepts at priority 0. *)
Lemma node_rule_vals :
  read_BPFL4PriorityVals node_rule_value =
  mkBPFL4PriorityVal ANY_IP_PROTOCOL 1 0 0 :: replicate 23 zero_rule_val.
Proof. vm_compute. reflexivity. Qed.

Lemma node_rule_admin :
  let r := foldl (cp_step protocol dest_port) cp_init (read_BPFL4PriorityVals node_rule_value) in
  admin_tier_priority r = 0 /\ admin_tier_action r = ACTION_ALLOW.
Proof.
  cbn zeta. apply (single_rank _ (0, ACTION_ALLOW)); [| |done]; rewrite node_rule_vals.
  - eexists. split; [apply list_elem_of_here|done].
  - intros y (v & Hv & Hm & ->). apply elem_of_cons in Hv as [->|Hv]; [done|].
    apply elem_of_replicate in Hv as [-> _]. unfold cp_entry_match in Hm.
    cbn [zero_rule_val pv_Protocol] in Hm. by rewrite (proj2 (Z.eqb_neq 0 protocol)) in Hm by lia.
Qed.

Lemma cp_verdict_table m st ip :
  cluster_inv (live_rules f (sortByCIDRLength f rules)) st ->
  table_of (enableIPv6 f) m (cp_table st) -> width_ok ip -> length ip = length node ->
  let r := evaluateClusterPolicyByLookUp m ip protocol dest_port in
  if decide (ip = node) then admin_tier_priority r = 0 /\ admin_tier_action r = ACTION_ALLOW
  else
    least (live_matching f rules ip protocol dest_port) default_rank
    (admin_tier_priority r, admin_tier_action r) /\
    least (fun x => live_matching f rules ip protocol dest_port x /\ ADMIN_TIER_PRIORITY_LIMIT < x.1) default_rank
    (baseline_tier_priority r, baseline_tier_action r).
Proof.
  intros Hinv HT Hip Hlen. pose proof (node_net_ok f node Hproc) as Hnode.
  assert (length ip = if enableIPv6 f then 16 else 4)%nat as Hl by (rewrite Hlen; apply Hnode).
  assert (sortByCIDRLength f rules ≡ₚ rules) as Hperm by apply slice_stable_perm.
  pose proof (Contains_host f node Hproc ip Hip Hlen) as Hhost.
  assert (forall q, q ∈ L -> exists v, cp_table st q.1 v) as Hrule.
  { intros q Hq. destruct (proj2 (cinv_dom _ _ Hinv (IPNet_String q.1))) as [ls Hls].
    - exists q. split; [by apply (live_rules_perm f _ _ Hperm)|done].
    - eexists. right. eauto. }
  cbn zeta. unfold evaluateClusterPolicyByLookUp.
  destruct (lpm_table _ m _ ip HT Hip Hl) as [[-> Hnone]|(n & v & -> & Hn & Hok & Hc & Hmax)].
  - rewrite decide_False.
    2:{ intros Heq. apply Hhost in Heq. rewrite (Hnone _ node_rule_value) in Heq; [done|by left|done]. }
  assert (forall x, ~ live_matching f rules ip protocol dest_port x) as Hno.
  { intros x (q & l & Hq & Hcq & _). destruct (Hrule q Hq) as [v Hv].
    rewrite (Hnone _ _ Hv) in Hcq; [done|by apply clive_net_ok]. }
  split; (split; [by left|]); intros x [->|Hx]; [by right|by apply Hno in Hx|by right|].
  destruct Hx as [Hx _]. by apply Hno in Hx.
  - destruct Hn as [[-> ->]|(ls & Hls & ->)].
    { rewrite decide_True by (by apply Hhost). apply node_rule_admin. }
    destruct (proj1 (cinv_dom _ _ Hinv _) (mk_is_Some _ _ Hls)) as (q & Hq & Hs).
    rewrite (live_rules_perm f _ _ Hperm) in Hq. destruct (clive_net_ok q Hq) as [Hokq Hne].
    apply IPNet_String_inj in Hs as ->; [|apply Hok|apply Hokq].
    rewrite decide_False.
    2:{ intros Heq. apply Hhost in Heq as Hch. apply Hne.
    eapply same_length_same_net; [apply Hok|apply Hnode|done|done|].
    apply Nat.le_antisymm; [|eapply Hmax; [by left|done|done]].
    destruct (canonical_mask q.1 (proj1 Hok)) as (Hle & _ & _).
    rewrite host_net_ones, <-Hlen, Hl. destruct Hok as [_ Hf]. unfold in_family in Hf. lia. }
  assert (forall x, val_ranks (read_BPFL4PriorityVals (encC (IPNet_String q.1) ls)) protocol dest_port x <->
      live_matching f rules ip protocol dest_port x) as Hm.
  { intros x. apply (entry_matching st); auto. intros q' Hq' Hc'. destruct (Hrule q' Hq') as [v Hv].
    eapply Hmax; [done|by apply clive_net_ok|done]. }
  destruct (cp_fold_least (read_BPFL4PriorityVals (encC (IPNet_String q.1) ls)) protocol dest_port) as [H1 H2].
  split; [by eapply least_iff|]. eapply least_iff; [|exact H2]. intros x. cbn. by rewrite Hm.
Qed.
End entry.
End endtoend.

(** C5: End to end for cluster network policies.  For every map iteration order and every
    kernel lookup with the longest-prefix law, on a node with a valid address and for rules
    with parseable CIDRs, none of several addresses that starts at the node's, protocols, ports
    and priorities in range and at most 24 distinct rules around a CIDR, [ComputeClusterPolicyMapEntriesFromEndpointRules] returns a map on which the
    classifier, for every address and protocol other than 0: accepts the node's own traffic
    at priority 0; and for any other address picks, over ALL rules whose CIDR contains the
    address and whose port matches, the least priority with ties broken Deny, Accept, Pass,
    and the same over the baseline rules (priority above 1000) alone. *)
Theorem cp_endtoend `{!MapOrder, !LPM} (f : FirewallRuleProcessor) (node : IP)
    (rules : list EbpfFirewallRules) (ip : IP) (protocol dest_port : Z)
    (Hproc : processor_ok f node) (Hwf : crules_wf f rules) (Hnode : node_hosts f node rules)
    (Hip : width_ok ip) (Hlen : length ip = length node)
    (Hproto : protocol <> 0) (Hport : 0 <= dest_port <= 65535) :
  exists m, ComputeClusterPolicyMapEntriesFromEndpointRules f rules = Ret m /\
    let r := evaluateClusterPolicyByLookUp m ip protocol dest_port in
    if decide (ip = node) then admin_tier_priority r = 0 /\ admin_tier_action r = ACTION_ALLOW
    else
      least (matching f rules ip protocol dest_port) default_rank
        (admin_tier_priority r, admin_tier_action r) /\
      least (fun x => matching f rules ip protocol dest_port x /\ ADMIN_TIER_PRIORITY_LIMIT < x.1) default_rank
        (baseline_tier_priority r, baseline_tier_action r).
Proof.
  destruct (cluster_compute_result f node rules Hproc Hwf) as (m & st & Hm & Hinv & HT).
  exists m. split; [done|].
  pose proof (cp_verdict_table f node rules Hproc Hwf protocol dest_port Hproto Hport m st ip Hinv HT Hip Hlen) as Hv. cbv zeta in Hv |- *.
  case_decide as Hn; [exact Hv|]. destruct Hv as [H1 H2].
  split; (eapply least_iff; [|first [exact H1|exact H2]]); intros x; cbn; by rewrite (matching_live f node).
Qed.

(** ** A concrete rule set: deny 10.0.0.0/8 at priority 500, accept 10.1.0.0/16:443 at 100 *)
Definition cex_rules : list EbpfFirewallRules :=
  [mkEbpfFirewallRules 100 ClusterNetworkPolicyRuleActionAccept [] (go "10.1.0.0/16") [] [ex_tcp 443];
   mkEbpfFirewallRules 500 ClusterNetworkPolicyRuleActionDeny [] (go "10.0.0.0/8") [] []].

Definition cex_accept : L4Rule := mkL4Rule (ex_tcp 443) ClusterNetworkPolicyRuleActionAccept 100.
Definition cex_deny : L4Rule := mkL4Rule (mkPort None None None) ClusterNetworkPolicyRuleActionDeny 500.

Lemma cex_live l : live_l4 ex_f cex_rules l -> l = cex_accept \/ l = cex_deny.
Proof.
  intros ([n r] & Hq & Hl). apply elem_of_live_rules in Hq as [Hq _]. unfold cex_rules in Hq. cbn [snd] in *.
  rewrite !elem_of_cons in Hq. destruct Hq as [->|[->|Hq]]; [left|right|by apply not_elem_of_nil in Hq];
    by apply list_elem_of_singleton in Hl.
Qed.

Lemma cex_wf : crules_wf ex_f cex_rules.
Proof.
  split.
  - apply Forall_cons; split; [|apply Forall_cons; split; [|constructor]]; left; eexists; vm_compute; reflexivity.
  - intros l [->| ->]%cex_live; split; cbn; try lia; intros ? [= <-]; try lia. apply list_elem_of_here.
  - intros l l' [->| ->]%cex_live [->| ->]%cex_live; done.
  - intros q Hq. apply elem_of_live_rules in Hq as [Hq Hl]. unfold cex_rules in Hq. rewrite !elem_of_cons in Hq.
    destruct q as [n r]. cbn in *. destruct Hq as [->|[->|Hq]]; [..|by apply not_elem_of_nil in Hq];
      vm_compute in Hl; injection Hl as <-; vm_compute; lia.
Qed.

Lemma cex_node_hosts : node_hosts ex_f ex_node cex_rules.
Proof.
  intros q Hq. apply elem_of_policy_rules in Hq as [Hq Hl]. unfold cex_rules in Hq. rewrite !elem_of_cons in Hq.
  destruct q as [n r]. cbn in *. destruct Hq as [->|[->|Hq]]; [..|by apply not_elem_of_nil in Hq];
    vm_compute in Hl; injection Hl as <-; discriminate.
Qed.

Lemma cp_endtoend_witness :
  exists m, @ComputeClusterPolicyMapEntriesFromEndpointRules reverse_order ex_f cex_rules = Ret m /\
    let r := @evaluateClusterPolicyByLookUp lpm_scan m [x0a; x01; x05; x05] 6 443 in
    if decide ([x0a; x01; x05; x05] = ex_node) then admin_tier_priority r = 0 /\ admin_tier_action r = ACTION_ALLOW
    else
      least (matching ex_f cex_rules [x0a; x01; x05; x05] 6 443) default_rank
        (admin_tier_priority r, admin_tier_action r) /\
      least (fun x => matching ex_f cex_rules [x0a; x01; x05; x05] 6 443 x /\ ADMIN_TIER_PRIORITY_LIMIT < x.1)
        default_rank (baseline_tier_priority r, baseline_tier_action r).
Proof.
  apply (@cp_endtoend reverse_order lpm_scan ex_f ex_node cex_rules [x0a; x01; x05; x05] 6 443
           ex_processor_ok cex_wf cex_node_hosts); [by left|reflexivity|lia|lia].
Defined.

(** The pointers [removeDuplicateL4Rules] prints make equal rules distinct: two TCP/443
    accept rules at the same priority, whose protocols were allocated separately, stay two
    entries, while the two copies of one rule are merged. *)
Theorem removeDuplicateL4Rules_by_address (o : MapOrder) (site : gostring) :
  let rule addr := mkL4Rule (mkPort (Some (mkProtocolPtr addr ProtocolTCP)) (Some 443) None)
                     ClusterNetworkPolicyRuleActionAccept 100 in
  rule_val (rule 1) = rule_val (rule 2) /\
  length (removeDuplicateL4Rules site [rule 1; rule 2]) = 2%nat /\
  length (removeDuplicateL4Rules site [rule 1; rule 1]) = 1%nat.
Proof.
  cbn zeta. split; [vm_compute; reflexivity|].
  split; unfold removeDuplicateL4Rules;
    destruct (dedup_by_key_spec l4RuleKey site
      [mkL4Rule (mkPort (Some (mkProtocolPtr 1 ProtocolTCP)) (Some 443) None) ClusterNetworkPolicyRuleActionAccept 100;
       mkL4Rule (mkPort (Some (mkProtocolPtr 2 ProtocolTCP)) (Some 443) None) ClusterNetworkPolicyRuleActionAccept 100])
      as (_ & _ & H1);
    destruct (dedup_by_key_spec l4RuleKey site
      [mkL4Rule (mkPort (Some (mkProtocolPtr 1 ProtocolTCP)) (Some 443) None) ClusterNetworkPolicyRuleActionAccept 100;
       mkL4Rule (mkPort (Some (mkProtocolPtr 1 ProtocolTCP)) (Some 443) None) ClusterNetworkPolicyRuleActionAccept 100])
      as (_ & _ & H2); [rewrite H1|rewrite H2]; vm_compute; reflexivity.
Qed.
