(* ===== verification/MemMap.v ===== *)
(** [pkg/ebpf/bpf_mem_map.go]: the in-memory shadow of a kernel map.

    The kernel map itself is reached through [aws-ebpf-sdk-go], which is not part of the
    repository: [BpfMapSDK] states what its calls do.  Any call may fail. *)
From S2P Require Import Prelude.

Abbreviation bpf_contents := (gmap gostring gostring) (only parsing).

(** A kernel map: [kcontents] is what it holds; a failed call changes nothing. *)
Class BpfMapSDK := {
  kmap : Type;
  kcontents : kmap -> bpf_contents;
  UpdateMapEntry : kmap -> gostring -> gostring -> kmap * option gostring;
  DeleteMapEntry : kmap -> gostring -> kmap * option gostring;
  GetAllMapKeys : kmap -> kmap * outcome (list gostring);
  GetMapEntry : kmap -> gostring -> kmap * outcome gostring;
  update_law : forall s k v s' e, UpdateMapEntry s k v = (s', e) ->
    kcontents s' = match e with None => <[k := v]> (kcontents s) | Some _ => kcontents s end;
  delete_law : forall s k s' e, DeleteMapEntry s k = (s', e) ->
    kcontents s' = match e with None => delete k (kcontents s) | Some _ => kcontents s end;
  keys_law : forall s s' r, GetAllMapKeys s = (s', r) ->
    kcontents s' = kcontents s /\
    forall ks, r = Ret ks -> ks ≡ₚ (map_to_list (kcontents s)).*1;
  get_law : forall s k s' r, GetMapEntry s k = (s', r) ->
    kcontents s' = kcontents s /\ forall v, r = Ret v -> kcontents s !! k = Some v
}.

(** [&b[0]]: panics on an empty slice. *)
Definition addr_of_first (b : gostring) : outcome unit := _ ← index b 0; Ret tt.

Section memmap.
Context `{!BpfMapSDK, !MapOrder}.

(** [InMemoryBpfMap], without its mutex: both methods hold it from start to end. *)
Record InMemoryBpfMap := mkInMemoryBpfMap { bpfMap : kmap; contents : bpf_contents }.

(** The loop of [loadFromKernel]. *)
Fixpoint load_loop (keys : list gostring) (m : InMemoryBpfMap) : InMemoryBpfMap * outcome unit :=
  match keys with
  | [] => (m, Ret tt)
  | key :: keys' =>
      match addr_of_first key with
      | Ret _ =>
          let '(k, r) := GetMapEntry (bpfMap m) key in
          match r with
          | Ret value => load_loop keys' (mkInMemoryBpfMap k (<[key := value]> (contents m)))
          | Err e => (mkInMemoryBpfMap k (contents m), Err e)
          | Panic w => (mkInMemoryBpfMap k (contents m), Panic w)
          end
      | Err e => (m, Err e)
      | Panic w => (m, Panic w)
      end
  end.

Definition loadFromKernel (m : InMemoryBpfMap) : InMemoryBpfMap * outcome unit :=
  let m := mkInMemoryBpfMap (bpfMap m) ∅ in
  let '(k, r) := GetAllMapKeys (bpfMap m) in
  let m := mkInMemoryBpfMap k (contents m) in
  match r with
  | Ret keys => load_loop keys m
  | Err e => (m, Err e)
  | Panic w => (m, Panic w)
  end.

Definition NewInMemoryBpfMap (k : kmap) : kmap * outcome InMemoryBpfMap :=
  let '(m, r) := loadFromKernel (mkInMemoryBpfMap k ∅) in
  match r with
  | Ret _ => (bpfMap m, Ret m)
  | Err e => (bpfMap m, Err e)
  | Panic w => (bpfMap m, Panic w)
  end.

(** Entries to add or update. *)
Definition to_add (cur new : bpf_contents) : bpf_contents :=
  filter (fun kv => cur !! kv.1 <> Some kv.2) new.
(** Entries to delete. *)
Definition to_delete (cur new : bpf_contents) : list gostring :=
  (map_to_list (filter (fun kv => new !! kv.1 = None) cur)).*1.

(** [for k, v := range toAdd]: stops at the first error. *)
Fixpoint add_loop (adds : list (gostring * gostring)) (m : InMemoryBpfMap) : InMemoryBpfMap * outcome unit :=
  match adds with
  | [] => (m, Ret tt)
  | (k, v) :: adds' =>
      match (_ ← addr_of_first k; addr_of_first v) with
      | Ret _ =>
          let '(km, err) := UpdateMapEntry (bpfMap m) k v in
          match err with
          | Some e => (mkInMemoryBpfMap km (contents m), Err e)
          | None => add_loop adds' (mkInMemoryBpfMap km (<[k := v]> (contents m)))
          end
      | Err e => (m, Err e)
      | Panic w => (m, Panic w)
      end
  end.

(** [for _, k := range toDelete]: an error is logged and skipped. *)
Fixpoint delete_loop (dels : list gostring) (m : InMemoryBpfMap) : InMemoryBpfMap * outcome unit :=
  match dels with
  | [] => (m, Ret tt)
  | k :: dels' =>
      match addr_of_first k with
      | Ret _ =>
          let '(km, err) := DeleteMapEntry (bpfMap m) k in
          match err with
          | Some _ => delete_loop dels' (mkInMemoryBpfMap km (contents m))
          | None => delete_loop dels' (mkInMemoryBpfMap km (delete k (contents m)))
          end
      | Err e => (m, Err e)
      | Panic w => (m, Panic w)
      end
  end.

Definition BulkRefresh (m : InMemoryBpfMap) (newMapContents : bpf_contents) : InMemoryBpfMap * outcome unit :=
  let toAdd := to_add (contents m) newMapContents in
  let toDelete := go_range (go "toDelete") (to_delete (contents m) newMapContents) in
  let '(m, r) := add_loop (go_range (go "toAdd") (map_to_list toAdd)) m in
  match r with
  | Ret _ => delete_loop toDelete m
  | Err e => (m, Err e)
  | Panic w => (m, Panic w)
  end.

Definition GetUnderlyingMap (m : InMemoryBpfMap) : kmap := bpfMap m.

(** * The shadow equals the kernel map *)
Definition in_sync (m : InMemoryBpfMap) : Prop := contents m = kcontents (bpfMap m).

Lemma add_loop_spec adds m m' r :
  in_sync m -> NoDup adds.*1 -> add_loop adds m = (m', r) ->
  in_sync m' /\
  (r = Ret tt -> contents m' = list_to_map adds ∪ contents m) /\
  forall k, contents m' !! k = contents m !! k \/ exists v, (k, v) ∈ adds /\ contents m' !! k = Some v.
Proof.
  revert m. induction adds as [|[k v] adds IH]; intros m Hs Hnd; cbn [add_loop].
  { intros [= <- <-]. split; [done|]. split; [|auto]. intros _. by rewrite list_to_map_nil, (left_id_L ∅ (∪)). }
  apply NoDup_cons in Hnd as [Hk Hnd]. destruct (_ ≫= _) as [?|e|w];
    [|intros [= <- <-]; (split; [done|]; split; [done|]; auto)..].
  destruct (UpdateMapEntry (bpfMap m) k v) as [km [e|]] eqn:Eu; apply update_law in Eu.
  - intros [= <- <-]. split; [unfold in_sync in *; cbn; congruence|]. split; [done|]. auto.
  - intros Hrun. apply IH in Hrun as (Hs' & Hret & Hcases); [|unfold in_sync in *; cbn in *; congruence|done].
    split; [done|]. split.
    + intros Hr. rewrite (Hret Hr). cbn [contents]. rewrite list_to_map_cons, <-insert_union_l, insert_union_r; [done|].
      by apply not_elem_of_list_to_map.
    + intros k'. destruct (Hcases k') as [->|(v' & Hin & ->)]; cbn [contents].
      * destruct (decide (k = k')) as [<-|Hne]; [|rewrite lookup_insert_ne by done; by left].
        right. exists v. rewrite lookup_insert_eq. split; [set_solver|done].
      * right. exists v'. split; [set_solver|done].
Qed.

Lemma delete_loop_spec dels m m' r :
  in_sync m -> delete_loop dels m = (m', r) ->
  in_sync m' /\ forall k, contents m' !! k = contents m !! k \/ (k ∈ dels /\ contents m' !! k = None).
Proof.
  revert m. induction dels as [|k dels IH]; intros m Hs; cbn [delete_loop].
  { intros [= <- <-]. auto. }
  destruct (addr_of_first k) as [?|e|w]; [|intros [= <- <-]; by auto..].
  destruct (DeleteMapEntry (bpfMap m) k) as [km [e|]] eqn:Ed; apply delete_law in Ed; intros Hrun.
  - apply IH in Hrun as [Hs' Hcases]; [|unfold in_sync in *; cbn in *; congruence].
    split; [done|]. intros k'. destruct (Hcases k') as [->|[? ->]]; cbn; [by left|right; set_solver].
  - apply IH in Hrun as [Hs' Hcases]; [|unfold in_sync in *; cbn in *; congruence].
    split; [done|]. intros k'. destruct (Hcases k') as [->|[? ->]]; cbn; [|right; set_solver].
    destruct (decide (k = k')) as [<-|Hne]; [right; rewrite lookup_delete_eq; set_solver|].
    left. by rewrite lookup_delete_ne.
Qed.

Lemma add_union cur new : list_to_map (map_to_list (to_add cur new)) ∪ cur = new ∪ cur.
Proof.
  rewrite list_to_map_to_list. apply map_eq. intros k. rewrite !lookup_union. unfold to_add.
  destruct (new !! k) as [v|] eqn:En.
  - destruct (decide (cur !! k = Some v)) as [Hc|Hc].
    + rewrite map_lookup_filter_None_2; [by rewrite Hc|]. right. intros x Hx. cbn. congruence.
    + rewrite map_lookup_filter_Some_2 with (x := v); [|done|done]. by destruct (cur !! k).
  - rewrite map_lookup_filter_None_2; [done|by left].
Qed.

Lemma list_to_map_range (l : list (gostring * gostring)) site :
  NoDup l.*1 -> (list_to_map (go_range site l) : bpf_contents) = list_to_map l.
Proof. intros Hl. apply list_to_map_proper; [|apply go_range_perm]. by rewrite go_range_perm. Qed.

(** The effect of a refresh, on every path. *)
Lemma BulkRefresh_spec m new m' r :
  in_sync m -> BulkRefresh m new = (m', r) ->
  in_sync m' /\
  (forall k, contents m' !! k = contents m !! k \/ contents m' !! k = new !! k) /\
  (r = Ret tt -> forall k v, new !! k = Some v -> contents m' !! k = Some v).
Proof.
  intros Hs. unfold BulkRefresh.
  assert (NoDup (go_range (go "toAdd") (map_to_list (to_add (contents m) new))).*1) as Hnd
    by (rewrite go_range_perm; apply NoDup_fst_map_to_list).
  destruct (add_loop _ m) as [m1 r1] eqn:Ea. apply add_loop_spec in Ea as (Hs1 & Hret & Hcases); [|done..].
  assert (forall k, contents m1 !! k = contents m !! k \/ contents m1 !! k = new !! k) as Hadd.
  { intros k. destruct (Hcases k) as [?|(v & Hin & ->)]; [by left|right].
    rewrite go_range_perm in Hin. apply elem_of_map_to_list, map_lookup_filter_Some in Hin as [-> _]. done. }
  destruct r1 as [[]|e|w]; [|intros [= <- <-]; done..].
  specialize (Hret eq_refl). rewrite list_to_map_range in Hret by (apply NoDup_fst_map_to_list).
  rewrite add_union in Hret.
  intros Hd. apply delete_loop_spec in Hd as [Hs' Hdel]; [|done]. split; [done|].
  assert (forall k, k ∈ go_range (go "toDelete") (to_delete (contents m) new) -> new !! k = None) as Hstale.
  { intros k Hk. rewrite go_range_perm in Hk. unfold to_delete in Hk.
    apply list_elem_of_fmap in Hk as ([k' v] & -> & Hk). apply elem_of_map_to_list, map_lookup_filter_Some in Hk as [_ Hk]. done. }
  split.
  - intros k. destruct (Hdel k) as [->|[Hk ->]]; [auto|]. right. by rewrite Hstale.
  - intros _ k v Hk. destruct (Hdel k) as [->|[Hin _]].
    + rewrite Hret, lookup_union, Hk. by destruct (contents m !! k).
    + apply Hstale in Hin. congruence.
Qed.
End memmap.

Section load.
Context `{!BpfMapSDK}.

Lemma load_loop_spec keys m m' r :
  load_loop keys m = (m', r) ->
  kcontents (bpfMap m') = kcontents (bpfMap m) /\
  (r = Ret tt -> forall k, contents m' !! k = if decide (k ∈ keys) then kcontents (bpfMap m) !! k else contents m !! k).
Proof.
  revert m. induction keys as [|key keys IH]; intros m; cbn [load_loop].
  { intros [= <- <-]. split; [done|]. intros _ k. by rewrite decide_False by apply not_elem_of_nil. }
  destruct (addr_of_first key) as [?|e|w]; [|intros [= <- <-]; done..].
  destruct (GetMapEntry (bpfMap m) key) as [km r1] eqn:Eg. apply get_law in Eg as [Hk Hv].
  destruct r1 as [value|e|w]; [|intros [= <- <-]; done..].
  specialize (Hv value eq_refl). intros Hrun. apply IH in Hrun as [H1 H2]. cbn [bpfMap contents] in *.
  split; [congruence|]. intros Hr k. rewrite (H2 Hr k), Hk.
  destruct (decide (k ∈ keys)) as [Hin|Hnin]; [by rewrite decide_True by set_solver|].
  destruct (decide (key = k)) as [<-|Hne].
  - rewrite lookup_insert_eq, decide_True by set_solver. congruence.
  - rewrite lookup_insert_ne by done. by rewrite decide_False by set_solver.
Qed.

(** A shadow map starts as a copy of the kernel map. *)
Lemma NewInMemoryBpfMap_spec k k' m :
  NewInMemoryBpfMap k = (k', Ret m) -> in_sync m /\ contents m = kcontents k.
Proof.
  unfold NewInMemoryBpfMap, loadFromKernel. cbn [bpfMap contents].
  destruct (GetAllMapKeys k) as [k1 r] eqn:Ek. apply keys_law in Ek as [Hk Hkeys].
  destruct r as [keys|e|w]; [|done..]. specialize (Hkeys keys eq_refl).
  destruct (load_loop keys _) as [m1 r1] eqn:El. apply load_loop_spec in El as [H1 H2]. cbn [bpfMap contents] in *.
  destruct r1 as [[]|e|w]; [|done..]. intros [= _ <-].
  assert (contents m1 = kcontents k) as Hc.
  { apply map_eq. intros x. rewrite (H2 eq_refl x), lookup_empty, Hk. case_decide as Hx; [done|].
    symmetry. apply eq_None_not_Some. intros [v Hv]. apply Hx. rewrite Hkeys.
    apply list_elem_of_fmap. exists (x, v). split; [done|]. by apply elem_of_map_to_list. }
  split; [|done]. unfold in_sync. congruence.
Qed.
End load.

(** Deletes that succeed remove their keys and nothing else. *)
Lemma delete_loop_all `{!BpfMapSDK} dels m m' :
  (forall s k, snd (DeleteMapEntry s k) = None) -> delete_loop dels m = (m', Ret tt) ->
  forall k, contents m' !! k = if decide (k ∈ dels) then None else contents m !! k.
Proof.
  intros Hdel. revert m. induction dels as [|d dels IH]; intros m; cbn [delete_loop].
  { intros [= <-] k. by rewrite decide_False by apply not_elem_of_nil. }
  destruct (addr_of_first d) as [?|e|w]; [|done..].
  pose proof (Hdel (bpfMap m) d) as Hd. destruct (DeleteMapEntry (bpfMap m) d) as [km e]. cbn in Hd. subst e.
  intros E k. rewrite (IH _ E k). cbn [contents].
  destruct (decide (k ∈ dels)); [by rewrite decide_True by set_solver|].
  destruct (decide (d = k)) as [<-|Hne]; [by rewrite lookup_delete_eq, decide_True by set_solver|].
  rewrite lookup_delete_ne by done. by rewrite decide_False by set_solver.
Qed.

(** * An instance of the kernel: a map and a script of which calls fail *)
Definition scripted : Type := bpf_contents * list bool.

(** The next call fails when the script says so; an exhausted script does not fail. *)
Definition next (s : scripted) : bool * scripted :=
  match s.2 with [] => (false, s) | b :: bs => (b, (s.1, bs)) end.

Definition scripted_sdk : BpfMapSDK.
Proof.
  refine {|
    kmap := scripted; kcontents := fst;
    UpdateMapEntry := fun s k v => let '(b, s) := next s in
      if b then (s, Some (go "update failed")) else ((<[k := v]> s.1, s.2), None);
    DeleteMapEntry := fun s k => let '(b, s) := next s in
      if b then (s, Some (go "delete failed")) else ((delete k s.1, s.2), None);
    GetAllMapKeys := fun s => let '(b, s) := next s in
      if b then (s, Err (go "keys failed")) else (s, Ret (map_to_list s.1).*1);
    GetMapEntry := fun s k => let '(b, s) := next s in
      if b then (s, Err (go "get failed")) else
      (s, match s.1 !! k with Some v => Ret v | None => Err (go "no entry") end)
  |}.
  - intros [m [|[] bs]] k v s' e; cbn; intros [= <- <-]; done.
  - intros [m [|[] bs]] k s' e; cbn; intros [= <- <-]; done.
  - intros [m [|[] bs]] s' r; cbn; intros [= <- <-]; (split; [done|]); intros ks [= <-]; done.
  - intros [m [|[] bs]] k s' r; cbn; intros [= <- <-]; (split; [done|]); intros v; try (intros [=]; done);
      destruct (m !! k); intros [= <-]; done.
Defined.

(** C13: The in-memory map never lies about the kernel map.  Starting in sync, for every
    iteration order and every pattern of failing kernel calls, whether [BulkRefresh] returns
    nil, an error, or panics part-way: afterwards the in-memory contents still equal the
    kernel's contents; every key holds either its old or its new value and nothing else; and
    when nil is returned every requested entry is installed. *)
Theorem BulkRefresh_sync `{!BpfMapSDK, !MapOrder} (m : InMemoryBpfMap) (new : gmap gostring gostring)
    (Hs : in_sync m) :
  let '(m', r) := BulkRefresh m new in
  in_sync m' /\
  (forall k, contents m' !! k = contents m !! k \/ contents m' !! k = new !! k) /\
  (r = Ret tt -> forall k v, new !! k = Some v -> contents m' !! k = Some v).
Proof. destruct (BulkRefresh m new) as [m' r] eqn:E. by eapply BulkRefresh_spec. Qed.

Definition ex_shadow : @InMemoryBpfMap scripted_sdk :=
  @mkInMemoryBpfMap scripted_sdk ({[go "a" := go "1"; go "b" := go "2"]}, [false; true])
    {[go "a" := go "1"; go "b" := go "2"]}.

Lemma BulkRefresh_sync_witness :
  @in_sync scripted_sdk ex_shadow /\
  let '(m', r) := @BulkRefresh scripted_sdk listed_order ex_shadow {[go "a" := go "9"]} in
  in_sync m' /\
  (forall k, contents m' !! k = contents ex_shadow !! k \/ contents m' !! k = ({[go "a" := go "9"]} : gmap _ _) !! k) /\
  (r = Ret tt -> forall k v, ({[go "a" := go "9"]} : gmap _ _) !! k = Some v -> contents m' !! k = Some v).
Proof.
  split; [reflexivity|].
  apply (@BulkRefresh_sync scripted_sdk listed_order ex_shadow {[go "a" := go "9"]}). reflexivity.
Defined.

Lemma BulkRefresh_exact_gen `{!BpfMapSDK, !MapOrder} (m : InMemoryBpfMap) (new : gmap gostring gostring) :
  in_sync m -> (forall s k, snd (DeleteMapEntry s k) = None) -> snd (BulkRefresh m new) = Ret tt ->
  kcontents (bpfMap (fst (BulkRefresh m new))) = new.
Proof.
  intros Hs Hdel Hret. destruct (BulkRefresh m new) as [m' r] eqn:E. cbn in Hret |- *. subst r.
  pose proof (BulkRefresh_spec m new m' (Ret tt) Hs E) as (Hs' & Hcases & Hin). rewrite <-Hs'.
  apply map_eq. intros k. destruct (new !! k) as [v|] eqn:En; [by apply Hin|].
  destruct (Hcases k) as [Hold|Hnew]; [|congruence]. rewrite Hold.
  destruct (contents m !! k) as [v|] eqn:Ec; [exfalso|done].
  unfold BulkRefresh in E. destruct (add_loop _ m) as [m1 r1]. destruct r1 as [[]|e|w]; [|done..].
  enough (contents m' !! k = None) by congruence.
  rewrite (delete_loop_all _ _ _ Hdel E), decide_True; [done|].
  rewrite go_range_perm. unfold to_delete. apply list_elem_of_fmap. exists (k, v). split; [done|].
  by apply elem_of_map_to_list, map_lookup_filter_Some.
Qed.

(** Without failing deletes a refresh is exact: if it returns nil and no kernel delete
    failed, the kernel map holds precisely the requested contents. *)
Theorem BulkRefresh_exact `{!BpfMapSDK, !MapOrder} (m : InMemoryBpfMap) (new : gmap gostring gostring)
    (Hs : in_sync m) (Hdel : forall s k, snd (DeleteMapEntry s k) = None)
    (Hret : snd (BulkRefresh m new) = Ret tt) :
  kcontents (bpfMap (fst (BulkRefresh m new))) = new.
Proof. by apply BulkRefresh_exact_gen. Qed.

(** A kernel on which no call fails. *)
Definition reliable_sdk : BpfMapSDK.
Proof.
  refine {|
    kmap := bpf_contents; kcontents := id;
    UpdateMapEntry := fun s k v => (<[k := v]> s, None);
    DeleteMapEntry := fun s k => (delete k s, None);
    GetAllMapKeys := fun s => (s, Ret (map_to_list s).*1);
    GetMapEntry := fun s k => (s, match s !! k with Some v => Ret v | None => Err (go "no entry") end)
  |}.
  - by intros s k v s' e [= <- <-].
  - by intros s k s' e [= <- <-].
  - intros s s' r [= <- <-]. split; [done|]. by intros ks [= <-].
  - intros s k s' r [= <- <-]. split; [done|]. unfold id. intros v. destruct (s !! k); intros [= <-]. done.
Defined.

Definition ex_reliable : @InMemoryBpfMap reliable_sdk :=
  @mkInMemoryBpfMap reliable_sdk {[go "a" := go "1"; go "b" := go "2"]} {[go "a" := go "1"; go "b" := go "2"]}.

Lemma BulkRefresh_exact_witness :
  @kcontents reliable_sdk (bpfMap (fst (@BulkRefresh reliable_sdk reverse_order ex_reliable {[go "c" := go "3"]}))) =
  {[go "c" := go "3"]}.
Proof.
  apply (@BulkRefresh_exact reliable_sdk reverse_order ex_reliable {[go "c" := go "3"]});
    [reflexivity|reflexivity|vm_compute; reflexivity].
Defined.

(** A failing delete is not reported: the refresh returns nil and the stale entry stays in
    the kernel map. *)
Theorem BulkRefresh_swallows_delete_error :
  let '(m', r) := @BulkRefresh scripted_sdk listed_order ex_shadow {[go "a" := go "9"]} in
  r = Ret tt /\ @kcontents scripted_sdk (bpfMap m') !! go "b" = Some (go "2").
Proof. vm_compute. done. Qed.
