(* ===== verification/KeyedMutex.v ===== *)
(** [pkg/ebpf/podidentifier_lock.go]: the mutex per pod identifier, as a transition system.

    [Lock] and [Unlock] are each two atomic parts: the part under [keyedMutex.mu], and the
    operation on the key's own mutex.  Any number of goroutines interleave these parts.
    Clients call [Unlock(key)] only while they hold [key]. *)
From S2P Require Import Prelude.
From stdpp Require Import relations.
#[local] Open Scope Z_scope.

(** Where a goroutine is; one that is outside of any lock has no entry.  [id] is the
    [*refCountedMutex] it works with. *)
Inductive pc :=
| Waiting (key : gostring) (id : nat)    (* in Lock, before m.Lock() returns *)
| Holding (key : gostring) (id : nat)    (* between Lock and Unlock *)
| Releasing (key : gostring) (id : nat). (* in Unlock, before m.Unlock() *)

Record refCountedMutex := mkMutex { refs : Z; locked : bool }.

Record state := mkState {
  locks : gmap gostring nat;
  heap : gmap nat refCountedMutex;
  threads : gmap nat pc
}.

Definition init : state := mkState ∅ ∅ ∅.

Inductive step : state -> state -> Prop :=
(** [Lock], first part, for a key with a mutex. *)
| lock_existing s t key id m :
    threads s !! t = None -> locks s !! key = Some id -> heap s !! id = Some m ->
    step s (mkState (locks s) (<[id := mkMutex (refs m + 1) (locked m)]> (heap s))
              (<[t := Waiting key id]> (threads s)))
(** [Lock], first part, for a key without one: a fresh [&refCountedMutex{}]. *)
| lock_new s t key id :
    threads s !! t = None -> locks s !! key = None -> heap s !! id = None ->
    step s (mkState (<[key := id]> (locks s)) (<[id := mkMutex (0 + 1) false]> (heap s))
              (<[t := Waiting key id]> (threads s)))
(** [m.Lock()] returns. *)
| lock_acquire s t key id m :
    threads s !! t = Some (Waiting key id) -> heap s !! id = Some m -> locked m = false ->
    step s (mkState (locks s) (<[id := mkMutex (refs m) true]> (heap s))
              (<[t := Holding key id]> (threads s)))
(** [Unlock], first part. *)
| unlock_drop s t key id0 id m :
    threads s !! t = Some (Holding key id0) -> locks s !! key = Some id -> heap s !! id = Some m ->
    step s (mkState (if (refs m - 1 =? 0)%Z then delete key (locks s) else locks s)
              (<[id := mkMutex (refs m - 1) (locked m)]> (heap s))
              (<[t := Releasing key id]> (threads s)))
(** [m.Unlock()], of a locked mutex. *)
| unlock_release s t key id m :
    threads s !! t = Some (Releasing key id) -> heap s !! id = Some m -> locked m = true ->
    step s (mkState (locks s) (<[id := mkMutex (refs m) false]> (heap s)) (delete t (threads s))).

Definition reachable (s : state) : Prop := rtc step init s.

(** [len]. *)
Definition len (s : state) : nat := size (locks s).

(** * Counting goroutines *)
Definition refers (id : nat) (p : pc) : bool :=
  match p with Waiting _ i | Holding _ i => bool_decide (i = id) | Releasing _ _ => false end.
Definition owns (id : nat) (p : pc) : bool :=
  match p with Holding _ i | Releasing _ i => bool_decide (i = id) | Waiting _ _ => false end.

Definition count (P : pc -> bool) (m : gmap nat pc) : Z :=
  Z.of_nat (size (filter (fun kv => P kv.2 = true) m)).

Lemma count_delete P m t p :
  m !! t = Some p -> count P m = count P (delete t m) + Z.b2z (P p).
Proof.
  intros H. rewrite <-(insert_delete_id m t p H) at 1. unfold count.
  destruct (P p) eqn:E; cbn [Z.b2z].
  - rewrite map_filter_insert_True by done. rewrite map_size_insert_None; [lia|].
    apply map_lookup_filter_None_2. left. by rewrite lookup_delete_eq.
  - rewrite map_filter_insert_False by (cbn; congruence).
    rewrite delete_delete_eq. lia.
Qed.

Lemma count_insert P m t p :
  count P (<[t := p]> m) = count P m + Z.b2z (P p) - match m !! t with Some q => Z.b2z (P q) | None => 0 end.
Proof.
  rewrite (count_delete P (<[t := p]> m) t p) by apply lookup_insert_eq.
  rewrite delete_insert_eq. destruct (m !! t) as [q|] eqn:E.
  - rewrite (count_delete P m t q) by done. lia.
  - rewrite delete_id by done. lia.
Qed.

Lemma count_pos P m t p : m !! t = Some p -> P p = true -> 1 <= count P m.
Proof. intros H HP. rewrite (count_delete P m t p H), HP. unfold count. cbn. lia. Qed.

(** Two goroutines that satisfy [P] are one when the count is one. *)
Lemma count_unique P m t t' p p' :
  m !! t = Some p -> m !! t' = Some p' -> P p = true -> P p' = true -> count P m <= 1 -> t = t'.
Proof.
  intros H H' HP HP' Hc. destruct (decide (t = t')) as [|Hne]; [done|exfalso].
  rewrite (count_delete P m t p H), HP in Hc.
  assert (1 <= count P (delete t m)) by (eapply (count_pos _ _ t'); [by rewrite lookup_delete_ne|done]).
  cbn in Hc. lia.
Qed.

(** * The invariant *)
Definition pc_id (p : pc) : nat := match p with Waiting _ i | Holding _ i | Releasing _ i => i end.

Record inv (s : state) : Prop := {
  (** a goroutine that holds or waits uses the mutex the map has for its key *)
  inv_key : forall t p key id, threads s !! t = Some p ->
    (p = Waiting key id \/ p = Holding key id) -> locks s !! key = Some id;
  (** every goroutine's mutex exists *)
  inv_heap : forall t p, threads s !! t = Some p -> is_Some (heap s !! pc_id p);
  (** a mutex in the map exists and has a holder or waiter *)
  inv_locks : forall key id, locks s !! key = Some id -> exists m, heap s !! id = Some m /\ 1 <= refs m;
  inv_inj : forall key key' id, locks s !! key = Some id -> locks s !! key' = Some id -> key = key';
  (** [refs] counts holders and waiters; [locked] says whether there is an owner *)
  inv_refs : forall id m, heap s !! id = Some m -> refs m = count (refers id) (threads s);
  inv_owner : forall id m, heap s !! id = Some m -> Z.b2z (locked m) = count (owns id) (threads s)
}.

Lemma inv_init : inv init.
Proof. split; cbn; intros; by rewrite lookup_empty in *. Qed.

(** Lookups in updated maps, and counts of updated threads. *)
Ltac inv_lookup :=
  repeat match goal with
  | H : <[_ := _]> _ !! _ = Some _ |- _ => apply lookup_insert_Some in H as [[? ?]|[? ?]]; simplify_eq
  | H : delete _ _ !! _ = Some _ |- _ => apply lookup_delete_Some in H as [? ?]
  end.

Ltac solve_count :=
  rewrite ?count_insert;
  repeat match goal with H : threads _ !! _ = _ |- _ => rewrite H end;
  cbn [refers owns refs locked]; repeat case_bool_decide; subst; cbn [Z.b2z]; try done; try lia.

Section preservation.
Context (s : state) (Hinv : inv s).

(** An update of a mutex and of one goroutine keeps the parts that do not depend on it. *)
Lemma heap_kept m t p t' p' :
  <[t := p]> (threads s) !! t' = Some p' -> is_Some (<[pc_id p := m]> (heap s) !! pc_id p').
Proof.
  intros H. inv_lookup.
  - rewrite lookup_insert_eq. eauto.
  - destruct (decide (pc_id p = pc_id p')) as [->|Hne]; [rewrite lookup_insert_eq; eauto|].
    rewrite lookup_insert_ne by done. by eapply inv_heap.
Qed.

Lemma locks_kept id m :
  (forall key, locks s !! key = Some id -> 1 <= refs m) ->
  forall key id', locks s !! key = Some id' -> exists m', <[id := m]> (heap s) !! id' = Some m' /\ 1 <= refs m'.
Proof.
  intros Hm key id' Hk. destruct (decide (id = id')) as [<-|Hne].
  - rewrite lookup_insert_eq. eauto.
  - rewrite lookup_insert_ne by done. by eapply inv_locks.
Qed.

Lemma preserve_lock_existing t key id m :
  threads s !! t = None -> locks s !! key = Some id -> heap s !! id = Some m ->
  inv (mkState (locks s) (<[id := mkMutex (refs m + 1) (locked m)]> (heap s))
     (<[t := Waiting key id]> (threads s))).
Proof.
  intros Ht Hk Hm. pose proof (inv_refs _ Hinv id m Hm) as Hr. pose proof (inv_owner _ Hinv id m Hm) as Ho.
  split; cbn [locks heap threads].
  - intros t' p key' id' H [->| ->]; inv_lookup; [done|by eapply inv_key; eauto..].
  - intros t' p. apply (heap_kept _ t (Waiting key id)).
  - apply locks_kept. intros _ _. destruct (inv_locks _ Hinv key id Hk) as (m' & ? & ?). cbn. simplify_eq. lia.
  - apply (inv_inj _ Hinv).
  - intros id' m' H. inv_lookup; [solve_count|]. rewrite (inv_refs _ Hinv id' m') by done. solve_count.
  - intros id' m' H. inv_lookup; [solve_count|]. rewrite (inv_owner _ Hinv id' m') by done. solve_count.
Qed.

(** Nobody uses a mutex that does not exist. *)
Lemma fresh_unused id P :
  heap s !! id = None -> (forall p, P p = true -> pc_id p = id) -> count P (threads s) = 0.
Proof.
  intros Hid HP. unfold count.
  enough (filter (fun kv => P kv.2 = true) (threads s) = ∅) as -> by (by rewrite map_size_empty).
  apply map_empty. intros t. apply map_lookup_filter_None_2. right. intros p Hp Ht. cbn in Ht.
  destruct (inv_heap _ Hinv t p Hp) as [m Hm]. rewrite (HP p Ht) in Hm. congruence.
Qed.

Lemma refers_id id p : refers id p = true -> pc_id p = id.
Proof. destruct p; cbn; rewrite ?bool_decide_eq_true; done. Qed.
Lemma owns_id id p : owns id p = true -> pc_id p = id.
Proof. destruct p; cbn; rewrite ?bool_decide_eq_true; done. Qed.

Lemma preserve_lock_new t key id :
  threads s !! t = None -> locks s !! key = None -> heap s !! id = None ->
  inv (mkState (<[key := id]> (locks s)) (<[id := mkMutex (0 + 1) false]> (heap s))
     (<[t := Waiting key id]> (threads s))).
Proof.
  intros Ht Hk Hm. pose proof (fresh_unused id (refers id) Hm (refers_id id)) as Hr.
  pose proof (fresh_unused id (owns id) Hm (owns_id id)) as Ho.
  assert (forall key', locks s !! key' <> Some id) as Hfresh.
  { intros key' H. destruct (inv_locks _ Hinv key' id H) as (m & ? & _). congruence. }
  split; cbn [locks heap threads].
  - intros t' p key' id' H Hp. inv_lookup; [destruct Hp; simplify_eq; apply lookup_insert_eq|].
    assert (locks s !! key' = Some id') as Hk' by (eapply inv_key; eauto).
    rewrite lookup_insert_ne by congruence. done.
  - intros t' p. apply (heap_kept _ t (Waiting key id)).
  - intros key' id' H. inv_lookup.
    + rewrite lookup_insert_eq. eexists. split; [done|]. cbn. lia.
    + eapply (locks_kept id); [|done]. intros key'' H''. by apply Hfresh in H''.
  - intros key1 key2 id' H1 H2. inv_lookup;
      first [done | by eapply inv_inj; eauto | exfalso; eapply Hfresh; eassumption].
  - intros id' m' H. inv_lookup; [solve_count|]. rewrite (inv_refs _ Hinv id' m') by done. solve_count.
  - intros id' m' H. inv_lookup; [solve_count|]. rewrite (inv_owner _ Hinv id' m') by done. solve_count.
Qed.

Lemma preserve_lock_acquire t key id m :
  threads s !! t = Some (Waiting key id) -> heap s !! id = Some m -> locked m = false ->
  inv (mkState (locks s) (<[id := mkMutex (refs m) true]> (heap s))
     (<[t := Holding key id]> (threads s))).
Proof.
  intros Ht Hm Hl. pose proof (inv_refs _ Hinv id m Hm) as Hr. pose proof (inv_owner _ Hinv id m Hm) as Ho.
  rewrite Hl in Ho. cbn in Ho. split; cbn [locks heap threads].
  - intros t' p key' id' H Hp. inv_lookup; [|by eapply inv_key; eauto].
    destruct Hp; simplify_eq. by eapply inv_key; eauto.
  - intros t' p. apply (heap_kept _ t (Holding key id)).
  - apply locks_kept. intros key' H. destruct (inv_locks _ Hinv key' id H) as (m' & ? & ?). cbn. simplify_eq. lia.
  - apply (inv_inj _ Hinv).
  - intros id' m' H. inv_lookup; [solve_count|]. rewrite (inv_refs _ Hinv id' m') by done. solve_count.
  - intros id' m' H. inv_lookup; [solve_count|]. rewrite (inv_owner _ Hinv id' m') by done. solve_count.
Qed.

Lemma preserve_unlock_drop t key id0 id m :
  threads s !! t = Some (Holding key id0) -> locks s !! key = Some id -> heap s !! id = Some m ->
  inv (mkState (if (refs m - 1 =? 0)%Z then delete key (locks s) else locks s)
     (<[id := mkMutex (refs m - 1) (locked m)]> (heap s))
     (<[t := Releasing key id]> (threads s))).
Proof.
  intros Ht Hk Hm. pose proof (inv_refs _ Hinv id m Hm) as Hr. pose proof (inv_owner _ Hinv id m Hm) as Ho.
  assert (id0 = id) as ->.
  { pose proof (inv_key _ Hinv t _ key id0 Ht (or_intror eq_refl)). congruence. }
  assert (forall t' p key' id', t' <> t -> threads s !! t' = Some p ->
        (p = Waiting key' id' \/ p = Holding key' id') -> refs m - 1 = 0 -> id' <> id) as Hlast.
  { intros t' p key' id' Hne H Hp Hz ->. apply Hne.
    eapply (count_unique (refers id)); [exact H|exact Ht| |cbn; by apply bool_decide_eq_true|lia].
    destruct Hp as [->| ->]; cbn; by apply bool_decide_eq_true. }
  split; cbn [locks heap threads].
  - intros t' p key' id' H Hp. inv_lookup; [by destruct Hp|].
    assert (locks s !! key' = Some id') as Hk' by (eapply inv_key; eauto).
    destruct (Z.eqb_spec (refs m - 1) 0) as [Hz|Hz]; [|done].
    rewrite lookup_delete_ne; [done|]. intros ->. eapply (Hlast t'); eauto; congruence.
  - intros t' p. apply (heap_kept _ t (Releasing key id)).
  - intros key' id' H. destruct (Z.eqb_spec (refs m - 1) 0) as [Hz|Hz].
    + inv_lookup. rewrite lookup_insert_ne; [by eapply inv_locks|].
      intros ->. eauto using inv_inj.
    + eapply (locks_kept id); [|done]. intros key'' H''. cbn.
      destruct (inv_locks _ Hinv key'' id H'') as (m' & ? & ?). simplify_eq. lia.
  - intros key1 key2 id' H1 H2. destruct (Z.eqb_spec (refs m - 1) 0); inv_lookup; by eapply (inv_inj _ Hinv).
  - intros id' m' H. inv_lookup; [solve_count|]. rewrite (inv_refs _ Hinv id' m') by done. solve_count.
  - intros id' m' H. inv_lookup; [solve_count|]. rewrite (inv_owner _ Hinv id' m') by done. solve_count.
Qed.

Lemma preserve_unlock_release t key id m :
  threads s !! t = Some (Releasing key id) -> heap s !! id = Some m -> locked m = true ->
  inv (mkState (locks s) (<[id := mkMutex (refs m) false]> (heap s)) (delete t (threads s))).
Proof.
  intros Ht Hm Hl. pose proof (inv_refs _ Hinv id m Hm) as Hr. pose proof (inv_owner _ Hinv id m Hm) as Ho.
  rewrite Hl in Ho. cbn in Ho.
  assert (forall P, count P (delete t (threads s)) = count P (threads s) - Z.b2z (P (Releasing key id))) as Hc.
  { intros P. rewrite (count_delete P (threads s) t _ Ht). lia. }
  split; cbn [locks heap threads].
  - intros t' p key' id' H Hp. inv_lookup. by eapply inv_key; eauto.
  - intros t' p H. inv_lookup. destruct (decide (id = pc_id p)) as [->|Hne]; [rewrite lookup_insert_eq; eauto|].
    rewrite lookup_insert_ne by done. by eapply inv_heap.
  - apply locks_kept. intros key' H. destruct (inv_locks _ Hinv key' id H) as (m' & ? & ?). cbn. simplify_eq. lia.
  - apply (inv_inj _ Hinv).
  - intros id' m' H. rewrite Hc. inv_lookup; [solve_count|]. rewrite (inv_refs _ Hinv id' m') by done. solve_count.
  - intros id' m' H. rewrite Hc. inv_lookup; [solve_count|]. rewrite (inv_owner _ Hinv id' m') by done. solve_count.
Qed.
End preservation.

Lemma step_inv s s' : inv s -> step s s' -> inv s'.
Proof.
  intros Hinv Hs. destruct Hs;
    eauto using preserve_lock_existing, preserve_lock_new, preserve_lock_acquire, preserve_unlock_drop,
      preserve_unlock_release.
Qed.

Lemma reachable_inv s : reachable s -> inv s.
Proof.
  intros Hr. unfold reachable in Hr. remember init as s0 eqn:E.
  assert (inv s0) as H0 by (subst; apply inv_init). clear E.
  induction Hr as [|x y z Hxy Hyz IH]; [done|]. apply IH. by eapply step_inv.
Qed.

Lemma holder_locked s t key id :
  inv s -> threads s !! t = Some (Holding key id) \/ threads s !! t = Some (Releasing key id) ->
  exists m, heap s !! id = Some m /\ locked m = true /\ count (owns id) (threads s) = 1.
Proof.
  intros Hinv Ht.
  assert (exists p, threads s !! t = Some p /\ pc_id p = id /\ owns id p = true) as (p & Hp & Hid & Ho).
  { destruct Ht as [H|H]; eexists; (split; [exact H|]); cbn; split; try done; by apply bool_decide_eq_true. }
  destruct (inv_heap _ Hinv t p Hp) as [m Hm]. rewrite Hid in Hm. exists m. split; [done|].
  pose proof (inv_owner _ Hinv id m Hm) as Hc. pose proof (count_pos (owns id) _ t p Hp Ho).
  destruct (locked m); cbn in Hc; [split; [done|lia]|lia].
Qed.

(** C14: The per-pod-identifier lock excludes: in every state reachable by any interleaving of
    [Lock] and [Unlock] calls of any number of goroutines, at most one goroutine is between
    [Lock(key)] and [Unlock(key)], although mutexes are created and dropped on the way; and
    the goroutine that is there can unlock: the map still has its mutex, which is locked, so
    neither the "unlock of unknown key" panic nor the runtime's "unlock of unlocked mutex"
    can occur. *)
Theorem keyedMutex_excludes (s : state) (t : nat) (key : gostring) (id : nat)
    (Hr : reachable s) (Ht : threads s !! t = Some (Holding key id)) :
  (forall t' id', threads s !! t' = Some (Holding key id') -> t' = t) /\
  locks s !! key = Some id /\ exists m, heap s !! id = Some m /\ locked m = true.
Proof.
  pose proof (reachable_inv s Hr) as Hinv. pose proof (inv_key _ Hinv t _ key id Ht (or_intror eq_refl)) as Hk.
  destruct (holder_locked s t key id Hinv (or_introl Ht)) as (m & Hm & Hl & Hc). split; [|eauto].
  intros t' id' Ht'. pose proof (inv_key _ Hinv t' _ key id' Ht' (or_intror eq_refl)) as Hk'.
  assert (id' = id) as -> by congruence.
  eapply (count_unique (owns id)); [exact Ht'|exact Ht|cbn; by apply bool_decide_eq_true..|lia].
Qed.

(** The lock does not leak: in every reachable state the map has a mutex for a key
    exactly when some goroutine holds or waits for it, so [len] is 0 when none does. *)
Theorem keyedMutex_no_leak (s : state) (key : gostring) (Hr : reachable s) :
  is_Some (locks s !! key) <->
  exists t id, threads s !! t = Some (Waiting key id) \/ threads s !! t = Some (Holding key id).
Proof.
  pose proof (reachable_inv s Hr) as Hinv. split.
  - intros [id Hk]. destruct (inv_locks _ Hinv key id Hk) as (m & Hm & Hpos).
    rewrite (inv_refs _ Hinv id m Hm) in Hpos. unfold count in Hpos.
    destruct (map_choose (filter (fun kv => refers id kv.2 = true) (threads s))) as (t & p & Hp).
    { intros E. rewrite E, map_size_empty in Hpos. lia. }
    apply map_lookup_filter_Some in Hp as [Hp Href]. cbn in Href.
    destruct p as [k i|k i|k i]; cbn in Href; [..|done]; apply bool_decide_eq_true in Href as ->;
      (assert (locks s !! k = Some id) as Hk' by (eapply inv_key; eauto));
      rewrite (inv_inj _ Hinv key k id Hk Hk'); eauto.
  - intros (t & id & [H|H]); exists id; eapply inv_key; eauto.
Qed.

(** * Progress *)

(** A step of a goroutine that is already inside: no new call of [Lock]. *)
Definition advance (s s' : state) : Prop := step s s' /\ dom (threads s') ⊆ dom (threads s).

(** How many steps a goroutine has still to take. *)
Definition remaining (p : pc) : nat := match p with Waiting _ _ => 3 | Holding _ _ => 2 | Releasing _ _ => 1 end.
Definition work (m : gmap nat pc) : nat := map_fold (fun _ p n => (remaining p + n)%nat) 0%nat m.

Lemma work_delete m t p : m !! t = Some p -> work m = (remaining p + work (delete t m))%nat.
Proof. intros H. unfold work. apply (map_fold_delete_L (fun _ q n => (remaining q + n)%nat) 0%nat t p m); [intros; lia|done]. Qed.

Lemma work_replace m t p q : m !! t = Some p -> (remaining q < remaining p)%nat -> (work (<[t := q]> m) < work m)%nat.
Proof.
  intros H Hr. rewrite (work_delete m t p H), (work_delete (<[t := q]> m) t q) by apply lookup_insert_eq.
  rewrite delete_insert_eq. lia.
Qed.

Lemma work_bound m : (work m <= 3 * size m)%nat.
Proof.
  unfold work. induction m as [|t p m Hn Hf IH] using map_first_key_ind; [done|].
  rewrite map_fold_insert_first_key, map_size_insert_None by done. destruct p; cbn [remaining]; lia.
Qed.

Lemma advance_work s s' : advance s s' -> (work (threads s') < work (threads s))%nat.
Proof.
  intros [Hs Hd]. destruct Hs as [s t key id m Ht|s t key id Ht|s t key id m Ht _ _|s t key id0 id m Ht _ _|s t key id m Ht _ _]; cbn [threads] in *.
  1,2: exfalso; apply not_elem_of_dom in Ht; apply Ht, Hd, elem_of_dom; rewrite lookup_insert_eq; eauto.
  - eapply work_replace; [done|]. cbn. lia.
  - eapply work_replace; [done|]. cbn. lia.
  - rewrite (work_delete _ t _ Ht). cbn. lia.
Qed.

(** A goroutine inside can be stopped only by the owner of its mutex. *)
Lemma owner_advances s t key id : inv s -> threads s !! t = Some (Holding key id) \/ threads s !! t = Some (Releasing key id) ->
  exists s', advance s s'.
Proof.
  intros Hinv Ht. destruct (holder_locked s t key id Hinv Ht) as (m & Hm & Hl & _). destruct Ht as [Ht|Ht].
  - eexists. split; [eapply unlock_drop; [done| |done]; eapply inv_key; eauto|]. cbn. rewrite dom_insert. apply elem_of_dom_2 in Ht. set_solver.
  - eexists. split; [by eapply unlock_release|]. cbn. rewrite dom_delete. set_solver.
Qed.

Lemma inside_advances s : inv s -> threads s <> ∅ -> exists s', advance s s'.
Proof.
  intros Hinv Hsome. destruct (map_choose (threads s) Hsome) as (t & p & Ht).
  destruct p as [key id|key id|key id]; [|by eauto using owner_advances..].
  destruct (inv_heap _ Hinv t _ Ht) as [m Hm]. cbn in Hm. destruct (locked m) eqn:El.
  - pose proof (inv_owner _ Hinv id m Hm) as Ho. rewrite El in Ho. unfold count in Ho. cbn in Ho.
    destruct (map_choose (filter (fun kv => owns id kv.2 = true) (threads s))) as (t' & p' & Hp').
    { intros E. rewrite E, map_size_empty in Ho. lia. }
    apply map_lookup_filter_Some in Hp' as [Hp' Hown]. cbn in Hown. destruct p' as [k i|k i|k i]; cbn in Hown; [done|by eauto using owner_advances..].
  - eexists. split; [by eapply lock_acquire|]. cbn. rewrite dom_insert. apply elem_of_dom_2 in Ht. set_solver.
Qed.

(** A waiting goroutine leaves [Lock] only by acquiring the mutex. *)
Lemma waiter_step s s' t key id : step s s' -> threads s !! t = Some (Waiting key id) ->
  threads s' !! t = Some (Waiting key id) \/ threads s' !! t = Some (Holding key id).
Proof.
  intros Hs Ht. destruct Hs as [s t' key' id' m Ht'|s t' key' id' Ht'|s t' key' id' m Ht'|s t' key' id0 id' m Ht'|s t' key' id' m Ht']; cbn [threads];
    (destruct (decide (t' = t)) as [->|Hne]; [|first [rewrite lookup_insert_ne by done|rewrite lookup_delete_ne by done]; by left]);
    rewrite Ht in Ht'; simplify_eq.
  right. apply lookup_insert_eq.
Qed.

Lemma waiter_acquires s s' t key id : rtc advance s s' -> threads s !! t = Some (Waiting key id) -> threads s' !! t = None ->
  exists s1, rtc advance s s1 /\ threads s1 !! t = Some (Holding key id) /\ rtc advance s1 s'.
Proof.
  intros Hr. induction Hr as [s|s s2 s' Hs Hr IH]; intros Ht Hn; [congruence|].
  destruct (waiter_step _ _ _ _ _ (proj1 Hs) Ht) as [Hw|Hh].
  - destruct (IH Hw Hn) as (s1 & H1 & H2 & H3). exists s1. split; [by eapply rtc_l|done].
  - exists s2. split; [by eapply rtc_l|done].
Qed.

(** C18: Every caller gets through.  From any reachable state, when no goroutine starts another
    call of [Lock] and holders unlock: however the goroutines inside interleave, they take at
    most three steps each; the run can only stop when none is left inside, and then the map has
    no mutex left; and a goroutine that waited for a key has held it on the way. *)
Theorem keyedMutex_progress (s : state) (Hr : reachable s) :
  (forall n s', nsteps advance n s s' -> (n <= 3 * size (threads s))%nat) /\
  (forall s', rtc advance s s' -> nf advance s' ->
     threads s' = ∅ /\ len s' = 0%nat /\
     forall t key id, threads s !! t = Some (Waiting key id) ->
       exists s1, rtc advance s s1 /\ threads s1 !! t = Some (Holding key id) /\ rtc advance s1 s').
Proof.
  pose proof (reachable_inv s Hr) as Hinv. split.
  - intros n s' Hn. apply (Nat.le_trans _ (work (threads s))); [|apply work_bound].
    induction Hn as [|n s s1 s' Hs Hn IH]; [lia|].
    specialize (IH (rtc_r _ _ _ Hr (proj1 Hs)) (step_inv _ _ Hinv (proj1 Hs))). apply advance_work in Hs. lia.
  - intros s' Hrun Hnf. assert (inv s') as Hinv'.
    { clear Hr Hnf. induction Hrun as [|s s1 s' Hs _ IH]; [done|]. apply IH, (step_inv _ _ Hinv), Hs. }
    assert (threads s' = ∅) as Hempty.
    { destruct (decide (threads s' = ∅)) as [|Hne]; [done|]. destruct (inside_advances s' Hinv' Hne) as [s2 Hs2]. destruct Hnf. by exists s2. }
    split; [done|]. split.
    + unfold len. apply map_size_empty_iff, map_empty. intros key. destruct (locks s' !! key) as [id|] eqn:Ek; [exfalso|done].
      destruct (inv_locks _ Hinv' key id Ek) as (m & Hm & Hpos). rewrite (inv_refs _ Hinv' id m Hm), Hempty in Hpos.
      unfold count in Hpos. rewrite map_filter_empty, map_size_empty in Hpos. lia.
    + intros t key id Ht. eapply waiter_acquires; [done|done|]. rewrite Hempty. apply lookup_empty.
Qed.

(** Goroutine 1 holds a key, goroutine 2 waits for it. *)
Definition ex_state : state :=
  mkState {[go "web@prod" := 0%nat]} {[0%nat := mkMutex 2 true]}
    {[2%nat := Waiting (go "web@prod") 0; 1%nat := Holding (go "web@prod") 0]}.

Lemma ex_state_reachable : reachable ex_state.
Proof.
  unfold reachable. eapply rtc_l; [apply (lock_new init 1 (go "web@prod") 0); reflexivity|].
  eapply rtc_l; [eapply (lock_acquire _ 1 (go "web@prod") 0); reflexivity|].
  eapply rtc_l; [eapply (lock_existing _ 2 (go "web@prod") 0); reflexivity|].
  match goal with |- rtc _ ?s _ => assert (s = ex_state) as -> by (vm_compute; reflexivity) end. reflexivity.
Qed.

Lemma keyedMutex_excludes_witness :
  (forall t' id', threads ex_state !! t' = Some (Holding (go "web@prod") id') -> t' = 1%nat) /\
  locks ex_state !! go "web@prod" = Some 0%nat /\ exists m, heap ex_state !! 0%nat = Some m /\ locked m = true.
Proof. exact (keyedMutex_excludes ex_state 1 (go "web@prod") 0 ex_state_reachable eq_refl). Defined.

Lemma keyedMutex_no_leak_witness :
  is_Some (locks ex_state !! go "web@prod") <->
  exists t id, threads ex_state !! t = Some (Waiting (go "web@prod") id) \/
               threads ex_state !! t = Some (Holding (go "web@prod") id).
Proof. exact (keyedMutex_no_leak ex_state (go "web@prod") ex_state_reachable). Defined.

Lemma keyedMutex_progress_witness :
  reachable ex_state /\ forall n s', nsteps advance n ex_state s' -> (n <= 6)%nat.
Proof. split; [exact ex_state_reachable|]. exact (proj1 (keyedMutex_progress ex_state ex_state_reachable)). Defined.
