(* ===== verification/Effects.v ===== *)
(** The effects of the agent's stateful components: a call reads and changes the component's
    state and then returns, returns an [error], or panics.  What was written before an error
    or a panic stays written. *)
From S2P Require Import Prelude.

Definition ST (S A : Type) : Type := S -> S * outcome A.

#[global] Instance ST_ret {S} : MRet (ST S) := fun _ a s => (s, Ret a).
#[global] Instance ST_bind {S} : MBind (ST S) := fun A B f m s =>
  let '(s', r) := m s in
  match r with Ret a => f a s' | Err e => (s', Err e) | Panic w => (s', Panic w) end.

Section operations.
Context {S : Type}.

Definition get : ST S S := fun s => (s, Ret s).
Definition gets {A} (f : S -> A) : ST S A := fun s => (s, Ret (f s)).
Definition modify (f : S -> S) : ST S unit := fun s => (f s, Ret tt).
Definition fail {A} (e : gostring) : ST S A := fun s => (s, Err e).
Definition lift {A} (r : outcome A) : ST S A := fun s => (s, r).

(** [err := m()]: the error becomes a value; a panic is not caught. *)
Definition attempt {A} (m : ST S A) : ST S (outcome A) := fun s =>
  let '(s', r) := m s in
  match r with Panic w => (s', Panic w) | _ => (s', Ret r) end.

(** [if err := m(); err != nil { return err }] keeps the error; this one turns a returned
    error value back into a failure. *)
Definition return_error (e : option gostring) : ST S unit :=
  match e with None => mret tt | Some e => fail e end.

(** [for _, x := range l { acc = body(acc, x) }]. *)
Fixpoint fold_each {X A} (body : A -> X -> ST S A) (l : list X) (acc : A) : ST S A :=
  match l with
  | [] => mret acc
  | x :: l' => acc' ← body acc x; fold_each body l' acc'
  end.

(** [for _, x := range l { body(x) }]. *)
Definition for_each {X} (body : X -> ST S unit) (l : list X) : ST S unit :=
  fold_each (fun _ x => body x) l tt.
End operations.

(** The [error] of an outcome. *)
Definition err_of {A} (r : outcome A) : option gostring :=
  match r with Err e => Some e | _ => None end.

(** A call on a component that is part of a larger state. *)
Definition zoom {S T A} (proj : S -> T) (upd : T -> S -> S) (m : ST T A) : ST S A := fun s =>
  let '(t, r) := m (proj s) in (upd t s, r).

(** ** Reasoning

    [wp m s Q]: the run of [m] from [s] ends in a state and an outcome related by [Q]. *)
Definition wp {S A} (m : ST S A) (s : S) (Q : S -> outcome A -> Prop) : Prop := Q (fst (m s)) (snd (m s)).

Section reasoning.
Context {S : Type}.
Implicit Types s : S.

Lemma wp_intro {A} (m : ST S A) s (Q : S -> outcome A -> Prop) : wp m s Q -> forall s' r, m s = (s', r) -> Q s' r.
Proof. unfold wp. intros H s' r E. by rewrite E in H. Qed.

Lemma wp_mono {A} (m : ST S A) s (P Q : S -> outcome A -> Prop) :
  wp m s P -> (forall s' r, P s' r -> Q s' r) -> wp m s Q.
Proof. unfold wp. auto. Qed.

Lemma wp_bind {A B} (m : ST S A) (f : A -> ST S B) s (Q : S -> outcome B -> Prop) :
  wp m s (fun s' r => match r with
                  | Ret a => wp (f a) s' Q
                  | Err e => Q s' (Err e)
                  | Panic w => Q s' (Panic w)
                  end) ->
  wp (m ≫= f) s Q.
Proof. unfold wp, mbind, ST_bind. destruct (m s) as [s' [a|e|w]]; auto. Qed.

(** A sequence that returns has a first part that returns. *)
Lemma bind_returns {A B} (m : ST S A) (f : A -> ST S B) s s' x :
  (m ≫= f) s = (s', Ret x) -> exists s1 a, m s = (s1, Ret a) /\ f a s1 = (s', Ret x).
Proof. unfold mbind, ST_bind. destruct (m s) as [s1 [a|e|w]]; [eauto|done..]. Qed.

Lemma wp_attempt {A} (m : ST S A) s (Q : S -> outcome (outcome A) -> Prop) :
  wp m s (fun s' r => match r with Panic w => Q s' (Panic w) | _ => Q s' (Ret r) end) ->
  wp (attempt m) s Q.
Proof. unfold wp, attempt. destruct (m s) as [s' [a|e|w]]; auto. Qed.

(** A loop invariant for [fold_each], indexed by what was already visited. *)
Lemma wp_fold_each {X A} (body : A -> X -> ST S A) (I : list X -> A -> S -> Prop)
  (E : S -> outcome A -> Prop) l done_ acc s :
  I done_ acc s ->
  (forall d x a s0, I d a s0 -> x ∈ l ->
    wp (body a x) s0 (fun s' r => match r with Ret a' => I (d ++ [x]) a' s' | r => E s' r end)) ->
  wp (fold_each body l acc) s (fun s' r => match r with Ret a' => I (done_ ++ l) a' s' | r => E s' r end).
Proof.
  revert done_ acc s. induction l as [|x l IH]; intros d acc s HI Hb; cbn [fold_each].
  { unfold wp. cbn. by rewrite app_nil_r. }
  apply wp_bind. eapply wp_mono; [apply Hb; [done|set_solver]|].
  intros s' [a'|e|w] H'; [|done..].
  eapply wp_mono; [apply (IH (d ++ [x])); [done|]|].
  - intros. apply Hb; [done|set_solver].
  - cbn beta. intros s2 r2 H2. by rewrite <-app_assoc in H2.
Qed.

(** A loop whose body returns on the elements it visits. *)
Lemma fold_each_returns {X A} (body : A -> X -> ST S A) l acc s :
  (forall a x s, x ∈ l -> exists s' a', body a x s = (s', Ret a')) -> exists s' a', fold_each body l acc s = (s', Ret a').
Proof.
  revert acc s. induction l as [|x l IH]; intros acc s Hb; cbn [fold_each]; [by eexists _, _|].
  unfold mbind, ST_bind. destruct (Hb acc x s) as (s1 & a1 & ->); [left|]. apply IH. intros. apply Hb. by right.
Qed.

(** A loop whose body always returns. *)
Lemma for_each_total {X} (body : X -> ST S unit) (h : X -> S -> S) l s :
  (forall x s, body x s = (h x s, Ret tt)) -> for_each body l s = (foldl (fun s x => h x s) s l, Ret tt).
Proof.
  intros Hb. unfold for_each. revert s. induction l as [|x l IH]; intros s; [done|].
  cbn [fold_each foldl]. unfold mbind, ST_bind. rewrite Hb. apply IH.
Qed.

(** [preserves I m]: the invariant holds again however [m] ends. *)
Definition preserves (I : S -> Prop) {A} (m : ST S A) : Prop := forall s, I s -> I (fst (m s)).

Lemma preserves_ret I {A} (a : A) : preserves I (mret a).
Proof. intros s. done. Qed.
Lemma preserves_lift I {A} (r : outcome A) : preserves I (lift r).
Proof. intros s. done. Qed.
Lemma preserves_fail I {A} e : preserves I (fail (A := A) e).
Proof. intros s. done. Qed.
Lemma preserves_gets I {A} (f : S -> A) : preserves I (gets f).
Proof. intros s. done. Qed.
Lemma preserves_modify (I : S -> Prop) f : (forall s, I s -> I (f s)) -> preserves I (modify f).
Proof. intros H s. apply H. Qed.
Lemma preserves_bind I {A B} (m : ST S A) (f : A -> ST S B) :
  preserves I m -> (forall a, preserves I (f a)) -> preserves I (m ≫= f).
Proof.
  intros Hm Hf s Hs. specialize (Hm s Hs). unfold mbind, ST_bind.
  destruct (m s) as [s' [a|e|w]]; [by apply Hf|done..].
Qed.
Lemma preserves_attempt I {A} (m : ST S A) : preserves I m -> preserves I (attempt m).
Proof. intros Hm s Hs. specialize (Hm s Hs). unfold attempt. by destruct (m s) as [s' [a|e|w]]. Qed.
Lemma preserves_return_error I e : preserves I (return_error e).
Proof. destruct e; [apply preserves_fail|apply preserves_ret]. Qed.
Lemma preserves_fold_each I {X A} (body : A -> X -> ST S A) l acc :
  (forall a x, preserves I (body a x)) -> preserves I (fold_each body l acc).
Proof.
  intros Hb. revert acc. induction l as [|x l IH]; intros acc; cbn [fold_each]; [apply preserves_ret|].
  apply preserves_bind; auto.
Qed.
Lemma preserves_for_each I {X} (body : X -> ST S unit) l :
  (forall x, preserves I (body x)) -> preserves I (for_each body l).
Proof. intros Hb. by apply preserves_fold_each. Qed.
Lemma preserves_zoom I {T A} (proj : S -> T) upd (m : ST T A) :
  (forall s, I s -> forall t, I (upd t s)) -> preserves I (zoom proj upd m).
Proof. intros Hu s Hs. unfold zoom. destruct (m (proj s)) as [t r]. by apply Hu. Qed.
End reasoning.

#[export] Hint Resolve preserves_ret preserves_lift preserves_fail preserves_gets preserves_return_error : agent.

(** Split a [preserves] goal along the program. *)
Ltac preserve :=
  repeat first
    [ solve [auto with agent]
    | apply preserves_bind; [|intros ?]
    | apply preserves_attempt
    | apply preserves_for_each; intros ?
    | apply preserves_fold_each; intros ? ?
    | case_match ].

(** Unfold a concrete run. *)
Ltac unfold_st := unfold mbind, mret, ST_bind, ST_ret, get, gets, modify, fail, lift in *.
