(* ===== verification/PolicyUtils.v ===== *)
(** [pkg/utils/policy_utils.go]: the bookkeeping both reconcilers share.  A [sync.Map] that
    is only used under its mutex, or by one goroutine, is a finite map; a [map[string]bool]
    whose values are all [true] is a set. *)
From S2P Require Import Prelude ApiTypes Utils.

Abbreviation name_map := (gmap gostring (list gostring)) (only parsing).

Definition pod_identifier (p : Pod) : gostring := GetPodIdentifier (Name (pod_nn p)) (Namespace (pod_nn p)).

Definition GetPodListToBeCleanedUp (oldPodSet newPodSet : list Pod) (podIdentifiers : gset gostring) : list Pod :=
  filter (fun oldPod => (oldPod ∉ newPodSet) /\ (pod_identifier oldPod ∉ podIdentifiers)) oldPodSet.

Definition DeriveStalePodIdentifiers (networkPolicyToPodIdentifierMap : name_map) (resourceName : gostring)
    (targetPodIdentifiers : list gostring) : outcome (list gostring) :=
  parent ← GetParentNPNameFromPEName resourceName;
  Ret (match networkPolicyToPodIdentifierMap !! parent with
       | Some currentPodIdentifiers => filter (fun id => id ∉ targetPodIdentifiers) currentPodIdentifiers
       | None => []
       end).

Definition DeletePolicyEndpointFromPodIdentifierMap (podIdentifierToPolicyEndpointMap : name_map)
    (podIdentifier policyEndpoint : gostring) : name_map :=
  match podIdentifierToPolicyEndpointMap !! podIdentifier with
  | Some policyEndpointList =>
      let currentList := filter (fun pe => pe <> policyEndpoint) policyEndpointList in
      match currentList with
      | [] => delete podIdentifier podIdentifierToPolicyEndpointMap
      | _ => <[podIdentifier := currentList]> podIdentifierToPolicyEndpointMap
      end
  | None => podIdentifierToPolicyEndpointMap
  end.

Definition UpdatePodIdentifierToPolicyEndpointMap (podIdentifierMap : name_map)
    (podIdentifier : gostring) (policyEndpointList : list gostring) : name_map :=
  let policyEndpoints :=
    match podIdentifierMap !! podIdentifier with
    | Some currentSet =>
        foldl (fun acc pe => if decide (pe ∈ acc) then acc else acc ++ [pe]) currentSet policyEndpointList
    | None => policyEndpointList
    end in
  <[podIdentifier := policyEndpoints]> podIdentifierMap.

(** * What the maps mean

    [tracks m id pe]: the policy endpoint is recorded against the pod identifier. *)
Definition tracks (m : name_map) (id pe : gostring) : Prop := exists l, m !! id = Some l /\ pe ∈ l.

(** No identifier is kept with an empty list, and no endpoint is listed twice. *)
Definition name_map_ok (m : name_map) : Prop := map_Forall (fun _ l => l <> [] /\ NoDup l) m.

Lemma tracks_insert m id l id' pe :
  tracks (<[id := l]> m) id' pe <-> (id = id' /\ pe ∈ l) \/ (id <> id' /\ tracks m id' pe).
Proof.
  unfold tracks. destruct (decide (id = id')) as [<-|Hne].
  - rewrite lookup_insert_eq. naive_solver.
  - rewrite lookup_insert_ne by done. naive_solver.
Qed.

Lemma tracks_delete m id id' pe : tracks (delete id m) id' pe <-> id <> id' /\ tracks m id' pe.
Proof.
  unfold tracks. destruct (decide (id = id')) as [<-|Hne].
  - rewrite lookup_delete_eq. naive_solver.
  - rewrite lookup_delete_ne by done. naive_solver.
Qed.

(** Removal forgets the pair and nothing else. *)
Lemma DeletePolicyEndpoint_tracks m id pe id' pe' :
  tracks (DeletePolicyEndpointFromPodIdentifierMap m id pe) id' pe' <->
  tracks m id' pe' /\ ~ (id = id' /\ pe = pe').
Proof.
  unfold DeletePolicyEndpointFromPodIdentifierMap. destruct (m !! id) as [l|] eqn:El.
  - assert (forall x, x ∈ filter (fun p => p <> pe) l <-> x <> pe /\ x ∈ l) as Hf
      by (intros x; by rewrite list_elem_of_filter).
    destruct (filter (fun p => p <> pe) l) as [|q qs].
    + rewrite tracks_delete. unfold tracks. split.
      * intros [? ?]. split; [done|]. naive_solver.
      * intros [(l' & Hl' & Hin) Hn]. split; [|by exists l']. intros <-.
        simplify_eq. destruct (decide (pe = pe')); [naive_solver|].
        assert (pe' ∈ @nil gostring) as Hc by (apply Hf; split; [congruence|done]). by apply not_elem_of_nil in Hc.
    + rewrite tracks_insert. split.
      * intros [[-> Hin]|[Hne Ht]]; [|naive_solver]. apply Hf in Hin as [? ?]. split; [by exists l|naive_solver].
      * intros [(l' & Hl' & Hin) Hn]. destruct (decide (id = id')) as [->|Hne]; [|right; split; [done|by exists l']].
        left. split; [done|]. simplify_eq. apply Hf. split; [naive_solver|done].
  - split; [|naive_solver]. intros Ht. split; [done|]. intros [-> ->]. destruct Ht as (l & Hl & _). congruence.
Qed.

Lemma foldl_add_elem (new cur : list gostring) x :
  x ∈ foldl (fun acc pe => if decide (pe ∈ acc) then acc else acc ++ [pe]) cur new <-> x ∈ cur \/ x ∈ new.
Proof.
  revert cur. induction new as [|pe new IH]; intros cur; cbn [foldl]; [set_solver|].
  rewrite IH. case_decide; set_solver.
Qed.

Lemma foldl_add_NoDup (new cur : list gostring) :
  NoDup cur -> NoDup (foldl (fun acc pe => if decide (pe ∈ acc) then acc else acc ++ [pe]) cur new).
Proof.
  revert cur. induction new as [|pe new IH]; intros cur Hc; cbn [foldl]; [done|].
  apply IH. case_decide; [done|]. apply NoDup_app. split; [done|]. split; [set_solver|apply NoDup_singleton].
Qed.

(** Adding a list records exactly its members against the identifier. *)
Lemma UpdatePodIdentifier_tracks m id pes id' pe :
  tracks (UpdatePodIdentifierToPolicyEndpointMap m id pes) id' pe <->
  tracks m id' pe \/ (id = id' /\ pe ∈ pes).
Proof.
  unfold UpdatePodIdentifierToPolicyEndpointMap. rewrite tracks_insert.
  destruct (decide (id = id')) as [<-|Hne]; [|naive_solver].
  unfold tracks. destruct (m !! id) as [l|]; [rewrite foldl_add_elem|]; naive_solver.
Qed.

Lemma name_map_ok_delete m id pe :
  name_map_ok m -> name_map_ok (DeletePolicyEndpointFromPodIdentifierMap m id pe).
Proof.
  intros Hm. unfold DeletePolicyEndpointFromPodIdentifierMap. destruct (m !! id) as [l|] eqn:El; [|done].
  pose proof (Hm id l El) as [_ Hnd]. pose proof (NoDup_filter (fun p => p <> pe) l Hnd) as Hnd'.
  destruct (filter (fun p => p <> pe) l) as [|q qs]; [by apply map_Forall_delete|].
  by apply map_Forall_insert_2.
Qed.

Lemma name_map_ok_update m id pes :
  name_map_ok m -> pes <> [] -> NoDup pes -> name_map_ok (UpdatePodIdentifierToPolicyEndpointMap m id pes).
Proof.
  intros Hm Hne Hnd. unfold UpdatePodIdentifierToPolicyEndpointMap. apply map_Forall_insert_2; [|done].
  destruct (m !! id) as [l|] eqn:El; [|done]. pose proof (Hm id l El) as [Hl HndL]. split.
  - destruct l as [|x l]; [done|]. intros Heq.
    assert (x ∈ @nil gostring) as Hc by (rewrite <-Heq; apply foldl_add_elem; left; set_solver).
    by apply not_elem_of_nil in Hc.
  - by apply foldl_add_NoDup.
Qed.

Lemma DeriveStale_spec m name targets stale parent l :
  DeriveStalePodIdentifiers m name targets = Ret stale -> GetParentNPNameFromPEName name = Ret parent ->
  m !! parent = Some l -> forall id, id ∈ stale <-> id ∈ l /\ id ∉ targets.
Proof.
  unfold DeriveStalePodIdentifiers. intros H Hp Hl id. rewrite Hp in H. cbn in H. rewrite Hl in H.
  injection H as <-. rewrite list_elem_of_filter. naive_solver.
Qed.
