(* ===== verification/BpfInterface.v ===== *)
(** [pkg/ebpf/bpf_client.go]'s [BpfClient] interface: the calls the reconcilers and the RPC
    server make, and what they promise.  The reconcilers are verified against the promises;
    the client of [BpfClient.v] keeps them. *)
From S2P Require Import Prelude ApiTypes Utils FwRules Datapath Effects.

Definition POD_STATE_MAP_KEY : Z := 0.
Definition CLUSTER_POLICY_POD_STATE_MAP_KEY : Z := 1.
Definition INTERFACE_COUNT_UNKNOWN : Z := -1.
Definition INTERFACE_COUNT_DEFAULT : Z := 1.

(** The two hooks of a pod, and the two kinds of rule map each has. *)
Inductive Direction := ingress | egress.
Inductive PolicyKind := NamespacePolicy | ClusterPolicy.
#[global] Instance Direction_eq_dec : EqDecision Direction.
Proof. solve_decision. Defined.
#[global] Instance PolicyKind_eq_dec : EqDecision PolicyKind.
Proof. solve_decision. Defined.

(** Pick the argument of a direction. *)
Definition by_dir {A} (i e : A) (d : Direction) : A := match d with ingress => i | egress => e end.

Class BpfClient (B : Type) := {
  AttacheBPFProbes : NamespacedName -> gostring -> Z -> bool -> ST B bool;
  DeleteBPFProbes : NamespacedName -> gostring -> ST B unit;
  UpdateClusterPolicyEbpfMaps : gostring -> list EbpfFirewallRules -> list EbpfFirewallRules -> ST B unit;
  UpdateEbpfMaps : gostring -> list EbpfFirewallRules -> list EbpfFirewallRules -> ST B unit;
  UpdatePodStateEbpfMaps : gostring -> Z -> Z -> bool -> bool -> ST B unit;
  ReAttachEbpfProbes : ST B unit;
  GetNetworkPolicyMode : B -> gostring;
  CreatePodStateEbpfEntryIfNotExists : gostring -> Z -> Z -> ST B unit;
  HasBPFContext : gostring -> B -> bool
}.

(** ** The promises

    What can be seen of a client: which hooks of a pod identifier have a program, the pod
    states and the rules the kernel holds for them. *)
Record BpfView := mkBpfView {
  hooked : gostring -> Direction -> bool;
  pod_states : gostring -> Direction -> Z -> option Z;
  rules_in : gostring -> PolicyKind -> Direction -> gmap gostring gostring
}.

(** The state of a pod without policies, by the enforcing mode. *)
Definition default_state (mode : gostring) : Z := if IsStrictMode mode then DEFAULT_DENY else DEFAULT_ALLOW.

(** Two views agree on a pod identifier. *)
Definition same_at (id : gostring) (v v' : BpfView) : Prop :=
  forall d, hooked v' id d = hooked v id d /\ (forall key, pod_states v' id d key = pod_states v id d key) /\
            (forall kind, rules_in v' id kind d = rules_in v id kind d).

(** The entries are in a map; if [exact], nothing else is. *)
Definition installed (exact : Prop) (m have : gmap gostring gostring) : Prop := m ⊆ have /\ (exact -> have = m).

Class BpfClientSpec (B : Type) `{!BpfClient B} := {
  bc_inv : B -> Prop;
  (** No kernel delete fails. *)
  bc_exact : Prop;
  bc_view : B -> BpfView;
  bc_entries : B -> PolicyKind -> list EbpfFirewallRules -> outcome (gmap gostring gostring);

  (** Whatever a call about one identifier returns, the others are left alone. *)
  attach_frame : forall b pod podId n live,
    bc_inv b -> let b' := fst (AttacheBPFProbes pod podId n live b) in
    bc_inv b' /\ bc_entries b' = bc_entries b /\
    forall id, id <> podId -> same_at id (bc_view b) (bc_view b') /\ HasBPFContext id b' = HasBPFContext id b;
  (** The calls that write maps do not change which hooks have programs either. *)
  write_frame : forall (m : ST B unit) b podId,
    (exists key state uI uE, m = UpdatePodStateEbpfMaps podId key state uI uE) \/
    (exists key state, m = CreatePodStateEbpfEntryIfNotExists podId key state) \/
    (exists ing egr, m = UpdateEbpfMaps podId ing egr) \/
    (exists ing egr, m = UpdateClusterPolicyEbpfMaps podId ing egr) ->
    bc_inv b -> let b' := fst (m b) in
    bc_inv b' /\ bc_entries b' = bc_entries b /\
    (forall id d, hooked (bc_view b') id d = hooked (bc_view b) id d) /\
    (forall id, HasBPFContext id b' = HasBPFContext id b) /\
    forall id, id <> podId -> same_at id (bc_view b) (bc_view b');

  (** The pod state of one key is written on the selected hooks that have a program; the
      other pod states and the rules do not change. *)
  pod_state_law : forall b podId key state uI uE b',
    bc_inv b -> UpdatePodStateEbpfMaps podId key state uI uE b = (b', Ret tt) ->
    HasBPFContext podId b = true /\
    (forall d k, pod_states (bc_view b') podId d k =
      if bool_decide (k = u32 key) && by_dir uI uE d && hooked (bc_view b) podId d
      then Some (u8 state) else pod_states (bc_view b) podId d k) /\
    (forall kind d, rules_in (bc_view b') podId kind d = rules_in (bc_view b) podId kind d);

  (** Seeding keeps an entry that is there. *)
  seed_law : forall b podId key state b',
    bc_inv b -> CreatePodStateEbpfEntryIfNotExists podId key state b = (b', Ret tt) ->
    HasBPFContext podId b = true /\
    (forall d k, pod_states (bc_view b') podId d k =
      match pod_states (bc_view b) podId d k with
      | Some v => Some v
      | None => if bool_decide (k = u32 key) && hooked (bc_view b) podId d then Some (u8 state) else None
      end) /\
    (forall kind d, rules_in (bc_view b') podId kind d = rules_in (bc_view b) podId kind d);

  (** On success every hook that has a program holds the entries computed from the rules, and
      nothing else unless a kernel delete failed, which the client does not report. *)
  rules_law : forall b podId ing egr b',
    bc_inv b -> UpdateEbpfMaps podId ing egr b = (b', Ret tt) ->
    HasBPFContext podId b = true /\
    (forall d, hooked (bc_view b) podId d = true ->
      exists m, bc_entries b NamespacePolicy (by_dir ing egr d) = Ret m /\
                installed bc_exact m (rules_in (bc_view b') podId NamespacePolicy d)) /\
    (forall d, rules_in (bc_view b') podId ClusterPolicy d = rules_in (bc_view b) podId ClusterPolicy d) /\
    (forall d key, pod_states (bc_view b') podId d key = pod_states (bc_view b) podId d key);
  cluster_rules_law : forall b podId ing egr b',
    bc_inv b -> UpdateClusterPolicyEbpfMaps podId ing egr b = (b', Ret tt) ->
    HasBPFContext podId b = true /\
    (forall d, hooked (bc_view b) podId d = true ->
      exists m, bc_entries b ClusterPolicy (by_dir ing egr d) = Ret m /\
                installed bc_exact m (rules_in (bc_view b') podId ClusterPolicy d)) /\
    (forall d, rules_in (bc_view b') podId NamespacePolicy d = rules_in (bc_view b) podId NamespacePolicy d) /\
    (forall d key, pod_states (bc_view b') podId d key = pod_states (bc_view b) podId d key);
  (** The enforcing mode is fixed. *)
  mode_law : forall b podId ing egr key state uI uE, bc_inv b ->
    GetNetworkPolicyMode (fst (UpdateEbpfMaps podId ing egr b)) = GetNetworkPolicyMode b /\
    GetNetworkPolicyMode (fst (UpdatePodStateEbpfMaps podId key state uI uE b)) = GetNetworkPolicyMode b /\
    GetNetworkPolicyMode (fst (CreatePodStateEbpfEntryIfNotExists podId key state b)) = GetNetworkPolicyMode b
}.

(** ** Programmed identifiers *)
Section programmed.
Context {B : Type} `{!BpfClient B, !BpfClientSpec B}.

(** Every hook of the identifier that has a program holds the rules, is in the given pod
    state for the kind of policy, and has a pod state for the other kind as well, without
    which the classifier drops everything. *)
Definition programmed (b : B) (id : gostring) (kind : PolicyKind) (ing egr : list EbpfFirewallRules) (state : Z) : Prop :=
  let '(key, other) := match kind with
                   | NamespacePolicy => (POD_STATE_MAP_KEY, CLUSTER_POLICY_POD_STATE_MAP_KEY)
                   | ClusterPolicy => (CLUSTER_POLICY_POD_STATE_MAP_KEY, POD_STATE_MAP_KEY)
                   end in
  forall d, hooked (bc_view b) id d = true ->
  pod_states (bc_view b) id d key = Some state /\
  is_Some (pod_states (bc_view b) id d other) /\
  exists m, bc_entries b kind (by_dir ing egr d) = Ret m /\ installed bc_exact m (rules_in (bc_view b) id kind d).

Lemma programmed_frame b b' id kind ing egr state :
  bc_entries b' = bc_entries b -> same_at id (bc_view b) (bc_view b') ->
  programmed b id kind ing egr state -> programmed b' id kind ing egr state.
Proof.
  intros He Hs Hp. unfold programmed in *. destruct kind; intros d Hd; destruct (Hs d) as (Hh & Hps & Hr);
    rewrite Hh in Hd; rewrite !Hps, He, Hr; by apply Hp.
Qed.

Lemma same_at_trans id v1 v2 v3 : same_at id v1 v2 -> same_at id v2 v3 -> same_at id v1 v3.
Proof.
  intros H1 H2 d. destruct (H1 d) as (A1 & A2 & A3), (H2 d) as (B1 & B2 & B3).
  split; [congruence|]. split; intros; [rewrite B2; apply A2|rewrite B3; apply A3].
Qed.

(** A computation that concerns one identifier. *)
Definition writes_only (podId : gostring) {A} (m : ST B A) : Prop := forall b, bc_inv b ->
  let b' := fst (m b) in
  bc_inv b' /\ bc_entries b' = bc_entries b /\
  forall id, id <> podId -> same_at id (bc_view b) (bc_view b') /\ HasBPFContext id b' = HasBPFContext id b.

Lemma writes_only_ret podId {A} (a : A) : writes_only podId (mret a).
Proof. intros b Hb. split; [done|]. split; [done|]. intros id _. split; [|done]. intros d. done. Qed.
Lemma writes_only_gets podId {A} (f : B -> A) : writes_only podId (gets f).
Proof. intros b Hb. split; [done|]. split; [done|]. intros id _. split; [|done]. intros d. done. Qed.
Lemma writes_only_bind podId {A C} (m : ST B A) (f : A -> ST B C) :
  writes_only podId m -> (forall a, writes_only podId (f a)) -> writes_only podId (m ≫= f).
Proof.
  intros Hm Hf b Hb. destruct (Hm b Hb) as (Hi & He & Hs). unfold mbind, ST_bind.
  destruct (m b) as [b1 [a|e|w]]; [|done..]. cbn in *.
  destruct (Hf a b1 Hi) as (Hi2 & He2 & Hs2). split; [done|]. split; [congruence|].
  intros id Hid. destruct (Hs id Hid) as [Hx Hy], (Hs2 id Hid) as [Hx2 Hy2]. split; [by eapply same_at_trans|congruence].
Qed.
Lemma writes_only_attach podId pod n live : writes_only podId (AttacheBPFProbes pod podId n live).
Proof. intros b Hb. by apply attach_frame. Qed.
Lemma writes_only_write podId (m : ST B unit) :
  (exists key state uI uE, m = UpdatePodStateEbpfMaps podId key state uI uE) \/
  (exists key state, m = CreatePodStateEbpfEntryIfNotExists podId key state) \/
  (exists ing egr, m = UpdateEbpfMaps podId ing egr) \/
  (exists ing egr, m = UpdateClusterPolicyEbpfMaps podId ing egr) -> writes_only podId m.
Proof.
  intros Hm b Hb. destruct (write_frame m b podId Hm Hb) as (Hi & He & _ & Hc & Hs). split; [done|]. split; [done|].
  intros id Hid. split; [by apply Hs|apply Hc].
Qed.
Lemma writes_only_for_each podId {X} (body : X -> ST B unit) l :
  (forall x, writes_only podId (body x)) -> writes_only podId (for_each body l).
Proof.
  intros Hb. unfold for_each. induction l as [|x l IH]; cbn [fold_each]; [apply writes_only_ret|].
  apply writes_only_bind; [done|]. intros []. exact IH.
Qed.
End programmed.
