(* ===== verification/PolicyController.v ===== *)
(** [controllers/policyendpoints_controller.go]: the reconciler of PolicyEndpoint resources.

    The Kubernetes API client is a parameter: during one reconcile it answers [Get] and
    [List] from one snapshot of the informer cache.  Log lines and the setup/teardown
    latency summaries are left out; the programming-latency histogram is kept, as the list of
    its observations. *)
From S2P Require Import Prelude NetIP ApiTypes Utils FwRules Datapath Effects PolicyUtils BpfInterface.

(** [client.Reader.Get]: the object, a NotFound status, or another error. *)
Inductive get_result (A : Type) := Found (a : A) | NotFound | GetErr (e : gostring).
Arguments Found {A} a.
Arguments NotFound {A}.
Arguments GetErr {A} e.

(** What the reconciler reads of the API. *)
Record K8sClient := mkK8sClient {
  k8s_Get : NamespacedName -> get_result PolicyEndpoint;
  k8s_List : gostring -> outcome (list PolicyEndpoint)
}.

Definition LastChangeTriggerTimeAnnotation : gostring := go "networking.k8s.aws/last-change-trigger-time".

(** [PolicyEndpointsReconciler], less its constant fields and the BPF client. *)
Record PolicyEndpointsReconciler := mkPolicyEndpointsReconciler {
  lastObservedTriggerTimes : gmap NamespacedName gostring;
  podIdentifierToPolicyEndpointMap : gmap gostring (list gostring);
  policyEndpointSelectorMap : gmap gostring (list Pod);
  networkPolicyToPodIdentifierMap : gmap gostring (list gostring);
  policyProgrammingLatency : list Z
}.

Definition set_lastObserved f (r : PolicyEndpointsReconciler) := mkPolicyEndpointsReconciler
  (f (lastObservedTriggerTimes r)) (podIdentifierToPolicyEndpointMap r) (policyEndpointSelectorMap r)
  (networkPolicyToPodIdentifierMap r) (policyProgrammingLatency r).
Definition set_podIdMap f (r : PolicyEndpointsReconciler) := mkPolicyEndpointsReconciler
  (lastObservedTriggerTimes r) (f (podIdentifierToPolicyEndpointMap r)) (policyEndpointSelectorMap r)
  (networkPolicyToPodIdentifierMap r) (policyProgrammingLatency r).
Definition set_selectorMap f (r : PolicyEndpointsReconciler) := mkPolicyEndpointsReconciler
  (lastObservedTriggerTimes r) (podIdentifierToPolicyEndpointMap r) (f (policyEndpointSelectorMap r))
  (networkPolicyToPodIdentifierMap r) (policyProgrammingLatency r).
Definition set_npMap f (r : PolicyEndpointsReconciler) := mkPolicyEndpointsReconciler
  (lastObservedTriggerTimes r) (podIdentifierToPolicyEndpointMap r) (policyEndpointSelectorMap r)
  (f (networkPolicyToPodIdentifierMap r)) (policyProgrammingLatency r).
Definition observe_latency (l : Z) (r : PolicyEndpointsReconciler) := mkPolicyEndpointsReconciler
  (lastObservedTriggerTimes r) (podIdentifierToPolicyEndpointMap r) (policyEndpointSelectorMap r)
  (networkPolicyToPodIdentifierMap r) (policyProgrammingLatency r ++ [l]).

(** The reconciler as constructed: the maps are empty. *)
Definition NewPolicyEndpointsReconciler : PolicyEndpointsReconciler :=
  mkPolicyEndpointsReconciler ∅ ∅ ∅ ∅ [].

(** ** Rules of a pod identifier *)

Definition ingressRule (e : EndpointInfo) : EbpfFirewallRules :=
  mkEbpfFirewallRules 0 [] [] (CIDR e) (Except e) (Ports e).

(** Egress entries without a CIDR are skipped. *)
Definition peIngressRules (pe : PolicyEndpoint) : list EbpfFirewallRules :=
  ingressRule <$> Ingress (pe_Spec pe).
Definition peEgressRules (pe : PolicyEndpoint) : list EbpfFirewallRules :=
  ingressRule <$> filter (fun e => CIDR e <> []) (Egress (pe_Spec pe)).

Definition deriveDefaultPodIsolation (policyEndpoint : PolicyEndpoint)
    (ingressRulesCount egressRulesCount : nat) : bool * bool :=
  foldl (fun '(isIngressIsolated, isEgressIsolated) value =>
      (isIngressIsolated || (bool_decide (value = PolicyTypeIngress) && (ingressRulesCount =? 0)%nat),
       isEgressIsolated || (bool_decide (value = PolicyTypeEgress) && (egressRulesCount =? 0)%nat)))
    (false, false) (PodIsolation (pe_Spec policyEndpoint)).

Record DerivedRules := mkDerivedRules {
  ingressRules : list EbpfFirewallRules;
  egressRules : list EbpfFirewallRules;
  isIngressIsolated : bool;
  isEgressIsolated : bool
}.

(** The delete flow skips endpoints of the deleted endpoint's policy. *)
Definition skipInDeleteFlow (isDeleteFlow : bool) (resourceName policyEndpointResource : gostring) : outcome bool :=
  if isDeleteFlow then
    deletedPEParentNPName ← GetParentNPNameFromPEName resourceName;
    currentPEParentNPName ← GetParentNPNameFromPEName policyEndpointResource;
    Ret (bool_decide (deletedPEParentNPName = currentPEParentNPName))
  else Ret false.

Section reconciler.
Context {B : Type} `{!BpfClient B, !MapOrder}.
Context (k8sClient : K8sClient) (nodeIP : gostring) (enableIPv6 : bool).
(** [time.Parse(time.RFC3339Nano, _)], the start of the tracker and the clock. *)
Context (time_Parse : gostring -> option Z) (trackerStartTime : Z) (now : Z).

Abbreviation M := (ST (PolicyEndpointsReconciler * B)).
Definition on_maps {A} (m : ST PolicyEndpointsReconciler A) : M A := zoom fst (fun r s => (r, snd s)) m.
Definition on_bpf {A} (m : ST B A) : M A := zoom snd (fun b s => (fst s, b)) m.

(** The rules and the isolation flags after an endpoint that was found. *)
Definition deriveFound (acc : DerivedRules) (currentPE : PolicyEndpoint) : outcome DerivedRules :=
  let ing := ingressRules acc ++ peIngressRules currentPE in
  let egr := egressRules acc ++ peEgressRules currentPE in
  let '(ingressIsolated, egressIsolated) :=
    deriveDefaultPodIsolation currentPE (length ing) (length egr) in
  Ret (mkDerivedRules ing egr (isIngressIsolated acc || ingressIsolated)
     (isEgressIsolated acc || egressIsolated)).

Definition deriveStep (resourceNamespace resourceName : gostring) (isDeleteFlow : bool)
  (acc : DerivedRules) (policyEndpointResource : gostring) : outcome DerivedRules :=
  skip ← skipInDeleteFlow isDeleteFlow resourceName policyEndpointResource;
  if (skip : bool) then Ret acc else
  match k8s_Get k8sClient (mkNamespacedName policyEndpointResource resourceNamespace) with
  | NotFound => Ret acc
  | GetErr e => Err e
  | Found currentPE => deriveFound acc currentPE
  end.

Definition deriveIngressAndEgressFirewallRules (r : PolicyEndpointsReconciler)
  (podIdentifier resourceNamespace resourceName : gostring) (isDeleteFlow : bool) : outcome DerivedRules :=
  let policyEndpointList := default [] (podIdentifierToPolicyEndpointMap r !! podIdentifier) in
  acc ← for_range (deriveStep resourceNamespace resourceName isDeleteFlow) policyEndpointList
      (mkDerivedRules [] [] false false);
  Ret (mkDerivedRules (ingressRules acc) (egressRules acc)
     (if decide (0 < length (ingressRules acc))%nat then false else isIngressIsolated acc)
     (if decide (0 < length (egressRules acc))%nat then false else isEgressIsolated acc)).

Definition addCatchAllEntry (firewallRules : list EbpfFirewallRules) : list EbpfFirewallRules :=
  let catchAllCIDR := if enableIPv6 then go "::/0" else go "0.0.0.0/0" in
  firewallRules ++ [mkEbpfFirewallRules 0 [] [] catchAllCIDR [] []].

(** [len(rules) == 0 && !isolated]. *)
Definition noActivePolicies (rules : list EbpfFirewallRules) (isolated : bool) : bool :=
  match rules with [] => negb isolated | _ => false end.

Definition withCatchAll (rules : list EbpfFirewallRules) (isolated : bool) : list EbpfFirewallRules :=
  if noActivePolicies rules isolated then addCatchAllEntry rules else rules.

(** ** Programming *)

Definition updateeBPFMaps (podIdentifier : gostring) (ing egr : list EbpfFirewallRules) (state : Z) : ST B unit :=
  UpdateEbpfMaps podIdentifier ing egr;;
  UpdatePodStateEbpfMaps podIdentifier POD_STATE_MAP_KEY state true true;;
  CreatePodStateEbpfEntryIfNotExists podIdentifier CLUSTER_POLICY_POD_STATE_MAP_KEY DEFAULT_ALLOW.

Definition configureeBPFProbes (podIdentifier : gostring) (targetPods : list Pod)
  (ing egr : list EbpfFirewallRules) : ST B unit :=
  for_each (fun pod =>
    if decide (pod_identifier pod = podIdentifier) then
      _ ← AttacheBPFProbes (pod_nn pod) podIdentifier INTERFACE_COUNT_UNKNOWN false; mret tt
    else mret tt) targetPods;;
  updateeBPFMaps podIdentifier ing egr POLICIES_APPLIED.

Definition cleanupPod (targetPod : Pod) (policyEndpoint : gostring) (isDeleteFlow : bool) : M unit :=
  let podIdentifier := pod_identifier targetPod in
  r ← on_maps get;
  match podIdentifierToPolicyEndpointMap r !! podIdentifier with
  | None => mret tt
  | Some _ =>
      d ← lift (deriveIngressAndEgressFirewallRules r podIdentifier (Namespace (pod_nn targetPod))
              policyEndpoint isDeleteFlow);
      let noActiveIngressPolicies := noActivePolicies (ingressRules d) (isIngressIsolated d) in
      let noActiveEgressPolicies := noActivePolicies (egressRules d) (isEgressIsolated d) in
      if noActiveIngressPolicies && noActiveEgressPolicies then
        mode ← on_bpf (gets GetNetworkPolicyMode);
        let state := if IsStrictMode mode then DEFAULT_DENY else DEFAULT_ALLOW in
        on_bpf (updateeBPFMaps podIdentifier (ingressRules d) (egressRules d) state)
      else
        let ing := if noActiveIngressPolicies then addCatchAllEntry (ingressRules d) else ingressRules d in
        let egr := if noActiveEgressPolicies then addCatchAllEntry (egressRules d) else egressRules d in
        on_bpf (updateeBPFMaps podIdentifier ing egr POLICIES_APPLIED)
  end.

(** Every pod is attempted; the errors are joined. *)
Definition updatePolicyEnforcementStatusForPods (policyEndpointName : gostring)
  (targetPods : list Pod) (isDeleteFlow : bool) : M unit :=
  err ← fold_each (fun err targetPod =>
        cleanupErr ← attempt (cleanupPod targetPod policyEndpointName isDeleteFlow);
        mret (errors_Join err (err_of cleanupErr))) targetPods None;
  return_error err.

(** ** Which pods a policy selects *)

Definition updatePodIdentifierToPEMap (podIdentifier : gostring) (parentPEList : list gostring)
  (m : gmap gostring (list gostring)) : gmap gostring (list gostring) :=
  let policyEndpoints :=
    match m !! podIdentifier with
    | Some currentPESet =>
        foldl (fun acc pe => if decide (pe ∈ currentPESet) then acc else acc ++ [pe]) currentPESet parentPEList
    | None => parentPEList
    end in
  <[podIdentifier := policyEndpoints]> m.

Definition deletePolicyEndpointFromPodIdentifierMap (podIdentifier policyEndpoint : gostring)
  (m : gmap gostring (list gostring)) : gmap gostring (list gostring) :=
  match m !! podIdentifier with
  | Some policyEndpointList =>
      match filter (fun pe => pe <> policyEndpoint) policyEndpointList with
      | [] => delete podIdentifier m
      | currentPEList => <[podIdentifier := currentPEList]> m
      end
  | None => m
  end.

Definition deriveStalePodIdentifiers (r : PolicyEndpointsReconciler) (resourceName : gostring)
  (targetPodIdentifiers : list gostring) : outcome (list gostring) :=
  parent ← GetParentNPNameFromPEName resourceName;
  Ret (match networkPolicyToPodIdentifierMap r !! parent with
    | Some currentPodIdentifiers => filter (fun id => id ∉ targetPodIdentifiers) currentPodIdentifiers
    | None => []
    end).

(** Pods are compared by name and namespace. *)
Definition getPodListToBeCleanedUp (oldPodSet newPodSet : list Pod) (podIdentifiers : gset gostring) : list Pod :=
  filter (fun oldPod => (pod_nn oldPod ∉ pod_nn <$> newPodSet) /\ (pod_identifier oldPod ∉ podIdentifiers)) oldPodSet.

(** A failing [List] reads as no endpoints. *)
Definition derivePolicyEndpointsOfParentNP (parentNP resourceNamespace : gostring) : list gostring :=
  match k8s_List k8sClient resourceNamespace with
  | Ret items => (fun pe => meta_Name (pe_meta pe)) <$> filter (fun pe => ref_Name (PolicyRef (pe_Spec pe)) = parentNP) items
  | _ => []
  end.

(** [PodIP == HostIP] marks a hostNetwork pod. *)
Definition isHostNetwork (pod : PodEndpoint) : bool := bool_decide (pe_PodIP pod = HostIP pod).
Definition isLocal (pod : PodEndpoint) : bool := ip_Equal (ParseIP nodeIP) (ParseIP (HostIP pod)).
Definition endpointPod (pod : PodEndpoint) : Pod :=
  mkPod (mkNamespacedName (pe_Name pod) (pe_Namespace pod)) (pe_PodIP pod).

(** One turn of the loop: the pods and identifiers found so far, and the map. *)
Definition deriveTargetPods_step (parentPEList : list gostring)
  (acc : list Pod * gset gostring * gmap gostring (list gostring)) (pod : PodEndpoint) :
  list Pod * gset gostring * gmap gostring (list gostring) :=
  let '(targetPods, podIdentifiers, m) := acc in
  if isHostNetwork pod then acc else
  let podIdentifier := GetPodIdentifier (pe_Name pod) (pe_Namespace pod) in
  let m := updatePodIdentifierToPEMap podIdentifier parentPEList m in
  if isLocal pod then (targetPods ++ [endpointPod pod], {[podIdentifier]} ∪ podIdentifiers, m)
  else (targetPods, podIdentifiers, m).

Definition deriveTargetPods (policyEndpoint : PolicyEndpoint) (parentPEList : list gostring)
  (m : gmap gostring (list gostring)) : list Pod * gset gostring * gmap gostring (list gostring) :=
  foldl (deriveTargetPods_step parentPEList) ([], ∅, m) (PodSelectorEndpoints (pe_Spec policyEndpoint)).

(** [&PolicyEndpoint{}]. *)
Definition zeroPolicyEndpoint : PolicyEndpoint :=
  mkPolicyEndpoint (mkObjectMeta [] [] None None) (mkPolicyEndpointSpec (mkPolicyReference [] []) [] [] [] []).

Record TargetPods := mkTargetPods {
  targetPods : list Pod;
  podIdentifiers : gset gostring;
  targetPodIdentifiers : list gostring
}.

(** The loop over the policy's endpoints.  Only NotFound is skipped: after another error the
    loop goes on with the empty object. *)
Definition deriveTargetPods_loop (parentPEList : list gostring) (resourceNamespace : gostring)
  (acc : TargetPods) (policyEndpointResourceName : gostring) : ST PolicyEndpointsReconciler TargetPods :=
  let process currentPE : ST PolicyEndpointsReconciler TargetPods :=
    r ← get;
    let '(currentTargetPods, currentPodIdentifiers, m) :=
      deriveTargetPods currentPE parentPEList (podIdentifierToPolicyEndpointMap r) in
    modify (set_podIdMap (fun _ => m));;
    mret (mkTargetPods (targetPods acc ++ currentTargetPods)
        (currentPodIdentifiers ∪ podIdentifiers acc)
        (targetPodIdentifiers acc ++ go_range policyEndpointResourceName (elements currentPodIdentifiers))) in
  match k8s_Get k8sClient (mkNamespacedName policyEndpointResourceName resourceNamespace) with
  | NotFound => mret acc
  | GetErr _ => process zeroPolicyEndpoint
  | Found currentPE => process currentPE
  end.

(** Store or drop a list, as [if len(l) > 0 { m.Store(k, l) } else { m.Delete(k) }]. *)
Definition store_or_delete {A} (k : gostring) (l : list A) (m : gmap gostring (list A)) : gmap gostring (list A) :=
  match l with [] => delete k m | _ => <[k := l]> m end.

Definition deriveTargetPodsForParentNP (parentNP resourceNamespace resourceName : gostring) :
  ST PolicyEndpointsReconciler (list Pod * gset gostring * list Pod) :=
  let parentPEList := derivePolicyEndpointsOfParentNP parentNP resourceNamespace in
  let policyEndpointIdentifier := GetPolicyEndpointIdentifier resourceName resourceNamespace in
  r ← get;
  let currentPods := default [] (policyEndpointSelectorMap r !! policyEndpointIdentifier) in
  podsToBeCleanedUp ←
  (if decide (parentPEList = []) then
    modify (set_selectorMap (delete policyEndpointIdentifier));; mret currentPods
  else mret []);
  t ← fold_each (deriveTargetPods_loop parentPEList resourceNamespace) parentPEList
    (mkTargetPods [] ∅ []);
  r ← get;
  stalePodIdentifiers ← lift (deriveStalePodIdentifiers r resourceName (targetPodIdentifiers t));
  for_each (fun policyEndpointResource =>
    modify (set_selectorMap (store_or_delete
        (GetPolicyEndpointIdentifier policyEndpointResource resourceNamespace) (targetPods t)));;
    for_each (fun podIdentifier =>
      modify (set_podIdMap (deletePolicyEndpointFromPodIdentifierMap podIdentifier policyEndpointResource)))
    stalePodIdentifiers) parentPEList;;
  parent ← lift (GetParentNPNameFromPEName resourceName);
  modify (set_npMap (store_or_delete parent (targetPodIdentifiers t)));;
  mret (targetPods t, podIdentifiers t,
    if decide (0 < length currentPods)%nat
    then getPodListToBeCleanedUp currentPods (targetPods t) (podIdentifiers t)
    else podsToBeCleanedUp).

(** ** Reconciling *)

Definition cleanUpPolicyEndpoint (req : NamespacedName) : M unit :=
  let policyEndpointIdentifier := GetPolicyEndpointIdentifier (Name req) (Namespace req) in
  on_maps (modify (set_lastObserved (delete req)));;
  parentNP ← lift (GetParentNPNameFromPEName (Name req));
  t ← on_maps (deriveTargetPodsForParentNP parentNP (Namespace req) (Name req));
  let '(tPods, ids, podsToBeCleanedUp) := t in
  on_maps (modify (set_selectorMap (delete policyEndpointIdentifier)));;
  (if decide (0 < length tPods)%nat then updatePolicyEnforcementStatusForPods (Name req) tPods false else mret tt);;
  (if decide (0 < length podsToBeCleanedUp)%nat
    then updatePolicyEnforcementStatusForPods (Name req) podsToBeCleanedUp true else mret tt);;
  on_maps (for_each (fun p =>
      modify (set_podIdMap (deletePolicyEndpointFromPodIdentifierMap (pod_identifier p) (Name req))))
    podsToBeCleanedUp).

(** Each annotation value is consumed at most once. *)
Definition observePolicyProgrammingLatency (pe : PolicyEndpoint) (programmingSucceeded : bool) :
  ST PolicyEndpointsReconciler unit :=
  match Annotations (pe_meta pe) with
  | None => mret tt
  | Some annotations =>
      let triggerTimeStr := default [] (annotations !! LastChangeTriggerTimeAnnotation) in
      if decide (triggerTimeStr = []) then mret tt else
      match time_Parse triggerTimeStr with
      | None => mret tt
      | Some triggerTime =>
          if triggerTime <=? trackerStartTime then mret tt else
          let peKey := mkNamespacedName (meta_Name (pe_meta pe)) (meta_Namespace (pe_meta pe)) in
          r ← get;
          if decide (lastObservedTriggerTimes r !! peKey = Some triggerTimeStr) then mret tt else
          modify (set_lastObserved (insert peKey triggerTimeStr));;
          if negb programmingSucceeded then mret tt else
          let latency := now - triggerTime in
          if latency <? 0 then mret tt else modify (observe_latency latency)
      end
  end.

(** One turn of the programming loop; a programming failure is recorded, not returned. *)
Definition reconcile_podIdentifier (policyEndpoint : PolicyEndpoint) (tPods : list Pod)
  (programmingSucceeded : bool) (podIdentifier : gostring) : M bool :=
  r ← on_maps get;
  d ← lift (deriveIngressAndEgressFirewallRules r podIdentifier (meta_Namespace (pe_meta policyEndpoint))
          (meta_Name (pe_meta policyEndpoint)) false);
  err ← attempt (on_bpf (configureeBPFProbes podIdentifier tPods
       (withCatchAll (ingressRules d) (isIngressIsolated d))
       (withCatchAll (egressRules d) (isEgressIsolated d))));
  mret (match err_of err with Some _ => false | None => programmingSucceeded end).

Definition reconcilePolicyEndpoint (policyEndpoint : PolicyEndpoint) : M unit :=
  let parentNP := ref_Name (PolicyRef (pe_Spec policyEndpoint)) in
  let resourceNamespace := meta_Namespace (pe_meta policyEndpoint) in
  let resourceName := meta_Name (pe_meta policyEndpoint) in
  t ← on_maps (deriveTargetPodsForParentNP parentNP resourceNamespace resourceName);
  let '(tPods, ids, podsToBeCleanedUp) := t in
  updatePolicyEnforcementStatusForPods resourceName podsToBeCleanedUp false;;
  programmingSucceeded ← fold_each (reconcile_podIdentifier policyEndpoint tPods)
                       (go_range (go "podIdentifiers") (elements ids)) true;
  on_maps (observePolicyProgrammingLatency policyEndpoint programmingSucceeded).

Definition reconcile (req : NamespacedName) : M unit :=
  match k8s_Get k8sClient req with
  | NotFound => cleanUpPolicyEndpoint req
  | GetErr e => fail e
  | Found policyEndpoint =>
      match DeletionTimestamp (pe_meta policyEndpoint) with
      | Some _ => cleanUpPolicyEndpoint req
      | None => reconcilePolicyEndpoint policyEndpoint
      end
  end.

(** What controller-runtime calls: the result is empty, the error makes it retry. *)
Definition Reconcile (req : NamespacedName) : M unit :=
  r ← attempt (reconcile req); match err_of r with Some e => fail e | None => mret tt end.

(** ** Called by the RPC server *)

(** A derivation error is logged and swallowed: the rules are then nil. *)
Definition DeriveFireWallRulesPerPodIdentifier (r : PolicyEndpointsReconciler)
  (podIdentifier podNamespace : gostring) : outcome (list EbpfFirewallRules * list EbpfFirewallRules) :=
  match deriveIngressAndEgressFirewallRules r podIdentifier podNamespace [] false with
  | Ret d => Ret (withCatchAll (ingressRules d) (isIngressIsolated d),
              withCatchAll (egressRules d) (isEgressIsolated d))
  | Err _ => Ret ([], [])
  | Panic w => Panic w
  end.

Definition ArePoliciesAvailableInLocalCache (r : PolicyEndpointsReconciler) (podIdentifier : gostring) : bool :=
  match podIdentifierToPolicyEndpointMap r !! podIdentifier with
  | Some policyEndpointList => bool_decide (0 < length policyEndpointList)%nat
  | None => false
  end.
End reconciler.
