(* ===== verification/PolicyControllerFacts.v ===== *)
(** Properties of the PolicyEndpoint reconciler: which rules a pod identifier gets, what its
    maps record, and, against the promises of [BpfInterface], what is programmed. *)
From S2P Require Import Prelude NetIP ApiTypes Utils FwRules Datapath Effects PolicyUtils BpfInterface PolicyController.

(** * The rules of a pod identifier *)

Definition found_endpoints (k : K8sClient) (ns : gostring) (names : list gostring) : list PolicyEndpoint :=
  omap (fun n => match k8s_Get k (mkNamespacedName n ns) with Found pe => Some pe | _ => None end) names.

(** The endpoints that count: all of them, or those of other policies in the delete flow. *)
Definition considered (isDeleteFlow : bool) (resourceName : gostring) (names : list gostring) : list gostring :=
  if isDeleteFlow then filter (fun n => GetParentNPNameFromPEName n <> GetParentNPNameFromPEName resourceName) names
  else names.

Definition isolates (dir : gostring) (pe : PolicyEndpoint) : bool := bool_decide (dir ∈ PodIsolation (pe_Spec pe)).

Lemma isolation_fold (l : list gostring) nI nE a b :
  foldl (fun '(i, e) value => (i || (bool_decide (value = PolicyTypeIngress) && (nI =? 0)%nat),
                               e || (bool_decide (value = PolicyTypeEgress) && (nE =? 0)%nat))) (a, b) l
  = (a || (bool_decide (PolicyTypeIngress ∈ l) && (nI =? 0)%nat),
     b || (bool_decide (PolicyTypeEgress ∈ l) && (nE =? 0)%nat)).
Proof.
  revert a b. induction l as [|v l IH]; intros a b; cbn [foldl].
  - rewrite !bool_decide_eq_false_2 by apply not_elem_of_nil. cbn. by rewrite !orb_false_r.
  - rewrite IH. f_equal; rewrite <-orb_assoc; f_equal; rewrite <-andb_orb_distrib_l; f_equal;
      repeat case_bool_decide; set_solver.
Qed.

Lemma deriveDefaultPodIsolation_spec pe nI nE :
  deriveDefaultPodIsolation pe nI nE =
  (isolates PolicyTypeIngress pe && (nI =? 0)%nat, isolates PolicyTypeEgress pe && (nE =? 0)%nat).
Proof. unfold deriveDefaultPodIsolation. by rewrite isolation_fold. Qed.

Lemma length_app_nil {A} (a b : list A) : ((length (a ++ b) =? 0)%nat = true <-> a = [] /\ b = []).
Proof. rewrite Nat.eqb_eq, length_app. destruct a, b; cbn; naive_solver lia. Qed.

(** The final flag of a direction. *)
Lemma isolated_flag dir (rules : list EbpfFirewallRules) (flag : bool) (pes : list PolicyEndpoint) :
  (rules = [] -> flag = existsb (isolates dir) pes) ->
  (if decide (0 < length rules)%nat then false else flag) = true <->
  rules = [] /\ exists pe, pe ∈ pes /\ dir ∈ PodIsolation (pe_Spec pe).
Proof.
  intros Hf. destruct rules as [|x rules]; cbn; [|rewrite decide_True by lia; naive_solver].
  rewrite decide_False by lia. rewrite (Hf eq_refl), existsb_exists.
  setoid_rewrite <-list_elem_of_In. unfold isolates. setoid_rewrite bool_decide_eq_true. naive_solver.
Qed.

Section derive.
Context (k : K8sClient) (ns name : gostring) (del : bool).

Lemma skip_spec n :
  (del = true -> exists p q, GetParentNPNameFromPEName name = Ret p /\ GetParentNPNameFromPEName n = Ret q) ->
  skipInDeleteFlow del name n = Ret (negb (bool_decide (n ∈ considered del name [n]))).
Proof.
  unfold skipInDeleteFlow, considered. destruct del.
  - intros (p & q & Hp & Hq); [done|]. rewrite filter_cons, filter_nil, Hp, Hq. unfold_outcome. f_equal.
    repeat case_decide; repeat case_bool_decide; set_solver.
  - intros _. f_equal. rewrite bool_decide_eq_true_2 by set_solver. done.
Qed.

Lemma considered_cons n names :
  considered del name (n :: names) = considered del name [n] ++ considered del name names.
Proof. unfold considered. destruct del; [|done]. by rewrite <-filter_app. Qed.

Lemma considered_single n :
  (n ∈ considered del name [n] /\ considered del name [n] = [n]) \/
  ((n ∉ considered del name [n]) /\ considered del name [n] = []).
Proof. unfold considered. destruct del; [|set_solver]. rewrite filter_cons. case_decide; cbn; set_solver. Qed.

Lemma found_app a b : found_endpoints k ns (a ++ b) = found_endpoints k ns a ++ found_endpoints k ns b.
Proof. apply omap_app. Qed.

(** The loop appends the rules of the endpoints that were found; as long as a direction has no
    rule, its flag records whether one of them isolates it. *)
Lemma deriveStep_loop names acc :
  (del = true -> forall n, n ∈ name :: names -> exists p, GetParentNPNameFromPEName n = Ret p) ->
  (forall n e, n ∈ considered del name names -> k8s_Get k (mkNamespacedName n ns) <> GetErr e) ->
  let pes := found_endpoints k ns (considered del name names) in
  exists acc', for_range (deriveStep k ns name del) names acc = Ret acc' /\
  ingressRules acc' = ingressRules acc ++ mjoin (peIngressRules <$> pes) /\
  egressRules acc' = egressRules acc ++ mjoin (peEgressRules <$> pes) /\
  (ingressRules acc' = [] -> isIngressIsolated acc' = isIngressIsolated acc || existsb (isolates PolicyTypeIngress) pes) /\
  (egressRules acc' = [] -> isEgressIsolated acc' = isEgressIsolated acc || existsb (isolates PolicyTypeEgress) pes).
Proof.
  revert acc. induction names as [|n names IH]; intros acc Hdash Hget; cbn [for_range].
  { assert (considered del name [] = []) as -> by (unfold considered; by destruct del).
    exists acc. cbn. rewrite !app_nil_r, !orb_false_r. auto. }
  rewrite considered_cons in *. rewrite found_app.
  assert (skipInDeleteFlow del name n = Ret (negb (bool_decide (n ∈ considered del name [n])))) as Hskip.
  { apply skip_spec. intros Hd. destruct (Hdash Hd name) as [p Hp], (Hdash Hd n) as [q Hq]; [set_solver..|eauto]. }
  replace (deriveStep k ns name del acc n) with
    (skip ← skipInDeleteFlow del name n;
    if (skip : bool) then Ret acc else
    match k8s_Get k (mkNamespacedName n ns) with
    | NotFound => Ret acc
    | GetErr e => Err e
    | Found pe => deriveFound acc pe
    end) by done.
  rewrite Hskip. unfold_outcome.
  destruct (considered_single n) as [[Hin Heq]|[Hin Heq]];
    [rewrite bool_decide_eq_true_2 by done|rewrite bool_decide_eq_false_2 by done]; cbn [negb]; rewrite Heq in *.
  2:{ apply IH; [intros Hd m Hm; apply Hdash; set_solver|set_solver]. }
  assert (found_endpoints k ns [n] = match k8s_Get k (mkNamespacedName n ns) with Found pe => [pe] | _ => [] end)
    as -> by (unfold found_endpoints; cbn; by destruct (k8s_Get _ _)).
  destruct (k8s_Get k (mkNamespacedName n ns)) as [pe| |e] eqn:Eg.
  3:{ exfalso. eapply Hget; [|exact Eg]. set_solver. }
  2:{ apply IH; [intros Hd m Hm; apply Hdash; set_solver|set_solver]. }
  unfold deriveFound. rewrite deriveDefaultPodIsolation_spec.
  set (acc1 := mkDerivedRules _ _ _ _).
  destruct (IH acc1) as (acc' & Hrun & Hi & He & Hii & Hei);
    [intros Hd m Hm; apply Hdash; set_solver|set_solver|].
  exists acc'. split; [exact Hrun|]. cbn in Hi, He, Hii, Hei |- *. split; [|split; [|split]].
  - by rewrite Hi, <-app_assoc.
  - by rewrite He, <-app_assoc.
  - intros Hnil. rewrite (Hii Hnil). rewrite Hi in Hnil. apply app_eq_nil in Hnil as [Hnil _].
    rewrite Hnil. cbn. by rewrite andb_true_r, orb_assoc.
  - intros Hnil. rewrite (Hei Hnil). rewrite He in Hnil. apply app_eq_nil in Hnil as [Hnil _].
    rewrite Hnil. cbn. by rewrite andb_true_r, orb_assoc.
Qed.

(** The derivation as a whole, from the names recorded for the identifier. *)
Lemma derive_rules_gen r podId :
  let names := default [] (podIdentifierToPolicyEndpointMap r !! podId) in
  (del = true -> forall n, n ∈ name :: names -> exists p, GetParentNPNameFromPEName n = Ret p) ->
  (forall n e, n ∈ considered del name names -> k8s_Get k (mkNamespacedName n ns) <> GetErr e) ->
  let pes := found_endpoints k ns (considered del name names) in
  exists d, deriveIngressAndEgressFirewallRules k r podId ns name del = Ret d /\
  ingressRules d = mjoin (peIngressRules <$> pes) /\
  egressRules d = mjoin (peEgressRules <$> pes) /\
  (isIngressIsolated d = true <-> ingressRules d = [] /\ exists pe, pe ∈ pes /\ PolicyTypeIngress ∈ PodIsolation (pe_Spec pe)) /\
  (isEgressIsolated d = true <-> egressRules d = [] /\ exists pe, pe ∈ pes /\ PolicyTypeEgress ∈ PodIsolation (pe_Spec pe)).
Proof.
  intros names Hdash Hget pes. unfold deriveIngressAndEgressFirewallRules. fold names.
  destruct (deriveStep_loop names (mkDerivedRules [] [] false false) Hdash Hget) as (acc & Hrun & Hi & He & Hii & Hei).
  cbn in Hrun, Hi, He, Hii, Hei. rewrite Hrun. cbn. eexists. split; [done|]. cbn.
  split; [done|]. split; [done|]. split.
  - apply isolated_flag. exact Hii.
  - apply isolated_flag. exact Hei.
Qed.

(** A derivation that returns met no error of the API. *)
Lemma derive_found names acc acc' : del = false -> for_range (deriveStep k ns name del) names acc = Ret acc' ->
  forall n e, n ∈ names -> k8s_Get k (mkNamespacedName n ns) <> GetErr e.
Proof.
  intros Hdel. revert acc. induction names as [|m names IH]; intros acc Hrun n e Hn; [by apply not_elem_of_nil in Hn|].
  cbn [for_range] in Hrun. apply outcome_bind_Ret in Hrun as (acc1 & H1 & Hrun). apply elem_of_cons in Hn as [->|Hn]; [|by eapply IH].
  intros Hg. unfold deriveStep, skipInDeleteFlow in H1. rewrite Hdel in H1. cbn in H1. by rewrite Hg in H1.
Qed.

(** C26: The rules of a pod identifier.  If the API answers, the derivation returns; the rules
    of a direction are those of every recorded PolicyEndpoint that still exists (in the delete
    flow: of the other policies), in order, egress entries without a CIDR left out; and a
    direction counts as isolated exactly when it has no rule and one of these endpoints lists
    it in its PodIsolation. *)
Theorem derive_rules_spec r podId names
  (Hnames : podIdentifierToPolicyEndpointMap r !! podId = Some names)
  (Hdash : del = true -> forall n, n ∈ name :: names -> exists p, GetParentNPNameFromPEName n = Ret p)
  (Hget : forall n e, n ∈ considered del name names -> k8s_Get k (mkNamespacedName n ns) <> GetErr e) :
  let pes := found_endpoints k ns (considered del name names) in
  exists d, deriveIngressAndEgressFirewallRules k r podId ns name del = Ret d /\
  ingressRules d = mjoin (peIngressRules <$> pes) /\
  egressRules d = mjoin (peEgressRules <$> pes) /\
  (isIngressIsolated d = true <-> ingressRules d = [] /\ exists pe, pe ∈ pes /\ PolicyTypeIngress ∈ PodIsolation (pe_Spec pe)) /\
  (isEgressIsolated d = true <-> egressRules d = [] /\ exists pe, pe ∈ pes /\ PolicyTypeEgress ∈ PodIsolation (pe_Spec pe)).
Proof.
  pose proof (derive_rules_gen r podId) as H. rewrite Hnames in H. by apply H.
Qed.
End derive.

(** * What the maps record *)

Lemma delete_agrees id pe m :
  deletePolicyEndpointFromPodIdentifierMap id pe m = DeletePolicyEndpointFromPodIdentifierMap m id pe.
Proof.
  unfold deletePolicyEndpointFromPodIdentifierMap, DeletePolicyEndpointFromPodIdentifierMap.
  destruct (m !! id) as [l|]; [|done]. by destruct (filter (fun p => p <> pe) l).
Qed.

(** The two reconcilers' ways of adding agree on lists without repetition. *)
Lemma update_agrees id pes m :
  NoDup pes -> updatePodIdentifierToPEMap id pes m = UpdatePodIdentifierToPolicyEndpointMap m id pes.
Proof.
  intros Hnd. unfold updatePodIdentifierToPEMap, UpdatePodIdentifierToPolicyEndpointMap.
  destruct (m !! id) as [l|]; [|done]. f_equal.
  enough (forall acc, (forall x, x ∈ pes -> x ∈ acc <-> x ∈ l) ->
    foldl (fun a pe => if decide (pe ∈ l) then a else a ++ [pe]) acc pes =
    foldl (fun a pe => if decide (pe ∈ a) then a else a ++ [pe]) acc pes) as H by by apply H.
  induction Hnd as [|pe pes Hpe Hnd IH]; intros acc Hacc; [done|]. cbn [foldl].
  pose proof (Hacc pe ltac:(set_solver)) as Hp.
  destruct (decide (pe ∈ l)), (decide (pe ∈ acc)); [|naive_solver..|]; apply IH; intros x Hx.
  - apply Hacc. set_solver.
  - assert (x <> pe) by (intros ->; done). rewrite <-Hacc by set_solver. set_solver.
Qed.

Definition identifier_of (pod : PodEndpoint) : gostring := GetPodIdentifier (pe_Name pod) (pe_Namespace pod).

(** The pods of an endpoint that are not on the host network, and those of them on this node. *)
Definition selected_pods (pe : PolicyEndpoint) : list PodEndpoint :=
  filter (fun p => isHostNetwork p = false) (PodSelectorEndpoints (pe_Spec pe)).
Definition local_pods (nodeIP : gostring) (pe : PolicyEndpoint) : list PodEndpoint :=
  filter (fun p => isLocal nodeIP p = true) (selected_pods pe).

Section targets.
Context `{!MapOrder} (k : K8sClient) (nodeIP ns : gostring) (parents : list gostring).
Hypothesis Hparents : NoDup parents.

Lemma deriveTargetPods_spec_gen l pods ids m pods' ids' m' :
  foldl (deriveTargetPods_step nodeIP parents) (pods, ids, m) l = (pods', ids', m') ->
  let sel := filter (fun p => isHostNetwork p = false) l in
  let loc := filter (fun p => isLocal nodeIP p = true) sel in
  pods' = pods ++ (endpointPod <$> loc) /\
  (forall x, x ∈ ids' <-> x ∈ ids \/ x ∈ identifier_of <$> loc) /\
  (forall x pe, tracks m' x pe <-> tracks m x pe \/ (x ∈ identifier_of <$> sel /\ pe ∈ parents)) /\
  (parents <> [] -> name_map_ok m -> name_map_ok m').
Proof.
  revert pods ids m. induction l as [|p l IH]; intros pods ids m; cbn [foldl].
  { intros [= <- <- <-]. cbn. rewrite app_nil_r. set_solver. }
  cbn [deriveTargetPods_step]. rewrite filter_cons. destruct (isHostNetwork p).
  { rewrite decide_False by done. apply IH. }
  rewrite decide_True by done. rewrite filter_cons.
  assert (forall x pe, tracks (updatePodIdentifierToPEMap (identifier_of p) parents m) x pe <->
        tracks m x pe \/ (identifier_of p = x /\ pe ∈ parents)) as Hu.
  { intros. rewrite update_agrees by done. apply UpdatePodIdentifier_tracks. }
  assert (parents <> [] -> name_map_ok m -> name_map_ok (updatePodIdentifierToPEMap (identifier_of p) parents m)) as Hok.
  { intros. rewrite update_agrees by done. by apply name_map_ok_update. }
  destruct (isLocal nodeIP p); [rewrite decide_True by done|rewrite decide_False by done];
    intros Hrun; apply IH in Hrun as (-> & Hids & Htr & Hok'); cbn [fmap list_fmap]; split.
  - by rewrite <-app_assoc.
  - split; [|split; [|auto]].
    + intros x. rewrite Hids. fold (identifier_of p). set_solver.
    + intros x pe. rewrite Htr, Hu, elem_of_cons. naive_solver.
  - done.
  - split; [done|split; [|auto]]. intros x pe. rewrite Htr, Hu, elem_of_cons. naive_solver.
Qed.

(** The endpoints the loop gets pods from. *)
Abbreviation found := (found_endpoints k ns).

(** What the loop returns, from endpoints [pes], starting with [acc] in [r]. *)
Definition target_post (pes : list PolicyEndpoint) (acc : TargetPods) (r : PolicyEndpointsReconciler)
  (m' : gmap gostring (list gostring)) (t : TargetPods) : Prop :=
  let loc := mjoin (local_pods nodeIP <$> pes) in
  let sel := mjoin (selected_pods <$> pes) in
  targetPods t = targetPods acc ++ (endpointPod <$> loc) /\
  (forall x, x ∈ podIdentifiers t <-> x ∈ podIdentifiers acc \/ x ∈ identifier_of <$> loc) /\
  (forall x, x ∈ targetPodIdentifiers t <-> x ∈ targetPodIdentifiers acc \/ x ∈ identifier_of <$> loc) /\
  (forall x pe, tracks m' x pe <-> tracks (podIdentifierToPolicyEndpointMap r) x pe \/
               (x ∈ identifier_of <$> sel /\ pe ∈ parents)) /\
  (name_map_ok (podIdentifierToPolicyEndpointMap r) -> name_map_ok m').

Lemma target_post_step pe pes acc r pods ids tids m1 m' t one :
  one = [pe] \/ (one = [] /\ selected_pods pe = []) ->
  pods = endpointPod <$> local_pods nodeIP pe ->
  (forall x, x ∈ ids <-> x ∈ (∅ : gset gostring) \/ x ∈ identifier_of <$> local_pods nodeIP pe) ->
  (forall x, x ∈ tids <-> x ∈ ids) ->
  (forall x p, tracks m1 x p <-> tracks (podIdentifierToPolicyEndpointMap r) x p \/
              (x ∈ identifier_of <$> selected_pods pe /\ p ∈ parents)) ->
  (name_map_ok (podIdentifierToPolicyEndpointMap r) -> name_map_ok m1) ->
  target_post pes (mkTargetPods (targetPods acc ++ pods) (ids ∪ podIdentifiers acc) (targetPodIdentifiers acc ++ tids))
  (set_podIdMap (fun _ => m1) r) m' t ->
  target_post (one ++ pes) acc r m' t.
Proof.
  intros Hone Hpods Hids Htids Htr Hok (H1 & H2 & H3 & H4 & H5). cbn in H1, H2, H3, H4, H5. subst pods.
  assert (mjoin (local_pods nodeIP <$> one ++ pes) = local_pods nodeIP pe ++ mjoin (local_pods nodeIP <$> pes)) as Hloc.
  { destruct Hone as [->|[-> Hs]]; [done|]. by replace (local_pods nodeIP pe) with (@nil PodEndpoint) by (unfold local_pods; by rewrite Hs). }
  assert (mjoin (selected_pods <$> one ++ pes) = selected_pods pe ++ mjoin (selected_pods <$> pes)) as Hsel.
  { destruct Hone as [->|[-> Hs]]; [done|]. by rewrite Hs. }
  unfold target_post. rewrite Hloc, Hsel, !fmap_app. split; [by rewrite H1, app_assoc|].
  assert (forall x, x ∈ ids <-> x ∈ identifier_of <$> local_pods nodeIP pe) as Hids'
    by (intros x; rewrite Hids, elem_of_empty; naive_solver).
  split; [|split; [|split; [|auto]]].
  - intros x. rewrite H2, elem_of_union, elem_of_app, Hids'. naive_solver.
  - intros x. rewrite H3, !elem_of_app, Htids, Hids'. naive_solver.
  - intros x p. rewrite H4, Htr, elem_of_app. naive_solver.
Qed.

Lemma target_loop_spec names acc r :
  parents <> [] ->
  exists m' t, fold_each (deriveTargetPods_loop k nodeIP parents ns) names acc r = (set_podIdMap (fun _ => m') r, Ret t) /\
  target_post (found names) acc r m' t.
Proof.
  intros Hne. revert acc r. induction names as [|n names IH]; intros acc r; cbn [fold_each].
  { exists (podIdentifierToPolicyEndpointMap r), acc. split; [by destruct r|]. unfold target_post. cbn. rewrite app_nil_r. set_solver. }
  change (found (n :: names)) with (found ([n] ++ names)). rewrite found_app.
  assert (forall pe, found [n] = [pe] \/ (found [n] = [] /\ selected_pods pe = []) ->
    (forall pods ids m1, deriveTargetPods nodeIP pe parents (podIdentifierToPolicyEndpointMap r) = (pods, ids, m1) ->
    deriveTargetPods_loop k nodeIP parents ns acc n r =
    (set_podIdMap (fun _ => m1) r,
     Ret (mkTargetPods (targetPods acc ++ pods) (ids ∪ podIdentifiers acc)
            (targetPodIdentifiers acc ++ go_range n (elements ids))))) ->
    exists m' t, fold_each (deriveTargetPods_loop k nodeIP parents ns) (n :: names) acc r = (set_podIdMap (fun _ => m') r, Ret t) /\
    target_post (found [n] ++ found names) acc r m' t) as Hcase.
  { intros pe Hpe Hloop. cbn [fold_each]. unfold mbind at 1, ST_bind at 1.
    destruct (deriveTargetPods nodeIP pe parents (podIdentifierToPolicyEndpointMap r)) as [[pods ids] m1] eqn:E.
    rewrite (Hloop _ _ _ eq_refl). apply deriveTargetPods_spec_gen in E as (Hpods & Hids & Htr & Hok).
    destruct (IH (mkTargetPods (targetPods acc ++ pods) (ids ∪ podIdentifiers acc)
              (targetPodIdentifiers acc ++ go_range n (elements ids))) (set_podIdMap (fun _ => m1) r))
      as (m' & t & Hrun & Hpost).
    exists m', t. split; [exact Hrun|]. eapply target_post_step; eauto.
    intros x. by rewrite go_range_perm, elem_of_elements. }
  destruct (k8s_Get k (mkNamespacedName n ns)) as [pe| |e] eqn:Eg.
  - apply (Hcase pe); [left; unfold found_endpoints; cbn; by rewrite Eg|].
    intros pods ids m1 E. unfold deriveTargetPods_loop. rewrite Eg. unfold_st. by rewrite E.
  - assert (found [n] = []) as -> by (unfold found_endpoints; cbn; by rewrite Eg).
    assert (deriveTargetPods_loop k nodeIP parents ns acc n r = (r, Ret acc)) as Hl
      by (unfold deriveTargetPods_loop; by rewrite Eg).
    unfold mbind at 1, ST_bind at 1. rewrite Hl. apply IH.
  - apply (Hcase zeroPolicyEndpoint); [right; split; [unfold found_endpoints; cbn; by rewrite Eg|done]|].
    intros pods ids m1 E. unfold deriveTargetPods_loop. rewrite Eg. unfold_st. by rewrite E.
Qed.
End targets.

(** The last loop: record the pods under each endpoint, forget the stale identifiers. *)
Definition record_endpoint (ns : gostring) (tPods : list Pod) (stale : list gostring) (pe : gostring)
    (r : PolicyEndpointsReconciler) : PolicyEndpointsReconciler :=
  foldl (fun r id => set_podIdMap (deletePolicyEndpointFromPodIdentifierMap id pe) r)
    (set_selectorMap (store_or_delete (GetPolicyEndpointIdentifier pe ns) tPods) r) stale.

Lemma forget_loop pe stale r :
  let r' := foldl (fun r id => set_podIdMap (deletePolicyEndpointFromPodIdentifierMap id pe) r) r stale in
  policyEndpointSelectorMap r' = policyEndpointSelectorMap r /\
  networkPolicyToPodIdentifierMap r' = networkPolicyToPodIdentifierMap r /\
  (forall x p, tracks (podIdentifierToPolicyEndpointMap r') x p <->
     tracks (podIdentifierToPolicyEndpointMap r) x p /\ ~ (x ∈ stale /\ p = pe)) /\
  (name_map_ok (podIdentifierToPolicyEndpointMap r) -> name_map_ok (podIdentifierToPolicyEndpointMap r')).
Proof.
  revert r. induction stale as [|i stale IH]; intros r; cbn [foldl].
  { split; [done|]. split; [done|]. split; [|auto]. intros x p. set_solver. }
  destruct (IH (set_podIdMap (deletePolicyEndpointFromPodIdentifierMap i pe) r)) as (-> & -> & Htr & Hok).
  split; [done|]. split; [done|]. split.
  - intros x p. rewrite Htr. cbn [podIdentifierToPolicyEndpointMap set_podIdMap].
    rewrite delete_agrees, DeletePolicyEndpoint_tracks, elem_of_cons. naive_solver.
  - intros H. apply Hok. cbn. rewrite delete_agrees. by apply name_map_ok_delete.
Qed.

Lemma store_or_delete_lookup {A} key (l : list A) m key' :
  store_or_delete key l m !! key' =
  if decide (key = key') then (match l with [] => None | _ => Some l end) else m !! key'.
Proof.
  unfold store_or_delete. destruct l; case_decide; subst;
    rewrite ?lookup_delete_eq, ?lookup_delete_ne, ?lookup_insert_eq, ?lookup_insert_ne by done; done.
Qed.

Lemma record_loop ns tPods stale pes r :
  let r' := foldl (fun r pe => record_endpoint ns tPods stale pe r) r pes in
  (forall p, p ∈ pes -> policyEndpointSelectorMap r' !! GetPolicyEndpointIdentifier p ns =
                        match tPods with [] => None | _ => Some tPods end) /\
  (forall key, policyEndpointSelectorMap r' !! key = policyEndpointSelectorMap r !! key \/
     policyEndpointSelectorMap r' !! key = match tPods with [] => None | _ => Some tPods end) /\
  networkPolicyToPodIdentifierMap r' = networkPolicyToPodIdentifierMap r /\
  (forall x p, tracks (podIdentifierToPolicyEndpointMap r') x p <->
     tracks (podIdentifierToPolicyEndpointMap r) x p /\ ~ (x ∈ stale /\ p ∈ pes)) /\
  (name_map_ok (podIdentifierToPolicyEndpointMap r) -> name_map_ok (podIdentifierToPolicyEndpointMap r')).
Proof.
  revert r. induction pes as [|pe pes IH]; intros r; cbn [foldl].
  { split; [set_solver|]. split; [auto|]. split; [done|]. split; [set_solver|auto]. }
  destruct (IH (record_endpoint ns tPods stale pe r)) as (Hsel & Hkeys & Hnp & Htr & Hok).
  destruct (forget_loop pe stale (set_selectorMap (store_or_delete (GetPolicyEndpointIdentifier pe ns) tPods) r))
    as (Hsel1 & Hnp1 & Htr1 & Hok1). fold (record_endpoint ns tPods stale pe r) in *.
  cbn [set_selectorMap policyEndpointSelectorMap podIdentifierToPolicyEndpointMap networkPolicyToPodIdentifierMap] in *.
  split; [|split; [|split; [|split]]].
  - intros p [->|Hin]%elem_of_cons; [|by apply Hsel].
    destruct (Hkeys (GetPolicyEndpointIdentifier pe ns)) as [->| ->]; [|done].
    rewrite Hsel1, store_or_delete_lookup. by rewrite decide_True.
  - intros key. destruct (Hkeys key) as [->|?]; [|auto]. rewrite Hsel1, store_or_delete_lookup. case_decide; auto.
  - congruence.
  - intros x p. rewrite Htr, Htr1, elem_of_cons. naive_solver.
  - auto.
Qed.

(** The identifiers the policy selected before and selects no more. *)
Definition stale_ids (r : PolicyEndpointsReconciler) (parent : gostring) (ids : gset gostring) (x : gostring) : Prop :=
  exists l, networkPolicyToPodIdentifierMap r !! parent = Some l /\ x ∈ l /\ x ∉ ids.

Section target_pods.
Context `{!MapOrder} (k : K8sClient) (nodeIP : gostring).

Lemma record_for_each ns tPods stale pes r :
  for_each (fun pe =>
    modify (set_selectorMap (store_or_delete (GetPolicyEndpointIdentifier pe ns) tPods));;
    for_each (fun id => modify (set_podIdMap (deletePolicyEndpointFromPodIdentifierMap id pe))) stale) pes r
  = (foldl (fun r pe => record_endpoint ns tPods stale pe r) r pes, Ret tt).
Proof.
  apply for_each_total. intros pe r0. unfold mbind, ST_bind, modify at 1.
  by rewrite (for_each_total _ (fun id => set_podIdMap (deletePolicyEndpointFromPodIdentifierMap id pe))).
Qed.

(** The run, with the result of the first loop. *)
Lemma deriveTargetPodsForParentNP_run parentNP ns name parent r :
  let parents := derivePolicyEndpointsOfParentNP k parentNP ns in
  let key := GetPolicyEndpointIdentifier name ns in
  let current := default [] (policyEndpointSelectorMap r !! key) in
  GetParentNPNameFromPEName name = Ret parent -> NoDup parents ->
  exists r1 m' t stale,
  (policyEndpointSelectorMap r1 = policyEndpointSelectorMap r \/
    parents = [] /\ policyEndpointSelectorMap r1 = delete key (policyEndpointSelectorMap r)) /\
  podIdentifierToPolicyEndpointMap r1 = podIdentifierToPolicyEndpointMap r /\
  networkPolicyToPodIdentifierMap r1 = networkPolicyToPodIdentifierMap r /\
  target_post nodeIP parents (found_endpoints k ns parents) (mkTargetPods [] ∅ []) r1 m' t /\
  (forall x, x ∈ stale <-> stale_ids r parent (podIdentifiers t) x) /\
  deriveTargetPodsForParentNP k nodeIP parentNP ns name r =
  (set_npMap (store_or_delete parent (targetPodIdentifiers t))
     (foldl (fun r pe => record_endpoint ns (targetPods t) stale pe r) (set_podIdMap (fun _ => m') r1) parents),
    Ret (targetPods t, podIdentifiers t,
        getPodListToBeCleanedUp current (targetPods t) (podIdentifiers t))).
Proof.
  intros parents key current Hparent Hnd.
  set (r1 := if decide (parents = []) then set_selectorMap (delete key) r else r).
  assert (exists m' t, fold_each (deriveTargetPods_loop k nodeIP parents ns) parents (mkTargetPods [] ∅ []) r1
        = (set_podIdMap (fun _ => m') r1, Ret t) /\
        target_post nodeIP parents (found_endpoints k ns parents) (mkTargetPods [] ∅ []) r1 m' t)
    as (m' & t & Hloop & Hpost).
  { destruct (decide (parents = [])) as [->|Hne].
    - exists (podIdentifierToPolicyEndpointMap r1), (mkTargetPods [] ∅ []). split; [by destruct r1|].
      unfold target_post. cbn. set_solver.
    - by apply target_loop_spec. }
  set (stale := match networkPolicyToPodIdentifierMap r !! parent with
            | Some l => filter (fun id => id ∉ targetPodIdentifiers t) l | None => [] end).
  exists r1, m', t, stale. split; [unfold r1; case_decide; auto|].
  split; [unfold r1; by case_decide|]. split; [unfold r1; by case_decide|]. split; [exact Hpost|].
  split.
  { destruct Hpost as (_ & Hids & Htids & _). intros x. unfold stale_ids, stale.
    assert (x ∈ targetPodIdentifiers t <-> x ∈ podIdentifiers t) as Hx by (rewrite Hids, Htids; set_solver).
    destruct (networkPolicyToPodIdentifierMap r !! parent) as [l|]; [|set_solver].
    rewrite list_elem_of_filter. naive_solver. }
  unfold deriveTargetPodsForParentNP. fold parents key current. unfold mbind at 1, ST_bind at 1, get at 1.
  assert (forall (f : list Pod -> ST PolicyEndpointsReconciler (list Pod * gset gostring * list Pod)),
    ((if decide (parents = []) then modify (set_selectorMap (delete key));; mret current else mret []) ≫= f) r
    = f (if decide (parents = []) then current else []) r1) as Hif.
  { intros f. unfold r1. by case_decide. }
  rewrite Hif. unfold mbind at 1, ST_bind at 1. rewrite Hloop. unfold mbind at 1, ST_bind at 1, get at 1.
  unfold mbind at 1, ST_bind at 1, lift at 1, deriveStalePodIdentifiers. rewrite Hparent. cbn [mbind outcome_bind].
  unfold mbind at 1, ST_bind at 1.
  assert (networkPolicyToPodIdentifierMap (set_podIdMap (fun _ => m') r1) = networkPolicyToPodIdentifierMap r)
    as -> by (unfold r1; by case_decide). fold stale.
  rewrite record_for_each. unfold mbind, ST_bind, lift, modify, mret, ST_ret. f_equal. f_equal. f_equal.
  change (default [] (policyEndpointSelectorMap r !! key)) with current.
  destruct current as [|p ps]; cbn [length]; repeat case_decide; done || lia.
Qed.

Lemma np_target_pods_gen parentNP ns name parent r
  (Hparent : GetParentNPNameFromPEName name = Ret parent)
  (Hunique : NoDup (derivePolicyEndpointsOfParentNP k parentNP ns)) :
  let parents := derivePolicyEndpointsOfParentNP k parentNP ns in
  let pes := found_endpoints k ns parents in
  let current := default [] (policyEndpointSelectorMap r !! GetPolicyEndpointIdentifier name ns) in
  exists r' pods ids cleanup,
  deriveTargetPodsForParentNP k nodeIP parentNP ns name r = (r', Ret (pods, ids, cleanup)) /\
  pods = endpointPod <$> mjoin (local_pods nodeIP <$> pes) /\
  (forall x, x ∈ ids <-> x ∈ pod_identifier <$> pods) /\
  (forall p, p ∈ cleanup <-> p ∈ current /\ (pod_nn p ∉ pod_nn <$> pods) /\ (pod_identifier p ∉ ids)) /\
  (forall x p, tracks (podIdentifierToPolicyEndpointMap r') x p <->
    (tracks (podIdentifierToPolicyEndpointMap r) x p \/
      (x ∈ identifier_of <$> mjoin (selected_pods <$> pes) /\ p ∈ parents)) /\
    ~ (stale_ids r parent ids x /\ p ∈ parents)) /\
  (forall p, p ∈ parents -> policyEndpointSelectorMap r' !! GetPolicyEndpointIdentifier p ns =
                          match pods with [] => None | _ => Some pods end) /\
  (forall x, (exists l, networkPolicyToPodIdentifierMap r' !! parent = Some l /\ x ∈ l) <-> x ∈ ids).
Proof.
  intros parents pes current.
  destruct (deriveTargetPodsForParentNP_run parentNP ns name parent r Hparent Hunique)
    as (r1 & m' & t & stale & Hsel & Hpid & Hnp & (Hpods & Hids & Htids & Htr & _) & Hstale & Hrun).
  fold parents pes in Htr, Hids, Hpods, Htids, Hrun. cbn in Hpods.
  destruct (record_loop ns (targetPods t) stale parents (set_podIdMap (fun _ => m') r1)) as (Hs1 & _ & Hn1 & Ht1 & _).
  assert (pod_identifier <$> targetPods t = identifier_of <$> mjoin (local_pods nodeIP <$> pes)) as Hpi
    by (rewrite Hpods, <-list_fmap_compose; done).
  eexists _, _, _, _. split; [exact Hrun|]. split; [done|].
  split; [intros x; rewrite Hids, Hpi; set_solver|].
  split; [intros p; unfold getPodListToBeCleanedUp; rewrite list_elem_of_filter; naive_solver|].
  cbn [set_npMap podIdentifierToPolicyEndpointMap policyEndpointSelectorMap networkPolicyToPodIdentifierMap].
  split; [|split].
  - intros x p. rewrite Ht1. cbn [set_podIdMap podIdentifierToPolicyEndpointMap].
    rewrite Htr, Hpid, Hstale. done.
  - exact Hs1.
  - intros x. rewrite store_or_delete_lookup, decide_True by done.
    assert (x ∈ targetPodIdentifiers t <-> x ∈ podIdentifiers t) as Hx by (rewrite Hids, Htids; set_solver).
    destruct (targetPodIdentifiers t); [|naive_solver]. rewrite <-Hx. set_solver.
Qed.

(** C24: Which pods a policy selects on this node, and what is recorded.  Deriving the target
    pods of a policy returns exactly the pods on this node, not on the host network, that its
    existing PolicyEndpoints list, with their identifiers, and the previously recorded pods
    that are neither selected any more nor of a selected identifier.  Afterwards every
    identifier selected anywhere in the cluster is recorded with all the policy's endpoints,
    except the identifiers that this node's pods no longer have, which lose them; other
    records are unchanged; and every endpoint of the policy is recorded with the target
    pods. *)
Theorem np_target_pods_spec parentNP ns name parent r
  (Hparent : GetParentNPNameFromPEName name = Ret parent)
  (Hunique : NoDup (derivePolicyEndpointsOfParentNP k parentNP ns)) :
  let parents := derivePolicyEndpointsOfParentNP k parentNP ns in
  let pes := found_endpoints k ns parents in
  let current := default [] (policyEndpointSelectorMap r !! GetPolicyEndpointIdentifier name ns) in
  exists r' pods ids cleanup,
  deriveTargetPodsForParentNP k nodeIP parentNP ns name r = (r', Ret (pods, ids, cleanup)) /\
  pods = endpointPod <$> mjoin (local_pods nodeIP <$> pes) /\
  (forall x, x ∈ ids <-> x ∈ pod_identifier <$> pods) /\
  (forall p, p ∈ cleanup <-> p ∈ current /\ (pod_nn p ∉ pod_nn <$> pods) /\ (pod_identifier p ∉ ids)) /\
  (forall x p, tracks (podIdentifierToPolicyEndpointMap r') x p <->
    (tracks (podIdentifierToPolicyEndpointMap r) x p \/
      (x ∈ identifier_of <$> mjoin (selected_pods <$> pes) /\ p ∈ parents)) /\
    ~ (stale_ids r parent ids x /\ p ∈ parents)) /\
  (forall p, p ∈ parents -> policyEndpointSelectorMap r' !! GetPolicyEndpointIdentifier p ns =
                          match pods with [] => None | _ => Some pods end) /\
  (forall x, (exists l, networkPolicyToPodIdentifierMap r' !! parent = Some l /\ x ∈ l) <-> x ∈ ids).
Proof. exact (np_target_pods_gen parentNP ns name parent r Hparent Hunique). Qed.
End target_pods.

(** * The maps stay well formed *)

Definition no_empty {A} (m : gmap gostring (list A)) : Prop := map_Forall (fun _ l => l <> []) m.

Definition reconciler_ok (r : PolicyEndpointsReconciler) : Prop :=
  name_map_ok (podIdentifierToPolicyEndpointMap r) /\
  no_empty (policyEndpointSelectorMap r) /\ no_empty (networkPolicyToPodIdentifierMap r).

Lemma no_empty_store {A} key (l : list A) m : no_empty m -> no_empty (store_or_delete key l m).
Proof. intros Hm. unfold store_or_delete. destruct l; [by apply map_Forall_delete|by apply map_Forall_insert_2]. Qed.

Section invariant.
Context {B : Type} `{!BpfClient B, !MapOrder} (k : K8sClient) (nodeIP : gostring) (v6 : bool).
Context (time_Parse : gostring -> option Z) (start now : Z).
Hypothesis Hunique : forall parentNP ns, NoDup (derivePolicyEndpointsOfParentNP k parentNP ns).

Lemma ok_forget id pe : preserves reconciler_ok (modify (set_podIdMap (deletePolicyEndpointFromPodIdentifierMap id pe))).
Proof.
  apply preserves_modify. intros r (Hn & Hs & Hp). split; [|done].
  cbn. rewrite delete_agrees. by apply name_map_ok_delete.
Qed.
Lemma ok_selector_store key l : preserves reconciler_ok (modify (set_selectorMap (store_or_delete key l))).
Proof. apply preserves_modify. intros r (Hn & Hs & Hp). split; [done|]. split; [by apply no_empty_store|done]. Qed.
Lemma ok_selector_delete key : preserves reconciler_ok (modify (set_selectorMap (delete key))).
Proof. apply preserves_modify. intros r (Hn & Hs & Hp). split; [done|]. split; [by apply map_Forall_delete|done]. Qed.
Lemma ok_np_store key l : preserves reconciler_ok (modify (set_npMap (store_or_delete key l))).
Proof. apply preserves_modify. intros r (Hn & Hs & Hp). split; [done|]. split; [done|by apply no_empty_store]. Qed.
Lemma ok_last f : preserves reconciler_ok (modify (set_lastObserved f)).
Proof. by apply preserves_modify. Qed.
Lemma ok_observe l : preserves reconciler_ok (modify (observe_latency l)).
Proof. by apply preserves_modify. Qed.
Lemma ok_get : preserves reconciler_ok get.
Proof. intros r. done. Qed.
Hint Resolve ok_forget ok_selector_store ok_selector_delete ok_np_store ok_last ok_observe ok_get : agent.

Lemma ok_target_loop parents ns acc :
  NoDup parents -> preserves reconciler_ok (fold_each (deriveTargetPods_loop k nodeIP parents ns) parents acc).
Proof.
  intros Hnd r (Hn & Hs & Hp). destruct (decide (parents = [])) as [->|Hne]; [done|].
  destruct (target_loop_spec k nodeIP ns parents Hnd parents acc r Hne) as (m' & t & -> & Hpost).
  destruct Hpost as (_ & _ & _ & _ & Hok). split; [by apply Hok|done].
Qed.

Hint Resolve ok_target_loop : agent.

Lemma ok_targets parentNP ns name : preserves reconciler_ok (deriveTargetPodsForParentNP k nodeIP parentNP ns name).
Proof. unfold deriveTargetPodsForParentNP. preserve. Qed.

Lemma ok_latency pe ok : preserves reconciler_ok (observePolicyProgrammingLatency time_Parse start now pe ok).
Proof. unfold observePolicyProgrammingLatency. preserve. Qed.

Definition state_ok (s : PolicyEndpointsReconciler * B) : Prop := reconciler_ok (fst s).

Lemma ok_on_maps {A} (m : ST PolicyEndpointsReconciler A) :
  preserves reconciler_ok m -> preserves state_ok (on_maps m).
Proof. intros Hm [r b] Hr. unfold on_maps, zoom, state_ok. cbn. specialize (Hm r Hr). by destruct (m r). Qed.
Lemma ok_on_bpf {A} (m : ST B A) : preserves state_ok (on_bpf m).
Proof. apply preserves_zoom. done. Qed.
Hint Resolve ok_on_maps ok_on_bpf ok_targets ok_latency : agent.

Lemma ok_cleanupPod p pe del : preserves state_ok (cleanupPod k v6 p pe del).
Proof. unfold cleanupPod. preserve. Qed.
Hint Resolve ok_cleanupPod : agent.
Lemma ok_update_status pe pods del : preserves state_ok (updatePolicyEnforcementStatusForPods k v6 pe pods del).
Proof. unfold updatePolicyEnforcementStatusForPods. preserve. Qed.
Hint Resolve ok_update_status : agent.

End invariant.

(** * What is programmed *)
Section programming.
Context {B : Type} `{!BpfClient B, !BpfClientSpec B, !MapOrder} (k : K8sClient) (nodeIP : gostring) (v6 : bool).

Lemma writes_only_updates podId ing egr state : writes_only podId (updateeBPFMaps podId ing egr state).
Proof. unfold updateeBPFMaps. repeat (apply writes_only_bind; [|intros ?]); apply writes_only_write; eauto 10. Qed.

Lemma writes_only_configure podId pods ing egr : writes_only podId (configureeBPFProbes podId pods ing egr).
Proof.
  unfold configureeBPFProbes. apply writes_only_bind; [|intros ?; apply writes_only_updates].
  apply writes_only_for_each. intros pod. case_decide; [|apply writes_only_ret].
  apply writes_only_bind; [apply writes_only_attach|]. intros ?. apply writes_only_ret.
Qed.

(** The three map updates, when all succeed. *)
Lemma updateeBPFMaps_programs podId ing egr state b b' :
  bc_inv b -> updateeBPFMaps podId ing egr state b = (b', Ret tt) ->
  programmed b' podId NamespacePolicy ing egr (u8 state).
Proof.
  unfold updateeBPFMaps, mbind, ST_bind. intros Hb Hrun.
  destruct (UpdateEbpfMaps podId ing egr b) as [b1 [[]|e|w]] eqn:E1; [|done..].
  destruct (UpdatePodStateEbpfMaps podId POD_STATE_MAP_KEY state true true b1) as [b2 [[]|e|w]] eqn:E2; [|done..].
  pose proof (write_frame (UpdateEbpfMaps podId ing egr) b podId ltac:(eauto 10) Hb) as H1. rewrite E1 in H1. destruct H1 as (Hi1 & He1 & Hh1 & _).
  pose proof (write_frame (UpdatePodStateEbpfMaps podId POD_STATE_MAP_KEY state true true) b1 podId ltac:(eauto 10) Hi1) as H2. rewrite E2 in H2. destruct H2 as (Hi2 & He2 & Hh2 & _).
  pose proof (write_frame (CreatePodStateEbpfEntryIfNotExists podId CLUSTER_POLICY_POD_STATE_MAP_KEY DEFAULT_ALLOW) b2 podId ltac:(eauto 10) Hi2) as H3. rewrite Hrun in H3. destruct H3 as (Hi3 & He3 & Hh3 & _).
  cbn in *.
  apply rules_law in E1 as (_ & Hr1 & _ & _); [|done].
  apply pod_state_law in E2 as (_ & Hp2 & Hr2); [|done].
  apply seed_law in Hrun as (_ & Hp3 & Hr3); [|done].
  intros d Hd. rewrite !Hp3, !Hp2. rewrite Hh3, Hh2, Hh1 in Hd. rewrite Hh2, Hh1, Hd.
  replace (by_dir true true d) with true by by destruct d. cbn.
  split; [done|]. split; [destruct (pod_states _ _ _ _); eauto|].
  destruct (Hr1 d Hd) as (m & Hm & Hsub). exists m. rewrite He3, He2, He1, Hr3, Hr2. done.
Qed.

Lemma cleanupPod_gen pod pe del (r : PolicyEndpointsReconciler) (b : B) s'
  (Hinv : bc_inv b)
  (Htracked : is_Some (podIdentifierToPolicyEndpointMap r !! pod_identifier pod))
  (Hrun : cleanupPod k v6 pod pe del (r, b) = (s', Ret tt)) :
  exists d, deriveIngressAndEgressFirewallRules k r (pod_identifier pod) (Namespace (pod_nn pod)) pe del = Ret d /\
  fst s' = r /\
  if noActivePolicies (ingressRules d) (isIngressIsolated d) && noActivePolicies (egressRules d) (isEgressIsolated d)
  then programmed (snd s') (pod_identifier pod) NamespacePolicy [] []
       (if IsStrictMode (GetNetworkPolicyMode b) then DEFAULT_DENY else DEFAULT_ALLOW)
  else programmed (snd s') (pod_identifier pod) NamespacePolicy
       (withCatchAll v6 (ingressRules d) (isIngressIsolated d))
       (withCatchAll v6 (egressRules d) (isEgressIsolated d)) POLICIES_APPLIED.
Proof.
  destruct Htracked as [names Hn]. unfold cleanupPod, on_maps, on_bpf, zoom, mbind, ST_bind, get, gets, lift in Hrun.
  cbn [fst snd] in Hrun. rewrite Hn in Hrun.
  destruct (deriveIngressAndEgressFirewallRules _ _ _ _ _ _) as [d|e|w] eqn:Ed; [|done..]. exists d. split; [done|].
  unfold withCatchAll. destruct (noActivePolicies (ingressRules d) (isIngressIsolated d)) eqn:Ei;
    destruct (noActivePolicies (egressRules d) (isEgressIsolated d)) eqn:Ee; cbn [andb] in *;
    cbn [snd fst] in Hrun; destruct (updateeBPFMaps _ _ _ _ b) as [b' r'] eqn:Eu;
    injection Hrun as <- ->; (split; [done|]); apply updateeBPFMaps_programs in Eu; [|done| |done| |done| |done].
  - destruct (ingressRules d); [|done]. destruct (egressRules d); [|done]. by case_match.
  - done.
  - done.
  - done.
Qed.

(** C25: What cleaning a pod up leaves in the kernel.  When [cleanupPod] succeeds for a pod
    whose identifier has recorded policies, its rule maps hold the rules derived from the
    policies that remain.  If none of them restricts either direction the pod is in the
    default state of the enforcing mode; otherwise it is in the policies-applied state, with
    an allow-all rule in a direction that no remaining policy restricts.  In each case the
    cluster-policy state is present too. *)
Theorem cleanupPod_programs pod pe del (r : PolicyEndpointsReconciler) (b : B) s'
  (Hinv : bc_inv b)
  (Htracked : is_Some (podIdentifierToPolicyEndpointMap r !! pod_identifier pod))
  (Hrun : cleanupPod k v6 pod pe del (r, b) = (s', Ret tt)) :
  exists d, deriveIngressAndEgressFirewallRules k r (pod_identifier pod) (Namespace (pod_nn pod)) pe del = Ret d /\
  fst s' = r /\
  if noActivePolicies (ingressRules d) (isIngressIsolated d) && noActivePolicies (egressRules d) (isEgressIsolated d)
  then programmed (snd s') (pod_identifier pod) NamespacePolicy [] []
       (if IsStrictMode (GetNetworkPolicyMode b) then DEFAULT_DENY else DEFAULT_ALLOW)
  else programmed (snd s') (pod_identifier pod) NamespacePolicy
       (withCatchAll v6 (ingressRules d) (isIngressIsolated d))
       (withCatchAll v6 (egressRules d) (isEgressIsolated d)) POLICIES_APPLIED.
Proof. exact (cleanupPod_gen pod pe del r b s' Hinv Htracked Hrun). Qed.

(** ** A whole reconcile *)
Context (time_Parse : gostring -> option Z) (start now : Z).

(** The maps are [r] and the client keeps its invariant. *)
Definition held (r : PolicyEndpointsReconciler) (E : PolicyKind -> list EbpfFirewallRules -> outcome (gmap gostring gostring))
  (s : PolicyEndpointsReconciler * B) : Prop := fst s = r /\ bc_inv (snd s) /\ bc_entries (snd s) = E.

Lemma held_on_bpf r E podId (m : ST B unit) : writes_only podId m -> preserves (held r E) (on_bpf m).
Proof.
  intros Hm [r0 b] (Hr & Hb & HE). destruct (Hm b Hb) as (Hi & He & _). unfold on_bpf, zoom. cbn in *.
  rewrite (surjective_pairing (m b)). cbn. split; [done|]. split; [done|]. by etrans.
Qed.
Lemma held_get r E : preserves (held r E) (on_maps get).
Proof. intros [r0 b] H0. done. Qed.
Lemma held_mode r E : preserves (held r E) (on_bpf (gets GetNetworkPolicyMode)).
Proof. intros [r0 b] H0. done. Qed.
Lemma held_updates r E podId ing egr st : preserves (held r E) (on_bpf (updateeBPFMaps podId ing egr st)).
Proof. eapply held_on_bpf, writes_only_updates. Qed.
Hint Resolve held_get held_mode held_updates : agent.

Lemma held_cleanupPod r E p pe del : preserves (held r E) (cleanupPod k v6 p pe del).
Proof. unfold cleanupPod. preserve. Qed.
Hint Resolve held_cleanupPod : agent.
Lemma held_update_status r E pe pods del : preserves (held r E) (updatePolicyEnforcementStatusForPods k v6 pe pods del).
Proof. unfold updatePolicyEnforcementStatusForPods. preserve. Qed.

(** The identifier has the rules derived for it from the maps [r]. *)
Definition enforced (pe : PolicyEndpoint) (r : PolicyEndpointsReconciler) (b : B) (id : gostring) : Prop :=
  exists d, deriveIngressAndEgressFirewallRules k r id (meta_Namespace (pe_meta pe)) (meta_Name (pe_meta pe)) false = Ret d /\
  programmed b id NamespacePolicy (withCatchAll v6 (ingressRules d) (isIngressIsolated d))
  (withCatchAll v6 (egressRules d) (isEgressIsolated d)) POLICIES_APPLIED.

Lemma configure_programs podId pods ing egr b b' :
  bc_inv b -> configureeBPFProbes podId pods ing egr b = (b', Ret tt) ->
  programmed b' podId NamespacePolicy ing egr POLICIES_APPLIED.
Proof.
  intros Hb Hrun. unfold configureeBPFProbes in Hrun. unfold mbind at 1, ST_bind at 1 in Hrun.
  destruct (for_each _ pods b) as [b1 [[]|e|w]] eqn:E1; [|done..].
  apply (updateeBPFMaps_programs podId ing egr POLICIES_APPLIED b1); [|done].
  assert (preserves bc_inv (for_each (fun pod =>
    if decide (pod_identifier pod = podId) then
    _ ← AttacheBPFProbes (pod_nn pod) podId INTERFACE_COUNT_UNKNOWN false; mret tt
    else mret tt) pods)) as Hp.
  { preserve. intros b0 Hb0. by apply attach_frame. }
  specialize (Hp b Hb). by rewrite E1 in Hp.
Qed.

Lemma reconcile_loop pe pods ids r b :
  bc_inv b ->
  wp (fold_each (reconcile_podIdentifier k v6 pe pods) ids true) (r, b)
  (fun s' res => match res with
               | Ret ok => fst s' = r /\ bc_inv (snd s') /\ (ok = true -> forall id, id ∈ ids -> enforced pe r (snd s') id)
               | _ => True
               end).
Proof.
  intros Hb.
  eapply wp_mono; [apply (wp_fold_each _ (fun d ok s => fst s = r /\ bc_inv (snd s) /\ (ok = true -> forall id, id ∈ d -> enforced pe r (snd s) id))
    (fun _ _ => True) ids []); [split; [done|]; split; [done|]; set_solver|]|by intros s' [ok|e|w] H'].
  intros d x ok [r0 b0] (Hr & Hb0 & Hen) _. cbn in Hr, Hb0, Hen. subst r0.
  unfold wp, reconcile_podIdentifier, on_maps, on_bpf, zoom, attempt, mbind, ST_bind, get, lift, mret, ST_ret. cbn [fst snd].
  destruct (deriveIngressAndEgressFirewallRules k r x _ _ false) as [dr|e|w] eqn:Ed; [|done..]. cbn [fst snd].
  pose proof (writes_only_configure x pods (withCatchAll v6 (ingressRules dr) (isIngressIsolated dr))
    (withCatchAll v6 (egressRules dr) (isEgressIsolated dr)) b0 Hb0) as (Hi & He & Hs).
  destruct (configureeBPFProbes _ _ _ _ b0) as [b1 [[]|e|w]] eqn:Ec; cbn [fst snd err_of] in *; [|done..].
  split; [done|]. split; [done|]. intros Hok id [Hid| ->%list_elem_of_singleton]%elem_of_app.
  - destruct (decide (id = x)) as [->|Hne].
    + exists dr. split; [done|]. exact (configure_programs x pods _ _ b0 b1 Hb0 Ec).
    + destruct (Hen Hok id Hid) as (d0 & Hd0 & Hp0). exists d0. split; [done|]. eapply programmed_frame; [done|by apply Hs|done].
  - exists dr. split; [done|]. exact (configure_programs x pods _ _ b0 b1 Hb0 Ec).
Qed.

Lemma latency_frame l parentNP ns name :
  preserves (fun r => policyProgrammingLatency r = l) (deriveTargetPodsForParentNP k nodeIP parentNP ns name).
Proof.
  assert (forall f, preserves (fun r => policyProgrammingLatency r = l) (modify (set_podIdMap f))) by (intros ? ? Hx; exact Hx).
  assert (forall f, preserves (fun r => policyProgrammingLatency r = l) (modify (set_selectorMap f))) by (intros ? ? Hx; exact Hx).
  assert (forall f, preserves (fun r => policyProgrammingLatency r = l) (modify (set_npMap f))) by (intros ? ? Hx; exact Hx).
  assert (preserves (fun r => policyProgrammingLatency r = l) get) by (intros ? Hx; exact Hx).
  unfold deriveTargetPodsForParentNP, deriveTargetPods_loop. preserve.
Qed.

Lemma latency_observed pe ok r r' :
  observePolicyProgrammingLatency time_Parse start now pe ok r = (r', Ret tt) ->
  podIdentifierToPolicyEndpointMap r' = podIdentifierToPolicyEndpointMap r /\
  (policyProgrammingLatency r' <> policyProgrammingLatency r -> ok = true).
Proof.
  unfold observePolicyProgrammingLatency, mbind, ST_bind, modify, get, mret, ST_ret.
  destruct ok; intros Hrun; repeat case_match; simplify_eq/=; auto.
Qed.

Lemma on_maps_bind {A C} (m : ST PolicyEndpointsReconciler A) (f : A -> ST (PolicyEndpointsReconciler * B) C) r (b : B) r1 a :
  m r = (r1, Ret a) -> (on_maps m ≫= f) (r, b) = f a (r1, b).
Proof. unfold mbind, ST_bind, on_maps, zoom. cbn. by intros ->. Qed.

Lemma reconcile_sample_gen pe parent (r : PolicyEndpointsReconciler) (b : B) r' b'
  (Hinv : bc_inv b)
  (Hparent : GetParentNPNameFromPEName (meta_Name (pe_meta pe)) = Ret parent)
  (Hunique : NoDup (derivePolicyEndpointsOfParentNP k (ref_Name (PolicyRef (pe_Spec pe))) (meta_Namespace (pe_meta pe))))
  (Hrun : reconcilePolicyEndpoint k nodeIP v6 time_Parse start now pe (r, b) = ((r', b'), Ret tt))
  (Hsample : policyProgrammingLatency r' <> policyProgrammingLatency r) :
  let ns := meta_Namespace (pe_meta pe) in
  let pes := found_endpoints k ns (derivePolicyEndpointsOfParentNP k (ref_Name (PolicyRef (pe_Spec pe))) ns) in
  forall id, id ∈ identifier_of <$> mjoin (local_pods nodeIP <$> pes) -> enforced pe r' b' id.
Proof.
  intros ns pes id Hid. unfold reconcilePolicyEndpoint in Hrun.
  destruct (np_target_pods_gen k nodeIP (ref_Name (PolicyRef (pe_Spec pe))) ns (meta_Name (pe_meta pe)) parent r Hparent Hunique)
    as (r1 & pods & ids & cleanup & Ht & Hpods & Hids & _).
  pose proof (latency_frame (policyProgrammingLatency r) (ref_Name (PolicyRef (pe_Spec pe))) ns (meta_Name (pe_meta pe)) r eq_refl) as Hl.
  rewrite Ht in Hl. cbn [fst] in Hl. cbv zeta in Hrun. fold ns in Hrun. rewrite (on_maps_bind _ _ _ _ _ _ Ht) in Hrun.
  unfold mbind at 1, ST_bind at 1 in Hrun.
  pose proof (held_update_status r1 (bc_entries b) (meta_Name (pe_meta pe)) cleanup false (r1, b)) as Hheld.
  destruct (updatePolicyEnforcementStatusForPods _ _ _ _ _ (r1, b)) as [[r2 b2] [[]|e|w]]; [|done..].
  destruct Hheld as (Hr2 & Hb2 & _); [done|]. cbn in Hr2, Hb2. subst r2.
  unfold mbind at 1, ST_bind at 1 in Hrun.
  pose proof (reconcile_loop pe pods (go_range (go "podIdentifiers") (elements ids)) r1 b2 Hb2) as Hloop. unfold wp in Hloop.
  destruct (fold_each _ _ _ (r1, b2)) as [[r3 b3] [ok|e|w]]; [|done..]. cbn in Hloop. destruct Hloop as (-> & Hb3 & Hen).
  unfold on_maps, zoom in Hrun. cbn [fst snd] in Hrun.
  destruct (observePolicyProgrammingLatency _ _ _ pe ok r1) as [r4 res] eqn:El. injection Hrun as <- <- ->.
  apply latency_observed in El as [Hpid Hok].
  destruct (Hen (Hok ltac:(congruence)) id) as (d & Hd & Hp).
  { rewrite go_range_perm, elem_of_elements. apply Hids. rewrite Hpods, <-list_fmap_compose. exact Hid. }
  exists d. split; [|done]. rewrite <-Hd. unfold deriveIngressAndEgressFirewallRules. by rewrite Hpid.
Qed.

(** C15: A programming-latency sample is only recorded for a change that is enforced.  If a
    reconcile of a PolicyEndpoint returns and records a sample, then every identifier of the
    node's pods that the policy selects has, on each hook with a program, the rules derived
    from all the policies recorded for it (with an allow-all rule in a direction none of them
    restricts), and is in the policies-applied state. *)
Theorem reconcile_sample_enforced pe parent (r : PolicyEndpointsReconciler) (b : B) r' b'
  (Hinv : bc_inv b)
  (Hparent : GetParentNPNameFromPEName (meta_Name (pe_meta pe)) = Ret parent)
  (Hunique : NoDup (derivePolicyEndpointsOfParentNP k (ref_Name (PolicyRef (pe_Spec pe))) (meta_Namespace (pe_meta pe))))
  (Hrun : reconcilePolicyEndpoint k nodeIP v6 time_Parse start now pe (r, b) = ((r', b'), Ret tt))
  (Hsample : policyProgrammingLatency r' <> policyProgrammingLatency r) :
  let ns := meta_Namespace (pe_meta pe) in
  let pes := found_endpoints k ns (derivePolicyEndpointsOfParentNP k (ref_Name (PolicyRef (pe_Spec pe))) ns) in
  forall id, id ∈ identifier_of <$> mjoin (local_pods nodeIP <$> pes) -> enforced pe r' b' id.
Proof. exact (reconcile_sample_gen pe parent r b r' b' Hinv Hparent Hunique Hrun Hsample). Qed.

(** ** An identifier no policy is recorded for *)

(** The maps are [r], and the kernel has what it had for the identifier. *)
Definition untouched (id : gostring) (r : PolicyEndpointsReconciler) (b : B) (s : PolicyEndpointsReconciler * B) : Prop :=
  fst s = r /\ bc_inv (snd s) /\ same_at id (bc_view b) (bc_view (snd s)).

Lemma untouched_on_bpf id r b podId {A} (m : ST B A) : podId <> id -> writes_only podId m -> preserves (untouched id r b) (on_bpf m).
Proof.
  intros Hne Hm [r0 b0] (Hr & Hb & Hs). destruct (Hm b0 Hb) as (Hi & _ & Ho). unfold on_bpf, zoom. cbn in *.
  rewrite (surjective_pairing (m b0)). cbn. split; [done|]. split; [done|]. eapply same_at_trans; [exact Hs|]. by apply Ho.
Qed.

Lemma untouched_cleanupPod id r b p pe del : podIdentifierToPolicyEndpointMap r !! id = None \/ pod_identifier p <> id ->
  preserves (untouched id r b) (cleanupPod k v6 p pe del).
Proof.
  intros Hid [r0 b0] Hu. pose proof Hu as (Hr & _). cbn in Hr. subst r0. unfold cleanupPod, mbind at 1, ST_bind at 1, on_maps, zoom, get. cbn [fst snd].
  destruct (podIdentifierToPolicyEndpointMap r !! pod_identifier p) as [names|] eqn:E; [|exact Hu].
  assert (pod_identifier p <> id) as Hne by (destruct Hid; congruence). revert Hu. generalize (r, b0).
  change (preserves (untouched id r b) (d ← lift (deriveIngressAndEgressFirewallRules k r (pod_identifier p) (Namespace (pod_nn p)) pe del);
    let ni := noActivePolicies (ingressRules d) (isIngressIsolated d) in
    let ne := noActivePolicies (egressRules d) (isEgressIsolated d) in
    if ni && ne then
      mode ← on_bpf (gets GetNetworkPolicyMode);
      on_bpf (updateeBPFMaps (pod_identifier p) (ingressRules d) (egressRules d) (if IsStrictMode mode then DEFAULT_DENY else DEFAULT_ALLOW))
    else on_bpf (updateeBPFMaps (pod_identifier p) (if ni then addCatchAllEntry v6 (ingressRules d) else ingressRules d)
      (if ne then addCatchAllEntry v6 (egressRules d) else egressRules d) POLICIES_APPLIED))).
  apply preserves_bind; [apply preserves_lift|]. intros d. cbv zeta. case_match.
  - apply preserves_bind; [apply (untouched_on_bpf _ _ _ (pod_identifier p)); [done|apply writes_only_gets]|]. intros mode.
    by apply (untouched_on_bpf _ _ _ (pod_identifier p)), writes_only_updates.
  - by apply (untouched_on_bpf _ _ _ (pod_identifier p)), writes_only_updates.
Qed.

Lemma untouched_status id r b pe pods del : podIdentifierToPolicyEndpointMap r !! id = None ->
  preserves (untouched id r b) (updatePolicyEnforcementStatusForPods k v6 pe pods del).
Proof.
  intros Hid. apply preserves_bind; [|intros err; apply preserves_return_error]. apply preserves_fold_each. intros err p.
  apply preserves_bind; [apply preserves_attempt, untouched_cleanupPod; by left|intros e; apply preserves_ret].
Qed.

Lemma untouched_loop id r b pe pods ids acc : id ∉ ids ->
  preserves (untouched id r b) (fold_each (reconcile_podIdentifier k v6 pe pods) ids acc).
Proof.
  revert acc. induction ids as [|x ids IH]; intros acc Hni; cbn [fold_each]; [apply preserves_ret|].
  apply not_elem_of_cons in Hni as [Hne Hni]. apply preserves_bind; [|intros acc'; by apply IH].
  unfold reconcile_podIdentifier. preserve; [by intros [r0 b0] H0|]. apply (untouched_on_bpf _ _ _ x); [done|]. apply writes_only_configure.
Qed.

(** C39: A pod that its last policy stops selecting stays as it was restricted.  Deriving the
    target pods forgets the pod's identifier before the pods to clean up are visited, and
    cleaning up a pod whose identifier is not recorded does nothing.  So for every reconcile
    of a PolicyEndpoint and every identifier that its policy selected on this node and
    selects no more, and that no other policy is recorded for: however the reconcile ends,
    the identifier has no policy recorded any more, and the kernel still has the pod state
    and the rules it had for the identifier, instead of the default state. *)
Theorem unselected_pod_untouched pe parent (r : PolicyEndpointsReconciler) (b : B) s' res id l
  (Hinv : bc_inv b) (Hok : reconciler_ok r)
  (Hparent : GetParentNPNameFromPEName (meta_Name (pe_meta pe)) = Ret parent)
  (Hunique : forall parentNP ns, NoDup (derivePolicyEndpointsOfParentNP k parentNP ns)) :
  let ns := meta_Namespace (pe_meta pe) in
  let parents := derivePolicyEndpointsOfParentNP k (ref_Name (PolicyRef (pe_Spec pe))) ns in
  networkPolicyToPodIdentifierMap r !! parent = Some l -> id ∈ l ->
  (id ∉ identifier_of <$> mjoin (local_pods nodeIP <$> found_endpoints k ns parents)) ->
  (forall p, tracks (podIdentifierToPolicyEndpointMap r) id p -> p ∈ parents) ->
  reconcilePolicyEndpoint k nodeIP v6 time_Parse start now pe (r, b) = (s', res) ->
  podIdentifierToPolicyEndpointMap (fst s') !! id = None /\ same_at id (bc_view b) (bc_view (snd s')).
Proof.
  intros ns parents Hl Hin Hnow Hlast Hrun. unfold reconcilePolicyEndpoint in Hrun.
  destruct (np_target_pods_gen k nodeIP (ref_Name (PolicyRef (pe_Spec pe))) ns (meta_Name (pe_meta pe)) parent r Hparent (Hunique _ _))
    as (r1 & pods & ids & cleanup & Ht & Hpods & Hids & _ & Htr & _).
  assert (id ∉ ids) as Hni.
  { rewrite Hids, Hpods, <-list_fmap_compose. exact Hnow. }
  assert (podIdentifierToPolicyEndpointMap r1 !! id = None) as Hnone.
  { pose proof (ok_targets k nodeIP Hunique (ref_Name (PolicyRef (pe_Spec pe))) ns (meta_Name (pe_meta pe)) r Hok) as [Hn _]. rewrite Ht in Hn. cbn [fst] in Hn.
    destruct (podIdentifierToPolicyEndpointMap r1 !! id) as [names|] eqn:E; [|done]. destruct (Hn id names E) as [Hne _].
    destruct names as [|p names]; [done|]. exfalso.
    assert (tracks (podIdentifierToPolicyEndpointMap r1) id p) as Htp by (eexists; split; [exact E|by left]).
    apply Htr in Htp as [Hp Hst]. apply Hst. split; [by exists l|]. destruct Hp as [Hp|[_ Hp]]; [by apply Hlast|done]. }
  cbv zeta in Hrun. fold ns in Hrun. rewrite (on_maps_bind _ _ _ _ _ _ Ht) in Hrun.
  assert (forall A (m : ST (PolicyEndpointsReconciler * B) A), preserves (untouched id r1 b) m -> untouched id r1 b (fst (m (r1, b)))) as Hstart.
  { intros A m Hm. apply Hm. split; [done|]. split; [done|]. by intros d. }
  assert (forall s, untouched id r1 b s -> podIdentifierToPolicyEndpointMap (fst s) !! id = None /\ same_at id (bc_view b) (bc_view (snd s))) as Hdone
    by (intros s (-> & _ & ?); done).
  pose proof (Hstart _ (updatePolicyEnforcementStatusForPods k v6 (meta_Name (pe_meta pe)) cleanup false)) as H1.
  unfold mbind at 1, ST_bind at 1 in Hrun.
  destruct (updatePolicyEnforcementStatusForPods _ _ _ _ _ (r1, b)) as [s1 r1res]. cbn [fst] in H1.
  specialize (H1 (untouched_status id r1 b _ _ _ Hnone)).
  destruct r1res as [[]|e|w]; [|injection Hrun as <- <-; by apply Hdone..].
  pose proof (untouched_loop id r1 b pe pods (go_range (go "podIdentifiers") (elements ids)) true
    ltac:(by rewrite go_range_perm, elem_of_elements) s1 H1) as H2.
  unfold mbind at 1, ST_bind at 1 in Hrun. destruct (fold_each _ _ _ s1) as [s2 r2res]. cbn [fst] in H2.
  destruct r2res as [ok|e|w]; [|injection Hrun as <- <-; by apply Hdone..].
  destruct H2 as (Hr2 & _ & Hs2). unfold on_maps, zoom in Hrun. rewrite Hr2 in Hrun.
  assert (forall m0, preserves (fun r0 => podIdentifierToPolicyEndpointMap r0 = m0) (observePolicyProgrammingLatency time_Parse start now pe ok)) as Hlat.
  { intros m0. unfold observePolicyProgrammingLatency. preserve; by (intros ? ? || apply preserves_modify). }
  specialize (Hlat _ r1 eq_refl). destruct (observePolicyProgrammingLatency _ _ _ pe ok r1) as [r3 res3]. injection Hrun as <- <-. cbn in *.
  split; [by rewrite Hlat|done].
Qed.

(** ** A policy whose endpoints cannot be listed *)

(** The mode of the client stays. *)
Lemma mode_updates podId ing egr state m :
  preserves (fun b => bc_inv b /\ GetNetworkPolicyMode b = m) (updateeBPFMaps podId ing egr state).
Proof.
  assert (forall b (f : ST B unit), (bc_inv b -> bc_inv (fst (f b)) /\ GetNetworkPolicyMode (fst (f b)) = GetNetworkPolicyMode b) ->
    bc_inv b /\ GetNetworkPolicyMode b = m -> bc_inv (fst (f b)) /\ GetNetworkPolicyMode (fst (f b)) = m) as Hf.
  { intros b f Hk [Hb Hm]. destruct (Hk Hb) as [? ->]. done. }
  unfold updateeBPFMaps. repeat (apply preserves_bind; [|intros []]); intros b; apply Hf; intros Hb.
  - split; [apply (write_frame (UpdateEbpfMaps podId ing egr) b podId); eauto 10|by apply (mode_law b podId ing egr 0 0 true true)].
  - split; [apply (write_frame (UpdatePodStateEbpfMaps podId POD_STATE_MAP_KEY state true true) b podId); eauto 10|by apply (mode_law b podId [] [])].
  - split; [apply (write_frame (CreatePodStateEbpfEntryIfNotExists podId CLUSTER_POLICY_POD_STATE_MAP_KEY DEFAULT_ALLOW) b podId); eauto 10|
      by apply (mode_law b podId [] [] _ _ true true)].
Qed.

Lemma mode_cleanupPod p pe del m :
  preserves (fun s : PolicyEndpointsReconciler * B => bc_inv (snd s) /\ GetNetworkPolicyMode (snd s) = m) (cleanupPod k v6 p pe del).
Proof.
  assert (forall A (f : ST B A), preserves (fun b => bc_inv b /\ GetNetworkPolicyMode b = m) f ->
    preserves (fun s : PolicyEndpointsReconciler * B => bc_inv (snd s) /\ GetNetworkPolicyMode (snd s) = m) (on_bpf f)) as Hz.
  { intros A f Hf [r0 b0] H0. unfold on_bpf, zoom. cbn in *. specialize (Hf b0 H0). by destruct (f b0). }
  unfold cleanupPod. preserve; try (apply Hz; apply mode_updates); by intros [r0 b0].
Qed.

(** In the delete flow of a policy, an identifier that has no other policy gets nothing. *)
Lemma derive_nothing r id ns name parent names :
  GetParentNPNameFromPEName name = Ret parent -> podIdentifierToPolicyEndpointMap r !! id = Some names ->
  (forall n, n ∈ names -> GetParentNPNameFromPEName n = Ret parent) ->
  deriveIngressAndEgressFirewallRules k r id ns name true = Ret (mkDerivedRules [] [] false false).
Proof.
  intros Hp Hn Hsame.
  assert (considered true name names = []) as Hc.
  { unfold considered. apply elem_of_nil_inv. intros n [Hne Hin]%list_elem_of_filter. apply Hne. by rewrite Hp, Hsame. }
  pose proof (derive_rules_gen k ns name true r id) as Hgen. rewrite Hn in Hgen. cbv zeta in Hgen. cbn [default] in Hgen.
  change (Datatypes.id names) with names in Hgen. rewrite Hc in Hgen. destruct Hgen as (d & Hd & Hi & He & Hii & Hei).
  - intros _ n [->|Hin]%elem_of_cons; eauto.
  - intros n e Hin. by apply not_elem_of_nil in Hin.
  - assert (forall (b0 : bool) (Q : Prop) dir, (b0 = true <-> Q /\ exists pe, pe ∈ [] /\ dir ∈ PodIsolation (pe_Spec pe)) -> b0 = false) as Hno.
    { intros [] Q dir Hb; [|done]. destruct (proj1 Hb eq_refl) as (_ & x & Hx & _). by apply not_elem_of_nil in Hx. }
    rewrite Hd. f_equal. apply Hno in Hii, Hei. destruct d as [ing egr ii ei]. cbn in *. by subst.
Qed.

Lemma cleanup_status_default name parent pods id names r b s' :
  bc_inv b -> GetParentNPNameFromPEName name = Ret parent -> podIdentifierToPolicyEndpointMap r !! id = Some names ->
  (forall n, n ∈ names -> GetParentNPNameFromPEName n = Ret parent) -> id ∈ pod_identifier <$> pods ->
  updatePolicyEnforcementStatusForPods k v6 name pods true (r, b) = (s', Ret tt) ->
  fst s' = r /\ programmed (snd s') id NamespacePolicy [] [] (default_state (GetNetworkPolicyMode b)).
Proof.
  intros Hb Hp Hn Hsame Hin Hrun. unfold updatePolicyEnforcementStatusForPods in Hrun.
  apply bind_returns in Hrun as (s1 & err & Hloop & Hret).
  pose proof (wp_fold_each (fun err p => e ← attempt (cleanupPod k v6 p name true); mret (errors_Join err (err_of e)))
    (fun d err s => held r (bc_entries b) s /\ GetNetworkPolicyMode (snd s) = GetNetworkPolicyMode b /\
      (err = None -> id ∈ pod_identifier <$> d -> programmed (snd s) id NamespacePolicy [] [] (default_state (GetNetworkPolicyMode b))))
    (fun _ _ => True) pods [] None (r, b)) as Hw.
  unfold wp in Hw. rewrite Hloop in Hw. cbn [fst snd app] in Hw. destruct Hw as (Hheld & _ & Hprog).
  - split; [done|]. split; [done|]. intros _ Hx. by apply not_elem_of_nil in Hx.
  - intros d x e0 [r0 b0] (Hh & Hm & Hpr) _. pose proof Hh as (Hr0 & Hb0 & He0). cbn in Hr0, Hb0, He0, Hm. subst r0.
    pose proof (held_cleanupPod r (bc_entries b) x name true (r, b0) Hh) as Hh1.
    pose proof (mode_cleanupPod x name true (GetNetworkPolicyMode b) (r, b0) (conj Hb0 Hm)) as [_ Hm1].
    pose proof (fun Hne => untouched_cleanupPod id r b0 x name true (or_intror Hne) (r, b0)
      (conj eq_refl (conj Hb0 (fun d => conj eq_refl (conj (fun _ => eq_refl) (fun _ => eq_refl)))))) as Hu.
    unfold mbind, ST_bind, attempt, mret, ST_ret. destruct (cleanupPod k v6 x name true (r, b0)) as [s2 r2] eqn:Ec. cbn [fst snd] in *.
    destruct r2 as [[]|e2|w]; cbn [fst snd]; [|split; [done|]; split; [done|]; intros Hnone; exfalso; by destruct e0|done].
    split; [done|]. split; [done|]. intros Hnone Hx.
    destruct (decide (pod_identifier x = id)) as [Heq|Hne].
    + apply cleanupPod_gen in Ec as (dr & Hd & _ & Hprog); [|done|rewrite Heq, Hn; done].
      rewrite Heq in Hd, Hprog. rewrite (derive_nothing r id _ name parent names Hp Hn Hsame) in Hd. injection Hd as <-. cbn in Hprog.
      unfold default_state. by rewrite <-Hm.
    + destruct (Hu Hne) as (_ & _ & Hsame'). eapply programmed_frame; [|exact Hsame'|].
      * destruct Hh1 as (_ & _ & ->). by rewrite He0.
      * apply Hpr; [by destruct e0|]. rewrite fmap_app in Hx. apply elem_of_app in Hx as [Hx|Hx]; [done|].
        cbn in Hx. apply list_elem_of_singleton in Hx. congruence.
  - destruct err as [e|]; [done|]. injection Hret as <-. split; [apply Hheld|]. by apply Hprog.
Qed.

(** A failing List reads as a policy without endpoints: every pod recorded for the endpoint is to
    be cleaned up, and nothing is forgotten. *)
Lemma unlisted_targets parentNP ns name parent r e :
  k8s_List k ns = Err e -> GetParentNPNameFromPEName name = Ret parent ->
  exists r1, deriveTargetPodsForParentNP k nodeIP parentNP ns name r =
    (r1, Ret ([], ∅, default [] (policyEndpointSelectorMap r !! GetPolicyEndpointIdentifier name ns))) /\
  podIdentifierToPolicyEndpointMap r1 = podIdentifierToPolicyEndpointMap r.
Proof.
  intros Hl Hp. unfold deriveTargetPodsForParentNP, derivePolicyEndpointsOfParentNP. rewrite Hl.
  unfold deriveStalePodIdentifiers. rewrite Hp. unfold mbind, ST_bind, get, modify, lift, mret, ST_ret, for_each. cbn [fold_each].
  rewrite decide_True by done. cbn. set (current := default [] _). eexists. split; [f_equal; f_equal; f_equal|done].
  assert (getPodListToBeCleanedUp current [] ∅ = current) as Hall; [|by case_decide].
  unfold getPodListToBeCleanedUp. clear. induction current as [|p l IH]; [done|]. rewrite filter_cons, decide_True; [by rewrite IH|].
  cbn. split; [apply not_elem_of_nil|set_solver].
Qed.

(** C40: In the namespaced controller a failing List takes the policy off its pods.  When a
    PolicyEndpoint is gone and listing the endpoints of its policy fails, the controller goes
    on as if the policy had none.  For every such reconcile that returns nil, whatever other
    endpoints of the policy the API still has: each pod recorded for the endpoint whose
    identifier has only endpoints of this policy is left without rules and in the default
    state of the enforcing mode, which in standard mode admits everything.  The cluster
    controller returns an error in this situation. *)
Theorem list_failure_unprotects req parent (r : PolicyEndpointsReconciler) (b : B) s' e p names
  (Hinv : bc_inv b) (Hgone : k8s_Get k req = NotFound) (Hlist : k8s_List k (Namespace req) = Err e)
  (Hparent : GetParentNPNameFromPEName (Name req) = Ret parent)
  (Hpod : p ∈ default [] (policyEndpointSelectorMap r !! GetPolicyEndpointIdentifier (Name req) (Namespace req)))
  (Hnames : podIdentifierToPolicyEndpointMap r !! pod_identifier p = Some names)
  (Hsame : forall n, n ∈ names -> GetParentNPNameFromPEName n = Ret parent)
  (Hrun : reconcile k nodeIP v6 time_Parse start now req (r, b) = (s', Ret tt)) :
  programmed (snd s') (pod_identifier p) NamespacePolicy [] [] (default_state (GetNetworkPolicyMode b)).
Proof.
  unfold reconcile in Hrun. rewrite Hgone in Hrun. unfold cleanUpPolicyEndpoint in Hrun. cbv zeta in Hrun.
  rewrite (on_maps_bind _ _ _ _ (set_lastObserved (delete req) r) tt) in Hrun by done.
  unfold lift at 1, mbind at 1, ST_bind at 1 in Hrun. rewrite Hparent in Hrun. cbv iota beta in Hrun.
  destruct (unlisted_targets parent (Namespace req) (Name req) parent (set_lastObserved (delete req) r) e Hlist Hparent) as (r1 & Ht & Hm1).
  rewrite (on_maps_bind _ _ _ _ _ _ Ht) in Hrun. cbv beta iota in Hrun.
  change (policyEndpointSelectorMap (set_lastObserved (delete req) r)) with (policyEndpointSelectorMap r) in Hrun.
  set (current := default [] (policyEndpointSelectorMap r !! _)) in *.
  erewrite on_maps_bind in Hrun by reflexivity. cbn [length] in Hrun. rewrite (decide_False (P := (0 < 0)%nat)) in Hrun by lia.
  apply bind_returns in Hrun as (s1 & [] & [= <-] & Hrun). apply bind_returns in Hrun as (s2 & [] & Hstat & Hrun).
  rewrite decide_True in Hstat by (destruct current; [by apply not_elem_of_nil in Hpod|cbn; lia]).
  eapply (cleanup_status_default (Name req) parent current (pod_identifier p) names) in Hstat as [Hr2 Hprog];
    [|done|done|cbn; by rewrite Hm1|done|apply list_elem_of_fmap; by exists p].
  unfold on_maps, zoom in Hrun. destruct (for_each _ current _) as [r3 res3]. injection Hrun as <- _. exact Hprog.
Qed.
End programming.
