(* ===== verification/Sha1.v ===== *)
(** [crypto/sha1] and [encoding/hex], as the host interface names need them. *)
From S2P Require Import Prelude.

Definition rotl32 (n : Z) (x : Z) : Z := u32 (Z.lor (Z.shiftl x n) (Z.shiftr x (32 - n))).
Definition be32 (z : Z) : gostring := rev (le32 z).
Definition of_be32 (bs : gostring) : Z := of_le32 (rev bs).

(** The message, a one bit, zeros, and the length in bits: a multiple of 64 bytes. *)
Definition sha1_pad (m : gostring) : gostring :=
  let n := length m in
  m ++ [x80] ++ replicate ((119 - n mod 64) mod 64)%nat x00 ++ rev (le_split 8 (8 * Z.of_nat n)).

Fixpoint words (k : nat) (bs : gostring) : list Z :=
  match k with O => [] | S k' => of_be32 (take 4 bs) :: words k' (drop 4 bs) end.

(** The message schedule, last word first. *)
Fixpoint schedule (k : nat) (w : list Z) : list Z :=
  match k with
  | O => w
  | S k' =>
      let at_ i := default 0 (w !! i) in
      schedule k' (rotl32 1 (Z.lxor (Z.lxor (at_ 2%nat) (at_ 7%nat)) (Z.lxor (at_ 13%nat) (at_ 15%nat))) :: w)
  end.

Definition sha1_round (st : Z * Z * Z * Z * Z) (tw : nat * Z) : Z * Z * Z * Z * Z :=
  let '(a, b, c, d, e) := st in
  let '(t, w) := tw in
  let '(f, k) :=
    if (t <? 20)%nat then (Z.lor (Z.land b c) (Z.land (Z.lxor b (2 ^ 32 - 1)) d), 0x5a827999)
    else if (t <? 40)%nat then (Z.lxor (Z.lxor b c) d, 0x6ed9eba1)
    else if (t <? 60)%nat then (Z.lor (Z.lor (Z.land b c) (Z.land b d)) (Z.land c d), 0x8f1bbcdc)
    else (Z.lxor (Z.lxor b c) d, 0xca62c1d6) in
  (u32 (rotl32 5 a + f + e + k + w), a, rotl32 30 b, c, d).

Definition sha1_block (h : Z * Z * Z * Z * Z) (block : gostring) : Z * Z * Z * Z * Z :=
  let w := rev (schedule 64 (rev (words 16 block))) in
  let '(a, b, c, d, e) := foldl sha1_round h (zip (seq 0 80) w) in
  let '(h0, h1, h2, h3, h4) := h in
  (u32 (h0 + a), u32 (h1 + b), u32 (h2 + c), u32 (h3 + d), u32 (h4 + e)).

Fixpoint sha1_blocks (n : nat) (h : Z * Z * Z * Z * Z) (bs : gostring) : Z * Z * Z * Z * Z :=
  match n with O => h | S n' => sha1_blocks n' (sha1_block h (take 64 bs)) (drop 64 bs) end.

Definition sha1_Sum (m : gostring) : gostring :=
  let p := sha1_pad m in
  let '(h0, h1, h2, h3, h4) :=
    sha1_blocks (length p / 64) (0x67452301, 0xefcdab89, 0x98badcfe, 0x10325476, 0xc3d2e1f0) p in
  be32 h0 ++ be32 h1 ++ be32 h2 ++ be32 h3 ++ be32 h4.

Definition hex_digit (z : Z) : byte := if z <? 10 then byte.of_Z (48 + z) else byte.of_Z (87 + z).
Definition hex_EncodeToString (bs : gostring) : gostring :=
  mjoin ((fun b => [hex_digit (byte.unsigned b / 16); hex_digit (byte.unsigned b mod 16)]) <$> bs).

(** The published test vectors. *)
Example sha1_abc : hex_EncodeToString (sha1_Sum (go "abc")) = go "a9993e364706816aba3e25717850c26c9cd0d89d".
Proof. vm_compute. reflexivity. Qed.
Example sha1_two_blocks :
  hex_EncodeToString (sha1_Sum (go "abcdbcdecdefdefgefghfghighijhijkijkljklmklmnlmnomnopnopq"))
  = go "84983e441c3bd26ebaae4aa1f95129e5e54670f1".
Proof. vm_compute. reflexivity. Qed.

Lemma length_be32 z : length (be32 z) = 4%nat.
Proof. unfold be32. by rewrite length_rev, length_le32. Qed.

Lemma length_sha1 m : length (sha1_Sum m) = 20%nat.
Proof.
  unfold sha1_Sum. destruct (sha1_blocks _ _ _) as [[[[a b] c] d] e].
  by rewrite !length_app, !length_be32.
Qed.

Lemma length_hex bs : length (hex_EncodeToString bs) = (2 * length bs)%nat.
Proof.
  induction bs as [|b bs IH]; [done|].
  change (length (hex_EncodeToString (b :: bs))) with (S (S (length (hex_EncodeToString bs)))).
  rewrite IH. cbn [length]. lia.
Qed.
