(* ===== verification/BpfClient.v ===== *)
(** [pkg/ebpf/bpf_client.go]: the client that loads the classifier programs of a pod
    identifier, attaches them to the pods' interfaces, and writes the rule and pod-state maps.

    The ingress and egress halves of the file differ only in names, so the paired tables
    ([ingressPodToProgMap]/[egressPodToProgMap] and so on) are one table keyed by the
    direction, and paired functions are one function of the direction.  Every method holds the
    identifier's lock while it runs (see [KeyedMutex]); a model step is one method call.  The
    SDK, traffic control and the kernel are the class [BpfSDK].  Metrics and logs are left
    out. *)
From S2P Require Import Prelude ApiTypes Utils FwRules MemMap Effects BpfInterface Sha1.

Definition POD_VETH_PREFIX : gostring := go "eni".
Definition BRANCH_ENI_VETH_PREFIX : gostring := go "vlan".
Definition deletedPodsMinAge : Z := 5 * 60 * 1000000000.

#[global] Program Instance Direction_countable : Countable Direction :=
  inj_countable' (fun d => by_dir true false d) (fun b : bool => if b then ingress else egress) _.
Next Obligation. by intros []. Qed.
#[global] Program Instance PolicyKind_countable : Countable PolicyKind :=
  inj_countable' (fun k => match k with NamespacePolicy => true | ClusterPolicy => false end)
    (fun b : bool => if b then NamespacePolicy else ClusterPolicy) _.
Next Obligation. by intros []. Qed.

(** ["ingress"] and ["egress"], as the code spells them. *)
Definition dir_name (d : Direction) : gostring := by_dir (go "ingress") (go "egress") d.

(** The rule map of a hook and its pod-state map. *)
Definition rule_map (kind : PolicyKind) (d : Direction) : gostring :=
  match kind with
  | NamespacePolicy => by_dir TC_INGRESS_MAP TC_EGRESS_MAP d
  | ClusterPolicy => by_dir TC_CLUSTER_POLICY_INGRESS_MAP TC_CLUSTER_POLICY_EGRESS_MAP d
  end.
Definition pod_state_map (d : Direction) : gostring := by_dir TC_INGRESS_POD_STATE_MAP TC_EGRESS_POD_STATE_MAP d.
Definition pod_maps (d : Direction) : list gostring :=
  [rule_map NamespacePolicy d; rule_map ClusterPolicy d; pod_state_map d].

(** [goelf.BpfData]: a program and its maps, by name, each a file descriptor.  The zero value
    has descriptor 0. *)
Record BpfData := mkBpfData { ProgFD : Z; ProgID : Z; Maps : gmap gostring Z }.
Definition zeroBpfData : BpfData := mkBpfData 0 0 ∅.
Definition map_fd (p : BpfData) (name : gostring) : Z := default 0 (Maps p !! name).

(** What the client uses of aws-ebpf-sdk-go, traffic control and the kernel. *)
Class BpfSDK `{!BpfMapSDK} := {
  (** The state of programs, filters and pins. *)
  kext : Type;
  LoadBpfFile : gostring -> gostring -> kext * gmap Z kmap -> (kext * gmap Z kmap) * outcome (gmap gostring BpfData);
  TCAttach : Direction -> gostring -> Z -> kext -> kext * option gostring;
  TCDetach : Direction -> gostring -> kext -> kext * option gostring;
  UnPinProg : gostring -> kext -> kext * option gostring;
  UnPinMap : gostring -> kext -> kext * option gostring;
  LinkByName : gostring -> kext -> option gostring;
  (** Writes of the pod-state maps. *)
  CreateUpdateMapEntry : kmap -> gostring -> gostring -> kmap * option gostring;
  CreateMapEntry : kmap -> gostring -> gostring -> kmap * option gostring;
  create_update_law : forall s k v s' e, CreateUpdateMapEntry s k v = (s', e) ->
    kcontents s' = match e with None => <[k := v]> (kcontents s) | Some _ => kcontents s end;
  (** [BPF_NOEXIST], with [EEXIST] reported as success. *)
  create_law : forall s k v s' e, CreateMapEntry s k v = (s', e) ->
    kcontents s' = match e with
                   | None => match kcontents s !! k with Some _ => kcontents s | None => <[k := v]> (kcontents s) end
                   | Some _ => kcontents s
                   end;
  (** Loading leaves the open maps alone; the pod maps of the new programs are open, and are
      none of the maps that were open before, nor shared between programs or names. *)
  load_law : forall file podId x ms x' ms' r,
    LoadBpfFile file podId (x, ms) = ((x', ms'), r) ->
    ms ⊆ ms' /\ (ms !! 0 = None -> ms' !! 0 = None) /\
    forall progs pin p d name fd, r = Ret progs -> progs !! pin = Some p -> name ∈ pod_maps d -> Maps p !! name = Some fd ->
      ms !! fd = None /\ is_Some (ms' !! fd) /\
      forall pin' p' d' name', progs !! pin' = Some p' -> name' ∈ pod_maps d' -> Maps p' !! name' = Some fd ->
        pin' = pin /\ name' = name
}.

Section client.
Context `{!BpfMapSDK, !BpfSDK, !MapOrder}.

Record BPFContext := mkBPFContext { ingressPgmInfo : BpfData; egressPgmInfo : BpfData }.
Definition zeroContext : BPFContext := mkBPFContext zeroBpfData zeroBpfData.
Definition pgmInfo (d : Direction) (c : BPFContext) : BpfData := by_dir (ingressPgmInfo c) (egressPgmInfo c) d.
Definition set_pgmInfo (d : Direction) (p : BpfData) (c : BPFContext) : BPFContext :=
  match d with ingress => mkBPFContext p (egressPgmInfo c) | egress => mkBPFContext (ingressPgmInfo c) p end.

(** A shadow map: the descriptor of the kernel map and the contents. *)
Record ShadowMap := mkShadowMap { sh_fd : Z; sh_contents : gmap gostring gostring }.

(** [bpfClient], with the kernel's maps and the rest of its state. *)
Record bpfClient := mkBpfClient {
  policyEndpointeBPFContext : gmap gostring BPFContext;
  podToProgMap : gmap (Direction * gostring) Z;
  progToPodsMap : gmap (Direction * Z) (gset gostring);
  inMemoryMap : gmap (PolicyKind * Direction * gostring) ShadowMap;
  deletedPods : gmap gostring Z;
  podNameToInterfaceCount : gmap gostring Z;
  kmaps : gmap Z kmap;
  kernel_ext : kext;
  (** Constants of the client. *)
  networkPolicyMode : gostring;
  isMultiNICEnabled : bool;
  fwRuleProcessor : FirewallRuleProcessor;
  probeBinary : Direction -> gostring;
  (** Filled once, by [recoverBPFState], and read by [ReAttachEbpfProbes]. *)
  interfaceNametoPinPath : Direction -> gmap gostring gostring
}.

Definition set_context f (s : bpfClient) := mkBpfClient (f (policyEndpointeBPFContext s)) (podToProgMap s) (progToPodsMap s)
  (inMemoryMap s) (deletedPods s) (podNameToInterfaceCount s) (kmaps s) (kernel_ext s) (networkPolicyMode s)
  (isMultiNICEnabled s) (fwRuleProcessor s) (probeBinary s) (interfaceNametoPinPath s).
Definition set_podToProg f (s : bpfClient) := mkBpfClient (policyEndpointeBPFContext s) (f (podToProgMap s)) (progToPodsMap s)
  (inMemoryMap s) (deletedPods s) (podNameToInterfaceCount s) (kmaps s) (kernel_ext s) (networkPolicyMode s)
  (isMultiNICEnabled s) (fwRuleProcessor s) (probeBinary s) (interfaceNametoPinPath s).
Definition set_progToPods f (s : bpfClient) := mkBpfClient (policyEndpointeBPFContext s) (podToProgMap s) (f (progToPodsMap s))
  (inMemoryMap s) (deletedPods s) (podNameToInterfaceCount s) (kmaps s) (kernel_ext s) (networkPolicyMode s)
  (isMultiNICEnabled s) (fwRuleProcessor s) (probeBinary s) (interfaceNametoPinPath s).
Definition set_inMemory f (s : bpfClient) := mkBpfClient (policyEndpointeBPFContext s) (podToProgMap s) (progToPodsMap s)
  (f (inMemoryMap s)) (deletedPods s) (podNameToInterfaceCount s) (kmaps s) (kernel_ext s) (networkPolicyMode s)
  (isMultiNICEnabled s) (fwRuleProcessor s) (probeBinary s) (interfaceNametoPinPath s).
Definition set_deletedPods f (s : bpfClient) := mkBpfClient (policyEndpointeBPFContext s) (podToProgMap s) (progToPodsMap s)
  (inMemoryMap s) (f (deletedPods s)) (podNameToInterfaceCount s) (kmaps s) (kernel_ext s) (networkPolicyMode s)
  (isMultiNICEnabled s) (fwRuleProcessor s) (probeBinary s) (interfaceNametoPinPath s).
Definition set_interfaceCount f (s : bpfClient) := mkBpfClient (policyEndpointeBPFContext s) (podToProgMap s) (progToPodsMap s)
  (inMemoryMap s) (deletedPods s) (f (podNameToInterfaceCount s)) (kmaps s) (kernel_ext s) (networkPolicyMode s)
  (isMultiNICEnabled s) (fwRuleProcessor s) (probeBinary s) (interfaceNametoPinPath s).
Definition set_kernel (x : kext) (ms : gmap Z kmap) (s : bpfClient) := mkBpfClient (policyEndpointeBPFContext s) (podToProgMap s)
  (progToPodsMap s) (inMemoryMap s) (deletedPods s) (podNameToInterfaceCount s) ms x (networkPolicyMode s)
  (isMultiNICEnabled s) (fwRuleProcessor s) (probeBinary s) (interfaceNametoPinPath s).
Definition set_pinPaths f (s : bpfClient) := mkBpfClient (policyEndpointeBPFContext s) (podToProgMap s) (progToPodsMap s)
  (inMemoryMap s) (deletedPods s) (podNameToInterfaceCount s) (kmaps s) (kernel_ext s) (networkPolicyMode s)
  (isMultiNICEnabled s) (fwRuleProcessor s) (probeBinary s) f.

(** ** Kernel calls *)

(** [fmt.Errorf(prefix + "%w", err)]. *)
Definition wrap {A} (prefix : gostring) (m : ST bpfClient A) : ST bpfClient A := fun s =>
  let '(s', r) := m s in (s', match r with Err e => Err (prefix ++ e) | r => r end).

(** A call on one map; a descriptor that is not an open map is an error. *)
Definition with_kmap {A} (fd : Z) (f : kmap -> kmap * outcome A) : ST bpfClient A := fun s =>
  match kmaps s !! fd with
  | None => (s, Err (go "bad file descriptor"))
  | Some k => let '(k', r) := f k in (set_kernel (kernel_ext s) (<[fd := k']> (kmaps s)) s, r)
  end.

(** A call that concerns programs, filters or pins. *)
Definition sdk_call (f : kext -> kext * option gostring) : ST bpfClient unit := fun s =>
  let '(x, e) := f (kernel_ext s) in
  (set_kernel x (kmaps s) s, match e with None => Ret tt | Some e => Err e end).

(** The error of a map call. *)
Definition as_error (r : kmap * option gostring) : kmap * outcome unit :=
  (fst r, match snd r with None => Ret tt | Some e => Err e end).

(** [utils.GetHostVethName]: the first prefix for which the interface exists. *)
Definition hostVethHash (podName podNamespace : gostring) (interfaceIndex : nat) : gostring :=
  let podName := if (0 <? interfaceIndex)%nat then podName ++ go "." ++ Itoa (Z.of_nat interfaceIndex) else podName in
  take 11 (hex_EncodeToString (sha1_Sum (podNamespace ++ go "." ++ podName))).

Fixpoint firstLink (x : kext) (hash : gostring) (prefixes : list gostring) : outcome gostring :=
  match prefixes with
  | [] => Err (go "failed to find link")
  | prefix :: prefixes' =>
      match LinkByName (prefix ++ hash) x with
      | None => Ret (prefix ++ hash)
      | Some _ => firstLink x hash prefixes'
      end
  end.

Definition GetHostVethName (podName podNamespace : gostring) (interfaceIndex : nat) : ST bpfClient gostring := fun s =>
  (s, firstLink (kernel_ext s) (hostVethHash podName podNamespace interfaceIndex)
    [POD_VETH_PREFIX; BRANCH_ENI_VETH_PREFIX]).

(** ** Loading and attaching programs *)

Definition bpf_HasBPFContext (podIdentifier : gostring) (s : bpfClient) : bool :=
  bool_decide (is_Some (policyEndpointeBPFContext s !! podIdentifier)).

Definition loadBPFProgram (fileName : gostring) (direction : Direction) (podIdentifier : gostring) :
  ST bpfClient (gmap gostring BpfData * Z) :=
  progInfo ← (fun s => let '((x, ms), r) := LoadBpfFile fileName podIdentifier (kernel_ext s, kmaps s) in
                   (set_kernel x ms s, r));
  let pinPath := GetBPFPinPathFromPodIdentifier podIdentifier (dir_name direction) in
  match progInfo !! pinPath with
  | None => fail (go "no program data found at pinPath")
  | Some bpfData =>
      if ProgFD bpfData =? 0 then fail (go "program loaded with invalid FD 0") else
      if decide (Maps bpfData = ∅) then fail (go "program loaded but has no associated maps") else
      mret (progInfo, ProgFD bpfData)
  end.

(** The program of a direction: the one the identifier has, or a new one. *)
Definition ensureProgram (d : Direction) (podIdentifier : gostring) : ST bpfClient Z :=
  s ← get;
  let peBPFContext := default zeroContext (policyEndpointeBPFContext s !! podIdentifier) in
  if negb (ProgFD (pgmInfo d peBPFContext) =? 0) then mret (ProgFD (pgmInfo d peBPFContext))
  else
    l ← loadBPFProgram (probeBinary s d) d podIdentifier;
    let '(progInfo, progFD) := l in
    let pinPath := GetBPFPinPathFromPodIdentifier podIdentifier (dir_name d) in
    modify (set_context (insert podIdentifier
        (set_pgmInfo d (default zeroBpfData (progInfo !! pinPath)) peBPFContext)));;
    mret progFD.

(** The filter on the interface: a stale one is removed first. *)
Definition attachFilter (d : Direction) (hostVethName : gostring) (progFD : Z) : ST bpfClient unit :=
  err ← attempt (sdk_call (TCAttach d hostVethName progFD));
  match err_of err with
  | Some e =>
      if IsFileExistsError e then
        sdk_call (TCDetach d hostVethName);;
        sdk_call (TCAttach d hostVethName progFD)
      else fail e
  | None => mret tt
  end.

(** [attachIngressBPFProbe] and [attachEgressBPFProbe]. *)
Definition attachBPFProbe (d : Direction) (hostVethName podIdentifier : gostring) : ST bpfClient Z :=
  progFD ← ensureProgram d podIdentifier;
  attachFilter d hostVethName progFD;;
  mret progFD.

Definition attachIngressBPFProbe := attachBPFProbe ingress.
Definition attachEgressBPFProbe := attachBPFProbe egress.

Definition isEBPFProbeAttached (s : bpfClient) (podName podNamespace : gostring) (d : Direction) : bool :=
  bool_decide (is_Some (podToProgMap s !! (d, GetPodNamespacedName podName podNamespace))).

Definition isFirstPodInPodIdentifierLocked (s : bpfClient) (podIdentifier : gostring) : bool :=
  match policyEndpointeBPFContext s !! podIdentifier with
  | None => true
  | Some peBPFContext => (ProgFD (ingressPgmInfo peBPFContext) =? 0) || (ProgFD (egressPgmInfo peBPFContext) =? 0)
  end.

Definition getInterfaceCountFromBackupFile (s : bpfClient) (pod : NamespacedName) : outcome Z :=
  match podNameToInterfaceCount s !! GetPodNamespacedName (Name pod) (Namespace pod) with
  | Some count => Ret count
  | None => Err (go "interface count not found in podNameToInterfaceCount cache")
  end.

Definition getInterfaceCountForPod (s : bpfClient) (pod : NamespacedName) (providedCount : Z) : outcome Z :=
  if 0 <? providedCount then Ret providedCount else
  if negb (isMultiNICEnabled s) then Ret INTERFACE_COUNT_DEFAULT else
  match getInterfaceCountFromBackupFile s pod with
  | Ret n => if 0 <? n then Ret n else Err (go "Skipping probe attach: multiNIC enabled and interface count is unknown")
  | _ => Err (go "Skipping probe attach: multiNIC enabled and interface count is unknown")
  end.

(** One interface: the programs of the directions that are not attached yet. *)
Definition attachInterface (pod : NamespacedName) (podIdentifier : gostring) (attached : Direction -> bool)
  (fds : Z * Z) (index : nat) : ST bpfClient (Z * Z) :=
  hostVethName ← GetHostVethName (Name pod) (Namespace pod) index;
  ingressProgFD ← (if attached ingress then mret (fst fds) else attachIngressBPFProbe hostVethName podIdentifier);
  egressProgFD ← (if attached egress then mret (snd fds) else attachEgressBPFProbe hostVethName podIdentifier);
  mret (ingressProgFD, egressProgFD).

(** Record the pod against the program of a direction. *)
Definition recordPod (d : Direction) (podNamespacedName : gostring) (progFD : Z) : ST bpfClient unit :=
  modify (set_podToProg (insert (d, podNamespacedName) progFD));;
  modify (set_progToPods (fun m => <[(d, progFD) := {[podNamespacedName]} ∪ default ∅ (m !! (d, progFD))]> m)).

Definition bpf_AttacheBPFProbes (pod : NamespacedName) (podIdentifier : gostring) (numInterfaces : Z)
  (podConfirmedLive : bool) : ST bpfClient bool :=
  let podNamespacedName := GetPodNamespacedName (Name pod) (Namespace pod) in
  s ← get;
  if negb podConfirmedLive && bool_decide (is_Some (deletedPods s !! podNamespacedName)) then mret false else
  (if podConfirmedLive then modify (set_deletedPods (delete podNamespacedName)) else mret tt);;
  s ← get;
  let firstPodInPodIdentifier := isFirstPodInPodIdentifierLocked s podIdentifier in
  let attached := isEBPFProbeAttached s (Name pod) (Namespace pod) in
  if attached ingress && attached egress then mret firstPodInPodIdentifier else
  actualInterfaceCount ← lift (getInterfaceCountForPod s pod numInterfaces);
  fds ← fold_each (attachInterface pod podIdentifier attached) (seq 0 (Z.to_nat actualInterfaceCount)) (0, 0);
  (if attached ingress then mret tt else recordPod ingress podNamespacedName (fst fds));;
  (if attached egress then mret tt else recordPod egress podNamespacedName (snd fds));;
  mret firstPodInPodIdentifier.

(** ** Deleting *)

(** Shared when another pod uses the program; an error when the pod is in neither table. *)
Definition isProgFdShared (s : bpfClient) (targetPodName targetPodNamespace : gostring) : outcome bool :=
  let target := GetPodNamespacedName targetPodName targetPodNamespace in
  let pods d := fd ← podToProgMap s !! (d, target); progToPodsMap s !! (d, fd) in
  match pods ingress with
  | Some podsList => Ret (1 <? Z.of_nat (size podsList))
  | None =>
      match pods egress with
      | Some podsList => Ret (1 <? Z.of_nat (size podsList))
      | None => Err (go "pod not found in either IngressPodToProgMap or EgressPodToProgMap")
      end
  end.

(** [deletePodFromIngressProgPodCaches] and [deletePodFromEgressProgPodCaches]. *)
Definition deletePodFromProgPodCaches (d : Direction) (podName podNamespace : gostring) (s : bpfClient) : bpfClient :=
  let podNamespacedName := GetPodNamespacedName podName podNamespace in
  match podToProgMap s !! (d, podNamespacedName) with
  | None => s
  | Some progFD =>
      let s := set_podToProg (delete (d, podNamespacedName)) s in
      match progToPodsMap s !! (d, progFD) with
      | None => s
      | Some currentSet =>
          let currentSet := currentSet ∖ {[podNamespacedName]} in
          set_progToPods (if decide (currentSet = ∅) then delete (d, progFD) else insert (d, progFD) currentSet) s
      end
  end.

(** Unpinning errors are logged and skipped. *)
Definition deleteBPFProgramAndMaps (podIdentifier : gostring) (direction : Direction) : ST bpfClient unit :=
  s ← get;
  let peBPFContext := default zeroContext (policyEndpointeBPFContext s !! podIdentifier) in
  let pgmPinPath := GetBPFPinPathFromPodIdentifier podIdentifier (dir_name direction) in
  let '(mapPinpath, clusterPolicyMapPinpath) := GetBPFMapPinPathFromPodIdentifier podIdentifier (dir_name direction) in
  let podStateMapPinPath := GetPodStateBPFMapPinPathFromPodIdentifier podIdentifier (dir_name direction) in
  if ProgFD (pgmInfo direction peBPFContext) =? 0 then mret tt else
  attempt (sdk_call (UnPinProg pgmPinPath));;
  attempt (sdk_call (UnPinMap mapPinpath));;
  attempt (sdk_call (UnPinMap podStateMapPinPath));;
  attempt (sdk_call (UnPinMap clusterPolicyMapPinpath));;
  mret tt.

Definition deleteBPFProbes (podIdentifier : gostring) : ST bpfClient unit :=
  attempt (deleteBPFProgramAndMaps podIdentifier ingress);;
  attempt (deleteBPFProgramAndMaps podIdentifier egress);;
  modify (set_inMemory (fun m => delete (NamespacePolicy, ingress, podIdentifier)
      (delete (NamespacePolicy, egress, podIdentifier) (delete (ClusterPolicy, ingress, podIdentifier)
          (delete (ClusterPolicy, egress, podIdentifier) m)))));;
  modify (set_context (delete podIdentifier)).

Definition bpf_DeleteBPFProbes (now : Z) (pod : NamespacedName) (podIdentifier : gostring) : ST bpfClient unit :=
  s ← get;
  let shared := isProgFdShared s (Name pod) (Namespace pod) in
  modify (deletePodFromProgPodCaches ingress (Name pod) (Namespace pod));;
  modify (deletePodFromProgPodCaches egress (Name pod) (Namespace pod));;
  modify (set_deletedPods (insert (GetPodNamespacedName (Name pod) (Namespace pod)) now));;
  match shared with
  | Ret false => deleteBPFProbes podIdentifier
  | _ => mret tt
  end.

(** Markers older than [deletedPodsMinAge] go. *)
Definition cleanupDeletedPodsIfNeeded (now : Z) : ST bpfClient unit :=
  modify (set_deletedPods (filter (fun kv => now - kv.2 <= deletedPodsMinAge))).

(** ** Writing maps *)

(** A cached shadow map, or a new one read from the kernel map. *)
Definition shadowMapForLocked (kind : PolicyKind) (d : Direction) (podIdentifier : gostring) (fd : Z) :
  ST bpfClient ShadowMap :=
  s ← get;
  match inMemoryMap s !! (kind, d, podIdentifier) with
  | Some inMemMap => mret inMemMap
  | None =>
      m ← wrap (go "hydrate: ") (with_kmap fd NewInMemoryBpfMap);
      let inMemMap := mkShadowMap fd (contents m) in
      modify (set_inMemory (insert (kind, d, podIdentifier) inMemMap));;
      mret inMemMap
  end.

(** [refreshShadowMap]: the shadow is shared through its pointer, so what [BulkRefresh] leaves
    in it is what the cache holds. *)
Definition refreshShadowMap (mapEntries : outcome (gmap gostring gostring)) (kind : PolicyKind) (d : Direction)
  (podIdentifier : gostring) (inMemMap : ShadowMap) : ST bpfClient unit :=
  entries ← lift mapEntries;
  r ← with_kmap (sh_fd inMemMap) (fun k =>
    let '(m, r) := BulkRefresh (mkInMemoryBpfMap k (sh_contents inMemMap)) entries in
    (bpfMap m, Ret (contents m, r)));
  modify (set_inMemory (insert (kind, d, podIdentifier) (mkShadowMap (sh_fd inMemMap) (fst r))));;
  lift (snd r).

(** How the errors of a hook begin. *)
Definition hook_prefix (kind : PolicyKind) (d : Direction) : gostring :=
  match kind with NamespacePolicy => [] | ClusterPolicy => go "cluster policy " end ++ dir_name d.

(** One hook of [UpdateEbpfMaps] or [UpdateClusterPolicyEbpfMaps]. *)
Definition updateHook (kind : PolicyKind) (podIdentifier : gostring) (c : BPFContext)
  (entries : Direction -> outcome (gmap gostring gostring)) (d : Direction) : ST bpfClient (option gostring) :=
  if ProgFD (pgmInfo d c) =? 0 then mret None else
  inMemMap ← attempt (shadowMapForLocked kind d podIdentifier (map_fd (pgmInfo d c) (rule_map kind d)));
  match inMemMap with
  | Ret inMemMap =>
      writeErr ← attempt (refreshShadowMap (entries d) kind d podIdentifier inMemMap);
      mret (app (hook_prefix kind d ++ go " map write: ") <$> err_of writeErr)
  | r => mret (app (hook_prefix kind d ++ go " in-mem map: ") <$> err_of r)
  end.

Definition computeEntries (f : FirewallRuleProcessor) (kind : PolicyKind) (rules : list EbpfFirewallRules) :
  outcome (gmap gostring gostring) :=
  match kind with
  | NamespacePolicy => ComputeMapEntriesFromEndpointRules f rules
  | ClusterPolicy => ComputeClusterPolicyMapEntriesFromEndpointRules f rules
  end.

(** [UpdateEbpfMaps] and [UpdateClusterPolicyEbpfMaps]: both hooks are attempted, the errors
    are joined. *)
Definition updateRuleMaps (kind : PolicyKind) (podIdentifier : gostring)
  (ingressFirewallRules egressFirewallRules : list EbpfFirewallRules) : ST bpfClient unit :=
  s ← get;
  ingressEntries ← attempt (lift (computeEntries (fwRuleProcessor s) kind ingressFirewallRules));
  egressEntries ← attempt (lift (computeEntries (fwRuleProcessor s) kind egressFirewallRules));
  match policyEndpointeBPFContext s !! podIdentifier with
  | None => fail (go "no bpf context registered for pod " ++ podIdentifier)
  | Some peBPFContext =>
      ingressErr ← updateHook kind podIdentifier peBPFContext (by_dir ingressEntries egressEntries) ingress;
      egressErr ← updateHook kind podIdentifier peBPFContext (by_dir ingressEntries egressEntries) egress;
      return_error (errors_Join ingressErr egressErr)
  end.
Definition bpf_UpdateEbpfMaps := updateRuleMaps NamespacePolicy.
Definition bpf_UpdateClusterPolicyEbpfMaps := updateRuleMaps ClusterPolicy.

(** A pod-state write on one hook. *)
Definition podStateHook (what : gostring) (write : kmap -> gostring -> gostring -> kmap * option gostring) (c : BPFContext)
  (key state : Z) (selected : bool) (d : Direction) : ST bpfClient (option gostring) :=
  if negb selected || (ProgFD (pgmInfo d c) =? 0) then mret None else
  r ← attempt (with_kmap (map_fd (pgmInfo d c) (pod_state_map d))
    (fun k => as_error (write k (le32 (u32 key)) [byte.of_Z (u8 state)])));
  mret (app (dir_name d ++ what) <$> err_of r).

Definition podStateMaps (what : gostring) (write : kmap -> gostring -> gostring -> kmap * option gostring) (podIdentifier : gostring)
  (key state : Z) (updateIngress updateEgress : bool) : ST bpfClient unit :=
  s ← get;
  match policyEndpointeBPFContext s !! podIdentifier with
  | None => fail (go "no bpf context registered for pod " ++ podIdentifier)
  | Some peBPFContext =>
      ingressErr ← podStateHook what write peBPFContext key state updateIngress ingress;
      egressErr ← podStateHook what write peBPFContext key state updateEgress egress;
      return_error (errors_Join ingressErr egressErr)
  end.
Definition bpf_CreatePodStateEbpfEntryIfNotExists (podIdentifier : gostring) (key state : Z) : ST bpfClient unit :=
  podStateMaps (go " pod state entry create: ") CreateMapEntry podIdentifier key state true true.
Definition bpf_UpdatePodStateEbpfMaps (podIdentifier : gostring) (key state : Z) (updateIngress updateEgress : bool) :
  ST bpfClient unit :=
  podStateMaps (go " pod state map write: ") CreateUpdateMapEntry podIdentifier key state updateIngress updateEgress.

(** ** After a restart with new programs *)
Definition reattach (d : Direction) (state : Z) (ip : gostring * gostring) : ST bpfClient unit :=
  let '(interfaceName, pinPath) := ip in
  pid ← lift (GetPodIdentifierFromBPFPinPath pinPath);
  let podIdentifier := fst pid in
  attempt (attachBPFProbe d interfaceName podIdentifier);;
  attempt (bpf_UpdatePodStateEbpfMaps podIdentifier POD_STATE_MAP_KEY state (by_dir true false d) (by_dir false true d));;
  attempt (bpf_UpdatePodStateEbpfMaps podIdentifier CLUSTER_POLICY_POD_STATE_MAP_KEY state (by_dir true false d) (by_dir false true d));;
  mret tt.

Definition bpf_ReAttachEbpfProbes : ST bpfClient unit :=
  s ← get;
  let state := if IsStrictMode (networkPolicyMode s) then Datapath.DEFAULT_DENY else Datapath.DEFAULT_ALLOW in
  for_each (reattach ingress state) (go_range (go "interfaceNametoIngressPinPath") (map_to_list (interfaceNametoPinPath s ingress)));;
  for_each (reattach egress state) (go_range (go "interfaceNametoEgressPinPath") (map_to_list (interfaceNametoPinPath s egress))).

(** The allocations of ipam.json, already parsed: (name, namespace, interface count). *)
Definition loadIPAMData (allocations : list (gostring * gostring * Z)) : ST bpfClient unit :=
  for_each (fun '(k8sPodName, k8sPodNamespace, interfacesCount) =>
    if decide (k8sPodName = [] \/ k8sPodNamespace = []) then mret tt else
    if 0 <? interfacesCount
    then modify (set_interfaceCount (insert (GetPodNamespacedName k8sPodName k8sPodNamespace) interfacesCount))
    else mret tt) allocations.
End client.

(** The instance of the interface, at the time of the call. *)
#[global] Instance bpfClient_ops `{!BpfMapSDK, !BpfSDK, !MapOrder} (now : Z) : BpfClient bpfClient := {|
  AttacheBPFProbes := bpf_AttacheBPFProbes;
  DeleteBPFProbes := bpf_DeleteBPFProbes now;
  UpdateClusterPolicyEbpfMaps := bpf_UpdateClusterPolicyEbpfMaps;
  UpdateEbpfMaps := bpf_UpdateEbpfMaps;
  UpdatePodStateEbpfMaps := bpf_UpdatePodStateEbpfMaps;
  ReAttachEbpfProbes := bpf_ReAttachEbpfProbes;
  GetNetworkPolicyMode := networkPolicyMode;
  CreatePodStateEbpfEntryIfNotExists := bpf_CreatePodStateEbpfEntryIfNotExists;
  HasBPFContext := bpf_HasBPFContext
|}.
