(* ===== verification/BpfClientFacts.v ===== *)
(** The BPF client keeps the promises of its interface: the shadow maps stay equal to the
    kernel maps, a write reaches the maps of its identifier and no others, and attaching and
    deleting pods keeps the tables consistent. *)
From S2P Require Import Prelude ApiTypes Utils FwRules Datapath MemMap Effects BpfInterface BpfClient.

Lemma rule_map_inj kind kind' d : rule_map kind d = rule_map kind' d -> kind = kind'.
Proof. destruct kind, kind', d; done. Qed.
Lemma rule_not_state kind d : rule_map kind d <> pod_state_map d.
Proof. destruct kind, d; done. Qed.
Lemma rule_map_in kind d : rule_map kind d ∈ pod_maps d.
Proof. unfold pod_maps. destruct kind; set_solver. Qed.
Lemma pod_state_map_in d : pod_state_map d ∈ pod_maps d.
Proof. unfold pod_maps. set_solver. Qed.
#[export] Hint Resolve rule_map_in pod_state_map_in : agent.

Section facts.
Context `{!BpfMapSDK, !BpfSDK, !MapOrder}.
Implicit Types s : bpfClient.

(** No kernel delete fails. *)
Definition deletes_succeed : Prop := forall (k : kmap) key, snd (DeleteMapEntry k key) = None.

(** The map a hook that has a program uses under a name. *)
Definition hook_on s (id : gostring) (d : Direction) : bool :=
  match policyEndpointeBPFContext s !! id with Some c => negb (ProgFD (pgmInfo d c) =? 0) | None => false end.
Definition slot s (id : gostring) (d : Direction) (name : gostring) : option Z :=
  c ← policyEndpointeBPFContext s !! id;
  if ProgFD (pgmInfo d c) =? 0 then None else Maps (pgmInfo d c) !! name.

Definition map_contents s (fd : Z) : option (gmap gostring gostring) := kcontents <$> kmaps s !! fd.
Definition slot_contents s (id : gostring) (d : Direction) (name : gostring) : gmap gostring gostring :=
  default ∅ (fd ← slot s id d name; map_contents s fd).

(** The state byte of a pod-state entry. *)
Definition state_of (v : gostring) : Z := byte.unsigned (default x00 (head v)).

Definition client_view s : BpfView := mkBpfView (hook_on s)
  (fun id d key => if decide (key = u32 key)
               then state_of <$> slot_contents s id d (pod_state_map d) !! le32 key
               else None)
  (fun id kind d => slot_contents s id d (rule_map kind d)).

(** Descriptor 0 is no map; the pod maps of the hooks are open and not shared; a cached
    shadow map belongs to its hook and equals the kernel map. *)
Record client_inv s : Prop := mkClientInv {
  inv_zero : kmaps s !! 0 = None;
  inv_open : forall id d n fd, n ∈ pod_maps d -> slot s id d n = Some fd -> is_Some (kmaps s !! fd);
  inv_unshared : forall id d n id' d' n' fd, n ∈ pod_maps d -> n' ∈ pod_maps d' ->
  slot s id d n = Some fd -> slot s id' d' n' = Some fd -> id' = id /\ d' = d /\ n' = n;
  inv_shadow : forall kind d id sh, inMemoryMap s !! (kind, d, id) = Some sh ->
  slot s id d (rule_map kind d) = Some (sh_fd sh) /\ map_contents s (sh_fd sh) = Some (sh_contents sh)
}.

(** A write of the map behind a slot. *)
Definition write_kmap (fd : Z) (k : kmap) s : bpfClient := set_kernel (kernel_ext s) (<[fd := k]> (kmaps s)) s.

Lemma map_contents_write fd k s fd' :
  map_contents (write_kmap fd k s) fd' = if decide (fd = fd') then Some (kcontents k) else map_contents s fd'.
Proof.
  unfold map_contents. cbn. case_decide as E; [subst; by rewrite lookup_insert_eq|by rewrite lookup_insert_ne].
Qed.

Lemma slot_contents_write s id d n fd k id' d' n' :
  client_inv s -> n ∈ pod_maps d -> n' ∈ pod_maps d' -> slot s id d n = Some fd ->
  slot_contents (write_kmap fd k s) id' d' n' =
  if decide (id' = id /\ d' = d /\ n' = n) then kcontents k else slot_contents s id' d' n'.
Proof.
  intros Hinv Hn Hn' Hs. unfold slot_contents. change (slot (write_kmap fd k s)) with (slot s).
  destruct (decide (id' = id /\ d' = d /\ n' = n)) as [(-> & -> & ->)|Hne].
  - rewrite Hs. cbn. rewrite map_contents_write. by rewrite decide_True.
  - destruct (slot s id' d' n') as [fd'|] eqn:E; [|done]. cbn. rewrite map_contents_write.
    rewrite decide_False; [done|]. intros <-. apply Hne. by eapply inv_unshared.
Qed.

Lemma inv_write_state s id d fd k :
  client_inv s -> slot s id d (pod_state_map d) = Some fd -> client_inv (write_kmap fd k s).
Proof.
  intros Hinv Hs. destruct (inv_open s Hinv id d _ fd ltac:(auto with agent) Hs) as [k0 Hk0]. split.
  - cbn. rewrite lookup_insert_ne; [apply Hinv|]. intros ->. by rewrite (inv_zero s Hinv) in Hk0.
  - intros id' d' n fd' Hn Hs'. cbn. rewrite lookup_insert_is_Some'. right. by eapply (inv_open s Hinv).
  - apply (inv_unshared s Hinv).
  - intros kind d' id' sh Hsh. destruct (inv_shadow s Hinv kind d' id' sh Hsh) as [Hx Hy]. split; [exact Hx|].
    rewrite map_contents_write. rewrite decide_False; [done|]. intros Heq. rewrite Heq in Hs.
    destruct (inv_unshared s Hinv id d (pod_state_map d) id' d' (rule_map kind d') (sh_fd sh)) as (_ & -> & Hc);
      auto with agent. by apply rule_not_state in Hc.
Qed.

Lemma inv_write_rules s id kind d fd k :
  client_inv s -> slot s id d (rule_map kind d) = Some fd ->
  client_inv (set_inMemory (insert (kind, d, id) (mkShadowMap fd (kcontents k))) (write_kmap fd k s)).
Proof.
  intros Hinv Hs. destruct (inv_open s Hinv id d (rule_map kind d) fd ltac:(auto with agent) Hs) as [k0 Hk0]. split.
  - cbn. rewrite lookup_insert_ne; [apply Hinv|]. intros ->. by rewrite (inv_zero s Hinv) in Hk0.
  - intros id' d' n fd' Hn Hs'. cbn. rewrite lookup_insert_is_Some'. right. by eapply (inv_open s Hinv).
  - apply (inv_unshared s Hinv).
  - intros kind' d' id' sh. cbn [inMemoryMap set_inMemory].
    destruct (decide ((kind, d, id) = (kind', d', id'))) as [[= <- <- <-]|Hne].
    + rewrite lookup_insert_eq. intros [= <-]. split; [exact Hs|]. cbn [sh_fd sh_contents].
      change (map_contents (set_inMemory _ ?t)) with (map_contents t). rewrite map_contents_write. by rewrite decide_True.
    + rewrite lookup_insert_ne by done. intros Hsh. destruct (inv_shadow s Hinv kind' d' id' sh Hsh) as [Hx Hy].
      split; [exact Hx|]. change (map_contents (set_inMemory _ ?t)) with (map_contents t).
      rewrite map_contents_write. rewrite decide_False; [done|]. intros Heq. rewrite Heq in Hs. apply Hne.
      destruct (inv_unshared s Hinv id d (rule_map kind d) id' d' (rule_map kind' d') (sh_fd sh)) as (-> & -> & Hc);
        auto with agent. apply rule_map_inj in Hc. congruence.
Qed.

(** ** Pod-state writes *)

Definition only_kernel s s' : Prop := exists x ms, s' = set_kernel x ms s.
Lemma only_kernel_refl s : only_kernel s s.
Proof. exists (kernel_ext s), (kmaps s). by destruct s. Qed.
Lemma only_kernel_trans s1 s2 s3 : only_kernel s1 s2 -> only_kernel s2 s3 -> only_kernel s1 s3.
Proof. intros (x & ms & ->) (y & ms' & ->). by exists y, ms'. Qed.
Lemma only_kernel_write fd k s : only_kernel s (write_kmap fd k s).
Proof. by exists (kernel_ext s), (<[fd := k]> (kmaps s)). Qed.

Lemma hook_slot s id c d n :
  policyEndpointeBPFContext s !! id = Some c -> (ProgFD (pgmInfo d c) =? 0) = false ->
  slot s id d n = Maps (pgmInfo d c) !! n /\ hook_on s id d = true.
Proof. intros Hc Hp. unfold slot, hook_on. rewrite Hc. cbn. by rewrite Hp. Qed.

(** A call on a pod map of a hook reaches the map of the slot, if there is one. *)
Lemma with_kmap_hook {A} s id c d n (f : kmap -> kmap * outcome A) :
  client_inv s -> policyEndpointeBPFContext s !! id = Some c -> (ProgFD (pgmInfo d c) =? 0) = false -> n ∈ pod_maps d ->
  (exists e, with_kmap (map_fd (pgmInfo d c) n) f s = (s, Err e)) \/
  (exists fd k, slot s id d n = Some fd /\ kmaps s !! fd = Some k /\ map_fd (pgmInfo d c) n = fd /\
    with_kmap (map_fd (pgmInfo d c) n) f s = (write_kmap fd (fst (f k)) s, snd (f k))).
Proof.
  intros Hinv Hc Hp Hn. destruct (hook_slot s id c d n Hc Hp) as [Hs _]. unfold map_fd.
  destruct (Maps (pgmInfo d c) !! n) as [fd|] eqn:E; cbn.
  - right. destruct (inv_open s Hinv id d n fd Hn Hs) as [k Hk]. exists fd, k. split; [done|]. split; [done|]. split; [done|].
    unfold with_kmap. change (match Some fd with Some x => x | None => 0 end) with fd. rewrite Hk. by destruct (f k).
  - left. unfold with_kmap. rewrite (inv_zero s Hinv). eauto.
Qed.

Section pod_state.
Context (what : gostring) (write : kmap -> gostring -> gostring -> kmap * option gostring)
  (g : gostring -> gostring -> gmap gostring gostring -> gmap gostring gostring).
Hypothesis write_law : forall k key v k' e, write k key v = (k', e) ->
  kcontents k' = match e with None => g key v (kcontents k) | Some _ => kcontents k end.

(** What a write on the hook does to the contents of the pod maps. *)
Definition state_written s s' (id : gostring) (d : Direction) (key state : Z) (wrote : bool) : Prop :=
  forall id' d' n', n' ∈ pod_maps d' -> slot_contents s' id' d' n' =
  if wrote && bool_decide (id' = id /\ d' = d /\ n' = pod_state_map d)
  then g (le32 (u32 key)) [byte.of_Z (u8 state)] (slot_contents s id' d' n') else slot_contents s id' d' n'.

Lemma podStateHook_spec s id c key state sel d s' r :
  client_inv s -> policyEndpointeBPFContext s !! id = Some c ->
  podStateHook what write c key state sel d s = (s', r) ->
  client_inv s' /\ only_kernel s s' /\ exists e, r = Ret e /\
  (e = None -> state_written s s' id d key state (sel && hook_on s id d)) /\
  (forall id', id' <> id -> forall d' n', n' ∈ pod_maps d' -> slot_contents s' id' d' n' = slot_contents s id' d' n').
Proof.
  intros Hinv Hc. unfold podStateHook.
  assert (hook_on s id d = negb (ProgFD (pgmInfo d c) =? 0)) as Hh by (unfold hook_on; by rewrite Hc).
  destruct sel; cbn [negb orb andb].
  2:{ intros [= <- <-]. split; [done|]. split; [apply only_kernel_refl|]. exists None. split; [done|].
  split; [|done]. intros _ id' d' n' _. done. }
  destruct (ProgFD (pgmInfo d c) =? 0) eqn:Ep.
  { intros [= <- <-]. split; [done|]. split; [apply only_kernel_refl|]. exists None. split; [done|].
    split; [|done]. intros _ id' d' n' _. by rewrite Hh. }
  rewrite Hh. unfold mbind, ST_bind, attempt, mret, ST_ret.
  destruct (with_kmap_hook s id c d (pod_state_map d)
    (fun k => as_error (write k (le32 (u32 key)) [byte.of_Z (u8 state)])) Hinv Hc Ep ltac:(auto with agent))
    as [[e ->]|(fd & k & Hs & Hk & _ & ->)].
  { intros [= <- <-]. split; [done|]. split; [apply only_kernel_refl|]. eexists. split; [done|]. by split. }
  destruct (write k (le32 (u32 key)) [byte.of_Z (u8 state)]) as [k' e] eqn:Ew. apply write_law in Ew.
  assert (forall t, (s', r) = (write_kmap fd k' s, t) -> client_inv s' /\ only_kernel s s' /\
    (forall id', id' <> id -> forall d' n', n' ∈ pod_maps d' -> slot_contents s' id' d' n' = slot_contents s id' d' n')) as Hany.
  { intros t [= -> ->]. split; [by eapply inv_write_state|]. split; [apply only_kernel_write|].
    intros id' Hid d' n' Hn'. rewrite (slot_contents_write s id d (pod_state_map d)) by auto with agent.
    rewrite decide_False; [done|naive_solver]. }
  cbn [as_error fst snd]. destruct e as [e|]; intros Hrun; symmetry in Hrun;
    destruct (Hany _ Hrun) as (Hi & Ho & Hf); (split; [done|]; split; [done|]); injection Hrun as -> ->.
  - eexists. split; [done|]. by split.
  - exists None. split; [done|]. split; [|done]. intros _ id' d' n' Hn'.
    rewrite (slot_contents_write s id d (pod_state_map d)) by auto with agent. cbn [andb].

    destruct (decide (id' = id /\ d' = d /\ n' = pod_state_map d)) as [Heq|Hne];
      [rewrite bool_decide_eq_true_2 by done|by rewrite bool_decide_eq_false_2].
    rewrite Ew. f_equal. destruct Heq as (-> & -> & ->). unfold slot_contents, map_contents. rewrite Hs. cbn. by rewrite Hk.
Qed.

Lemma podStateMaps_spec s podId key state uI uE s' r :
  client_inv s -> podStateMaps what write podId key state uI uE s = (s', r) ->
  client_inv s' /\ only_kernel s s' /\
  (forall id', id' <> podId -> forall d' n', n' ∈ pod_maps d' -> slot_contents s' id' d' n' = slot_contents s id' d' n') /\
  (r = Ret tt -> is_Some (policyEndpointeBPFContext s !! podId) /\
    forall d' n', n' ∈ pod_maps d' -> slot_contents s' podId d' n' =
    if by_dir uI uE d' && hook_on s podId d' && bool_decide (n' = pod_state_map d')
    then g (le32 (u32 key)) [byte.of_Z (u8 state)] (slot_contents s podId d' n') else slot_contents s podId d' n').
Proof.
  intros Hinv. unfold podStateMaps, mbind, ST_bind, get.
  destruct (policyEndpointeBPFContext s !! podId) as [c|] eqn:Ec.
  2:{ intros [= <- <-]. split; [done|]. split; [apply only_kernel_refl|]. done. }
  destruct (podStateHook what write c key state uI ingress s) as [s1 r1] eqn:E1.
  destruct (podStateHook_spec s podId c key state uI ingress s1 r1 Hinv Ec E1) as (Hi1 & Ho1 & e1 & -> & Hw1 & Hf1).
  destruct (podStateHook what write c key state uE egress s1) as [s2 r2] eqn:E2.
  assert (policyEndpointeBPFContext s1 !! podId = Some c) as Ec1 by (by destruct Ho1 as (x & ms & ->)).
  assert (forall d, hook_on s1 podId d = hook_on s podId d) as Hh by (by destruct Ho1 as (x & ms & ->)).
  destruct (podStateHook_spec s1 podId c key state uE egress s2 r2 Hi1 Ec1 E2) as (Hi2 & Ho2 & e2 & -> & Hw2 & Hf2).
  intros Hrun. assert (s' = s2) as -> by (destruct (errors_Join e1 e2); by injection Hrun as <- <-).
  split; [done|]. split; [by eapply only_kernel_trans|]. split.
  { intros id' Hid d' n' Hn'. rewrite Hf2, Hf1 by done. done. }
  intros ->. split; [done|]. assert (errors_Join e1 e2 = None) as Hj by (by destruct (errors_Join e1 e2)).
  apply errors_Join_None in Hj as [-> ->]. specialize (Hw1 eq_refl). specialize (Hw2 eq_refl).
  intros d' n' Hn'. rewrite (Hw2 podId d' n' Hn'), (Hw1 podId d' n' Hn'), Hh.
  destruct d'; cbn [by_dir]; rewrite ?(bool_decide_eq_false_2 (_ /\ ingress = egress /\ _)) by naive_solver;
    rewrite ?(bool_decide_eq_false_2 (_ /\ egress = ingress /\ _)) by naive_solver; rewrite ?andb_false_r; cbn [andb].
  - by rewrite (bool_decide_ext (podId = podId /\ ingress = ingress /\ n' = pod_state_map ingress) (n' = pod_state_map ingress)) by naive_solver.
  - by rewrite (bool_decide_ext (podId = podId /\ egress = egress /\ n' = pod_state_map egress) (n' = pod_state_map egress)) by naive_solver.
Qed.
End pod_state.

(** ** Rule writes *)

Definition only_maps s s' : Prop := exists im x ms, s' = set_inMemory (fun _ => im) (set_kernel x ms s).
Lemma only_maps_refl s : only_maps s s.
Proof. exists (inMemoryMap s), (kernel_ext s), (kmaps s). by destruct s. Qed.
Lemma only_maps_trans s1 s2 s3 : only_maps s1 s2 -> only_maps s2 s3 -> only_maps s1 s3.
Proof. intros (im & x & ms & ->) (im' & y & ms' & ->). by exists im', y, ms'. Qed.
Lemma only_maps_write fd k s : only_maps s (write_kmap fd k s).
Proof. exists (inMemoryMap s), (kernel_ext s), (<[fd := k]> (kmaps s)). by destruct s. Qed.
Lemma only_maps_shadow f s : only_maps s (set_inMemory f s).
Proof. exists (f (inMemoryMap s)), (kernel_ext s), (kmaps s). by destruct s. Qed.
Lemma only_maps_facts s s' : only_maps s s' ->
  policyEndpointeBPFContext s' = policyEndpointeBPFContext s /\ fwRuleProcessor s' = fwRuleProcessor s /\
  (forall id d, hook_on s' id d = hook_on s id d) /\ (forall id d n, slot s' id d n = slot s id d n).
Proof. by intros (im & x & ms & ->). Qed.

Lemma NewInMemoryBpfMap_frame k : kcontents (fst (NewInMemoryBpfMap k)) = kcontents k.
Proof.
  unfold NewInMemoryBpfMap, loadFromKernel. cbn [bpfMap contents].
  destruct (GetAllMapKeys k) as [k1 r] eqn:E. apply keys_law in E as [Hk _].
  destruct r as [keys|e|w]; [|exact Hk..].
  destruct (load_loop keys _) as [m' r'] eqn:El. apply load_loop_spec in El as [Hl _]. cbn in Hl.
  destruct r'; cbn; congruence.
Qed.

(** Rewriting a map with its own contents. *)
Lemma inv_write_same s fd k k' :
  client_inv s -> kmaps s !! fd = Some k -> kcontents k' = kcontents k ->
  client_inv (write_kmap fd k' s) /\ forall fd', map_contents (write_kmap fd k' s) fd' = map_contents s fd'.
Proof.
  intros Hinv Hk Heq.
  assert (forall fd', map_contents (write_kmap fd k' s) fd' = map_contents s fd') as Hm.
  { intros fd'. rewrite map_contents_write. case_decide; [|done]. subst. unfold map_contents. rewrite Hk. cbn. by rewrite Heq. }
  split; [|exact Hm]. split.
  - cbn. rewrite lookup_insert_ne; [apply Hinv|]. intros ->. by rewrite (inv_zero s Hinv) in Hk.
  - intros id' d' n fd' Hn Hs'. cbn. rewrite lookup_insert_is_Some'. right. by eapply (inv_open s Hinv).
  - apply (inv_unshared s Hinv).
  - intros kind d id sh Hsh. destruct (inv_shadow s Hinv kind d id sh Hsh) as [Hx Hy]. split; [exact Hx|]. by rewrite Hm.
Qed.

Lemma slot_contents_ext s s' :
  (forall id d n, slot s' id d n = slot s id d n) -> (forall fd, map_contents s' fd = map_contents s fd) ->
  forall id d n, slot_contents s' id d n = slot_contents s id d n.
Proof. intros Hs Hm id d n. unfold slot_contents. rewrite Hs. destruct (slot s id d n); [cbn; by rewrite Hm|done]. Qed.

Lemma shadowMapForLocked_spec kind d id c s s' r :
  client_inv s -> policyEndpointeBPFContext s !! id = Some c -> (ProgFD (pgmInfo d c) =? 0) = false ->
  shadowMapForLocked kind d id (map_fd (pgmInfo d c) (rule_map kind d)) s = (s', r) ->
  client_inv s' /\ only_maps s s' /\ (forall i d' n, slot_contents s' i d' n = slot_contents s i d' n) /\
  (forall sh, r = Ret sh -> inMemoryMap s' !! (kind, d, id) = Some sh).
Proof.
  intros Hinv Hc Hp. unfold shadowMapForLocked, mbind, ST_bind, get, mret, ST_ret, wrap, modify.
  destruct (inMemoryMap s !! (kind, d, id)) as [sh|] eqn:Esh.
  { intros [= <- <-]. split; [done|]. split; [apply only_maps_refl|]. split; [done|]. by intros ? [= <-]. }
  destruct (with_kmap_hook s id c d (rule_map kind d) NewInMemoryBpfMap Hinv Hc Hp ltac:(auto with agent))
    as [[e ->]|(fd & k & Hs & Hk & -> & ->)].
  { intros [= <- <-]. split; [done|]. split; [apply only_maps_refl|]. by split. }
  pose proof (NewInMemoryBpfMap_frame k) as Hfr. destruct (inv_write_same s fd k _ Hinv Hk Hfr) as [Hi Hm].
  destruct (NewInMemoryBpfMap k) as [k' [m|e|w]] eqn:En; cbn [fst snd] in *.
  - intros [= <- <-]. pose proof (NewInMemoryBpfMap_spec k k' m En) as [_ Hcm].
    assert (client_inv (set_inMemory (insert (kind, d, id) (mkShadowMap fd (contents m))) (write_kmap fd k' s))) as Hinv'.
    { rewrite Hcm, <-Hfr. by apply inv_write_rules. }
    split; [done|]. split; [eapply only_maps_trans; [apply only_maps_write|apply only_maps_shadow]|].
    split; [by apply slot_contents_ext|]. intros sh [= <-]. apply lookup_insert_eq.
  - intros [= <- <-]. split; [done|]. split; [apply only_maps_write|]. split; [by apply slot_contents_ext|done].
  - intros [= <- <-]. split; [done|]. split; [apply only_maps_write|]. split; [by apply slot_contents_ext|done].
Qed.

Lemma refreshShadowMap_spec entries kind d id sh s s' r :
  client_inv s -> inMemoryMap s !! (kind, d, id) = Some sh ->
  refreshShadowMap entries kind d id sh s = (s', r) ->
  client_inv s' /\ only_maps s s' /\
  (forall i d' n, n ∈ pod_maps d' -> (i, d', n) <> (id, d, rule_map kind d) -> slot_contents s' i d' n = slot_contents s i d' n) /\
  (r = Ret tt -> exists m, entries = Ret m /\ installed deletes_succeed m (slot_contents s' id d (rule_map kind d))).
Proof.
  intros Hinv Hsh. destruct (inv_shadow s Hinv kind d id sh Hsh) as [Hs Hmc].
  unfold refreshShadowMap, mbind, ST_bind, lift, modify.
  destruct entries as [m|e|w];
    [|intros [= <- <-]; (split; [done|]; split; [apply only_maps_refl|]; done)..].
  unfold map_contents in Hmc. destruct (kmaps s !! sh_fd sh) as [k|] eqn:Ek; [|done]. cbn in Hmc. injection Hmc as Hkc.
  unfold with_kmap. rewrite Ek.
  destruct (BulkRefresh (mkInMemoryBpfMap k (sh_contents sh)) m) as [m' res] eqn:Eb.
  assert (deletes_succeed -> res = Ret tt -> kcontents (bpfMap m') = m) as Hex.
  { intros Hdel ->. pose proof (BulkRefresh_exact_gen (mkInMemoryBpfMap k (sh_contents sh)) m) as Hx.
    rewrite Eb in Hx. apply Hx; [by symmetry; exact Hkc|done|done]. }
  apply BulkRefresh_spec in Eb as (Hsync & _ & Hin); [|by symmetry; exact Hkc]. unfold in_sync in Hsync. cbn [fst snd].
  intros [= <- <-]. change (set_kernel _ (<[sh_fd sh := bpfMap m']> (kmaps s)) s) with (write_kmap (sh_fd sh) (bpfMap m') s).
  rewrite Hsync. split; [by apply inv_write_rules|].
  split; [eapply only_maps_trans; [apply only_maps_write|apply only_maps_shadow]|].
  change (slot_contents (set_inMemory _ ?t)) with (slot_contents t). split.
  - intros i d' n Hn Hne. rewrite (slot_contents_write s id d (rule_map kind d)) by auto with agent.
    rewrite decide_False; [done|naive_solver].
  - intros Hr. exists m. split; [done|]. rewrite (slot_contents_write s id d (rule_map kind d)) by auto with agent.
    rewrite decide_True by done. split; [|by intros Hd; apply Hex].
    rewrite <-Hsync. apply map_subseteq_spec. intros x v. by apply Hin.
Qed.

Lemma updateHook_spec kind id c entries d s s' r :
  client_inv s -> policyEndpointeBPFContext s !! id = Some c ->
  updateHook kind id c entries d s = (s', r) ->
  client_inv s' /\ only_maps s s' /\
  (forall i d' n, n ∈ pod_maps d' -> (i, d', n) <> (id, d, rule_map kind d) -> slot_contents s' i d' n = slot_contents s i d' n) /\
  (r = Ret None -> hook_on s id d = true -> exists m, entries d = Ret m /\ installed deletes_succeed m (slot_contents s' id d (rule_map kind d))).
Proof.
  intros Hinv Hc. unfold updateHook.
  assert (hook_on s id d = negb (ProgFD (pgmInfo d c) =? 0)) as Hh by (unfold hook_on; by rewrite Hc).
  destruct (ProgFD (pgmInfo d c) =? 0) eqn:Hp.
  { intros [= <- <-]. split; [done|]. split; [apply only_maps_refl|]. split; [done|]. by rewrite Hh. }
  unfold mbind, ST_bind, attempt.
  destruct (shadowMapForLocked kind d id _ s) as [s1 r1] eqn:E1.
  destruct (shadowMapForLocked_spec kind d id c s s1 r1 Hinv Hc Hp E1) as (Hi1 & Ho1 & Hs1 & Hsh1).
  assert (forall t, r <> Ret None -> (s', r) = (s1, t) -> client_inv s' /\ only_maps s s' /\
    (forall i d' n, n ∈ pod_maps d' -> (i, d', n) <> (id, d, rule_map kind d) -> slot_contents s' i d' n = slot_contents s i d' n) /\
    (r = Ret None -> hook_on s id d = true -> exists m, entries d = Ret m /\ installed deletes_succeed m (slot_contents s' id d (rule_map kind d)))) as Hfail.
  { intros t Hr [= -> ->]. split; [done|]. split; [done|]. split; [intros; apply Hs1|done]. }
  destruct r1 as [sh|e|w].
  - destruct (refreshShadowMap (entries d) kind d id sh s1) as [s2 r2] eqn:E2.
    destruct (refreshShadowMap_spec (entries d) kind d id sh s1 s2 r2 Hi1 (Hsh1 sh eq_refl) E2) as (Hi2 & Ho2 & Hs2 & Hin).
    assert (only_maps s s2) by (by eapply only_maps_trans).
    assert (forall i d' n, n ∈ pod_maps d' -> (i, d', n) <> (id, d, rule_map kind d) -> slot_contents s2 i d' n = slot_contents s i d' n)
      by (intros; rewrite Hs2 by done; apply Hs1).
    destruct r2 as [[]|e|w]; intros [= <- <-]; (split; [done|]; split; [done|]; split; [done|]); [|done..]. intros _ _. by apply Hin.
  - intros [= <- <-]. eapply Hfail; done.
  - intros [= <- <-]. eapply Hfail; done.
Qed.

(** What an update of the rule maps of a kind may change, and what it guarantees. *)
Definition rules_updated (kind : PolicyKind) (id : gostring) (entries : Direction -> outcome (gmap gostring gostring))
  s s' (r : outcome unit) : Prop :=
  client_inv s' /\ only_maps s s' /\
  (forall i d n, n ∈ pod_maps d -> (i <> id \/ n <> rule_map kind d) -> slot_contents s' i d n = slot_contents s i d n) /\
  (r = Ret tt -> is_Some (policyEndpointeBPFContext s !! id) /\
    forall d, hook_on s id d = true -> exists m, entries d = Ret m /\ installed deletes_succeed m (slot_contents s' id d (rule_map kind d))).

Lemma rules_unchanged kind id entries s r : client_inv s -> r <> Ret tt -> rules_updated kind id entries s s r.
Proof. intros Hinv Hr. split; [done|]. split; [apply only_maps_refl|]. by split. Qed.

Lemma both_hooks_spec kind id c entries s s' r :
  client_inv s -> policyEndpointeBPFContext s !! id = Some c ->
  (ingressErr ← updateHook kind id c entries ingress;
    egressErr ← updateHook kind id c entries egress;
    return_error (errors_Join ingressErr egressErr)) s = (s', r) ->
  rules_updated kind id entries s s' r.
Proof.
  intros Hinv Hc. unfold mbind, ST_bind.
  destruct (updateHook kind id c entries ingress s) as [s1 r1] eqn:E1.
  destruct (updateHook_spec kind id c entries ingress s s1 r1 Hinv Hc E1) as (Hi1 & Ho1 & Hs1 & Hin1).
  destruct (only_maps_facts s s1 Ho1) as (Hc1 & _ & Hh1 & _).
  destruct r1 as [e1|e|w]; [|intros [= <- <-]; split; [done|]; split; [done|]; split; [|done];
    intros i d n Hn Hne; apply Hs1; naive_solver..].
  destruct (updateHook kind id c entries egress s1) as [s2 r2] eqn:E2.
  rewrite <-Hc1 in Hc.
  destruct (updateHook_spec kind id c entries egress s1 s2 r2 Hi1 Hc E2) as (Hi2 & Ho2 & Hs2 & Hin2).
  assert (only_maps s s2) by (by eapply only_maps_trans).
  assert (forall i d n, n ∈ pod_maps d -> (i <> id \/ n <> rule_map kind d) -> slot_contents s2 i d n = slot_contents s i d n) as Hf.
  { intros i d n Hn Hne. rewrite Hs2, Hs1 by (done || naive_solver). done. }
  destruct r2 as [e2|e|w]; [|intros [= <- <-]; split; [done|]; split; [done|]; by split..].
  intros Hrun. assert (s' = s2) as -> by (by destruct (errors_Join e1 e2); injection Hrun as <- <-).
  split; [done|]. split; [done|]. split; [done|]. intros ->.
  assert (errors_Join e1 e2 = None) as Hj by (by destruct (errors_Join e1 e2)).
  apply errors_Join_None in Hj as [-> ->]. rewrite <-Hc1. split; [by rewrite Hc|]. intros [] Hh.
  - destruct (Hin1 eq_refl Hh) as (m & Hm & Hsub). exists m. split; [done|].
    rewrite Hs2 by (done || auto with agent). done.
  - apply Hin2; [done|]. by rewrite Hh1.
Qed.

Lemma updateRuleMaps_spec kind id ing egr s s' r :
  client_inv s -> updateRuleMaps kind id ing egr s = (s', r) ->
  rules_updated kind id (fun d => computeEntries (fwRuleProcessor s) kind (by_dir ing egr d)) s s' r.
Proof.
  intros Hinv. unfold updateRuleMaps, attempt, lift. unfold mbind at 1, ST_bind at 1, get at 1.
  unfold mbind at 1, ST_bind at 1. unfold mbind at 1, ST_bind at 1.
  set (ei := computeEntries (fwRuleProcessor s) kind ing). set (ee := computeEntries (fwRuleProcessor s) kind egr).
  assert (forall t, (s, t) = (s', r) -> t <> Ret tt ->
    rules_updated kind id (fun d => computeEntries (fwRuleProcessor s) kind (by_dir ing egr d)) s s' r) as Hsame.
  { intros t [= <- <-] Ht. by apply rules_unchanged. }
  assert (forall xi xe, xi = ei -> xe = ee ->
    match policyEndpointeBPFContext s !! id with
    | None => fail (go "no bpf context registered for pod " ++ id)
    | Some c => ingressErr ← updateHook kind id c (by_dir xi xe) ingress;
            egressErr ← updateHook kind id c (by_dir xi xe) egress;
            return_error (errors_Join ingressErr egressErr)
    end s = (s', r) ->
    rules_updated kind id (fun d => computeEntries (fwRuleProcessor s) kind (by_dir ing egr d)) s s' r) as Hgo.
  { intros xi xe -> ->. destruct (policyEndpointeBPFContext s !! id) as [c|] eqn:Ec; [|intros Hf; by eapply Hsame].
    intros Hrun. apply both_hooks_spec in Hrun as (H1' & H2' & H3' & H4'); [|done..].
    split; [done|]. split; [done|]. split; [done|]. intros Hr. destruct (H4' Hr) as [Hctx Hd]. split; [done|].
    intros d Hh. destruct (Hd d Hh) as (m & Hm & Hsub). exists m. split; [|done]. by destruct d. }
  destruct ei as [mi|e|w] eqn:Ei; [| |intros Hf; by eapply Hsame];
    (destruct ee as [me|e'|w] eqn:Ee; [| |intros Hf; by eapply Hsame]); apply Hgo; done.
Qed.

(** ** Attaching *)

(** The client invariant holds, and identifiers other than [podId] look as in [s0]. *)
Definition others_as (s0 : bpfClient) (podId : gostring) s : Prop :=
  client_inv s /\ fwRuleProcessor s = fwRuleProcessor s0 /\
  forall id d, id <> podId -> policyEndpointeBPFContext s !! id = policyEndpointeBPFContext s0 !! id /\
  forall n, n ∈ pod_maps d -> slot_contents s id d n = slot_contents s0 id d n.

Lemma others_as_refl s podId : client_inv s -> others_as s podId s.
Proof. by split. Qed.

Lemma client_inv_ext s s' :
  policyEndpointeBPFContext s' = policyEndpointeBPFContext s -> inMemoryMap s' = inMemoryMap s -> kmaps s' = kmaps s ->
  client_inv s -> client_inv s'.
Proof.
  intros Hc Hm Hk [Hz Ho Hu Hs]. assert (forall id d n, slot s' id d n = slot s id d n) as Hsl by (intros; unfold slot; by rewrite Hc).
  split; [by rewrite Hk|..].
  - intros id d n fd Hn. rewrite Hsl, Hk. by apply Ho.
  - intros id d n id' d' n' fd Hn Hn'. rewrite !Hsl. by apply Hu.
  - intros kind d id sh. rewrite Hm, Hsl. unfold map_contents. rewrite Hk. apply Hs.
Qed.

Lemma others_as_ext s0 podId s s' :
  policyEndpointeBPFContext s' = policyEndpointeBPFContext s -> inMemoryMap s' = inMemoryMap s -> kmaps s' = kmaps s ->
  fwRuleProcessor s' = fwRuleProcessor s -> others_as s0 podId s -> others_as s0 podId s'.
Proof.
  intros Hc Hm Hk Hf (Hinv & Hf0 & Ho). split; [by apply (client_inv_ext s)|]. split; [congruence|].
  intros id d Hid. destruct (Ho id d Hid) as [Hh Hs]. split; [by rewrite Hc|].
  intros n Hn. rewrite <-Hs by done. unfold slot_contents, slot, map_contents. by rewrite Hc, Hk.
Qed.

Lemma others_as_sdk_call s0 podId f : preserves (others_as s0 podId) (sdk_call f).
Proof. intros s Hs. unfold sdk_call. destruct (f (kernel_ext s)). by apply (others_as_ext s0 podId s). Qed.
Lemma others_as_modify s0 podId f :
  (forall s, policyEndpointeBPFContext (f s) = policyEndpointeBPFContext s /\ inMemoryMap (f s) = inMemoryMap s /\
    kmaps (f s) = kmaps s /\ fwRuleProcessor (f s) = fwRuleProcessor s) ->
  preserves (others_as s0 podId) (modify f).
Proof. intros Hf. apply preserves_modify. intros s Hs. destruct (Hf s) as (? & ? & ? & ?). by apply (others_as_ext s0 podId s). Qed.

Lemma map_contents_mono s x ms fd :
  kmaps s ⊆ ms -> is_Some (kmaps s !! fd) -> map_contents (set_kernel x ms s) fd = map_contents s fd.
Proof.
  intros Hsub [k Hk]. unfold map_contents. cbn. rewrite Hk. by rewrite (lookup_weaken _ _ _ _ Hk Hsub).
Qed.

(** Loading programs. *)
Lemma others_as_load s x ms podId :
  client_inv s -> kmaps s ⊆ ms -> (kmaps s !! 0 = None -> ms !! 0 = None) -> others_as s podId (set_kernel x ms s).
Proof.
  intros Hinv Hsub Hz. split.
  - split.
    + apply Hz, Hinv.
    + intros id d n fd Hn Hs. cbn. eapply lookup_weaken_is_Some; [by eapply (inv_open s Hinv)|done].
    + apply (inv_unshared s Hinv).
    + intros kind d id sh Hsh. destruct (inv_shadow s Hinv kind d id sh Hsh) as [Hx Hy]. split; [exact Hx|].
      rewrite map_contents_mono; [done|done|]. eapply (inv_open s Hinv); [|exact Hx]. auto with agent.
  - split; [done|]. intros id d Hid. split; [done|]. intros n Hn. unfold slot_contents.
    change (slot (set_kernel x ms s)) with (slot s). destruct (slot s id d n) as [fd|] eqn:E; [|done]. cbn.
    rewrite map_contents_mono; [done|done|]. by eapply (inv_open s Hinv).
Qed.

Lemma slot_set_context s podId d p x ms id d' n :
  let c := default zeroContext (policyEndpointeBPFContext s !! podId) in
  slot (set_context (insert podId (set_pgmInfo d p c)) (set_kernel x ms s)) id d' n =
  if decide (id = podId /\ d' = d) then (if ProgFD p =? 0 then None else Maps p !! n) else slot s id d' n.
Proof.
  intros c. unfold slot. cbn [policyEndpointeBPFContext set_context set_kernel].
  destruct (decide (id = podId)) as [->|Hne].
  - rewrite lookup_insert_eq. destruct (decide (podId = podId /\ d' = d)) as [[_ ->]|Hd].
    + by destruct d.
    + assert (pgmInfo d' (set_pgmInfo d p c) = pgmInfo d' c) as Hpi by (destruct d, d'; naive_solver).
      cbn [mbind option_bind]. rewrite Hpi. subst c. by destruct (policyEndpointeBPFContext s !! podId), d'.
  - rewrite lookup_insert_ne by done. by rewrite decide_False by naive_solver.
Qed.

Lemma others_as_new_program s podId d p x ms file progs :
  client_inv s -> LoadBpfFile file podId (kernel_ext s, kmaps s) = ((x, ms), Ret progs) ->
  let c := default zeroContext (policyEndpointeBPFContext s !! podId) in
  progs !! GetBPFPinPathFromPodIdentifier podId (dir_name d) = Some p -> ProgFD (pgmInfo d c) = 0 ->
  others_as s podId (set_context (insert podId (set_pgmInfo d p c)) (set_kernel x ms s)).
Proof.
  intros Hinv Hload c Hp Hfd. subst c. destruct (load_law _ _ _ _ _ _ _ Hload) as (Hsub & Hz & Hnew).
  set (s' := set_context _ _).
  assert (forall n fd, n ∈ pod_maps d -> Maps p !! n = Some fd -> kmaps s !! fd = None /\ is_Some (ms !! fd)) as Hfresh.
  { intros n fd Hn Hfd'. destruct (Hnew progs _ p d n fd eq_refl Hp Hn Hfd') as (A1 & A2 & _). done. }
  assert (forall id d' n, n ∈ pod_maps d' -> id = podId /\ d' = d -> slot s id d' n = None) as Hold.
  { intros id d' n Hn [-> ->]. unfold slot. destruct (policyEndpointeBPFContext s !! podId) as [c0|]; [|done].
    cbn in *. by rewrite Hfd. }
  split; [split|].
  - apply Hz, Hinv.
  - intros id d' n fd Hn. unfold s'. rewrite slot_set_context. case_decide as Hd.
    + destruct Hd as [-> ->]. destruct (ProgFD p =? 0); [done|]. intros Hfd'. by eapply Hfresh.
    + intros Hs. cbn. eapply lookup_weaken_is_Some; [by eapply (inv_open s Hinv)|done].
  - intros id d1 n1 id' d2 n2 fd Hn1 Hn2. unfold s'. rewrite !slot_set_context.
    case_decide as Ha; case_decide as Hb.
    + destruct Ha as [-> ->], Hb as [-> ->]. destruct (ProgFD p =? 0); [done|]. intros Hm1 Hm2.
      destruct (Hnew progs _ p d n1 fd eq_refl Hp Hn1 Hm1) as (_ & _ & Huniq).
      destruct (Huniq _ p d n2 Hp Hn2 Hm2) as [_ ->]. done.
    + destruct Ha as [-> ->]. destruct (ProgFD p =? 0); [done|]. intros Hm1 Hs2.
      destruct (Hfresh n1 fd Hn1 Hm1) as [Hnone _]. destruct (inv_open s Hinv _ _ _ _ Hn2 Hs2) as [? ?]. congruence.
    + destruct Hb as [-> ->]. destruct (ProgFD p =? 0); [done|]. intros Hs1 Hm2.
      destruct (Hfresh n2 fd Hn2 Hm2) as [Hnone _]. destruct (inv_open s Hinv _ _ _ _ Hn1 Hs1) as [? ?]. congruence.
    + by apply (inv_unshared s Hinv).
  - intros kind d' id sh Hsh. change (inMemoryMap s') with (inMemoryMap s) in Hsh.
    destruct (inv_shadow s Hinv kind d' id sh Hsh) as [Hx Hy]. unfold s'. rewrite slot_set_context. rewrite decide_False.
    2:{ intros Hd. rewrite (Hold id d' (rule_map kind d') ltac:(auto with agent) Hd) in Hx. done. }
  split; [done|]. change (map_contents (set_kernel x ms s) (sh_fd sh) = Some (sh_contents sh)).
  rewrite map_contents_mono; [done|done|]. eapply (inv_open s Hinv); [|exact Hx]. auto with agent.
  - split; [done|]. intros id d' Hid. split; [unfold s'; cbn; by rewrite lookup_insert_ne|].
    intros n Hn. unfold slot_contents, s'. rewrite slot_set_context. rewrite decide_False by naive_solver.
    destruct (slot s id d' n) as [fd|] eqn:E; [|done]. cbn.
    change (default ∅ (map_contents (set_kernel x ms s) fd) = default ∅ (map_contents s fd)).
    rewrite map_contents_mono; [done|done|]. by eapply (inv_open s Hinv).
Qed.

Lemma others_as_trans s0 podId s s' : others_as s0 podId s -> others_as s podId s' -> others_as s0 podId s'.
Proof.
  intros (_ & Hf & Ho) (Hi & Hf' & Ho'). split; [done|]. split; [congruence|]. intros id d Hid.
  destruct (Ho id d Hid) as [Ha Hb], (Ho' id d Hid) as [Ha' Hb']. split; [congruence|].
  intros n Hn. rewrite Hb' by done. by apply Hb.
Qed.

(** Loading a program, and what it returns. *)
Lemma loadBPFProgram_run file d podId s :
  let '((x, ms), r) := LoadBpfFile file podId (kernel_ext s, kmaps s) in
  fst (loadBPFProgram file d podId s) = set_kernel x ms s /\
  forall progs fd, snd (loadBPFProgram file d podId s) = Ret (progs, fd) ->
  r = Ret progs /\ exists p, progs !! GetBPFPinPathFromPodIdentifier podId (dir_name d) = Some p /\ ProgFD p = fd /\ fd <> 0.
Proof.
  unfold loadBPFProgram, mbind, ST_bind. destruct (LoadBpfFile file podId _) as [[x ms] [progs|e|w]]; [|done..].
  destruct (progs !! _) as [p|] eqn:Ep; [|done]. destruct (ProgFD p =? 0) eqn:E0; [done|].
  apply Z.eqb_neq in E0. case_decide; [done|]. split; [done|]. intros progs' fd [= <- <-]. eauto.
Qed.

Lemma ensureProgram_others s0 podId d : preserves (others_as s0 podId) (ensureProgram d podId).
Proof.
  intros s Hs. unfold ensureProgram, mbind, ST_bind, get.
  destruct (ProgFD (pgmInfo d _) =? 0) eqn:E0; cbn [negb]; [|done]. apply Z.eqb_eq in E0.
  pose proof (loadBPFProgram_run (probeBinary s d) d podId s) as Hl.
  destruct (LoadBpfFile _ _ _) as [[x ms] res] eqn:El. destruct Hl as [Hst Hret].
  pose proof (load_law _ _ _ _ _ _ _ El) as (Hsub & Hz & _). pose proof Hs as (Hinv & _ & _).
  destruct (loadBPFProgram _ _ _ s) as [s1 [[progs fd]|e|w]]; cbn in Hst; subst s1; cbn [fst];
    [|eapply others_as_trans; [done|]; by apply others_as_load..].
  destruct (Hret progs fd eq_refl) as (-> & p & Hp & _). rewrite Hp. eapply others_as_trans; [done|].
  by eapply others_as_new_program.
Qed.

Lemma attachBPFProbe_others s0 podId d veth : preserves (others_as s0 podId) (attachBPFProbe d veth podId).
Proof.
  pose proof (ensureProgram_others s0 podId). pose proof (others_as_sdk_call s0 podId).
  unfold attachBPFProbe, attachFilter. preserve.
Qed.

Lemma recordPod_others s0 podId d pod fd : preserves (others_as s0 podId) (recordPod d pod fd).
Proof. unfold recordPod. preserve; by apply others_as_modify. Qed.

Lemma attach_others s0 pod podId n live : preserves (others_as s0 podId) (bpf_AttacheBPFProbes pod podId n live).
Proof.
  assert (preserves (others_as s0 podId) get) by (intros s Hs; exact Hs).
  assert (forall a b i, preserves (others_as s0 podId) (GetHostVethName a b i)) by (intros a b i s Hs; exact Hs).
  assert (forall f, preserves (others_as s0 podId) (modify (set_deletedPods f))) by (intros; by apply others_as_modify).
  pose proof (attachBPFProbe_others s0 podId). pose proof (recordPod_others s0 podId).
  unfold bpf_AttacheBPFProbes, attachInterface, attachIngressBPFProbe, attachEgressBPFProbe. preserve.
Qed.
End facts.

(** * The client keeps its promises *)
Section promises.
Context `{!BpfMapSDK, !BpfSDK, !MapOrder}.

Lemma view_same s s' id :
  (forall d, hook_on s' id d = hook_on s id d) ->
  (forall d n, n ∈ pod_maps d -> slot_contents s' id d n = slot_contents s id d n) ->
  same_at id (client_view s) (client_view s').
Proof.
  intros Hh Hs d. split; [apply Hh|]. split.
  - intros key. cbn. by rewrite Hs by auto with agent.
  - intros kind. cbn. by rewrite Hs by auto with agent.
Qed.

Lemma u8_byte z : byte.unsigned (byte.of_Z (u8 z)) = u8 z.
Proof. rewrite byte.unsigned_of_Z. unfold byte.wrap. apply Z.mod_small. unfold u8. apply Z.mod_pos_bound. lia. Qed.

Lemma le32_key k key : k = u32 k -> le32 k = le32 (u32 key) <-> k = u32 key.
Proof.
  intros Hk. split; [|by intros ->]. intros Heq. apply le32_inj in Heq. unfold u32 in *.
  rewrite Z.mod_mod in Heq by lia. congruence.
Qed.

(** Reading a pod state from the contents of the map. *)
Lemma pod_state_read s id d key :
  pod_states (client_view s) id d key =
  if decide (key = u32 key)
  then state_of <$> slot_contents s id d (pod_state_map d) !! le32 key else None.
Proof. done. Qed.

Definition state_value (state : Z) : gostring := [byte.of_Z (u8 state)].

Lemma read_insert (key state k : Z) (m : gmap gostring gostring) :
  k = u32 k ->
  state_of <$> <[le32 (u32 key) := state_value state]> m !! le32 k =
  if bool_decide (k = u32 key) then Some (u8 state) else state_of <$> m !! le32 k.
Proof.
  intros Hk. destruct (bool_decide_reflect (k = u32 key)) as [Heq|Hne].
  - rewrite <-(proj2 (le32_key k key Hk) Heq), lookup_insert_eq. unfold state_of, state_value. cbn. by rewrite u8_byte.
  - rewrite lookup_insert_ne; [done|]. intros Hc. apply Hne. by apply le32_key.
Qed.

Lemma bool_decide_key k key : k <> u32 k -> bool_decide (k = u32 key) = false.
Proof. intros Hk. apply bool_decide_eq_false_2. intros ->. apply Hk. unfold u32. by rewrite Z.mod_mod by lia. Qed.

#[global] Program Instance bpfClient_spec (now : Z) : @BpfClientSpec bpfClient (bpfClient_ops now) := {|
    bc_inv := client_inv;
    bc_exact := deletes_succeed;
    bc_view := client_view;
    bc_entries := fun s kind rules => computeEntries (fwRuleProcessor s) kind rules
    |}.
Next Obligation.
  intros now b pod podId n live Hinv b'.
  destruct (attach_others b pod podId n live b (others_as_refl b podId Hinv)) as (Hi & Hf & Ho).
  subst b'. cbn [AttacheBPFProbes bpfClient_ops]. split; [done|]. split; [by rewrite Hf|]. intros id Hid. destruct (Ho id ingress Hid) as [Hc _]. split.
  - apply view_same; intros d; [unfold hook_on; by rewrite Hc|]. intros n'. by apply (Ho id d Hid).
  - cbn. unfold bpf_HasBPFContext. by rewrite Hc.
Qed.
Next Obligation.
  intros now m b podId Hm Hinv b'.
  assert (forall s', client_inv s' -> policyEndpointeBPFContext s' = policyEndpointeBPFContext b -> fwRuleProcessor s' = fwRuleProcessor b ->
    (forall i d n, n ∈ pod_maps d -> i <> podId -> slot_contents s' i d n = slot_contents b i d n) ->
    client_inv s' /\ (fun kind rules => computeEntries (fwRuleProcessor s') kind rules) = (fun kind rules => computeEntries (fwRuleProcessor b) kind rules) /\
    (forall id d, hooked (client_view s') id d = hooked (client_view b) id d) /\
    (forall id, bpf_HasBPFContext id s' = bpf_HasBPFContext id b) /\
    (forall id, id <> podId -> same_at id (client_view b) (client_view s'))) as Hgo.
  { intros s' Hi Hc Hf Hs. assert (forall id d, hook_on s' id d = hook_on b id d) as Hh by (intros; unfold hook_on; by rewrite Hc).
    split; [done|]. split; [by rewrite Hf|]. split; [done|]. split; [intros; unfold bpf_HasBPFContext; by rewrite Hc|].
    intros id Hid. apply view_same; [done|]. intros. by apply Hs. }
  subst b'.
  destruct Hm as [(key & state & uI & uE & ->)|[(key & state & ->)|[(ing & egr & ->)|(ing & egr & ->)]]]; cbn.
  - destruct (bpf_UpdatePodStateEbpfMaps _ _ _ _ _ b) as [s' r] eqn:E.
    apply (podStateMaps_spec _ _ (fun k v m => <[k := v]> m)) in E as (Hi & (x & ms & ->) & Hs & _); [|exact create_update_law|done].
    apply Hgo; [done..|]. intros. by apply Hs.
  - destruct (bpf_CreatePodStateEbpfEntryIfNotExists _ _ _ b) as [s' r] eqn:E.
    apply (podStateMaps_spec _ _ (fun k v m => match m !! k with Some _ => m | None => <[k := v]> m end))
      in E as (Hi & (x & ms & ->) & Hs & _); [|exact create_law|done].
    apply Hgo; [done..|]. intros. by apply Hs.
  - destruct (bpf_UpdateEbpfMaps _ _ _ b) as [s' r] eqn:E.
    apply updateRuleMaps_spec in E as (Hi & Hm & Hs & _); [|done]. destruct (only_maps_facts _ _ Hm) as (Hc & Hf & _).
    apply Hgo; [done..|]. intros. apply Hs; auto.
  - destruct (bpf_UpdateClusterPolicyEbpfMaps _ _ _ b) as [s' r] eqn:E.
    apply updateRuleMaps_spec in E as (Hi & Hm & Hs & _); [|done]. destruct (only_maps_facts _ _ Hm) as (Hc & Hf & _).
    apply Hgo; [done..|]. intros. apply Hs; auto.
Qed.
Next Obligation.
  intros now b podId key state uI uE b' Hinv Hrun.
  apply (podStateMaps_spec _ _ (fun k v m => <[k := v]> m)) in Hrun as (_ & _ & _ & Hret); [|exact create_update_law|done].
  destruct (Hret eq_refl) as [Hctx Hs]. split; [by apply bool_decide_eq_true_2|]. split.
  - intros d k. rewrite !pod_state_read. rewrite Hs by auto with agent.
    rewrite (bool_decide_eq_true_2 (pod_state_map d = pod_state_map d)) by done. rewrite andb_true_r. cbn [hooked client_view].
    destruct (decide (k = u32 k)) as [Hk|Hk]; [|by rewrite bool_decide_key].
    rewrite <-andb_assoc. destruct (by_dir uI uE d && hook_on b podId d); [|by rewrite andb_false_r].
    rewrite andb_true_r. by apply read_insert.
  - intros kind d. cbn. rewrite Hs by auto with agent.
    rewrite (bool_decide_eq_false_2 (rule_map kind d = _)) by apply rule_not_state. by rewrite andb_false_r.
Qed.
Next Obligation.
  intros now b podId key state b' Hinv Hrun.
  apply (podStateMaps_spec _ _ (fun k v m => match m !! k with Some _ => m | None => <[k := v]> m end))
    in Hrun as (_ & _ & _ & Hret); [|exact create_law|done].
  destruct (Hret eq_refl) as [Hctx Hs]. split; [by apply bool_decide_eq_true_2|]. split.
  - intros d k. rewrite !pod_state_read. rewrite Hs by auto with agent.
    rewrite (bool_decide_eq_true_2 (pod_state_map d = pod_state_map d)) by done. rewrite andb_true_r. cbn [hooked client_view].
    replace (by_dir true true d) with true by by destruct d. cbn [andb].
    destruct (decide (k = u32 k)) as [Hk|Hk]; [|by rewrite bool_decide_key].
    destruct (hook_on b podId d); [|rewrite andb_false_r; by destruct (state_of <$> _)]. rewrite andb_true_r.
    destruct (slot_contents b podId d (pod_state_map d) !! le32 (u32 key)) as [v|] eqn:Ev.
    + destruct (slot_contents b podId d (pod_state_map d) !! le32 k) as [v'|] eqn:Ek; [done|]. cbn.
      rewrite bool_decide_eq_false_2; [done|]. intros Heq. rewrite (proj2 (le32_key k key Hk) Heq) in Ek. congruence.
    + rewrite (read_insert key state k _ Hk). destruct (bool_decide_reflect (k = u32 key)) as [Heq|Hne].
      * by rewrite (proj2 (le32_key k key Hk) Heq), Ev.
      * by destruct (state_of <$> _).
  - intros kind d. cbn. rewrite Hs by auto with agent.
    rewrite (bool_decide_eq_false_2 (rule_map kind d = _)) by apply rule_not_state. by rewrite andb_false_r.
Qed.
Next Obligation.
  intros now b podId ing egr b' Hinv Hrun.
  apply updateRuleMaps_spec in Hrun as (_ & _ & Hs & Hret); [|done]. destruct (Hret eq_refl) as [Hctx Hd].
  split; [by apply bool_decide_eq_true_2|]. split; [exact Hd|]. split.
  - intros d. apply (Hs podId d (rule_map ClusterPolicy d)); [auto with agent|]. right. intros Heq. by apply rule_map_inj in Heq.
  - intros d key. rewrite !pod_state_read. rewrite Hs; [done|auto with agent|]. right. intros Heq. symmetry in Heq.
    by apply rule_not_state in Heq.
Qed.
Next Obligation.
  intros now b podId ing egr b' Hinv Hrun.
  apply updateRuleMaps_spec in Hrun as (_ & _ & Hs & Hret); [|done]. destruct (Hret eq_refl) as [Hctx Hd].
  split; [by apply bool_decide_eq_true_2|]. split; [exact Hd|]. split.
  - intros d. apply (Hs podId d (rule_map NamespacePolicy d)); [auto with agent|]. right. intros Heq. by apply rule_map_inj in Heq.
  - intros d key. rewrite !pod_state_read. rewrite Hs; [done|auto with agent|]. right. intros Heq. symmetry in Heq.
    by apply rule_not_state in Heq.
Qed.
Next Obligation.
  intros now b podId ing egr key state uI uE Hinv. cbn. split_and!.
  - destruct (bpf_UpdateEbpfMaps _ _ _ b) as [s' r] eqn:E. by apply updateRuleMaps_spec in E as (_ & (im & x & ms & ->) & _).
  - destruct (bpf_UpdatePodStateEbpfMaps _ _ _ _ _ b) as [s' r] eqn:E.
    by apply (podStateMaps_spec _ _ (fun k v m => <[k := v]> m)) in E as (_ & (x & ms & ->) & _); [|exact create_update_law|].
  - destruct (bpf_CreatePodStateEbpfEntryIfNotExists _ _ _ b) as [s' r] eqn:E.
    by apply (podStateMaps_spec _ _ (fun k v m => match m !! k with Some _ => m | None => <[k := v]> m end)) in E as (_ & (x & ms & ->) & _); [|exact create_law|].
Qed.
End promises.
