(* ===== verification/BpfClientTables.v ===== *)
(** Attaching and deleting pods: the tables from pods to programs and back stay consistent
    with the loaded programs, and a deleted pod takes the programs of its identifier away
    exactly when no other pod uses them. *)
From S2P Require Import Prelude ApiTypes Utils UtilsFacts FwRules Datapath MemMap Effects BpfInterface BpfClient BpfClientFacts.

Section tables.
Context `{!BpfMapSDK, !BpfSDK, !MapOrder}.
Implicit Types s : bpfClient.

(** The descriptor of the identifier's program for a direction, 0 if there is none. *)
Definition prog s (id : gostring) (d : Direction) : Z :=
  match policyEndpointeBPFContext s !! id with Some c => ProgFD (pgmInfo d c) | None => 0 end.

Definition pod_key (nn : NamespacedName) : gostring := GetPodNamespacedName (Name nn) (Namespace nn).
Definition pod_id (nn : NamespacedName) : gostring := GetPodIdentifier (Name nn) (Namespace nn).
(** Kubernetes names have no underscore. *)
Definition valid_name (nn : NamespacedName) : Prop := "_"%byte ∉ Namespace nn.

Lemma pod_key_inj nn nn' : valid_name nn -> valid_name nn' -> pod_key nn = pod_key nn' -> nn = nn'.
Proof.
  unfold pod_key, GetPodNamespacedName. intros Hv Hv' Heq. destruct nn, nn'. cbn in *.
  apply (app_sep_inj "_"%byte) in Heq as [-> ->]; done.
Qed.

Record tables_ok s : Prop := mkTablesOk {
  t_sets : forall d pod fd, podToProgMap s !! (d, pod) = Some fd <->
  exists set, progToPodsMap s !! (d, fd) = Some set /\ pod ∈ set;
  t_pairs : forall pod, is_Some (podToProgMap s !! (ingress, pod)) <-> is_Some (podToProgMap s !! (egress, pod));
  t_linked : forall d nn fd, valid_name nn -> podToProgMap s !! (d, pod_key nn) = Some fd ->
  prog s (pod_id nn) d = fd /\ fd <> 0
}.

(** Nothing but new programs and the kernel. *)
Definition grows s s' : Prop :=
  podToProgMap s' = podToProgMap s /\ progToPodsMap s' = progToPodsMap s /\
  deletedPods s' = deletedPods s /\ forall id d, prog s id d <> 0 -> prog s' id d = prog s id d.

Lemma grows_refl s : grows s s.
Proof. by repeat split. Qed.
Lemma grows_trans s1 s2 s3 : grows s1 s2 -> grows s2 s3 -> grows s1 s3.
Proof.
  intros (A1 & A2 & A3 & A4) (B1 & B2 & B3 & B4). split; [congruence|]. split; [congruence|]. split; [congruence|].
  intros id d Hp. rewrite <-(A4 id d Hp). apply B4. by rewrite A4.
Qed.

Lemma grows_sdk_call f s : grows s (fst (sdk_call f s)).
Proof. unfold sdk_call. destruct (f (kernel_ext s)). by repeat split. Qed.

Lemma grows_attachFilter d veth fd s : grows s (fst (attachFilter d veth fd s)).
Proof.
  assert (preserves (grows s) (attachFilter d veth fd)) as Hp; [|apply Hp, grows_refl].
  assert (forall f, preserves (grows s) (sdk_call f)) by (intros f s1 Hs; eapply grows_trans; [exact Hs|apply grows_sdk_call]).
  unfold attachFilter. preserve.
Qed.

Lemma ensureProgram_grows d podId s s' r :
  ensureProgram d podId s = (s', r) ->
  grows s s' /\ forall fd, r = Ret fd -> prog s' podId d = fd /\ fd <> 0.
Proof.
  unfold ensureProgram, mbind, ST_bind, get. set (c := default _ _).
  assert (ProgFD (pgmInfo d c) = prog s podId d) as Hc.
  { unfold prog, c. destruct (policyEndpointeBPFContext s !! podId); [done|]. by destruct d. }
  rewrite Hc. destruct (prog s podId d =? 0) eqn:E0; cbn [negb].
  2:{ intros [= <- <-]. split; [apply grows_refl|]. intros fd [= <-]. apply Z.eqb_neq in E0. done. }
  apply Z.eqb_eq in E0. pose proof (loadBPFProgram_run (probeBinary s d) d podId s) as Hl.
  destruct (LoadBpfFile _ _ _) as [[x ms] res]. destruct Hl as [Hst Hret].
  assert (grows s (set_kernel x ms s)) by by repeat split.
  destruct (loadBPFProgram _ _ _ s) as [s1 [[progs fd]|e|w]]; cbn in Hst; subst s1;
    [|by intros [= <- <-]..].
  destruct (Hret progs fd eq_refl) as (_ & p & Hp & Hfd & Hne). rewrite Hp. intros [= <- <-]. split.
  - split; [done|]. split; [done|]. split; [done|]. intros id d' Hold. unfold prog in *. cbn in *.
    destruct (decide (id = podId)) as [->|Hi]; [|by rewrite lookup_insert_ne].
    rewrite lookup_insert_eq. subst c. destruct (policyEndpointeBPFContext s !! podId) as [c0|]; [|done].
    cbn in *. destruct d, d'; done.
  - intros fd' [= <-]. unfold prog. cbn. rewrite lookup_insert_eq. split; [|done]. by destruct d.
Qed.

Lemma attachBPFProbe_grows d veth podId s s' r :
  attachBPFProbe d veth podId s = (s', r) ->
  grows s s' /\ forall fd, r = Ret fd -> prog s' podId d = fd /\ fd <> 0.
Proof.
  unfold attachBPFProbe, mbind, ST_bind. destruct (ensureProgram d podId s) as [s1 r1] eqn:E1.
  apply ensureProgram_grows in E1 as [Hg Hr]. destruct r1 as [fd|e|w]; [|by intros [= <- <-]..].
  pose proof (grows_attachFilter d veth fd s1) as Hf.
  destruct (attachFilter d veth fd s1) as [s2 r2]. cbn in Hf. destruct (Hr fd eq_refl) as [Hp Hne].
  destruct r2 as [[]|e|w]; intros [= <- <-]; (split; [by eapply grows_trans|]); [|done..].
  intros fd' [= <-]. split; [|done]. destruct Hf as (_ & _ & _ & Hf). rewrite Hf; congruence.
Qed.

(** The loop over the interfaces. *)
Definition loop_done (attached : Direction -> bool) (podId : gostring) s (fds : Z * Z) : Prop :=
  forall d, attached d = false -> prog s podId d = by_dir (fst fds) (snd fds) d /\ prog s podId d <> 0.

Lemma attachInterface_grows pod podId attached fds i s s' r :
  attachInterface pod podId attached fds i s = (s', r) ->
  grows s s' /\ forall fds', r = Ret fds' -> loop_done attached podId s' fds'.
Proof.
  unfold attachInterface, mbind, ST_bind, GetHostVethName. pose proof (grows_refl s).
  destruct (firstLink _ _ _) as [veth|e|w]; [|by intros [= <- <-]..].
  assert (forall (d : Direction) (b : bool) t (fd0 : Z) t' r', (if b then mret fd0 else attachBPFProbe d veth podId) t = (t', r') ->
    grows t t' /\ forall fd, r' = Ret fd -> b = false -> prog t' podId d = fd /\ fd <> 0) as Hone.
  { intros d b t fd0 t' r'. destruct b; [intros [= <- <-]; split; [apply grows_refl|done]|].
    intros Hrun. apply attachBPFProbe_grows in Hrun as [Hg Hr]. split; [done|]. intros fd Hfd _. by apply Hr. }
  match goal with |- context [(if attached ingress then ?a else ?b) ?t] =>
    destruct ((if attached ingress then a else b) t) as [s1 r1] eqn:E1 end. apply Hone in E1 as [Hg1 Hr1].
  destruct r1 as [fi|e|w]; [|by intros [= <- <-]..].
  match goal with |- context [(if attached egress then ?a else ?b) ?t] =>
    destruct ((if attached egress then a else b) t) as [s2 r2] eqn:E2 end. apply Hone in E2 as [Hg2 Hr2].
  assert (grows s s2) by (by eapply grows_trans).
  destruct r2 as [fe|e|w]; [|by intros [= <- <-]..]. intros [= <- <-]. split; [done|].
  intros fds' [= <-] [] Hd; cbn [by_dir fst snd].
  - destruct (Hr1 fi eq_refl Hd) as [Hp Hne]. destruct Hg2 as (_ & _ & _ & Hk). rewrite Hk by congruence. split; congruence.
  - destruct (Hr2 fe eq_refl Hd) as [Hp Hne]. split; congruence.
Qed.

Lemma interfaces_grow pod podId attached n s s' r :
  fold_each (attachInterface pod podId attached) (seq 0 n) (0, 0) s = (s', r) ->
  grows s s' /\ forall fds, r = Ret fds -> (0 < n)%nat -> loop_done attached podId s' fds.
Proof.
  assert (wp (fold_each (attachInterface pod podId attached) (seq 0 n) (0, 0)) s
    (fun s' r => match r with
             | Ret fds => grows s s' /\ ((seq 0 n) <> [] -> loop_done attached podId s' fds)
             | _ => grows s s'
             end)) as Hwp.
  { eapply wp_mono; [apply (wp_fold_each _ (fun l fds t => grows s t /\ (l <> [] -> loop_done attached podId t fds))
      (fun t _ => grows s t) (seq 0 n) []); [split; [apply grows_refl|done]|]|by intros t [fds|e|w]].
    intros l i fds t [Hg _] _. unfold wp. destruct (attachInterface _ _ _ fds i t) as [t' res] eqn:E.
    apply attachInterface_grows in E as [Hg' Hd]. assert (grows s t') by (by eapply grows_trans).
    destruct res as [fds'|e|w]; [|done..]. split; [done|]. intros _. by apply Hd. }
  intros Hrun. eapply wp_intro in Hwp; [|exact Hrun]. destruct r as [fds|e|w].
  - destruct Hwp as [Hg Hd]. split; [done|]. intros fds' [= <-] Hn. apply Hd. by destruct n; [lia|].
  - by split.
  - by split.
Qed.

(** ** Recording and forgetting one pod *)
Definition sets_ok s : Prop := forall d pod fd, podToProgMap s !! (d, pod) = Some fd <->
  exists set, progToPodsMap s !! (d, fd) = Some set /\ pod ∈ set.

Definition record1 (d : Direction) (pod : gostring) (fd : Z) s : bpfClient := fst (recordPod d pod fd s).

Lemma record1_lookup d pod fd s k : podToProgMap (record1 d pod fd s) !! k = if decide ((d, pod) = k) then Some fd else podToProgMap s !! k.
Proof.
  change (podToProgMap (record1 d pod fd s)) with (<[(d, pod) := fd]> (podToProgMap s)).
  case_decide as E; [subst; by rewrite lookup_insert_eq|by rewrite lookup_insert_ne].
Qed.

Lemma record1_sets d pod fd s : sets_ok s -> podToProgMap s !! (d, pod) = None -> sets_ok (record1 d pod fd s).
Proof.
  unfold sets_ok. intros Hs Hnone d' pod' fd'. rewrite record1_lookup. cbn [record1 recordPod progToPodsMap].
  change (progToPodsMap (record1 d pod fd s)) with
    (<[(d, fd) := {[pod]} ∪ default ∅ (progToPodsMap s !! (d, fd))]> (progToPodsMap s)).
  destruct (decide ((d, fd) = (d', fd'))) as [[= <- <-]|Hne].
  - rewrite lookup_insert_eq. case_decide as Ek; [injection Ek as <-; split; [intros _; eexists; split; [done|set_solver]|done]|].
    rewrite Hs. assert (pod' <> pod) by congruence. split.
    + intros (set & Hset & Hin). eexists. split; [done|]. rewrite Hset. cbn. set_solver.
    + intros (set & [= <-] & Hin). destruct (progToPodsMap s !! (d, fd)) as [st|]; cbn in Hin; [|set_solver].
      exists st. split; [done|]. set_solver.
  - rewrite lookup_insert_ne by done. case_decide as Ek; [|apply Hs]. injection Ek as <- <-. split.
    + intros [= ->]. done.
    + intros Hx. apply Hs in Hx. congruence.
Qed.

Lemma forget_lookup d nn s k :
  podToProgMap (deletePodFromProgPodCaches d (Name nn) (Namespace nn) s) !! k =
  if decide ((d, pod_key nn) = k) then None else podToProgMap s !! k.
Proof.
  unfold deletePodFromProgPodCaches. fold (pod_key nn). destruct (podToProgMap s !! (d, pod_key nn)) as [fd|] eqn:E.
  - assert (forall t f, podToProgMap (set_progToPods f t) = podToProgMap t) as Hp by done.
    case_match; rewrite ?Hp; cbn; (case_decide as Ek; [subst k; by rewrite lookup_delete_eq|by rewrite lookup_delete_ne]).
  - case_decide as Ek; [by subst k|done].
Qed.

Lemma forget_sets d nn s : sets_ok s -> sets_ok (deletePodFromProgPodCaches d (Name nn) (Namespace nn) s).
Proof.
  unfold sets_ok. intros Hs d' pod' fd'. rewrite forget_lookup. unfold deletePodFromProgPodCaches. fold (pod_key nn).
  destruct (podToProgMap s !! (d, pod_key nn)) as [fd|] eqn:E.
  2:{ case_decide as Ek; [|apply Hs]. injection Ek as <- <-. rewrite <-Hs, E. done. }
  destruct (proj1 (Hs _ _ _) E) as (st & Hst & Hin). cbn [set_podToProg progToPodsMap]. rewrite Hst.
  assert (forall f t, progToPodsMap (set_progToPods f t) = f (progToPodsMap t)) as Hp by done. rewrite Hp. clear Hp.
  cbn [set_podToProg progToPodsMap].
  destruct (decide ((d, fd) = (d', fd'))) as [[= <- <-]|Hne].
  - transitivity (pod' ∈ st /\ pod' <> pod_key nn).
    + case_decide as Ek; [naive_solver|]. rewrite Hs, Hst. split; [intros (? & [= <-] & ?); split; [done|congruence]|naive_solver].
    + case_decide as Ee; [rewrite lookup_delete_eq|rewrite lookup_insert_eq].
      * split; [|naive_solver]. intros [Hp1 Hp2]. assert (pod' ∈ st ∖ {[pod_key nn]}) as Hp3 by set_solver.
        rewrite Ee in Hp3. by apply not_elem_of_empty in Hp3.
      * split; [intros [Hp1 Hp2]; eexists; split; [done|set_solver]|]. intros (st' & [= <-] & Hp1). set_solver.
  - transitivity (podToProgMap s !! (d', pod') = Some fd').
    + case_decide as Ek; [|done]. split; [done|]. injection Ek as <- <-. intros Hx. congruence.
    + rewrite Hs. case_decide; [by rewrite lookup_delete_ne|by rewrite lookup_insert_ne].
Qed.

Lemma tables_grow s s' : tables_ok s -> grows s s' -> tables_ok s'.
Proof.
  intros [Hs Hp Hl] (Hm & Hm' & _ & Hg). split; [rewrite Hm, Hm'; exact Hs|rewrite Hm; exact Hp|].
  intros d nn fd Hv. rewrite Hm. intros Hfd. destruct (Hl d nn fd Hv Hfd) as [Hp' Hne]. split; [|done]. rewrite Hg; congruence.
Qed.

Lemma count_positive s nn n c : getInterfaceCountForPod s nn n = Ret c -> 0 < c.
Proof.
  unfold getInterfaceCountForPod. destruct (Z.ltb_spec 0 n); [intros [= <-]; done|].
  destruct (isMultiNICEnabled s); cbn; [|by intros [= <-]]. destruct (getInterfaceCountFromBackupFile s nn) as [k|e|w]; [|done..].
  destruct (Z.ltb_spec 0 k); [|done]. by intros [= <-].
Qed.

Lemma attached_both s nn : tables_ok s ->
  isEBPFProbeAttached s (Name nn) (Namespace nn) ingress = isEBPFProbeAttached s (Name nn) (Namespace nn) egress.
Proof. intros Hok. unfold isEBPFProbeAttached. apply bool_decide_ext. apply (t_pairs s Hok). Qed.

(** Recording the pod in both directions. *)
Lemma record_both_ok s nn fi fe :
  tables_ok s -> valid_name nn -> (forall d, podToProgMap s !! (d, pod_key nn) = None) ->
  (forall d, prog s (pod_id nn) d = by_dir fi fe d /\ prog s (pod_id nn) d <> 0) ->
  let s' := record1 egress (pod_key nn) fe (record1 ingress (pod_key nn) fi s) in
  tables_ok s' /\ forall d, podToProgMap s' !! (d, pod_key nn) = Some (prog s' (pod_id nn) d) /\ prog s' (pod_id nn) d <> 0.
Proof.
  intros Hok Hv Hnone Hprog s'.
  assert (forall k, podToProgMap s' !! k = if decide ((egress, pod_key nn) = k) then Some fe
        else if decide ((ingress, pod_key nn) = k) then Some fi else podToProgMap s !! k) as Hlk
    by (intros k; unfold s'; by rewrite !record1_lookup).
  assert (forall id d, prog s' id d = prog s id d) as Hpr by done.
  assert (forall d, podToProgMap s' !! (d, pod_key nn) = Some (by_dir fi fe d)) as Hpod.
  { intros d. rewrite Hlk. destruct d; [rewrite decide_False by done|]; by rewrite decide_True. }
  split; [split|].
  - apply record1_sets; [apply record1_sets; [exact (t_sets s Hok)|apply Hnone]|]. rewrite record1_lookup.
    rewrite decide_False by done. apply Hnone.
  - intros pod. rewrite !Hlk. destruct (decide (pod = pod_key nn)) as [->|Hne].
    + rewrite (decide_False (P := (egress, pod_key nn) = (ingress, pod_key nn))) by done. rewrite !decide_True by done. by split; eauto.
    + rewrite !decide_False by congruence. apply (t_pairs s Hok).
  - intros d nn' fd Hv' Hfd. destruct (decide (pod_key nn' = pod_key nn)) as [Hk|Hk].
    + apply pod_key_inj in Hk; [|done..]. subst nn'. rewrite Hpod in Hfd. injection Hfd as <-. rewrite Hpr.
      destruct (Hprog d) as [Hp Hne]. split; congruence.
    + rewrite Hpr. apply (t_linked s Hok d nn'); [done|]. rewrite Hlk in Hfd. by rewrite !decide_False in Hfd by congruence.
  - intros d. rewrite Hpr. destruct (Hprog d) as [Hp Hne]. rewrite Hpod. split; congruence.
Qed.

Lemma attach_tables_gen nn n live s (Hok : tables_ok s) (Hv : valid_name nn) :
  let '(s', r) := bpf_AttacheBPFProbes nn (pod_id nn) n live s in
  tables_ok s' /\
  if negb live && bool_decide (is_Some (deletedPods s !! pod_key nn)) then s' = s /\ r = Ret false
  else forall first, r = Ret first ->
  first = isFirstPodInPodIdentifierLocked s (pod_id nn) /\
  forall d, podToProgMap s' !! (d, pod_key nn) = Some (prog s' (pod_id nn) d) /\ prog s' (pod_id nn) d <> 0.
Proof.
  unfold bpf_AttacheBPFProbes. unfold mbind at 1, ST_bind at 1, get at 1. fold (pod_key nn).
  destruct (negb live && _) eqn:Eskip; [done|].
  set (s1 := if live then set_deletedPods (delete (pod_key nn)) s else s).
  assert (tables_ok s1) as Hok1 by (unfold s1; destruct live; [by destruct Hok|done]).
  assert (forall A (f : unit -> ST bpfClient A), ((if live then modify (set_deletedPods (delete (pod_key nn))) else mret tt) ≫= f) s = f tt s1)
    as Hlive by (intros; unfold s1; by destruct live).
  rewrite Hlive. unfold mbind at 1, ST_bind at 1, get at 1.
  assert (isFirstPodInPodIdentifierLocked s1 (pod_id nn) = isFirstPodInPodIdentifierLocked s (pod_id nn)) as -> by (unfold s1; by destruct live).
  set (first := isFirstPodInPodIdentifierLocked s (pod_id nn)). cbv zeta.
  pose proof (attached_both s1 nn Hok1) as Hboth.
  destruct (isEBPFProbeAttached s1 (Name nn) (Namespace nn) ingress) eqn:Ei; rewrite <-Hboth; cbn [andb].
  { split; [done|]. intros f [= <-]. split; [done|]. intros d.
    assert (is_Some (podToProgMap s1 !! (d, pod_key nn))) as [fd Hfd].
    { unfold isEBPFProbeAttached in Ei, Hboth. symmetry in Hboth. apply bool_decide_eq_true_1 in Ei, Hboth. by destruct d. }
    destruct (t_linked s1 Hok1 d nn fd Hv Hfd) as [Hp Hne]. split; congruence. }
  unfold mbind at 1, ST_bind at 1, lift at 1.
  destruct (getInterfaceCountForPod s1 nn n) as [c|e|w] eqn:Ec; [|by split..]. apply count_positive in Ec.
  unfold mbind at 1, ST_bind at 1.
  destruct (fold_each _ _ _ s1) as [s2 r2] eqn:Ef. apply interfaces_grow in Ef as [Hg Hdone].
  pose proof (tables_grow s1 s2 Hok1 Hg) as Hok2. destruct r2 as [[fi fe]|e|w]; [|by split..].
  cbn [fst snd]. unfold mbind, ST_bind.
  change (recordPod ingress (pod_key nn) fi s2) with (record1 ingress (pod_key nn) fi s2, Ret tt : outcome unit). cbv iota beta.
  change (recordPod egress (pod_key nn) fe ?t) with (record1 egress (pod_key nn) fe t, Ret tt : outcome unit).
  destruct (record_both_ok s2 nn fi fe Hok2 Hv) as [Hok3 Hlast].
  - intros d. destruct Hg as (-> & _). unfold isEBPFProbeAttached in Ei, Hboth. symmetry in Hboth.
    apply bool_decide_eq_false_1 in Ei, Hboth. apply eq_None_not_Some. by destruct d.
  - intros d. apply (Hdone (fi, fe) eq_refl); [lia|]. by destruct d.
  - split; [done|]. by intros f [= <-].
Qed.

(** Attaching a pod.  Whatever the kernel answers, the tables between pods and programs
    stay consistent with each other and with the loaded programs.  A pod known to be deleted
    is left alone unless the call confirms that it lives.  Otherwise, when the call succeeds,
    both hooks of the identifier have a program, the pod is recorded with exactly these
    programs, and the result tells whether the identifier lacked a program before the
    call. *)
Theorem attach_tables nn n live s (Hok : tables_ok s) (Hv : valid_name nn) :
  let '(s', r) := bpf_AttacheBPFProbes nn (pod_id nn) n live s in
  tables_ok s' /\
  if negb live && bool_decide (is_Some (deletedPods s !! pod_key nn)) then s' = s /\ r = Ret false
  else forall first, r = Ret first ->
  first = isFirstPodInPodIdentifierLocked s (pod_id nn) /\
  forall d, podToProgMap s' !! (d, pod_key nn) = Some (prog s' (pod_id nn) d) /\ prog s' (pod_id nn) d <> 0.
Proof. exact (attach_tables_gen nn n live s Hok Hv). Qed.

(** ** Deleting *)
Lemma attempt_sdk f s : exists x o, attempt (sdk_call f) s = (set_kernel x (kmaps s) s, Ret o).
Proof. unfold attempt, sdk_call. destruct (f (kernel_ext s)) as [x [e|]]; eauto. Qed.

Lemma deleteBPFProgramAndMaps_run podId d s :
  exists x, deleteBPFProgramAndMaps podId d s = (set_kernel x (kmaps s) s, Ret tt).
Proof.
  unfold deleteBPFProgramAndMaps. destruct (GetBPFMapPinPathFromPodIdentifier podId (dir_name d)) as [p1 p2].
  unfold mbind, ST_bind, get. destruct (_ =? 0); [exists (kernel_ext s); by destruct s|].
  destruct (attempt_sdk (UnPinProg (GetBPFPinPathFromPodIdentifier podId (dir_name d))) s) as (x1 & o1 & ->).
  destruct (attempt_sdk (UnPinMap p1) (set_kernel x1 (kmaps s) s)) as (x2 & o2 & ->).
  match goal with |- context [attempt (sdk_call ?f) ?t] => destruct (attempt_sdk f t) as (x3 & o3 & ->) end.
  match goal with |- context [attempt (sdk_call ?f) ?t] => destruct (attempt_sdk f t) as (x4 & o4 & ->) end.
  by exists x4.
Qed.

(** Dropping an identifier: its context and its shadow maps. *)
Definition dropIdentifier (podId : gostring) (x : kext) s : bpfClient :=
  set_context (delete podId) (set_inMemory (fun m => delete (NamespacePolicy, ingress, podId)
      (delete (NamespacePolicy, egress, podId) (delete (ClusterPolicy, ingress, podId)
          (delete (ClusterPolicy, egress, podId) m)))) (set_kernel x (kmaps s) s)).

Lemma deleteBPFProbes_run podId s : exists x, deleteBPFProbes podId s = (dropIdentifier podId x s, Ret tt).
Proof.
  unfold deleteBPFProbes, mbind, ST_bind, attempt.
  destruct (deleteBPFProgramAndMaps_run podId ingress s) as [x1 ->].
  destruct (deleteBPFProgramAndMaps_run podId egress (set_kernel x1 (kmaps s) s)) as [x2 ->]. by exists x2.
Qed.

Lemma dropIdentifier_shadow podId x s kind d :
  inMemoryMap (dropIdentifier podId x s) !! (kind, d, podId) = None.
Proof. cbn. destruct kind, d; rewrite ?lookup_delete_eq, ?(lookup_delete_ne _ (_, _, _) (_, _, _)) by done;
    rewrite ?lookup_delete_eq, ?(lookup_delete_ne _ (_, _, _) (_, _, _)) by done; rewrite ?lookup_delete_eq; done. Qed.

Lemma dropIdentifier_inv podId x s : client_inv s -> client_inv (dropIdentifier podId x s).
Proof.
  intros Hinv. assert (forall id d n fd, slot (dropIdentifier podId x s) id d n = Some fd -> slot s id d n = Some fd) as Hsl.
  { intros id d n fd. unfold slot. cbn. destruct (decide (id = podId)) as [->|Hne];
      [by rewrite lookup_delete_eq|by rewrite lookup_delete_ne]. }
  split.
  - apply (inv_zero s Hinv).
  - intros id d n fd Hn Hs. by eapply (inv_open s Hinv), Hsl.
  - intros id d n id' d' n' fd Hn Hn' Hs Hs'. by eapply (inv_unshared s Hinv); [..|apply Hsl, Hs|apply Hsl, Hs'].
  - intros kind d id sh Hsh. destruct (decide (id = podId)) as [->|Hne].
    { by rewrite dropIdentifier_shadow in Hsh. }
    assert (inMemoryMap s !! (kind, d, id) = Some sh) as Hold.
    { cbn in Hsh. by rewrite !lookup_delete_ne in Hsh by congruence. }
    destruct (inv_shadow s Hinv kind d id sh Hold) as [Hx Hy]. split; [|exact Hy].
    rewrite <-Hx. unfold slot. cbn. by rewrite lookup_delete_ne.
Qed.

Lemma size_alone (st : gset gostring) (p q : gostring) : p ∈ st -> (1 <? Z.of_nat (size st)) = false -> q ∈ st -> q = p.
Proof.
  intros Hp Hs Hq. apply Z.ltb_ge in Hs. destruct (decide (q = p)) as [|Hne]; [done|].
  assert (size ({[p; q]} : gset gostring) <= size st)%nat as Hle by (apply subseteq_size; set_solver).
  rewrite size_union, !size_singleton in Hle by set_solver. lia.
Qed.

Lemma size_shared (st : gset gostring) (p q : gostring) : p ∈ st -> q ∈ st -> q <> p -> (1 <? Z.of_nat (size st)) = true.
Proof.
  intros Hp Hq Hne. destruct (1 <? Z.of_nat (size st)) eqn:E; [done|]. exfalso. apply Hne. by eapply size_alone.
Qed.

(** After the pod left both tables. *)
Definition forgotten nn now s : bpfClient :=
  set_deletedPods (insert (pod_key nn) now)
  (deletePodFromProgPodCaches egress (Name nn) (Namespace nn) (deletePodFromProgPodCaches ingress (Name nn) (Namespace nn) s)).

Lemma forgotten_lookup nn now s d pod :
  podToProgMap (forgotten nn now s) !! (d, pod) = if decide (pod = pod_key nn) then None else podToProgMap s !! (d, pod).
Proof.
  unfold forgotten. change (podToProgMap (set_deletedPods _ ?t)) with (podToProgMap t). rewrite !forget_lookup.
  destruct d; repeat case_decide; simplify_eq; done.
Qed.

Lemma forget_keeps d nn s :
  policyEndpointeBPFContext (deletePodFromProgPodCaches d (Name nn) (Namespace nn) s) = policyEndpointeBPFContext s /\
  inMemoryMap (deletePodFromProgPodCaches d (Name nn) (Namespace nn) s) = inMemoryMap s /\
  kmaps (deletePodFromProgPodCaches d (Name nn) (Namespace nn) s) = kmaps s.
Proof. unfold deletePodFromProgPodCaches. by repeat case_match. Qed.

Lemma forgotten_keeps nn now s :
  policyEndpointeBPFContext (forgotten nn now s) = policyEndpointeBPFContext s /\
  inMemoryMap (forgotten nn now s) = inMemoryMap s /\ kmaps (forgotten nn now s) = kmaps s.
Proof.
  unfold forgotten. cbn [set_deletedPods policyEndpointeBPFContext inMemoryMap kmaps].
  destruct (forget_keeps ingress nn s) as (<- & <- & <-). apply forget_keeps.
Qed.

Lemma forgotten_ok nn now s : tables_ok s -> tables_ok (forgotten nn now s).
Proof.
  intros Hok. split.
  - change (sets_ok (forgotten nn now s)). unfold forgotten.
    change (sets_ok (deletePodFromProgPodCaches egress (Name nn) (Namespace nn) (deletePodFromProgPodCaches ingress (Name nn) (Namespace nn) s))).
    apply forget_sets, forget_sets. exact (t_sets s Hok).
  - intros pod. rewrite !forgotten_lookup. case_decide; [by split; intros [? ?]|apply (t_pairs s Hok)].
  - intros d nn' fd Hv. rewrite forgotten_lookup. case_decide; [done|]. intros Hfd.
    destruct (t_linked s Hok d nn' fd Hv Hfd) as [Hp Hne]. split; [|done]. rewrite <-Hp. unfold prog.
    by destruct (forgotten_keeps nn now s) as (-> & _).
Qed.

(** Not shared: no other pod of the identifier is attached. *)
Lemma unshared_alone s nn nn' d :
  tables_ok s -> valid_name nn -> valid_name nn' ->
  isProgFdShared s (Name nn) (Namespace nn) = Ret false ->
  is_Some (podToProgMap s !! (d, pod_key nn')) -> pod_id nn' = pod_id nn -> nn' = nn.
Proof.
  intros Hok Hv Hv' Hsh Hd Hid. apply pod_key_inj; [done..|].
  assert (is_Some (podToProgMap s !! (ingress, pod_key nn'))) as [fd' Hfd'] by (destruct d; [done|by apply (t_pairs s Hok)]).
  unfold isProgFdShared in Hsh. fold (pod_key nn) in Hsh.
  destruct (podToProgMap s !! (ingress, pod_key nn)) as [fd|] eqn:Efd; cbn in Hsh.
  2:{ assert (podToProgMap s !! (egress, pod_key nn) = None) as He.
  { apply eq_None_not_Some. intros He%(t_pairs s Hok). rewrite Efd in He. by destruct He. }
  by rewrite He in Hsh. }
  destruct (proj1 (t_sets s Hok _ _ _) Efd) as (st & Hst & Hin). rewrite Hst in Hsh. injection Hsh as Hsize.
  destruct (t_linked s Hok ingress nn fd Hv Efd) as [Hp _], (t_linked s Hok ingress nn' fd' Hv' Hfd') as [Hp' _].
  rewrite Hid in Hp'. assert (fd' = fd) as -> by congruence.
  destruct (proj1 (t_sets s Hok _ _ _) Hfd') as (st' & Hst' & Hin'). rewrite Hst in Hst'. injection Hst' as <-.
  by apply (size_alone st).
Qed.

Lemma drop_ok s nn now x :
  tables_ok s -> valid_name nn -> isProgFdShared s (Name nn) (Namespace nn) = Ret false ->
  let s' := dropIdentifier (pod_id nn) x (forgotten nn now s) in
  tables_ok s' /\
  forall nn' d, valid_name nn' -> nn' <> nn -> is_Some (podToProgMap s !! (d, pod_key nn')) ->
  prog s' (pod_id nn') d = prog s (pod_id nn') d.
Proof.
  intros Hok Hv Hsh s'.
  assert (forall nn' d, valid_name nn' -> nn' <> nn -> is_Some (podToProgMap s !! (d, pod_key nn')) ->
    prog s' (pod_id nn') d = prog s (pod_id nn') d) as Hkeep.
  { intros nn' d Hv' Hne Hd. assert (pod_id nn' <> pod_id nn) by (intros Hid; apply Hne; by eapply unshared_alone).
    unfold prog, s'. change (policyEndpointeBPFContext (dropIdentifier (pod_id nn) x (forgotten nn now s)))
      with (delete (pod_id nn) (policyEndpointeBPFContext (forgotten nn now s))).
    rewrite lookup_delete_ne by done. by destruct (forgotten_keeps nn now s) as (-> & _). }
  split; [|exact Hkeep]. pose proof (forgotten_ok nn now s Hok) as [Hs Hp Hl]. split; [exact Hs|exact Hp|].
  intros d nn' fd Hv' Hfd. change (podToProgMap s') with (podToProgMap (forgotten nn now s)) in Hfd.
  rewrite forgotten_lookup in Hfd. case_decide as Hk; [done|].
  destruct (t_linked s Hok d nn' fd Hv' Hfd) as [Hp' Hne]. split; [|done]. rewrite <-Hp'.
  apply Hkeep; [done|congruence|eauto].
Qed.

(** C30: Deleting a pod.  A delete always succeeds; the pod leaves the tables, which stay
    consistent, and is marked deleted; the shadow maps stay equal to the kernel maps.  The
    programs of every other attached pod stay loaded.  If no other attached pod uses the
    pod's program, the context of the identifier and its shadow maps are gone, so that the
    next pod of the identifier is again a first pod. *)
Theorem delete_tables now nn s (Hok : tables_ok s) (Hinv : client_inv s) (Hv : valid_name nn) :
  let '(s', r) := bpf_DeleteBPFProbes now nn (pod_id nn) s in
  r = Ret tt /\ tables_ok s' /\ client_inv s' /\ deletedPods s' !! pod_key nn = Some now /\
  (forall d pod, podToProgMap s' !! (d, pod) = if decide (pod = pod_key nn) then None else podToProgMap s !! (d, pod)) /\
  (forall nn' d, valid_name nn' -> nn' <> nn -> is_Some (podToProgMap s !! (d, pod_key nn')) ->
    prog s' (pod_id nn') d = prog s (pod_id nn') d) /\
  (is_Some (podToProgMap s !! (ingress, pod_key nn)) ->
    (forall pod, pod <> pod_key nn -> podToProgMap s !! (ingress, pod) <> podToProgMap s !! (ingress, pod_key nn)) ->
    policyEndpointeBPFContext s' !! pod_id nn = None /\ isFirstPodInPodIdentifierLocked s' (pod_id nn) = true /\
    forall kind d, inMemoryMap s' !! (kind, d, pod_id nn) = None).
Proof.
  unfold bpf_DeleteBPFProbes, mbind, ST_bind, get, modify. fold (pod_key nn). fold (forgotten nn now s).
  pose proof (forgotten_keeps nn now s) as (Hc & Hm & Hk).
  assert (client_inv (forgotten nn now s)) as Hinv' by (by apply (client_inv_ext s)).
  assert (deletedPods (forgotten nn now s) !! pod_key nn = Some now) as Hdel by apply lookup_insert_eq.
  assert (isProgFdShared s (Name nn) (Namespace nn) <> Ret false ->
    match isProgFdShared s (Name nn) (Namespace nn) with Ret false => deleteBPFProbes (pod_id nn) | _ => mret tt end (forgotten nn now s)
    = (forgotten nn now s, Ret tt)) as Hskip by (intros Hne; by destruct (isProgFdShared s _ _) as [[]|e|w]).
  destruct (decide (isProgFdShared s (Name nn) (Namespace nn) = Ret false)) as [Hsh|Hsh].
  - rewrite Hsh. destruct (deleteBPFProbes_run (pod_id nn) (forgotten nn now s)) as [x ->].
    destruct (drop_ok s nn now x Hok Hv Hsh) as [Hok' Hkeep].
    split; [done|]. split; [done|]. split; [by apply dropIdentifier_inv|]. split; [done|].
    split; [intros; apply forgotten_lookup|]. split; [done|]. intros _ _.
    assert (policyEndpointeBPFContext (dropIdentifier (pod_id nn) x (forgotten nn now s)) !! pod_id nn = None) as Hnone
      by apply lookup_delete_eq.
    split; [done|]. split; [unfold isFirstPodInPodIdentifierLocked; by rewrite Hnone|]. intros. apply dropIdentifier_shadow.
  - rewrite (Hskip Hsh). split; [done|]. split; [by apply forgotten_ok|]. split; [done|]. split; [done|].
    split; [intros; apply forgotten_lookup|]. split; [intros; unfold prog; by rewrite Hc|].
    intros [fd Hfd] Hlone. exfalso. apply Hsh. unfold isProgFdShared. fold (pod_key nn). rewrite Hfd. cbn.
    destruct (proj1 (t_sets s Hok _ _ _) Hfd) as (st & Hst & Hin). rewrite Hst. f_equal.
    assert (st = {[pod_key nn]}) as ->; [|by rewrite size_singleton].
    apply set_eq. intros q. rewrite elem_of_singleton. split; [|by intros ->]. intros Hq.
    destruct (decide (q = pod_key nn)); [done|]. exfalso. apply (Hlone q); [done|]. rewrite Hfd. apply (t_sets s Hok). eauto.
Qed.
End tables.
