(* ===== verification/DemoKernel.v ===== *)
(** A concrete kernel for the client: maps that never fail, programs loaded on demand, and a
    script that says which filter attachments fail.  It shows that the assumptions about the
    SDK can hold, and lets the development run the client. *)
From S2P Require Import Prelude ApiTypes Utils FwRules MemMap Effects BpfInterface BpfClient BpfClientFacts BpfClientTables.

#[local] Existing Instance reliable_sdk.

(** A descriptor above all open ones. *)
Definition fresh_fd {A} (ms : gmap Z A) : Z := 1 + foldr Z.max 0 (map_to_list ms).*1.

Lemma fresh_fd_above {A} (ms : gmap Z A) fd : is_Some (ms !! fd) -> fd < fresh_fd ms.
Proof.
  intros [k Hk]. apply elem_of_map_to_list in Hk. apply (list_elem_of_fmap_2 fst) in Hk. cbn in Hk. unfold fresh_fd.
  induction (map_to_list ms).*1 as [|z l IH]; [by apply not_elem_of_nil in Hk|].
  cbn. apply elem_of_cons in Hk as [<-|Hk]; [lia|]. specialize (IH Hk). lia.
Qed.
Lemma fresh_fd_none {A} (ms : gmap Z A) i : 0 <= i -> ms !! (fresh_fd ms + i) = None.
Proof. intros Hi. apply eq_None_not_Some. intros Hs%fresh_fd_above. lia. Qed.
Lemma fresh_fd_pos {A} (ms : gmap Z A) : 0 < fresh_fd ms.
Proof. unfold fresh_fd. induction (map_to_list ms).*1; cbn in *; lia. Qed.

Definition ingress_binary : gostring := go "tc.v4ingress.bpf.o".
Definition egress_binary : gostring := go "tc.v4egress.bpf.o".

Definition demo_data (d : Direction) (n : Z) : BpfData :=
  mkBpfData n 7 (list_to_map [(rule_map NamespacePolicy d, n + 1); (rule_map ClusterPolicy d, n + 2); (pod_state_map d, n + 3)]).

(** Loading, whatever else the kernel's state is. *)
Definition demo_load {X : Type} (file podId : gostring) (k : X * gmap Z kmap) :
    (X * gmap Z kmap) * outcome (gmap gostring BpfData) :=
  let '(x, ms) := k in
  let d := if decide (file = egress_binary) then egress else ingress in
  let n := fresh_fd ms in
  ((x, <[n + 1 := (∅ : gmap gostring gostring)]> (<[n + 2 := (∅ : gmap gostring gostring)]> (<[n + 3 := (∅ : gmap gostring gostring)]> ms))),
   Ret {[GetBPFPinPathFromPodIdentifier podId (dir_name d) := demo_data d n]}).

Definition pop (x : list (option gostring)) : list (option gostring) * option gostring :=
  match x with [] => ([], None) | e :: x' => (x', e) end.

Lemma demo_data_maps d n name fd :
  Maps (demo_data d n) !! name = Some fd -> (fd = n + 1 /\ name = rule_map NamespacePolicy d) \/
    (fd = n + 2 /\ name = rule_map ClusterPolicy d) \/ (fd = n + 3 /\ name = pod_state_map d).
Proof.
  unfold demo_data. cbn [Maps]. intros Hl. apply elem_of_list_to_map_2 in Hl. set_solver.
Qed.

Definition demo_create (m : gmap gostring gostring) (k v : gostring) : gmap gostring gostring * option gostring :=
  (match m !! k with Some _ => m | None => <[k := v]> m end, None).

Lemma demo_load_law {X : Type} file podId (x : X) ms x' ms' r :
  demo_load file podId (x, ms) = ((x', ms'), r) ->
  ms ⊆ ms' /\ (ms !! 0 = None -> ms' !! 0 = None) /\
  forall progs pin p d name fd, r = Ret progs -> progs !! pin = Some p -> name ∈ pod_maps d -> Maps p !! name = Some fd ->
    ms !! fd = None /\ is_Some (ms' !! fd) /\
    forall pin' p' d' name', progs !! pin' = Some p' -> name' ∈ pod_maps d' -> Maps p' !! name' = Some fd ->
      pin' = pin /\ name' = name.
Proof.
  unfold demo_load. intros [= <- <- <-].
  set (d0 := if decide (file = egress_binary) then egress else ingress). set (n := fresh_fd ms).
  assert (forall i, 0 <= i -> ms !! (n + i) = None) as Hnone by (intros; by apply fresh_fd_none).
  pose proof (fresh_fd_pos ms) as Hpos. fold n in Hpos. split; [|split].
  - do 3 (etrans; [|apply insert_subseteq; rewrite ?lookup_insert_ne by lia; apply Hnone; lia]). done.
  - intros Hz. by rewrite !lookup_insert_ne by (change (fresh_fd ms) with n; lia).
  - intros progs pin p d name fd [= <-] Hp Hn Hfd. apply lookup_singleton_Some in Hp as [<- <-].
    pose proof (demo_data_maps d0 n name fd Hfd) as Hc.
    split; [destruct Hc as [[-> _]|[[-> _]|[-> _]]]; apply Hnone; lia|]. split.
    + rewrite !lookup_insert_is_Some'. destruct Hc as [[-> _]|[[-> _]|[-> _]]]; auto.
    + intros pin' p' d' name' Hp' Hn' Hfd'. apply lookup_singleton_Some in Hp' as [<- <-]. split; [done|].
      pose proof (demo_data_maps d0 n name' fd Hfd') as Hc'.
      destruct Hc as [[? ->]|[[? ->]|[? ->]]], Hc' as [[? ->]|[[? ->]|[? ->]]]; done || lia.
Qed.

Program Definition demo_sdk : BpfSDK := {|
  kext := list (option gostring);
  LoadBpfFile := demo_load;
  TCAttach := fun _ _ _ x => pop x;
  TCDetach := fun _ _ x => (x, None);
  UnPinProg := fun _ x => (x, None);
  UnPinMap := fun _ x => (x, None);
  LinkByName := fun _ _ => None;
  CreateUpdateMapEntry := fun (m : gmap gostring gostring) k v => (<[k := v]> m, None);
  CreateMapEntry := demo_create
|}.
Next Obligation. intros s k v s' e Hw. injection Hw as <- <-. reflexivity. Qed.
Next Obligation. intros s k v s' e Hw. injection Hw as <- <-. reflexivity. Qed.
Next Obligation. exact demo_load_law. Qed.

(** A client that has just started. *)
Definition demo_client (mode : gostring) (script : list (option gostring)) : @bpfClient reliable_sdk demo_sdk :=
  @mkBpfClient reliable_sdk demo_sdk ∅ ∅ ∅ ∅ ∅ ∅ ∅ script mode false
    (NewFirewallRuleProcessor (go "10.1.0.1") (go "/32") false) (by_dir ingress_binary egress_binary) (fun _ => ∅).

Lemma demo_client_inv mode script : client_inv (demo_client mode script).
Proof. split; done. Qed.

Lemma demo_client_tables mode script : tables_ok (demo_client mode script).
Proof. split; cbn; intros; rewrite ?lookup_empty in *; naive_solver. Qed.

Definition demo_pod (name : string) : NamespacedName := mkNamespacedName (go name) (go "default").

(** After one pod was attached. *)
Definition demo_attached : @bpfClient reliable_sdk demo_sdk :=
  fst (@bpf_AttacheBPFProbes reliable_sdk demo_sdk (demo_pod "web-1") (pod_id (demo_pod "web-1")) 1 true (demo_client (go "standard") [])).

Lemma demo_valid name : ("_"%byte ∉ go "default") -> valid_name (demo_pod name).
Proof. done. Qed.

Lemma attach_tables_witness :
  tables_ok (demo_client (go "standard") []) /\ valid_name (demo_pod "web-1") /\
  tables_ok demo_attached /\ prog demo_attached (go "web@default") egress = 5.
Proof.
  split; [apply demo_client_tables|]. split; [vm_compute; set_solver|]. split; [|vm_compute; reflexivity].
  pose proof (@attach_tables reliable_sdk demo_sdk (demo_pod "web-1") 1 true (demo_client (go "standard") [])
    (demo_client_tables _ _) ltac:(vm_compute; set_solver)) as Hatt.
  unfold demo_attached. destruct (bpf_AttacheBPFProbes _ _ _ _ _) as [s' r]. apply Hatt.
Defined.

Lemma demo_attached_inv : client_inv demo_attached.
Proof.
  pose proof (@attach_others reliable_sdk demo_sdk (demo_client (go "standard") []) (demo_pod "web-1")
    (pod_id (demo_pod "web-1")) 1 true (demo_client (go "standard") []) (others_as_refl _ _ (demo_client_inv _ _))) as Ho.
  apply Ho.
Qed.

Lemma demo_attached_tables : tables_ok demo_attached.
Proof.
  pose proof (@attach_tables_gen reliable_sdk demo_sdk (demo_pod "web-1") 1 true (demo_client (go "standard") [])
    (demo_client_tables _ _) ltac:(vm_compute; set_solver)) as Hatt.
  unfold demo_attached. destruct (bpf_AttacheBPFProbes _ _ _ _ _) as [s' r]. apply Hatt.
Qed.

Lemma delete_tables_witness :
  tables_ok demo_attached /\ client_inv demo_attached /\ valid_name (demo_pod "web-1") /\
  bpf_HasBPFContext (go "web@default") demo_attached = true /\
  snd (@bpf_DeleteBPFProbes reliable_sdk demo_sdk 9 (demo_pod "web-1") (go "web@default") demo_attached) = Ret tt /\
  bpf_HasBPFContext (go "web@default")
    (fst (@bpf_DeleteBPFProbes reliable_sdk demo_sdk 9 (demo_pod "web-1") (go "web@default") demo_attached)) = false.
Proof.
  split; [apply demo_attached_tables|]. split; [apply demo_attached_inv|]. split; [vm_compute; set_solver|].
  split; [vm_compute; reflexivity|]. split; [|vm_compute; reflexivity].
  pose proof (@delete_tables reliable_sdk demo_sdk 9 (demo_pod "web-1") demo_attached demo_attached_tables demo_attached_inv
    ltac:(vm_compute; set_solver)) as Hdel.
  change (go "web@default") with (pod_id (demo_pod "web-1")).
  destruct (bpf_DeleteBPFProbes _ _ _ _) as [s' r]. apply Hdel.
Defined.
