(* ===== verification/ClusterController.v ===== *)
(** [controllers/clusterpolicyendpoints_controller.go]: the reconciler of ClusterPolicyEndpoint
    resources.  As in [PolicyController], one reconcile reads one snapshot of the API. *)
From S2P Require Import Prelude NetIP ApiTypes Utils FwRules Datapath Effects PolicyUtils BpfInterface PolicyController.

Record ClusterK8sClient := mkClusterK8sClient {
  c_Get : gostring -> get_result ClusterPolicyEndpoint;
  c_List : outcome (list ClusterPolicyEndpoint)
}.

(** [ClusterPolicyEndpointsReconciler], less its constant fields and the BPF client. *)
Record ClusterPolicyEndpointsReconciler := mkClusterPolicyEndpointsReconciler {
  c_lastObservedTriggerTimes : gmap gostring gostring;
  podIdentifierToClusterPolicyEndpointMap : gmap gostring (list gostring);
  ClusterPolicyEndpointSelectorMap : gmap gostring (list Pod);
  clusterNetworkPolicyToPodIdentifierMap : gmap gostring (list gostring);
  clusterPolicyProgrammingLatency : list Z
}.

Definition set_c_last f (r : ClusterPolicyEndpointsReconciler) := mkClusterPolicyEndpointsReconciler
  (f (c_lastObservedTriggerTimes r)) (podIdentifierToClusterPolicyEndpointMap r) (ClusterPolicyEndpointSelectorMap r)
  (clusterNetworkPolicyToPodIdentifierMap r) (clusterPolicyProgrammingLatency r).
Definition set_c_podIdMap f (r : ClusterPolicyEndpointsReconciler) := mkClusterPolicyEndpointsReconciler
  (c_lastObservedTriggerTimes r) (f (podIdentifierToClusterPolicyEndpointMap r)) (ClusterPolicyEndpointSelectorMap r)
  (clusterNetworkPolicyToPodIdentifierMap r) (clusterPolicyProgrammingLatency r).
Definition set_c_selector f (r : ClusterPolicyEndpointsReconciler) := mkClusterPolicyEndpointsReconciler
  (c_lastObservedTriggerTimes r) (podIdentifierToClusterPolicyEndpointMap r) (f (ClusterPolicyEndpointSelectorMap r))
  (clusterNetworkPolicyToPodIdentifierMap r) (clusterPolicyProgrammingLatency r).
Definition set_c_npMap f (r : ClusterPolicyEndpointsReconciler) := mkClusterPolicyEndpointsReconciler
  (c_lastObservedTriggerTimes r) (podIdentifierToClusterPolicyEndpointMap r) (ClusterPolicyEndpointSelectorMap r)
  (f (clusterNetworkPolicyToPodIdentifierMap r)) (clusterPolicyProgrammingLatency r).
Definition c_observe (l : Z) (r : ClusterPolicyEndpointsReconciler) := mkClusterPolicyEndpointsReconciler
  (c_lastObservedTriggerTimes r) (podIdentifierToClusterPolicyEndpointMap r) (ClusterPolicyEndpointSelectorMap r)
  (clusterNetworkPolicyToPodIdentifierMap r) (clusterPolicyProgrammingLatency r ++ [l]).

Definition NewClusterPolicyEndpointsReconciler : ClusterPolicyEndpointsReconciler :=
  mkClusterPolicyEndpointsReconciler ∅ ∅ ∅ ∅ [].

(** [lo.Uniq]: the first of each element. *)
Fixpoint Uniq_loop {A} `{EqDecision A} (seen l : list A) : list A :=
  match l with
  | [] => []
  | x :: l' => if decide (x ∈ seen) then Uniq_loop seen l' else x :: Uniq_loop (x :: seen) l'
  end.
Definition Uniq {A} `{EqDecision A} (l : list A) : list A := Uniq_loop [] l.

(** ** Rules *)

(** Baseline policies come after every admin policy. *)
Definition tierPriority (cpe : ClusterPolicyEndpoint) : Z :=
  c_Priority (cpe_Spec cpe) +
  (if decide (c_Tier (cpe_Spec cpe) = BaselineTier) then BASELINE_TIER_PRIORITY_OFFSET else 0).

Definition cpeIngressRules (cpe : ClusterPolicyEndpoint) : list EbpfFirewallRules :=
  (fun e => mkEbpfFirewallRules (tierPriority cpe) (c_Action e) [] (c_CIDR e) [] (c_Ports e)) <$> c_Ingress (cpe_Spec cpe).
Definition cpeEgressRules (cpe : ClusterPolicyEndpoint) : list EbpfFirewallRules :=
  (fun e => mkEbpfFirewallRules (tierPriority cpe) (c_Action e) (c_DomainName e) (c_CIDR e) [] (c_Ports e))
    <$> filter (fun e => c_CIDR e <> []) (c_Egress (cpe_Spec cpe)).

Section cluster_reconciler.
Context {B : Type} `{!BpfClient B, !MapOrder}.
Context (k8s : ClusterK8sClient) (nodeIP : gostring).
Context (time_Parse : gostring -> option Z) (trackerStartTime now : Z).

Abbreviation M := (ST (ClusterPolicyEndpointsReconciler * B)).
Definition c_on_maps {A} (m : ST ClusterPolicyEndpointsReconciler A) : M A := zoom fst (fun r s => (r, snd s)) m.
Definition c_on_bpf {A} (m : ST B A) : M A := zoom snd (fun b s => (fst s, b)) m.

Definition c_deriveStep (resourceName : gostring) (isDeleteFlow : bool)
  (acc : list EbpfFirewallRules * list EbpfFirewallRules) (cpeName : gostring) :
  outcome (list EbpfFirewallRules * list EbpfFirewallRules) :=
  skip ← skipInDeleteFlow isDeleteFlow resourceName cpeName;
  if (skip : bool) then Ret acc else
  match c_Get k8s cpeName with
  | NotFound => Ret acc
  | GetErr e => Err e
  | Found currentCPE => Ret (fst acc ++ cpeIngressRules currentCPE, snd acc ++ cpeEgressRules currentCPE)
  end.

Definition deriveClusterPolicyIngressAndEgressFirewallRules (r : ClusterPolicyEndpointsReconciler)
  (podIdentifier resourceName : gostring) (isDeleteFlow : bool) :
  outcome (list EbpfFirewallRules * list EbpfFirewallRules) :=
  for_range (c_deriveStep resourceName isDeleteFlow)
  (default [] (podIdentifierToClusterPolicyEndpointMap r !! podIdentifier)) ([], []).

(** ** Programming *)
Definition updateClusterPolicyBPFMaps (podIdentifier : gostring) (ing egr : list EbpfFirewallRules) : ST B unit :=
  UpdateClusterPolicyEbpfMaps podIdentifier ing egr;;
  (let state := match ing, egr with [], [] => DEFAULT_ALLOW | _, _ => POLICIES_APPLIED end in
    UpdatePodStateEbpfMaps podIdentifier CLUSTER_POLICY_POD_STATE_MAP_KEY state true true);;
  mode ← gets GetNetworkPolicyMode;
  let defaultState := if IsStrictMode mode then DEFAULT_DENY else DEFAULT_ALLOW in
  CreatePodStateEbpfEntryIfNotExists podIdentifier POD_STATE_MAP_KEY defaultState.

Definition configureClusterPolicyBPFProbes (podIdentifier : gostring) (targetPods : list Pod)
  (ing egr : list EbpfFirewallRules) : ST B unit :=
  for_each (fun pod =>
    if decide (pod_identifier pod = podIdentifier) then
      _ ← AttacheBPFProbes (pod_nn pod) podIdentifier INTERFACE_COUNT_UNKNOWN false; mret tt
    else mret tt) targetPods;;
  ctx ← gets (HasBPFContext podIdentifier);
  if (ctx : bool) then updateClusterPolicyBPFMaps podIdentifier ing egr else mret tt.

Definition cleanupClusterPolicyPod (targetPod : Pod) (clusterPolicyEndpoint : gostring) (isDeleteFlow : bool) : M unit :=
  let podIdentifier := pod_identifier targetPod in
  ctx ← c_on_bpf (gets (HasBPFContext podIdentifier));
  if negb ctx then mret tt else
  r ← c_on_maps get;
  match podIdentifierToClusterPolicyEndpointMap r !! podIdentifier with
  | Some _ =>
      rules ← lift (deriveClusterPolicyIngressAndEgressFirewallRules r podIdentifier clusterPolicyEndpoint isDeleteFlow);
      c_on_bpf (updateClusterPolicyBPFMaps podIdentifier (fst rules) (snd rules))
  | None => c_on_bpf (updateClusterPolicyBPFMaps podIdentifier [] [])
  end.

(** The pods whose cleanup failed, and the joined errors. *)
Definition updateClusterPolicyEnforcementStatusForPods (cpeName : gostring) (cleanupPods : list Pod) (isDeleteFlow : bool) :
  M (list Pod * option gostring) :=
  fold_each (fun '(failed, err) cleanupPod =>
    cleanupErr ← attempt (cleanupClusterPolicyPod cleanupPod cpeName isDeleteFlow);
    mret (match err_of cleanupErr with
        | Some e => (failed ++ [cleanupPod], errors_Join err (Some e))
        | None => (failed, err)
        end)) cleanupPods ([], None).

(** ** Target pods *)
Definition c_targets_step (parentCPEList : list gostring)
  (acc : list Pod * gset gostring * gmap gostring (list gostring)) (pod : PodEndpoint) :
  list Pod * gset gostring * gmap gostring (list gostring) :=
  let '(targetPods, podIdentifiers, m) := acc in
  let podIdentifier := GetPodIdentifier (pe_Name pod) (pe_Namespace pod) in
  let m := UpdatePodIdentifierToPolicyEndpointMap m podIdentifier parentCPEList in
  if isLocal nodeIP pod then (targetPods ++ [endpointPod pod], {[podIdentifier]} ∪ podIdentifiers, m)
  else (targetPods, podIdentifiers, m).

Definition deriveClusterPolicyTargetPods (cpe : ClusterPolicyEndpoint) (parentCPEList : list gostring)
  (m : gmap gostring (list gostring)) : list Pod * gset gostring * gmap gostring (list gostring) :=
  foldl (c_targets_step parentCPEList) ([], ∅, m) (c_PodSelectorEndpoints (cpe_Spec cpe)).

Definition cpe_name (cpe : ClusterPolicyEndpoint) : gostring := meta_Name (cpe_meta cpe).

(** A failing [List] is an error, not an empty list. *)
Definition getClusterPolicyEndpointsOfParentCNP (parentCNP : gostring) : outcome (list ClusterPolicyEndpoint) :=
  items ← c_List k8s;
  Ret (filter (fun cpe => c_PolicyRef (cpe_Spec cpe) = parentCNP) items).

Definition c_targets_loop (parentCPEList : list gostring) (acc : TargetPods) (currentCPE : ClusterPolicyEndpoint) :
  ST ClusterPolicyEndpointsReconciler TargetPods :=
  r ← get;
  let '(currentTargetPods, currentPodIdentifiers, m) :=
    deriveClusterPolicyTargetPods currentCPE parentCPEList (podIdentifierToClusterPolicyEndpointMap r) in
  modify (set_c_podIdMap (fun _ => m));;
  mret (mkTargetPods (targetPods acc ++ currentTargetPods) (currentPodIdentifiers ∪ podIdentifiers acc)
      (targetPodIdentifiers acc ++ go_range (cpe_name currentCPE) (elements currentPodIdentifiers))).

Record CnpTargets := mkCnpTargets {
  ct_pods : list Pod;
  ct_ids : gset gostring;
  ct_cleanup : list Pod;
  ct_parents : list gostring
}.

Definition deriveTargetPodsForParentCNP (parentCNPName resourceName : gostring) :
  ST ClusterPolicyEndpointsReconciler CnpTargets :=
  parentCPEObjects ← lift (getClusterPolicyEndpointsOfParentCNP parentCNPName);
  let parentCPEList := match parentCPEObjects with [] => [resourceName] | _ => cpe_name <$> parentCPEObjects end in
  t ← fold_each (c_targets_loop parentCPEList) parentCPEObjects (mkTargetPods [] ∅ []);
  r ← get;
  stalePodIdentifiers ← lift (DeriveStalePodIdentifiers (clusterNetworkPolicyToPodIdentifierMap r) resourceName
                            (targetPodIdentifiers t));
  let currentPods := Uniq (mjoin ((fun n => default [] (ClusterPolicyEndpointSelectorMap r !! n))
                                <$> Uniq (resourceName :: parentCPEList))) in
  for_each (fun cpeName => for_each (fun sid =>
      modify (set_c_podIdMap (fun m => DeletePolicyEndpointFromPodIdentifierMap m sid cpeName)))
    stalePodIdentifiers) parentCPEList;;
  mret (mkCnpTargets (targetPods t) (podIdentifiers t)
      (if decide (0 < length currentPods)%nat
       then GetPodListToBeCleanedUp currentPods (targetPods t) (podIdentifiers t) else [])
      parentCPEList).

(** Record the pods under each of the policy's endpoints, and the identifiers under it. *)
Definition commitClusterPolicyEndpointState (resourceName : gostring) (newTargetPods : list Pod)
  (targetPodIdentifiers : gset gostring) (parentCPEList : list gostring) :
  ST ClusterPolicyEndpointsReconciler unit :=
  for_each (fun cpeName => modify (set_c_selector (store_or_delete cpeName newTargetPods))) parentCPEList;;
  parentKey ← lift (GetParentNPNameFromPEName resourceName);
  modify (set_c_npMap (store_or_delete parentKey (go_range (go "targetPodIdentifiers") (elements targetPodIdentifiers)))).

(** The targets and the pods whose cleanup failed. *)
Definition trackedPodIdentifiers (ids : gset gostring) (failedCleanups : list Pod) : gset gostring :=
  ids ∪ list_to_set (pod_identifier <$> failedCleanups).

(** ** Reconciling *)
Definition cleanUpClusterPolicyEndpoint (req : gostring) : M unit :=
  c_on_maps (modify (set_c_last (delete req)));;
  parentCNPName ← lift (GetParentNPNameFromPEName req);
  t ← c_on_maps (deriveTargetPodsForParentCNP parentCNPName req);
  r ← c_on_maps get;
  c_on_maps (for_each (fun pod => modify (set_c_podIdMap (fun m =>
          DeletePolicyEndpointFromPodIdentifierMap m (pod_identifier pod) req)))
    (default [] (ClusterPolicyEndpointSelectorMap r !! req)));;
  u ← updateClusterPolicyEnforcementStatusForPods req (ct_pods t) false;
  c ← updateClusterPolicyEnforcementStatusForPods req (ct_cleanup t) true;
  let '(failedCleanups, cleanupErr) := c in
  c_on_maps (commitClusterPolicyEndpointState req (ct_pods t ++ failedCleanups)
           (trackedPodIdentifiers (ct_ids t) failedCleanups) (ct_parents t));;
  let err := errors_Join (snd u) cleanupErr in
  (if decide (req ∈ ct_parents t) then mret tt
    else match err with
    | Some _ => c_on_maps (modify (set_c_selector (insert req failedCleanups)))
    | None => c_on_maps (modify (set_c_selector (delete req)))
    end);;
  return_error err.

Definition observeClusterPolicyProgrammingLatency (cpe : ClusterPolicyEndpoint) (programmingSucceeded : bool) :
  ST ClusterPolicyEndpointsReconciler unit :=
  match Annotations (cpe_meta cpe) with
  | None => mret tt
  | Some annotations =>
      let triggerTimeStr := default [] (annotations !! LastChangeTriggerTimeAnnotation) in
      if decide (triggerTimeStr = []) then mret tt else
      match time_Parse triggerTimeStr with
      | None => mret tt
      | Some triggerTime =>
          if triggerTime <=? trackerStartTime then mret tt else
          r ← get;
          if decide (c_lastObservedTriggerTimes r !! cpe_name cpe = Some triggerTimeStr) then mret tt else
          modify (set_c_last (insert (cpe_name cpe) triggerTimeStr));;
          if negb programmingSucceeded then mret tt else
          let latency := now - triggerTime in
          if latency <? 0 then mret tt else modify (c_observe latency)
      end
  end.

(** One turn of the programming loop. *)
Definition c_program (cpe : ClusterPolicyEndpoint) (tPods : list Pod) (programmingErr : option gostring)
  (podIdentifier : gostring) : M (option gostring) :=
  r ← c_on_maps get;
  match deriveClusterPolicyIngressAndEgressFirewallRules r podIdentifier (cpe_name cpe) false with
  | Err e => mret (errors_Join programmingErr (Some e))
  | Panic w => lift (Panic w)
  | Ret (ing, egr) =>
      err ← attempt (c_on_bpf (configureClusterPolicyBPFProbes podIdentifier tPods ing egr));
      mret (match err_of err with Some e => errors_Join programmingErr (Some e) | None => programmingErr end)
  end.

Definition reconcileClusterPolicyEndpoint (cpe : ClusterPolicyEndpoint) : M unit :=
  let resourceName := cpe_name cpe in
  t ← c_on_maps (deriveTargetPodsForParentCNP (c_PolicyRef (cpe_Spec cpe)) resourceName);
  c ← updateClusterPolicyEnforcementStatusForPods resourceName (ct_cleanup t) false;
  let '(failedCleanups, cleanupErr) := c in
  c_on_maps (commitClusterPolicyEndpointState resourceName (ct_pods t ++ failedCleanups)
           (trackedPodIdentifiers (ct_ids t) failedCleanups) (ct_parents t));;
  programmingErr ← fold_each (c_program cpe (ct_pods t)) (go_range (go "targetPodIdentifiers") (elements (ct_ids t))) None;
  (match cleanupErr with
    | None => c_on_maps (observeClusterPolicyProgrammingLatency cpe (match programmingErr with None => true | Some _ => false end))
    | Some _ => mret tt
    end);;
  return_error (errors_Join cleanupErr programmingErr).

Definition c_reconcile (req : gostring) : M unit :=
  match c_Get k8s req with
  | NotFound => cleanUpClusterPolicyEndpoint req
  | GetErr e => fail e
  | Found cpe =>
      match DeletionTimestamp (cpe_meta cpe) with
      | Some _ => cleanUpClusterPolicyEndpoint req
      | None => reconcileClusterPolicyEndpoint cpe
      end
  end.

(** What controller-runtime calls: the result is empty, the error makes it retry. *)
Definition c_Reconcile (req : gostring) : M unit :=
  r ← attempt (c_reconcile req); match err_of r with Some e => fail e | None => mret tt end.

(** ** Called by the RPC server *)
Definition DeriveClusterPolicyFireWallRulesPerPodIdentifier (r : ClusterPolicyEndpointsReconciler) (podIdentifier : gostring) :
  outcome (list EbpfFirewallRules * list EbpfFirewallRules) :=
  deriveClusterPolicyIngressAndEgressFirewallRules r podIdentifier [] false.

Definition c_ArePoliciesAvailableInLocalCache (r : ClusterPolicyEndpointsReconciler) (podIdentifier : gostring) : bool :=
  match podIdentifierToClusterPolicyEndpointMap r !! podIdentifier with
  | Some l => bool_decide (0 < length l)%nat
  | None => false
  end.
End cluster_reconciler.
