(* ===== verification/ClusterControllerFacts.v ===== *)
(** Properties of the ClusterPolicyEndpoint reconciler: the rules of a pod identifier, what is
    programmed, and that no pod is forgotten when a cleanup fails. *)
From S2P Require Import Prelude NetIP ApiTypes Utils FwRules FwRulesFacts Datapath NetworkPolicySem ClusterPolicySem Effects PolicyUtils BpfInterface PolicyController PolicyControllerFacts ClusterController.

(** * Rules *)
Definition found_cpes (k : ClusterK8sClient) (names : list gostring) : list ClusterPolicyEndpoint :=
  omap (fun n => match c_Get k n with Found cpe => Some cpe | _ => None end) names.

Section rules.
Context (k : ClusterK8sClient) (name : gostring) (del : bool).

Lemma found_cpes_app a b : found_cpes k (a ++ b) = found_cpes k a ++ found_cpes k b.
Proof. apply omap_app. Qed.

Lemma c_deriveStep_loop names acc :
  (del = true -> forall n, n ∈ name :: names -> exists p, GetParentNPNameFromPEName n = Ret p) ->
  (forall n e, n ∈ considered del name names -> c_Get k n <> GetErr e) ->
  let cpes := found_cpes k (considered del name names) in
  for_range (c_deriveStep k name del) names acc =
  Ret (fst acc ++ mjoin (cpeIngressRules <$> cpes), snd acc ++ mjoin (cpeEgressRules <$> cpes)).
Proof.
  revert acc. induction names as [|n names IH]; intros acc Hdash Hget cpes; cbn [for_range].
  { subst cpes. assert (considered del name [] = []) as -> by (unfold considered; by destruct del).
    cbn. rewrite !app_nil_r. by destruct acc. }
  subst cpes. rewrite considered_cons in *. rewrite found_cpes_app, !fmap_app, !join_app.
  assert (skipInDeleteFlow del name n = Ret (negb (bool_decide (n ∈ considered del name [n])))) as Hskip.
  { apply skip_spec. intros Hd. destruct (Hdash Hd name) as [p Hp], (Hdash Hd n) as [q Hq]; [set_solver..|eauto]. }
  replace (c_deriveStep k name del acc n) with
    (skip ← skipInDeleteFlow del name n;
    if (skip : bool) then Ret acc else
    match c_Get k n with
    | NotFound => Ret acc
    | GetErr e => Err e
    | Found cpe => Ret (fst acc ++ cpeIngressRules cpe, snd acc ++ cpeEgressRules cpe)
    end) by done.
  rewrite Hskip. unfold_outcome.
  assert (forall acc', for_range (c_deriveStep k name del) names acc' =
    Ret (fst acc' ++ mjoin (cpeIngressRules <$> found_cpes k (considered del name names)),
     snd acc' ++ mjoin (cpeEgressRules <$> found_cpes k (considered del name names)))) as IH'.
  { intros acc'. apply IH; [intros Hd m Hm; apply Hdash; set_solver|set_solver]. }
  destruct (considered_single name del n) as [[Hin Heq]|[Hin Heq]];
    [rewrite bool_decide_eq_true_2 by done|rewrite bool_decide_eq_false_2 by done]; cbn [negb]; rewrite Heq in *.
  2:{ rewrite IH'. done. }
  assert (found_cpes k [n] = match c_Get k n with Found cpe => [cpe] | _ => [] end)
    as -> by (unfold found_cpes; cbn; by destruct (c_Get k n)).
  destruct (c_Get k n) as [cpe| |e] eqn:Eg.
  - rewrite IH'. cbn. by rewrite !app_nil_r, <-!app_assoc.
  - rewrite IH'. done.
  - exfalso. eapply Hget; [|exact Eg]. set_solver.
Qed.

(** The entries of a policy for a direction; egress entries without a CIDR are about domain names
    and no rules. *)
Definition cpe_entries (d : Direction) (cpe : ClusterPolicyEndpoint) : list ClusterEndpointInfo :=
  by_dir (c_Ingress (cpe_Spec cpe)) (filter (fun e => c_CIDR e <> []) (c_Egress (cpe_Spec cpe))) d.
Definition entries_of (d : Direction) (cpes : list ClusterPolicyEndpoint) : list (ClusterPolicyEndpoint * ClusterEndpointInfo) :=
  mjoin ((fun cpe => (fun e => (cpe, e)) <$> cpe_entries d cpe) <$> cpes).

(** The priority of a policy over all policies: those of the baseline tier come last. *)
Definition overall_priority (cpe : ClusterPolicyEndpoint) : Z :=
  if decide (c_Tier (cpe_Spec cpe) = go "Baseline") then 2000 + c_Priority (cpe_Spec cpe) else c_Priority (cpe_Spec cpe).

(** A rule says what an entry of a policy says. *)
Record states_entry (x : ClusterPolicyEndpoint * ClusterEndpointInfo) (rule : EbpfFirewallRules) : Prop := {
  se_cidr : IPCidr rule = c_CIDR x.2;
  se_except : fw_Except rule = [];
  se_ports : L4Info rule = c_Ports x.2;
  se_action : fw_Action rule = c_Action x.2;
  se_priority : fw_Priority rule = overall_priority x.1
}.

(** The priorities and actions of the policy entries that match a packet. *)
Definition cpe_matching (f : FirewallRuleProcessor) (cpes : list ClusterPolicyEndpoint) (d : Direction) (ip : IP)
  (protocol dest_port : Z) (x : Z * Z) : Prop :=
  exists cpe e n, cpe ∈ cpes /\ e ∈ cpe_entries d cpe /\ cidr_net f (c_CIDR e) = Some n /\ Contains n ip = true /\
    (c_Ports e = [] \/ exists p, p ∈ c_Ports e /\ cport_matches p protocol dest_port) /\
    x = (overall_priority cpe, action_order (c_Action e)).

Lemma tierPriority_overall cpe : tierPriority cpe = overall_priority cpe.
Proof. unfold tierPriority, overall_priority, BASELINE_TIER_PRIORITY_OFFSET. repeat case_decide; first [lia|done]. Qed.

Lemma cpe_rules_state d cpes :
  Forall2 states_entry (entries_of d cpes) (mjoin ((fun cpe => by_dir (cpeIngressRules cpe) (cpeEgressRules cpe) d) <$> cpes)).
Proof.
  unfold entries_of. induction cpes as [|cpe cpes IH]; [constructor|]. cbn [fmap list_fmap mjoin list_join]. apply Forall2_app; [|exact IH].
  unfold cpe_entries, cpeIngressRules, cpeEgressRules. destruct d; cbn [by_dir]; apply Forall2_fmap_2, Forall2_same_length_lookup_2;
    try done; intros i x y Hx Hy; rewrite Hx in Hy; injection Hy as <-; split; cbn; try done; apply tierPriority_overall.
Qed.

Lemma elem_of_entries d cpes cpe e : (cpe, e) ∈ entries_of d cpes <-> cpe ∈ cpes /\ e ∈ cpe_entries d cpe.
Proof.
  unfold entries_of. rewrite list_elem_of_join. setoid_rewrite list_elem_of_fmap. split.
  - intros (l & Hx & c & -> & Hc). apply list_elem_of_fmap in Hx as (e' & [= -> ->] & He). done.
  - intros [Hc He]. eexists. split; [|eexists; split; [reflexivity|exact Hc]]. by apply list_elem_of_fmap_2.
Qed.

(** Rules that state the entries match the same packets with the same ranks. *)
Lemma states_matching f d cpes rules ip protocol dest_port x :
  Forall2 states_entry (entries_of d cpes) rules ->
  matching f rules ip protocol dest_port x <-> cpe_matching f cpes d ip protocol dest_port x.
Proof.
  intros Hs. unfold matching, cpe_matching. setoid_rewrite elem_of_policy_rules. split.
  - intros ([n r] & [Hr Hn] & [Hc Hp] & Hx). cbn [fst snd] in *.
    apply list_elem_of_lookup in Hr as [i Hi]. destruct (Forall2_lookup_r _ _ _ _ _ Hs Hi) as ([cpe e] & He & [H1 _ H3 H4 H5]). cbn [fst snd] in *.
    apply list_elem_of_lookup_2, elem_of_entries in He as [Hcpe He]. exists cpe, e, n.
    unfold rule_net in Hn. rewrite <-H1, <-H3, <-H4, <-H5. done.
  - intros (cpe & e & n & Hcpe & He & Hn & Hc & Hp & ->). assert ((cpe, e) ∈ entries_of d cpes) as Hin by (by apply elem_of_entries).
    apply list_elem_of_lookup in Hin as [i Hi]. destruct (Forall2_lookup_l _ _ _ _ _ Hs Hi) as (r & Hr & [H1 _ H3 H4 H5]). cbn [fst snd] in *.
    exists (n, r). cbn [fst snd]. split; [split; [by eapply list_elem_of_lookup_2|unfold rule_net; by rewrite H1]|].
    unfold crule_matches. cbn [fst snd]. by rewrite H3, H4, H5.
Qed.

End rules.

(** * Programming *)

(** The pod state of an identifier with these cluster rules. *)
Definition cluster_state (ing egr : list EbpfFirewallRules) : Z :=
  match ing, egr with [], [] => DEFAULT_ALLOW | _, _ => POLICIES_APPLIED end.

Section programming.
Context {B : Type} `{!BpfClient B, !BpfClientSpec B, !MapOrder} (k : ClusterK8sClient) (nodeIP : gostring).

Lemma c_writes_only podId ing egr : writes_only podId (updateClusterPolicyBPFMaps podId ing egr).
Proof.
  unfold updateClusterPolicyBPFMaps.
  repeat (apply writes_only_bind; [|intros ?]); try apply writes_only_gets; apply writes_only_write; eauto 10.
Qed.

Lemma c_writes_only_configure podId pods ing egr : writes_only podId (configureClusterPolicyBPFProbes podId pods ing egr).
Proof.
  unfold configureClusterPolicyBPFProbes. apply writes_only_bind.
  - apply writes_only_for_each. intros pod. case_decide; [|apply writes_only_ret].
    apply writes_only_bind; [apply writes_only_attach|]. intros ?. apply writes_only_ret.
  - intros ?. apply writes_only_bind; [apply writes_only_gets|]. intros []; [apply c_writes_only|apply writes_only_ret].
Qed.

Lemma c_updates_program podId ing egr b b' :
  bc_inv b -> updateClusterPolicyBPFMaps podId ing egr b = (b', Ret tt) ->
  programmed b' podId ClusterPolicy ing egr (cluster_state ing egr) /\ forall id, HasBPFContext id b' = HasBPFContext id b.
Proof.
  unfold updateClusterPolicyBPFMaps, mbind, ST_bind. intros Hb Hrun.
  destruct (UpdateClusterPolicyEbpfMaps podId ing egr b) as [b1 [[]|e|w]] eqn:E1; [|done..].
  fold (cluster_state ing egr) in Hrun.
  destruct (UpdatePodStateEbpfMaps podId CLUSTER_POLICY_POD_STATE_MAP_KEY (cluster_state ing egr) true true b1) as [b2 [[]|e|w]] eqn:E2; [|done..].
  cbn [gets] in Hrun. set (st := if IsStrictMode _ then _ else _) in Hrun.
  pose proof (write_frame (UpdateClusterPolicyEbpfMaps podId ing egr) b podId ltac:(eauto 10) Hb) as F1.
  rewrite E1 in F1. destruct F1 as (Hi1 & He1 & Hh1 & Hc1 & _).
  pose proof (write_frame (UpdatePodStateEbpfMaps podId CLUSTER_POLICY_POD_STATE_MAP_KEY (cluster_state ing egr) true true) b1 podId ltac:(eauto 10) Hi1) as F2.
  rewrite E2 in F2. destruct F2 as (Hi2 & He2 & Hh2 & Hc2 & _).
  pose proof (write_frame (CreatePodStateEbpfEntryIfNotExists podId POD_STATE_MAP_KEY st) b2 podId ltac:(eauto 10) Hi2) as F3.
  rewrite Hrun in F3. destruct F3 as (Hi3 & He3 & Hh3 & Hc3 & _). cbn in *.
  apply cluster_rules_law in E1 as (_ & Hr1 & _ & _); [|done].
  apply pod_state_law in E2 as (_ & Hp2 & Hr2); [|done].
  apply seed_law in Hrun as (_ & Hp3 & Hr3); [|done].
  split; [|intros id; by rewrite Hc3, Hc2, Hc1].
  intros d Hd. rewrite !Hp3, !Hp2. rewrite Hh3, Hh2, Hh1 in Hd. rewrite Hh2, Hh1, Hd.
  replace (by_dir true true d) with true by by destruct d. cbn.
  split; [by unfold cluster_state; destruct ing, egr|]. split; [destruct (pod_states _ _ _ _); eauto|].
  destruct (Hr1 d Hd) as (m & Hm & Hsub). exists m. rewrite He3, He2, He1, Hr3, Hr2. done.
Qed.

(** The rules that remain for an identifier, none if nothing is recorded for it. *)
Definition remaining_rules (name : gostring) (del : bool) (r : ClusterPolicyEndpointsReconciler) (id : gostring) :
  outcome (list EbpfFirewallRules * list EbpfFirewallRules) :=
  match podIdentifierToClusterPolicyEndpointMap r !! id with
  | Some _ => deriveClusterPolicyIngressAndEgressFirewallRules k r id name del
  | None => Ret ([], [])
  end.

(** The identifier has no programs on this node, or has exactly the rules that remain. *)
Definition clean (name : gostring) (del : bool) (r : ClusterPolicyEndpointsReconciler) (b : B) (id : gostring) : Prop :=
  HasBPFContext id b = false \/
  exists ing egr, remaining_rules name del r id = Ret (ing, egr) /\
  programmed b id ClusterPolicy ing egr (cluster_state ing egr).

Lemma clean_frame name del r b b' id :
  bc_entries b' = bc_entries b -> same_at id (bc_view b) (bc_view b') -> HasBPFContext id b' = HasBPFContext id b ->
  clean name del r b id -> clean name del r b' id.
Proof.
  intros He Hs Hc [Hn|(ing & egr & Hr & Hp)]; [left; congruence|]. right. exists ing, egr. split; [done|].
  by eapply programmed_frame.
Qed.

(** One cleanup: the maps stay, other identifiers are left alone, and success cleans. *)
Lemma cleanup_run name del p r b s' res :
  bc_inv b -> cleanupClusterPolicyPod k p name del (r, b) = (s', res) ->
  fst s' = r /\ bc_inv (snd s') /\ bc_entries (snd s') = bc_entries b /\
  (forall id, id <> pod_identifier p -> same_at id (bc_view b) (bc_view (snd s')) /\ HasBPFContext id (snd s') = HasBPFContext id b) /\
  (res = Ret tt -> clean name del r (snd s') (pod_identifier p)).
Proof.
  intros Hb. unfold cleanupClusterPolicyPod, c_on_bpf, c_on_maps, zoom, mbind, ST_bind, gets, get, lift. cbn [fst snd].
  assert (forall id, same_at id (bc_view b) (bc_view b)) as Hrefl by (intros id d; done).
  destruct (HasBPFContext (pod_identifier p) b) eqn:Ectx; cbn [negb fst snd].
  2:{ intros [= <- <-]. cbn. split; [done|]. split; [done|]. split; [done|]. split; [done|]. by left. }
  assert (forall ing egr b1 r1, updateClusterPolicyBPFMaps (pod_identifier p) ing egr b = (b1, r1) ->
    remaining_rules name del r (pod_identifier p) = Ret (ing, egr) -> s' = (r, b1) -> res = r1 ->
    fst s' = r /\ bc_inv (snd s') /\ bc_entries (snd s') = bc_entries b /\
    (forall id, id <> pod_identifier p -> same_at id (bc_view b) (bc_view (snd s')) /\ HasBPFContext id (snd s') = HasBPFContext id b) /\
    (res = Ret tt -> clean name del r (snd s') (pod_identifier p))) as Hgo.
  { intros ing egr b1 r1 Eu Hrem -> ->. pose proof (c_writes_only (pod_identifier p) ing egr b Hb) as (Hi & He & Hs).
    rewrite Eu in Hi, He, Hs. cbn in *. split; [done|]. split; [done|]. split; [done|]. split; [done|]. intros ->.
    apply c_updates_program in Eu as [Hp _]; [|done]. right. eauto. }
  unfold remaining_rules in Hgo.
  destruct (podIdentifierToClusterPolicyEndpointMap r !! pod_identifier p) as [l|] eqn:El.
  - destruct (deriveClusterPolicyIngressAndEgressFirewallRules k r _ _ _) as [[ing egr]|e|w] eqn:Ed.
    + cbn [fst snd]. destruct (updateClusterPolicyBPFMaps _ ing egr b) as [b1 r1] eqn:Eu. intros [= <- <-].
      by eapply Hgo.
    + intros [= <- <-]. by cbn.
    + intros [= <- <-]. by cbn.
  - cbn [fst snd]. destruct (updateClusterPolicyBPFMaps (pod_identifier p) [] [] b) as [b1 r1] eqn:Eu. intros [= <- <-]. by eapply Hgo.
Qed.

(** After the cleanups: an identifier is clean or a pod of it is among the failed ones. *)
Lemma cleanups_run name del pods r b :
  bc_inv b ->
  wp (updateClusterPolicyEnforcementStatusForPods k name pods del) (r, b) (fun s' res =>
    match res with
    | Ret (failed, err) => fst s' = r /\ bc_inv (snd s') /\ bc_entries (snd s') = bc_entries b /\
        (forall q, q ∈ failed -> q ∈ pods) /\ (err = None <-> failed = []) /\
        forall p, p ∈ pods -> clean name del r (snd s') (pod_identifier p) \/
                          exists q, q ∈ failed /\ pod_identifier q = pod_identifier p
    | Err _ => False
    | Panic _ => True
    end).
Proof.
  intros Hb. unfold updateClusterPolicyEnforcementStatusForPods.
  set (Inv := fun (d : list Pod) (acc : list Pod * option gostring) (s : ClusterPolicyEndpointsReconciler * B) =>
    fst s = r /\ bc_inv (snd s) /\ bc_entries (snd s) = bc_entries b /\ (forall q, q ∈ fst acc -> q ∈ pods) /\
    (snd acc = None <-> fst acc = []) /\
    forall p, p ∈ d -> clean name del r (snd s) (pod_identifier p) \/ exists q, q ∈ fst acc /\ pod_identifier q = pod_identifier p).
  eapply wp_mono; [apply (wp_fold_each _ Inv (fun _ res => match res with Err _ => False | _ => True end) pods []);
    [unfold Inv; set_solver|]|by intros s' [[failed err]|e|w] H'].
  intros d p [failed err] [r0 b0] (Hr & Hb0 & He0 & Hin & Herr & Hd) Hp. cbn in Hr, Hb0, He0, Hin, Herr, Hd. subst r0.
  unfold wp, mbind, ST_bind, attempt, mret, ST_ret.
  destruct (cleanupClusterPolicyPod k p name del (r, b0)) as [[r1 b1] res] eqn:Ec.
  apply cleanup_run in Ec as (Hr1 & Hb1 & He1 & Hother & Hok); [|done]. cbn in Hr1, Hb1, He1, Hother, Hok. subst r1.
  destruct res as [[]|e|w]; cbn [fst snd err_of]; [| |done]; unfold Inv; cbn [fst snd].
  - split; [done|]. split; [done|]. split; [congruence|]. split; [done|]. split; [done|].
    intros q [Hq| ->%list_elem_of_singleton]%elem_of_app; [|left; by apply Hok].
    destruct (Hd q Hq) as [Hc|?]; [|by right]. left. destruct (decide (pod_identifier q = pod_identifier p)) as [->|Hne]; [by apply Hok|].
    destruct (Hother _ Hne) as [Hs Hctx]. by eapply clean_frame.
  - split; [done|]. split; [done|]. split; [congruence|]. split; [set_solver|]. split.
    { split; [by destruct err|]. intros Hc. by apply app_eq_nil in Hc as [_ ?]. }
    intros q Hq. destruct (decide (pod_identifier q = pod_identifier p)) as [Heq|Hne]; [right; exists p; set_solver|].
    assert (q ∈ d) as Hqd by (apply elem_of_app in Hq as [?|Hq%list_elem_of_singleton]; [done|congruence]).
    destruct (Hd q Hqd) as [Hc|(q' & Hq' & Heq)]; [|right; exists q'; set_solver]. left.
    destruct (Hother _ Hne) as [Hs Hctx]. by eapply clean_frame.
Qed.
End programming.

(** * Which pods, and what is recorded *)
Lemma elem_of_Uniq_loop {A} `{EqDecision A} (seen l : list A) x : x ∈ Uniq_loop seen l <-> x ∈ l /\ (x ∉ seen).
Proof.
  revert seen. induction l as [|y l IH]; intros seen; cbn [Uniq_loop]; [set_solver|].
  case_decide as Hy; [rewrite IH; set_solver|]. rewrite elem_of_cons, IH. destruct (decide (x = y)); set_solver.
Qed.
Lemma elem_of_Uniq {A} `{EqDecision A} (l : list A) x : x ∈ Uniq l <-> x ∈ l.
Proof. unfold Uniq. rewrite elem_of_Uniq_loop. set_solver. Qed.

(** The pods recorded under an endpoint. *)
Definition recorded (r : ClusterPolicyEndpointsReconciler) (cpe : gostring) (p : Pod) : Prop :=
  exists l, ClusterPolicyEndpointSelectorMap r !! cpe = Some l /\ p ∈ l.

Section targets.
Context `{!MapOrder} (k : ClusterK8sClient) (nodeIP : gostring).

(** Deriving the targets changes nothing but the pod identifiers' lists. *)
Definition only_podIds (r0 r : ClusterPolicyEndpointsReconciler) : Prop := exists m, r = set_c_podIdMap (fun _ => m) r0.

Lemma only_podIds_modify r0 f : preserves (only_podIds r0) (modify (set_c_podIdMap f)).
Proof. apply preserves_modify. intros r [m ->]. by exists (f m). Qed.
Lemma only_podIds_get r0 : preserves (only_podIds r0) get.
Proof. intros r Hr. exact Hr. Qed.
Hint Resolve only_podIds_modify only_podIds_get : agent.

Lemma derive_only_podIds r0 parent name : preserves (only_podIds r0) (deriveTargetPodsForParentCNP k nodeIP parent name).
Proof. unfold deriveTargetPodsForParentCNP, c_targets_loop. preserve. Qed.

Lemma targets_only_podIds r0 parents cpes acc : preserves (only_podIds r0) (fold_each (c_targets_loop nodeIP parents) cpes acc).
Proof. unfold c_targets_loop. preserve. Qed.

Lemma derive_cleanup parent name r r1 t :
  deriveTargetPodsForParentCNP k nodeIP parent name r = (r1, Ret t) ->
  only_podIds r r1 /\ forall p, p ∈ ct_cleanup t <->
  (exists n, n ∈ name :: ct_parents t /\ recorded r n p) /\ (p ∉ ct_pods t) /\ (pod_identifier p ∉ ct_ids t).
Proof.
  intros Hrun. split.
  { pose proof (derive_only_podIds r parent name r) as Hp. rewrite Hrun in Hp. apply Hp.
    exists (podIdentifierToClusterPolicyEndpointMap r). by destruct r. }
  revert Hrun. unfold deriveTargetPodsForParentCNP. unfold mbind at 1, ST_bind at 1, lift at 1.
  destruct (getClusterPolicyEndpointsOfParentCNP k parent) as [objs|e|w]; [|done..].
  set (parents := match objs with [] => [name] | _ => cpe_name <$> objs end).
  unfold mbind at 1, ST_bind at 1.
  assert (only_podIds r (fst (fold_each (c_targets_loop nodeIP parents) objs (mkTargetPods [] ∅ []) r))) as Ho.
  { apply targets_only_podIds. exists (podIdentifierToClusterPolicyEndpointMap r). by destruct r. }
  destruct (fold_each _ objs _ r) as [r2 [tt_|e|w]]; [|done..]. cbn in Ho. destruct Ho as [m ->].
  unfold mbind at 1, ST_bind at 1, get at 1. unfold mbind at 1, ST_bind at 1, lift at 1.
  destruct (DeriveStalePodIdentifiers _ _ _) as [stale|e|w]; [|done..].
  cbn [ClusterPolicyEndpointSelectorMap set_c_podIdMap]. cbv zeta.
  set (cur := Uniq (mjoin _)). unfold mbind, ST_bind.
  destruct (for_each _ parents _) as [r3 [u|e|w]]; [|done..]. intros [= <- <-]. cbn [ct_cleanup ct_parents ct_pods ct_ids].
  assert (forall p, p ∈ cur <-> exists n, n ∈ name :: parents /\ recorded r n p) as Hcur.
  { intros p. unfold cur. rewrite elem_of_Uniq, list_elem_of_join. setoid_rewrite list_elem_of_fmap. split.
    - intros (l & Hp & n & -> & Hn). rewrite elem_of_Uniq in Hn. exists n. split; [done|]. unfold recorded.
      destruct (ClusterPolicyEndpointSelectorMap r !! n); [eauto|by apply not_elem_of_nil in Hp].
    - intros (n & Hn & l & Hl & Hp). exists l. split; [done|]. exists n. split; [by rewrite Hl|by apply elem_of_Uniq]. }
  intros p. rewrite <-Hcur. case_decide as Hlen.
  - unfold GetPodListToBeCleanedUp. rewrite list_elem_of_filter. naive_solver.
  - destruct cur; [set_solver|cbn in Hlen; lia].
Qed.

Lemma commit_run name pods ids parents r r' res :
  commitClusterPolicyEndpointState name pods ids parents r = (r', res) ->
  (forall w, res <> Panic w) ->
  res = Ret tt /\ podIdentifierToClusterPolicyEndpointMap r' = podIdentifierToClusterPolicyEndpointMap r /\
  forall n p, n ∈ parents -> recorded r' n p <-> p ∈ pods.
Proof.
  unfold commitClusterPolicyEndpointState, mbind, ST_bind.
  rewrite (for_each_total _ (fun n => set_c_selector (store_or_delete n pods))) by done. cbn [lift].
  set (r1 := foldl _ r parents).
  assert (podIdentifierToClusterPolicyEndpointMap r1 = podIdentifierToClusterPolicyEndpointMap r /\
    (forall n, n ∈ parents -> ClusterPolicyEndpointSelectorMap r1 !! n = match pods with [] => None | _ => Some pods end) /\
    (forall n, ClusterPolicyEndpointSelectorMap r1 !! n = ClusterPolicyEndpointSelectorMap r !! n \/
           ClusterPolicyEndpointSelectorMap r1 !! n = match pods with [] => None | _ => Some pods end)) as (Hid & Hsel & _).
  { unfold r1. clear r1. revert r. induction parents as [|x parents IH]; intros r; cbn [foldl]; [set_solver|].
    destruct (IH (set_c_selector (store_or_delete x pods) r)) as (Hid & Hsel & Hor). split; [done|].
    assert (forall n, ClusterPolicyEndpointSelectorMap (set_c_selector (store_or_delete x pods) r) !! n =
      if decide (x = n) then (match pods with [] => None | _ => Some pods end) else ClusterPolicyEndpointSelectorMap r !! n) as Hst
      by (intros; apply store_or_delete_lookup).
    split.
    - intros n [->|Hn]%elem_of_cons; [|by apply Hsel]. destruct (Hor x) as [->|?]; [|done]. rewrite Hst. by rewrite decide_True.
    - intros n. destruct (Hor n) as [->|?]; [|auto]. rewrite Hst. case_decide; auto. }
  destruct (GetParentNPNameFromPEName name) as [parent|e|w] eqn:Ep.
  - intros [= <- <-] _. split; [done|]. split; [exact Hid|]. intros n p Hn. unfold recorded.
    cbn [set_c_npMap ClusterPolicyEndpointSelectorMap]. rewrite (Hsel n Hn). destruct pods; [set_solver|naive_solver].
  - unfold GetParentNPNameFromPEName in Ep. by destruct (last_index _ _).
  - intros [= <- <-] Hw. by destruct (Hw w).
Qed.
End targets.

Section no_pod_forgotten.
Context {B : Type} `{!BpfClient B, !BpfClientSpec B, !MapOrder} (k : ClusterK8sClient) (nodeIP : gostring).
Context (time_Parse : gostring -> option Z) (start now : Z).

(** The programming loop leaves the identifiers it does not visit alone. *)
Lemma program_loop cpe tPods ids r b :
  bc_inv b ->
  wp (fold_each (c_program k cpe tPods) ids None) (r, b) (fun s' res =>
    match res with
    | Ret _ => fst s' = r /\ bc_inv (snd s') /\ bc_entries (snd s') = bc_entries b /\
        forall id, (id ∉ ids) -> same_at id (bc_view b) (bc_view (snd s')) /\ HasBPFContext id (snd s') = HasBPFContext id b
    | Err _ => False
    | Panic _ => True
    end).
Proof.
  intros Hb.
  set (Inv := fun (_ : list gostring) (_ : option gostring) (s : ClusterPolicyEndpointsReconciler * B) =>
    fst s = r /\ bc_inv (snd s) /\ bc_entries (snd s) = bc_entries b /\
    forall id, (id ∉ ids) -> same_at id (bc_view b) (bc_view (snd s)) /\ HasBPFContext id (snd s) = HasBPFContext id b).
  eapply wp_mono; [apply (wp_fold_each _ Inv (fun _ res => match res with Err _ => False | _ => True end) ids []);
    [|]|by intros s' [o|e|w] H'].
  { split; [done|]. split; [done|]. split; [done|]. intros id _. split; [|done]. intros d. done. }
  intros d x err [r0 b0] (Hr & Hb0 & He0 & Hf) Hx. cbn in Hr, Hb0, He0, Hf. subst r0.
  unfold wp, c_program, c_on_maps, c_on_bpf, zoom, mbind, ST_bind, get, lift, attempt, mret, ST_ret. cbn [fst snd].
  destruct (deriveClusterPolicyIngressAndEgressFirewallRules k r x _ _) as [[ing egr]|e|w]; cbn [fst snd];
    [|split; [done|]; split; [done|]; split; [done|]; exact Hf|done].
  pose proof (c_writes_only_configure x tPods ing egr b0 Hb0) as (Hi & He & Hs).
  destruct (configureClusterPolicyBPFProbes x tPods ing egr b0) as [b1 [[]|e|w]]; cbn [fst snd] in *; [| |done];
    (split; [done|]; split; [done|]; split; [by etrans|]; intros id Hid; destruct (Hf id Hid) as [Ha Hc];
    assert (id <> x) as Hne by (intros ->; done); destruct (Hs id Hne) as [Ha' Hc']; cbn [fst snd] in *; split; [by eapply same_at_trans|congruence]).
Qed.

Lemma c_latency_frame cpe ok r :
  let '(r', res) := observeClusterPolicyProgrammingLatency time_Parse start now cpe ok r in
  res = Ret tt /\ podIdentifierToClusterPolicyEndpointMap r' = podIdentifierToClusterPolicyEndpointMap r /\
  ClusterPolicyEndpointSelectorMap r' = ClusterPolicyEndpointSelectorMap r.
Proof.
  unfold observeClusterPolicyProgrammingLatency, mbind, ST_bind, modify, get, mret, ST_ret.
  destruct ok; repeat case_match; simplify_eq/=; auto.
Qed.

Lemma remaining_rules_ext name del r r' id :
  podIdentifierToClusterPolicyEndpointMap r' = podIdentifierToClusterPolicyEndpointMap r ->
  remaining_rules k name del r' id = remaining_rules k name del r id.
Proof. intros Hm. unfold remaining_rules, deriveClusterPolicyIngressAndEgressFirewallRules. by rewrite Hm. Qed.

Lemma clean_ext name del r r' (b : B) id :
  podIdentifierToClusterPolicyEndpointMap r' = podIdentifierToClusterPolicyEndpointMap r ->
  clean k name del r b id -> clean k name del r' b id.
Proof.
  intros Hm [Hn|(ing & egr & Hr & Hp)]; [by left|right]. exists ing, egr. split; [|done]. by rewrite (remaining_rules_ext _ _ r).
Qed.

(** Recording the latency leaves the recorded pods and identifiers alone. *)
Lemma c_latency_after cpe (err perr : option gostring) r3 (b4 : B) :
  exists r5, podIdentifierToClusterPolicyEndpointMap r5 = podIdentifierToClusterPolicyEndpointMap r3 /\
  ClusterPolicyEndpointSelectorMap r5 = ClusterPolicyEndpointSelectorMap r3 /\
  forall f : unit -> ST (ClusterPolicyEndpointsReconciler * B) unit,
  (match err with
    | None => zoom fst (fun r s => (r, snd s)) (observeClusterPolicyProgrammingLatency time_Parse start now cpe
             (match perr with None => true | Some _ => false end))
    | Some _ => mret tt
    end ≫= f) (r3, b4) = f tt (r5, b4).
Proof.
  destruct err as [e|]; [by exists r3|].
  pose proof (c_latency_frame cpe (match perr with None => true | Some _ => false end) r3) as Hl.
  destruct (observeClusterPolicyProgrammingLatency _ _ _ _ _ r3) as [r5 res5] eqn:El. destruct Hl as (-> & Ha & Hb).
  exists r5. split; [done|]. split; [done|]. intros f. unfold mbind, ST_bind, zoom. cbn [fst snd]. by rewrite El.
Qed.

(** C8: A reconcile forgets no pod.  Take any pod that was recorded under one of the policy's
    endpoints.  After a reconcile that did not panic, the pod is selected again, or shares its
    identifier with a selected pod; or this node has no programs for its identifier, or these
    hold exactly the rules of the cluster policies that still apply; or a pod of its identifier
    is recorded under every endpoint of the policy, so that the next reconcile finds it, and
    this reconcile returned an error, so that there is a next one. *)
Theorem cluster_no_pod_forgotten cpe (r : ClusterPolicyEndpointsReconciler) (b : B) s' res r1 t
  (Hinv : bc_inv b)
  (Htargets : deriveTargetPodsForParentCNP k nodeIP (c_PolicyRef (cpe_Spec cpe)) (cpe_name cpe) r = (r1, Ret t))
  (Hrun : reconcileClusterPolicyEndpoint k nodeIP time_Parse start now cpe (r, b) = (s', res))
  (Hpanic : forall w, res <> Panic w) :
  forall n p, n ∈ cpe_name cpe :: ct_parents t -> recorded r n p ->
  p ∈ ct_pods t \/ pod_identifier p ∈ ct_ids t \/
  clean k (cpe_name cpe) false (fst s') (snd s') (pod_identifier p) \/
  (res <> Ret tt /\ exists q, pod_identifier q = pod_identifier p /\ forall c, c ∈ ct_parents t -> recorded (fst s') c q).
Proof.
  intros n p Hn Hp. destruct (derive_cleanup k nodeIP _ _ r r1 t Htargets) as [[m Hm] Hcl].
  destruct (decide (p ∈ ct_pods t)) as [|Hnp]; [by left|]. right.
  destruct (decide (pod_identifier p ∈ ct_ids t)) as [|Hni]; [by left|]. right.
  assert (p ∈ ct_cleanup t) as Hpc by (apply Hcl; eauto).
  revert Hrun. unfold reconcileClusterPolicyEndpoint, c_on_maps. unfold mbind at 1, ST_bind at 1, zoom at 1. cbn [fst snd].
  rewrite Htargets. unfold mbind at 1, ST_bind at 1.
  pose proof (cleanups_run k (cpe_name cpe) false (ct_cleanup t) r1 b Hinv) as Hwp. unfold wp in Hwp.
  destruct (updateClusterPolicyEnforcementStatusForPods k _ _ _ (r1, b)) as [[r2 b2] [[failed err]|e|w]] eqn:Eu; cbn [fst snd] in Hwp.
  3:{ intros [= <- <-]. by destruct (Hpanic w). }
  2:{ done. }
  destruct Hwp as (-> & Hb2 & He2 & _ & Herr & Hclean).
  unfold mbind at 1, ST_bind at 1, zoom at 1. cbn [fst snd].
  destruct (commitClusterPolicyEndpointState _ _ _ _ r1) as [r3 res3] eqn:Ec.
  pose proof (commit_run _ _ _ _ _ _ _ Ec) as Hcommit.
  destruct res3 as [[]|e|w]; [|by destruct (Hcommit ltac:(done)) as [? _]|intros [= <- <-]; by destruct (Hpanic w)].
  destruct (Hcommit ltac:(done)) as (_ & Hid3 & Hrec). unfold mbind at 1, ST_bind at 1.
  pose proof (program_loop cpe (ct_pods t) (go_range (go "targetPodIdentifiers") (elements (ct_ids t))) r3 b2 Hb2) as Hwp.
  unfold wp in Hwp.
  destruct (fold_each (c_program k cpe (ct_pods t)) _ None (r3, b2)) as [[r4 b4] [perr|e|w]]; cbn [fst snd] in Hwp;
    [|done|intros [= <- <-]; by destruct (Hpanic w)].
  destruct Hwp as (-> & Hb4 & He4 & Hother).
  destruct (c_latency_after cpe err perr r3 b4) as (r5 & Hid5 & Hsel5 & Hlast).
  rewrite Hlast. intros Hfin.
  assert (s' = (r5, b4)) as -> by (by destruct (errors_Join err perr); injection Hfin as <- <-). cbn [fst snd].
  destruct (Hclean p Hpc) as [Hc|(q & Hq & Hqid)].
  - left. assert (pod_identifier p ∉ go_range (go "targetPodIdentifiers") (elements (ct_ids t))) as Hout
      by (rewrite go_range_perm, elem_of_elements; done).
    destruct (Hother _ Hout) as [Hs Hctx]. apply (clean_ext _ _ r1); [congruence|]. by eapply clean_frame.
  - right. split.
    + destruct err as [e|]; [|by rewrite (proj1 Herr eq_refl) in Hq; apply not_elem_of_nil in Hq].
      destruct (errors_Join (Some e) perr) eqn:Ej; [by injection Hfin as <-|]. by apply errors_Join_None in Ej as [? _].
    + exists q. split; [done|]. intros c Hcp. destruct (proj2 (Hrec c q Hcp)) as (l & Hl & Hql); [set_solver|].
      exists l. by rewrite Hsel5.
Qed.

(** C27: A failing List changes nothing.  When the API cannot list the ClusterPolicyEndpoints, a
    reconcile returns an error and neither the BPF client nor the recorded pods and identifiers
    change, so no rule is taken out because of a transient API error. *)
Theorem cluster_list_failure req (r : ClusterPolicyEndpointsReconciler) (b : B) e (Hlist : c_List k = Err e) :
  let '((r', b'), res) := c_reconcile k nodeIP time_Parse start now req (r, b) in
  res <> Ret tt /\ b' = b /\
  podIdentifierToClusterPolicyEndpointMap r' = podIdentifierToClusterPolicyEndpointMap r /\
  ClusterPolicyEndpointSelectorMap r' = ClusterPolicyEndpointSelectorMap r /\
  clusterNetworkPolicyToPodIdentifierMap r' = clusterNetworkPolicyToPodIdentifierMap r.
Proof.
  assert (forall parent name r0, deriveTargetPodsForParentCNP k nodeIP parent name r0 = (r0, Err e)) as Hd.
  { intros. unfold deriveTargetPodsForParentCNP, getClusterPolicyEndpointsOfParentCNP. by rewrite Hlist. }
  assert (let '((r', b'), res) := cleanUpClusterPolicyEndpoint k nodeIP req (r, b) in
    res <> Ret tt /\ b' = b /\
    podIdentifierToClusterPolicyEndpointMap r' = podIdentifierToClusterPolicyEndpointMap r /\
    ClusterPolicyEndpointSelectorMap r' = ClusterPolicyEndpointSelectorMap r /\
    clusterNetworkPolicyToPodIdentifierMap r' = clusterNetworkPolicyToPodIdentifierMap r) as Hclean.
  { unfold cleanUpClusterPolicyEndpoint, c_on_maps, zoom, mbind, ST_bind, modify, lift. cbn [fst snd].
    destruct (GetParentNPNameFromPEName req); [|done..]. by rewrite Hd. }
  unfold c_reconcile. destruct (c_Get k req) as [cpe| |ge]; [|done..].
  destruct (DeletionTimestamp (cpe_meta cpe)); [done|].
  unfold reconcileClusterPolicyEndpoint, c_on_maps, zoom, mbind, ST_bind. cbn [fst snd]. by rewrite Hd.
Qed.
End no_pod_forgotten.
