(* ===== verification/Classifiers.v ===== *)
(** [pkg/ebpf/c/tc.v4ingress.bpf.c], [tc.v4egress.bpf.c], [tc.v6ingress.bpf.c] and
    [tc.v6egress.bpf.c]: the four classifiers, from the bytes of a frame to the verdict and
    the writes to the tables they share.

    The four files are one program over two parameters.  The address family is the class
    [Family]: the header layout, the bytes of a trie key and the struct of a conntrack key.
    The direction picks the address that is looked up and the one that owns the connection.
    [Datapath.v] has the evaluation of a packet against the rule maps, which does not depend
    on either. *)
From S2P Require Import Prelude NetIP ApiTypes Utils Datapath BpfInterface.

(** * Frames

    [skb_data] is what lies between [skb->data] and [skb->data_end]. *)
Record sk_buff := mkSkb { skb_data : gostring; skb_if : Z; skb_size : Z }.

Definition ETH_HLEN : nat := 14.
Definition IPPROTO_TCP : Z := 6.
Definition IPPROTO_UDP : Z := 17.
Definition IPPROTO_SCTP : Z := 132.

(** A field of [len] bytes at [off], as a load on the little-endian machine reads it. *)
Definition load (len off : nat) (data : gostring) : Z := le_combine (take len (drop off data)).

(** The byte swap the classifiers write out for a port. *)
Definition ntohs (v : Z) : Z := Z.lor (Z.shiftl (Z.land v 0xFF) 8) (Z.shiftr (Z.land v 0xFF00) 8).

(** The bytes of a transport header that must be there before its ports are read. *)
Definition l4_header_size (protocol : Z) : option nat :=
  if protocol =? IPPROTO_TCP then Some 20%nat
  else if protocol =? IPPROTO_UDP then Some 8%nat
  else if protocol =? IPPROTO_SCTP then Some 12%nat
  else None.

(** The switch on the protocol: the two ports, 0 for the other protocols; [None] when the
    header is cut short. *)
Definition l4_ports (protocol : Z) (l4 : gostring) : option (Z * Z) :=
  match l4_header_size protocol with
  | None => Some (0, 0)
  | Some size =>
      if (length l4 <? size)%nat then None
      else Some (ntohs (load 2 0 l4), ntohs (load 2 2 l4))
  end.

(** What a classifier has read when it starts to look at its maps. *)
Record headers (A : Type) := mkHeaders {
  h_src : A; h_dst : A; h_protocol : Z; h_src_port : Z; h_dst_port : Z
}.
Arguments mkHeaders {_} _ _ _ _ _.
Arguments h_src {_} _.
Arguments h_dst {_} _.
Arguments h_protocol {_} _.
Arguments h_src_port {_} _.
Arguments h_dst_port {_} _.

(** The frame up to the network header: [None] when it is cut short or of another type. *)
Definition network_header (h_proto : Z) (size : nat) (version : Z) (data : gostring) : option gostring :=
  if (length data <? ETH_HLEN)%nat then None
  else if negb (load 2 12 data =? h_proto) then None
  else
    let ip := drop ETH_HLEN data in
    if (length ip <? size)%nat then None
    else if negb (Z.shiftr (load 1 0 ip) 4 =? version) then None
    else Some ip.

(** The IPv4 classifiers; the transport header is taken to follow the 20 bytes of
    [struct iphdr]. *)
Definition parse_v4 (data : gostring) : option (headers Z) :=
  ip ← network_header 0x08 20 4 data;
  let protocol := load 1 9 ip in
  '(sport, dport) ← l4_ports protocol (drop 20 ip);
  Some (mkHeaders (load 4 12 ip) (load 4 16 ip) protocol sport dport).

(** The IPv6 classifiers: ICMPv6 is not classified, with or without a hop-by-hop header. *)
Definition icmpv6 (ip : gostring) : bool :=
  (load 1 6 ip =? 58) ||
  ((load 1 6 ip =? 0) && (42 <=? length ip)%nat && (load 1 40 ip =? 58)).

Definition parse_v6 (data : gostring) : option (headers gostring) :=
  ip ← network_header 0xdd86 40 6 data;
  if icmpv6 ip then None
  else
    let protocol := load 1 6 ip in
    '(sport, dport) ← l4_ports protocol (drop 40 ip);
    Some (mkHeaders (take 16 (drop 8 ip)) (take 16 (drop 24 ip)) protocol sport dport).

(** * The address family *)
Class Family := {
  addr : Type;
  addr_eq_dec :: EqDecision addr;
  (** [struct conntrack_key]. *)
  ctkey : Type;
  ctkey_eq_dec :: EqDecision ctkey;
  ctkey_countable :: Countable ctkey;
  mk_key : addr -> Z -> addr -> Z -> Z -> addr -> Z -> ctkey;
  key_ifindex : ctkey -> Z;
  (** [trie_key.ip]. *)
  trie_bytes : addr -> gostring;
  addr_len : nat;
  (** [sizeof(struct data_t)]. *)
  event_size : Z;
  parse : gostring -> option (headers addr);

  mk_key_inj : forall s sp d dp p o i s' sp' d' dp' p' o' i',
    mk_key s sp d dp p o i = mk_key s' sp' d' dp' p' o' i' ->
    s = s' /\ sp = sp' /\ d = d' /\ dp = dp' /\ p = p' /\ o = o' /\ i = i';
  key_ifindex_mk : forall s sp d dp p o i, key_ifindex (mk_key s sp d dp p o i) = i
}.

Definition IPv4 : Family.
Proof.
  refine {| addr := Z; ctkey := ConntrackKey; mk_key := mkConntrackKey; key_ifindex := Ifindex;
            trie_bytes := le32; addr_len := 4; event_size := SIZEOF_DATA_T; parse := parse_v4 |}; [|done].
  by intros * [= -> -> -> -> -> -> ->].
Defined.

Definition IPv6 : Family.
Proof.
  refine {| addr := gostring; ctkey := ConntrackKeyV6; mk_key := mkConntrackKeyV6; key_ifindex := Ifindex6;
            trie_bytes := fun a => a; addr_len := 16; event_size := 56; parse := parse_v6 |}; [|done].
  by intros * [= -> -> -> -> -> -> ->].
Defined.

(** * The maps

    The three maps of a program are those of its pod identifier and direction; the
    connection table and the ring buffer are the node's. *)
Record hook := mkHook {
  hook_rules : gmap gostring gostring;
  hook_cp_rules : gmap gostring gostring;
  hook_states : gmap Z Z
}.

Section programs.
Context `{F : !Family, L : !LPM}.

Record event := mkEvent {
  e_src : addr; e_src_port : Z; e_dst : addr; e_dst_port : Z; e_protocol : Z;
  e_verdict : Z; e_packet_sz : Z; e_is_egress : Z; e_tier : Z
}.

Record tables := mkTables { conntrack : gmap ctkey ConntrackVal; ring : list event }.

Definition track (k : ctkey) (v : ConntrackVal) (t : tables) : tables :=
  mkTables (<[k := v]> (conntrack t)) (ring t).
Definition forget (k : ctkey) (t : tables) : tables := mkTables (delete k (conntrack t)) (ring t).
(** The event is lost when the ring buffer is full. *)
Definition report (e : event) (t : tables) : tables := mkTables (conntrack t) (bpf_ringbuf_output event_size (ring t) e).

(** The address looked up in the rule maps, and the pod's own. *)
Definition remote (d : Direction) (h : headers addr) : addr := by_dir (h_src h) (h_dst h) d.
Definition owner (d : Direction) (h : headers addr) : addr := by_dir (h_dst h) (h_src h) d.

Definition flow_key (d : Direction) (h : headers addr) (ifindex : Z) : ctkey :=
  mk_key (h_src h) (h_src_port h) (h_dst h) (h_dst_port h) (h_protocol h) (owner d h) ifindex.
Definition reverse_flow_key (d : Direction) (h : headers addr) (ifindex : Z) : ctkey :=
  mk_key (h_dst h) (h_dst_port h) (h_src h) (h_src_port h) (h_protocol h) (owner d h) ifindex.

Definition event_of_headers (d : Direction) (h : headers addr) (size verdict tier : Z) : event :=
  mkEvent (h_src h) (h_src_port h) (h_dst h) (h_dst_port h) (h_protocol h) verdict size
    (by_dir 0 1 d) tier.

(** * The classifier of a direction *)

Definition evaluateFlow_on (d : Direction) (hk : hook) (h : headers addr) (ifindex size ct_val now pod_state : Z)
  (t : tables) : bpf_ret * tables :=
  let '(ret, tier) := decideFlow (hook_rules hk) (hook_cp_rules hk) (trie_bytes (remote d h))
                        (h_protocol h) (h_dst_port h) pod_state in
  let t := match ret with
           | BPF_OK => track (flow_key d h ifindex) (mkConntrackVal ct_val now) t
           | BPF_DROP => t
           end in
  match tier with
  | None => (ret, t)
  | Some tr => (ret, report (event_of_headers d h size (match ret with BPF_OK => 1 | BPF_DROP => 0 end) tr) t)
  end.

Definition handle_headers (d : Direction) (hk : hook) (h : headers addr) (ifindex size now : Z) (t : tables) :
    bpf_ret * tables :=
  match hook_states hk !! 0, hook_states hk !! 1 with
  | Some pst, Some clusterpolicy_pst =>
      let ct_pod_state_val := GET_CT_VAL pst clusterpolicy_pst in
      match conntrack t !! flow_key d h ifindex with
      | Some flow_val =>
          if ct_Value flow_val =? ct_pod_state_val then
            (BPF_OK, track (flow_key d h ifindex) (mkConntrackVal (ct_Value flow_val) now) t)
          else
            let '(ret, t) := evaluateFlow_on d hk h ifindex size ct_pod_state_val now pst t in
            match ret with
            | BPF_DROP => (BPF_DROP, forget (flow_key d h ifindex) t)
            | BPF_OK => (BPF_OK, t)
            end
      | None =>
          match conntrack t !! reverse_flow_key d h ifindex with
          | Some reverse_flow_val =>
              (BPF_OK, track (reverse_flow_key d h ifindex) (mkConntrackVal (ct_Value reverse_flow_val) now) t)
          | None => evaluateFlow_on d hk h ifindex size ct_pod_state_val now pst t
          end
      end
  | _, _ => (BPF_DROP, report (event_of_headers d h size 0 ERROR_TIER) t)
  end.

(** The whole program: what it cannot parse passes. *)
Definition handle (d : Direction) (hk : hook) (skb : sk_buff) (now : Z) (t : tables) : bpf_ret * tables :=
  match parse (skb_data skb) with
  | None => (BPF_OK, t)
  | Some h => handle_headers d hk h (skb_if skb) (skb_size skb) now t
  end.
End programs.

(** The four programs. *)
Definition tc_v4ingress `{L : !LPM} := handle (F := IPv4) ingress.
Definition tc_v4egress `{L : !LPM} := handle (F := IPv4) egress.
Definition tc_v6ingress `{L : !LPM} := handle (F := IPv6) ingress.
Definition tc_v6egress `{L : !LPM} := handle (F := IPv6) egress.
