(* ===== verification/Frames.v ===== *)
(** Frames on the wire: the parsers of the classifiers read back what a sender put into a
    frame without IP options, and what they read of a frame with options. *)
From S2P Require Import Prelude NetIP ApiTypes Utils Datapath BpfInterface Classifiers.

(** * Fields of a frame *)

Lemma load_at len pre mid post : length mid = len -> load len (length pre) (pre ++ mid ++ post) = le_combine mid.
Proof. intros <-. unfold load. by rewrite drop_app_length, take_app_length. Qed.

Lemma load_head mid post : load (length mid) 0 (mid ++ post) = le_combine mid.
Proof. by apply (load_at _ []). Qed.

(** The same, for a prefix that is a concatenation. *)
Lemma load_from len off pre mid post data :
  data = pre ++ mid ++ post -> length pre = off -> length mid = len -> load len off data = le_combine mid.
Proof. intros -> <- Hl. by apply load_at. Qed.

Lemma drop_from off (pre post data : gostring) : data = pre ++ post -> length pre = off -> drop off data = post.
Proof. intros -> <-. apply drop_app_length. Qed.

(** A 16-bit field in network order. *)
Definition be16 (z : Z) : gostring := rev (le_split 2 z).

Lemma length_be16 z : length (be16 z) = 2%nat.
Proof. done. Qed.

Lemma le_combine_byte z : 0 <= z < 256 -> le_combine [byte.of_Z z] = z.
Proof. intros H. rewrite le_combine_1, byte.unsigned_of_Z. by apply Z.mod_small. Qed.

(** A byte below a shifted value. *)
Lemma lor_byte a b : 0 <= a < 256 -> Z.lor a (Z.shiftl b 8) = a + b * 256.
Proof.
  intros Ha. rewrite Z.shiftl_mul_pow2 by lia. change (2 ^ 8) with 256. rewrite <-(Z.add_lor_land a (b * 256)).
  replace (Z.land a (b * 256)) with 0; [lia|]. symmetry. apply Z.bits_inj'. intros n Hn. rewrite Z.land_spec, Z.bits_0.
  destruct (Z.lt_ge_cases n 8) as [H|H].
  - change 256 with (2 ^ 8). by rewrite Z.mul_pow2_bits_low, andb_false_r.
  - rewrite (Z.bits_above_log2 a n); [done|lia|]. destruct (Z.eq_dec a 0) as [->|]; [cbn; lia|]. apply Z.log2_lt_pow2; [lia|].
    apply Z.lt_le_trans with (2 ^ 8); [lia|]. by apply Z.pow_le_mono_r.
Qed.

Lemma high_byte v : 0 <= v < 2 ^ 16 -> 0 <= v / 256 < 256.
Proof. intros H. split; [apply Z.div_pos; lia|apply Z.div_lt_upper_bound; lia]. Qed.

Lemma ntohs_swap v : 0 <= v < 2 ^ 16 -> ntohs v = v / 256 + (v mod 256) * 256.
Proof.
  intros Hv. unfold ntohs. change 0xFF with (Z.ones 8). rewrite Z.shiftr_land. change (Z.shiftr 0xFF00 8) with (Z.ones 8).
  rewrite !Z.land_ones, Z.shiftr_div_pow2 by lia. change (2 ^ 8) with 256. pose proof (high_byte v Hv).
  rewrite (Z.mod_small (v / 256)) by done. by rewrite Z.lor_comm, lor_byte.
Qed.

Lemma le_combine_be16 p : 0 <= p < 2 ^ 16 -> le_combine (be16 p) = p / 256 + (p mod 256) * 256.
Proof.
  intros Hp. change (be16 p) with ([byte.of_Z (Z.shiftr p 8)] ++ [byte.of_Z p]). pose proof (high_byte p Hp).
  rewrite le_combine_app, Z.shiftr_div_pow2, le_combine_byte by (done || lia). rewrite le_combine_1, byte.unsigned_of_Z. by apply lor_byte.
Qed.

(** The swap of the classifiers reads a port back. *)
Lemma ntohs_be16 p : 0 <= p < 2 ^ 16 -> ntohs (le_combine (be16 p)) = p.
Proof.
  intros Hp. rewrite le_combine_be16 by done. pose proof (high_byte p Hp). pose proof (Z.mod_pos_bound p 256 eq_refl).
  pose proof (Z.div_mod p 256 ltac:(lia)) as Hd. set (q := p / 256) in *. set (r := p mod 256) in *. rewrite ntohs_swap by lia.
  assert ((q + r * 256) / 256 = r) as -> by (symmetry; apply (Z.div_unique _ _ _ q); lia).
  assert ((q + r * 256) mod 256 = q) as -> by (symmetry; apply (Z.mod_unique _ _ r); lia). lia.
Qed.

(** * What every parsed frame has *)
Class ParseLaws (F : Family) := {
  parse_src_len : forall data h, parse data = Some h -> length (trie_bytes (h_src h)) = addr_len;
  parse_dst_len : forall data h, parse data = Some h -> length (trie_bytes (h_dst h)) = addr_len;
  parse_dst_port : forall data h, parse data = Some h -> 0 <= h_dst_port h <= 65535
}.

Lemma load_port off data : 0 <= load 2 off data < 2 ^ 16.
Proof.
  unfold load. pose proof (le_combine_bound (take 2 (drop off data))) as [H1 H2]. split; [done|].
  eapply Z.lt_le_trans; [exact H2|]. apply Z.pow_le_mono_r; [done|]. rewrite length_take. lia.
Qed.

Lemma ntohs_bound v : 0 <= v < 2 ^ 16 -> 0 <= ntohs v < 2 ^ 16.
Proof.
  intros Hv. rewrite ntohs_swap by done. pose proof (high_byte v Hv). pose proof (Z.mod_pos_bound v 256 eq_refl). lia.
Qed.

Lemma l4_ports_bound protocol l4 sport dport : l4_ports protocol l4 = Some (sport, dport) -> 0 <= dport <= 65535.
Proof.
  unfold l4_ports. destruct (l4_header_size protocol); [case_match; [done|]|]; intros [= <- <-]; [|lia].
  pose proof (ntohs_bound _ (load_port 2 l4)). lia.
Qed.

Lemma network_header_len h_proto size version data ip :
  network_header h_proto size version data = Some ip -> (size <= length ip)%nat.
Proof.
  unfold network_header. case_match; [done|]. case_match; [done|].
  destruct (Nat.ltb_spec (length (drop ETH_HLEN data)) size) as [|Hs]; [done|]. case_match; [done|]. by intros [= <-].
Qed.

#[global] Instance IPv4_laws : ParseLaws IPv4.
Proof.
  split; [done..|]. intros data h. cbn [parse IPv4]. unfold parse_v4. destruct (network_header _ _ _ data) as [ip|]; [|done].
  cbn [mbind option_bind]. destruct (l4_ports _ _) as [[sp dp]|] eqn:E; [|done]. cbn. intros [= <-]. by apply l4_ports_bound in E.
Qed.

#[global] Instance IPv6_laws : ParseLaws IPv6.
Proof.
  assert (forall data h, parse_v6 data = Some h ->
    length (h_src h) = 16%nat /\ length (h_dst h) = 16%nat /\ 0 <= h_dst_port h <= 65535) as Hp.
  { intros data h. unfold parse_v6. destruct (network_header _ _ _ data) as [ip|] eqn:En; [|done]. apply network_header_len in En.
    cbn [mbind option_bind]. destruct (icmpv6 ip); [done|]. destruct (l4_ports _ _) as [[sp dp]|] eqn:E; [|done]. cbn. intros [= <-].
    apply l4_ports_bound in E. cbn. rewrite !length_take, !length_drop. split_and!; lia. }
  split; intros data h H; apply Hp in H as (? & ? & ?); done.
Qed.

(** * Frames of the two families *)
Definition transport (sport dport : Z) (rest : gostring) : gostring := be16 sport ++ be16 dport ++ rest.

Lemma l4_ports_transport protocol sport dport rest size :
  l4_header_size protocol = Some size -> (size <= 4 + length rest)%nat -> 0 <= sport < 2 ^ 16 -> 0 <= dport < 2 ^ 16 ->
  l4_ports protocol (transport sport dport rest) = Some (sport, dport).
Proof.
  intros Hs Hl H1 H2. unfold l4_ports. rewrite Hs.
  destruct (Nat.ltb_spec (length (transport sport dport rest)) size) as [H|_];
    [unfold transport in H; rewrite !length_app, !length_be16 in H; lia|].
  unfold transport. rewrite (load_head (be16 sport) _ : load 2 0 _ = _), (load_at 2 (be16 sport) (be16 dport) rest eq_refl : load 2 2 _ = _).
  by rewrite !ntohs_be16.
Qed.

(** The fields around the ones the classifiers read. *)
Record link := mkLink { mac : gostring; v4_mid : gostring; v4_checksum : gostring; v6_start : gostring; v6_hop_limit : gostring }.
Definition link_ok (l : link) : Prop :=
  length (mac l) = 12%nat /\ length (v4_mid l) = 8%nat /\ length (v4_checksum l) = 2%nat /\
  length (v6_start l) = 5%nat /\ length (v6_hop_limit l) = 1%nat.

(** An IPv4 frame whose header length field counts [ihl] words. *)
Definition frame_v4 (l : link) (ihl : Z) (protocol src dst : Z) (options l4 : gostring) : gostring :=
  (mac l ++ [x08; x00]) ++ [byte.of_Z (64 + ihl)] ++ v4_mid l ++ [byte.of_Z protocol] ++ v4_checksum l ++
  le32 src ++ le32 dst ++ options ++ l4.

(** The first byte of an IPv6 header holds the version and four bits of the traffic class. *)
Definition frame_v6 (l : link) (tc : Z) (protocol : Z) (src dst l4 : gostring) : gostring :=
  (mac l ++ [x86; xdd]) ++ [byte.of_Z (96 + tc)] ++ v6_start l ++ [byte.of_Z protocol] ++ v6_hop_limit l ++ src ++ dst ++ l4.

Lemma network_header_frame m t h_proto size version b rest :
  length m = 12%nat -> length t = 2%nat -> le_combine t = h_proto -> (size <= 1 + length rest)%nat ->
  Z.shiftr (le_combine [b]) 4 = version ->
  network_header h_proto size version ((m ++ t) ++ [b] ++ rest) = Some ([b] ++ rest).
Proof.
  intros Hm Ht Hp Hs Hv. unfold network_header. assert (length (m ++ t) = ETH_HLEN) as Hl by (rewrite length_app, Hm, Ht; done).
  rewrite drop_app_length' by done. rewrite length_app, Hl.
  destruct (Nat.ltb_spec (ETH_HLEN + length ([b] ++ rest)) ETH_HLEN) as [|_]; [lia|].
  rewrite <-app_assoc, <-Hm, (load_at 2 m t ([b] ++ rest)) by done. rewrite Hp, Z.eqb_refl. cbn [negb].
  destruct (Nat.ltb_spec (length ([b] ++ rest)) size) as [H|_]; [cbn in H; lia|].
  rewrite (load_head [b] rest : load 1 0 _ = _), Hv, Z.eqb_refl. done.
Qed.

Lemma shiftr_nibble hi lo : 0 <= lo < 16 -> 0 <= hi < 16 -> Z.shiftr (le_combine [byte.of_Z (hi * 16 + lo)]) 4 = hi.
Proof.
  intros Hl Hh. rewrite le_combine_byte, Z.shiftr_div_pow2 by lia. change (2 ^ 4) with 16.
  rewrite Z.add_comm, Z.div_add, Z.div_small by lia. lia.
Qed.

Lemma le_combine_le32 z : 0 <= z < 2 ^ 32 -> le_combine (le32 z) = z.
Proof. intros H. change (of_le32 (le32 z) = z). rewrite of_le32_le32. by apply u32_small. Qed.

(** What is read of an IPv4 frame: the ports come from the 20th byte of the IP header on. *)
Lemma parse_v4_frame l ihl protocol src dst options l4 :
  link_ok l -> 0 <= ihl < 16 -> 0 <= protocol < 256 -> 0 <= src < 2 ^ 32 -> 0 <= dst < 2 ^ 32 ->
  parse_v4 (frame_v4 l ihl protocol src dst options l4) =
  '(sport, dport) ← l4_ports protocol (options ++ l4); Some (mkHeaders src dst protocol sport dport).
Proof.
  intros (Hm & Hmid & Hck & _ & _) Hi Hp Hs Hd. unfold parse_v4, frame_v4.
  rewrite network_header_frame; [|done..| |by apply (shiftr_nibble 4)]; [|rewrite !length_app, !length_le32, Hmid, Hck; cbn; lia].
  cbn [mbind option_bind].
  set (b := [byte.of_Z (64 + ihl)]). set (ip := b ++ _).
  assert (load 1 9 ip = protocol /\ load 4 12 ip = src /\ load 4 16 ip = dst /\ drop 20 ip = options ++ l4) as (H9 & H12 & H16 & H20).
  { split_and!.
    - rewrite (load_from 1 9 (b ++ v4_mid l) [byte.of_Z protocol] (v4_checksum l ++ le32 src ++ le32 dst ++ options ++ l4));
        [by apply le_combine_byte|by rewrite <-!app_assoc|by rewrite !length_app, Hmid|done].
    - rewrite (load_from 4 12 (b ++ v4_mid l ++ [byte.of_Z protocol] ++ v4_checksum l) (le32 src) (le32 dst ++ options ++ l4));
        [by apply le_combine_le32|by rewrite <-!app_assoc|by rewrite !length_app, Hmid, Hck|done].
    - rewrite (load_from 4 16 (b ++ v4_mid l ++ [byte.of_Z protocol] ++ v4_checksum l ++ le32 src) (le32 dst) (options ++ l4));
        [by apply le_combine_le32|by rewrite <-!app_assoc|by rewrite !length_app, Hmid, Hck|done].
    - apply (drop_from 20 (b ++ v4_mid l ++ [byte.of_Z protocol] ++ v4_checksum l ++ le32 src ++ le32 dst));
        [by rewrite <-!app_assoc|by rewrite !length_app, Hmid, Hck]. }
  rewrite H9, H12, H16, H20. done.
Qed.

Lemma parse_v6_frame l tc protocol src dst l4 :
  link_ok l -> 0 <= tc < 16 -> 0 <= protocol < 256 -> protocol <> 58 -> protocol <> 0 -> length src = 16%nat -> length dst = 16%nat ->
  parse_v6 (frame_v6 l tc protocol src dst l4) =
  '(sport, dport) ← l4_ports protocol l4; Some (mkHeaders src dst protocol sport dport).
Proof.
  intros (Hm & _ & _ & Hst & Hhop) Ht Hp H58 H0 Hs Hd. unfold parse_v6, frame_v6.
  rewrite network_header_frame; [|done..| |by apply (shiftr_nibble 6)]; [|rewrite !length_app, Hst, Hhop, Hs, Hd; cbn; lia].
  cbn [mbind option_bind]. set (b := [byte.of_Z (96 + tc)]). set (ip := b ++ _).
  assert (load 1 6 ip = protocol /\ drop 8 ip = src ++ dst ++ l4 /\ drop 24 ip = dst ++ l4 /\ drop 40 ip = l4) as (H6 & H8 & H24 & H40).
  { split_and!.
    - rewrite (load_from 1 6 (b ++ v6_start l) [byte.of_Z protocol] (v6_hop_limit l ++ src ++ dst ++ l4));
        [by apply le_combine_byte|by rewrite <-!app_assoc|by rewrite !length_app, Hst|done].
    - apply (drop_from 8 (b ++ v6_start l ++ [byte.of_Z protocol] ++ v6_hop_limit l));
        [by rewrite <-!app_assoc|by rewrite !length_app, Hst, Hhop].
    - apply (drop_from 24 (b ++ v6_start l ++ [byte.of_Z protocol] ++ v6_hop_limit l ++ src));
        [by rewrite <-!app_assoc|by rewrite !length_app, Hst, Hhop, Hs].
    - apply (drop_from 40 (b ++ v6_start l ++ [byte.of_Z protocol] ++ v6_hop_limit l ++ src ++ dst));
        [by rewrite <-!app_assoc|by rewrite !length_app, Hst, Hhop, Hs, Hd]. }
  unfold icmpv6. rewrite H6, H8, H24, H40.
  destruct (Z.eqb_spec protocol 58) as [|_]; [done|]. destruct (Z.eqb_spec protocol 0) as [|_]; [done|]. cbn [orb andb].
  by rewrite !take_app_length' by done.
Qed.

(** C22: The classifiers read back what a sender wrote.  Of an Ethernet frame with an IPv4
    header without options, or with an IPv6 header, that carries TCP, UDP or SCTP, they obtain
    the addresses, the protocol and the two ports, whatever the other fields are. *)
Theorem frame_roundtrip (l : link) (nibble protocol sport dport : Z) (size : nat) (rest : gostring)
    (Hl : link_ok l) (Hn : 0 <= nibble < 16)
    (Hsize : l4_header_size protocol = Some size) (Hrest : (size <= 4 + length rest)%nat)
    (Hsp : 0 <= sport < 2 ^ 16) (Hdp : 0 <= dport < 2 ^ 16) :
  (forall src dst, 0 <= src < 2 ^ 32 -> 0 <= dst < 2 ^ 32 ->
    parse_v4 (frame_v4 l 5 protocol src dst [] (transport sport dport rest)) = Some (mkHeaders src dst protocol sport dport)) /\
  (forall src dst, length src = 16%nat -> length dst = 16%nat ->
    parse_v6 (frame_v6 l nibble protocol src dst (transport sport dport rest)) = Some (mkHeaders src dst protocol sport dport)).
Proof.
  assert (0 <= protocol < 256 /\ protocol <> 58 /\ protocol <> 0) as (Hp & H58 & H0).
  { revert Hsize. unfold l4_header_size, IPPROTO_TCP, IPPROTO_UDP, IPPROTO_SCTP. repeat case_match; intros [=]; lia. }
  split; intros src dst Hs Hd.
  - rewrite parse_v4_frame by done || lia. cbn [app]. by rewrite (l4_ports_transport _ _ _ _ size).
  - rewrite parse_v6_frame by done. by rewrite (l4_ports_transport _ _ _ _ size).
Qed.

(** C38: IPv4 options hide the ports.  The classifiers take the transport header to follow the
    20 fixed bytes and never read the header length.  Of a frame with options they read the
    ports from the first four bytes of the options: for any ports a sender wants to be judged
    by, and any transport header that is really sent, there is such a frame. *)
Theorem options_hide_ports (l : link) (protocol src dst claimed_sport claimed_dport : Z) (size : nat) (l4 : gostring)
    (Hl : link_ok l) (Hsize : l4_header_size protocol = Some size) (Hl4 : (size <= length l4)%nat)
    (Hs : 0 <= src < 2 ^ 32) (Hd : 0 <= dst < 2 ^ 32)
    (Hsp : 0 <= claimed_sport < 2 ^ 16) (Hdp : 0 <= claimed_dport < 2 ^ 16) :
  exists options, length options = 4%nat /\
    parse_v4 (frame_v4 l 6 protocol src dst options l4) = Some (mkHeaders src dst protocol claimed_sport claimed_dport).
Proof.
  exists (be16 claimed_sport ++ be16 claimed_dport). split; [done|].
  assert (0 <= protocol < 256) as Hp.
  { revert Hsize. unfold l4_header_size, IPPROTO_TCP, IPPROTO_UDP, IPPROTO_SCTP. repeat case_match; intros [=]; lia. }
  rewrite parse_v4_frame by done || lia. rewrite <-app_assoc. fold (transport claimed_sport claimed_dport l4).
  rewrite (l4_ports_transport _ _ _ _ size); [done..|lia|done|done].
Qed.

(** A frame from 10.0.1.1:40000 to 10.0.1.2:80, its reply, and one to port 22 that claims
    port 80 in its options. *)
Definition ex_link : link :=
  mkLink (replicate 12 x00) (replicate 8 x00) (replicate 2 x00) (replicate 5 x00) (replicate 1 x40).
Definition ex_rest : gostring := replicate 16 x00.
Definition ex_client : Z := 0x0101000A.
Definition ex_server : Z := 0x0201000A.
Definition ex_frame : gostring := frame_v4 ex_link 5 IPPROTO_TCP ex_client ex_server [] (transport 40000 80 ex_rest).
Definition ex_reply : gostring := frame_v4 ex_link 5 IPPROTO_TCP ex_server ex_client [] (transport 80 40000 ex_rest).
Definition ex_hidden : gostring :=
  frame_v4 ex_link 6 IPPROTO_TCP ex_client ex_server (be16 40000 ++ be16 80) (transport 40000 22 ex_rest).

Lemma frame_roundtrip_witness :
  parse_v4 ex_frame = Some (mkHeaders ex_client ex_server IPPROTO_TCP 40000 80) /\
  parse_v6 (frame_v6 ex_link 0 IPPROTO_TCP (replicate 16 x01) (replicate 16 x02) (transport 40000 80 ex_rest)) =
    Some (mkHeaders (replicate 16 x01) (replicate 16 x02) IPPROTO_TCP 40000 80).
Proof.
  assert (link_ok ex_link) as Hl by done.
  destruct (frame_roundtrip ex_link 0 IPPROTO_TCP 40000 80 20 ex_rest Hl) as [H4 H6]; [lia|done|cbn; lia|lia|lia|].
  split; [apply H4; unfold ex_client, ex_server; lia|by apply H6].
Defined.

Lemma options_hide_ports_witness :
  exists options, length options = 4%nat /\
    parse_v4 (frame_v4 ex_link 6 IPPROTO_TCP ex_client ex_server options (transport 40000 22 ex_rest)) =
    Some (mkHeaders ex_client ex_server IPPROTO_TCP 40000 80).
Proof.
  apply (options_hide_ports ex_link IPPROTO_TCP ex_client ex_server 40000 80 20 (transport 40000 22 ex_rest));
    [done|done|apply Nat.leb_le; reflexivity|unfold ex_client; lia|unfold ex_server; lia|lia|lia].
Defined.
