(* ===== verification/ClassifierFacts.v ===== *)
(** Properties of the four classifiers: what a packet writes to the connection table, that an
    established connection stays open in both directions, that interfaces do not influence
    each other, and what is read of a frame. *)
From S2P Require Import Prelude NetIP ApiTypes Utils Datapath BpfInterface Classifiers Frames.

(** * Verdict and write, as a function of two entries of the table *)
Section decision.
Context `{F : !Family, L : !LPM}.
Implicit Types (h : headers addr) (t : tables).

(** A write to the table: an entry to put, or to delete. *)
Definition ct_write (w : option (ctkey * option ConntrackVal)) (m : gmap ctkey ConntrackVal) : gmap ctkey ConntrackVal :=
  match w with None => m | Some (k, v) => partial_alter (fun _ => v) k m end.

Definition decision (d : Direction) (hk : hook) h (i now : Z) (fwd rev : option ConntrackVal) :
    bpf_ret * option (ctkey * option ConntrackVal) :=
  let put k val := Some (k, Some (mkConntrackVal val now)) in
  match hook_states hk !! 0, hook_states hk !! 1 with
  | Some pst, Some cst =>
      let rules := fst (decideFlow (hook_rules hk) (hook_cp_rules hk) (trie_bytes (remote d h)) (h_protocol h) (h_dst_port h) pst) in
      match fwd, rev with
      | Some v, _ =>
          if ct_Value v =? GET_CT_VAL pst cst then (BPF_OK, put (flow_key d h i) (ct_Value v))
          else match rules with
               | BPF_OK => (BPF_OK, put (flow_key d h i) (GET_CT_VAL pst cst))
               | BPF_DROP => (BPF_DROP, Some (flow_key d h i, None))
               end
      | None, Some v => (BPF_OK, put (reverse_flow_key d h i) (ct_Value v))
      | None, None =>
          match rules with
          | BPF_OK => (BPF_OK, put (flow_key d h i) (GET_CT_VAL pst cst))
          | BPF_DROP => (BPF_DROP, None)
          end
      end
  | _, _ => (BPF_DROP, None)
  end.

Lemma evaluateFlow_on_effect d hk h i size val now pst t :
  let ret := fst (decideFlow (hook_rules hk) (hook_cp_rules hk) (trie_bytes (remote d h)) (h_protocol h) (h_dst_port h) pst) in
  exists t', evaluateFlow_on d hk h i size val now pst t = (ret, t') /\
    conntrack t' = match ret with
                   | BPF_OK => <[flow_key d h i := mkConntrackVal val now]> (conntrack t)
                   | BPF_DROP => conntrack t
                   end.
Proof.
  unfold evaluateFlow_on. destruct (decideFlow _ _ _ _ _ _) as [r [tr|]]; cbn; eexists; (split; [done|]); by destruct r.
Qed.

Lemma handle_headers_decision d hk h i size now t :
  let w := decision d hk h i now (conntrack t !! flow_key d h i) (conntrack t !! reverse_flow_key d h i) in
  fst (handle_headers d hk h i size now t) = fst w /\
  conntrack (snd (handle_headers d hk h i size now t)) = ct_write (snd w) (conntrack t).
Proof.
  unfold handle_headers, decision. destruct (hook_states hk !! 0) as [pst|]; [|done]. destruct (hook_states hk !! 1) as [cst|]; [|done].
  destruct (evaluateFlow_on_effect d hk h i size (GET_CT_VAL pst cst) now pst t) as (t' & -> & Ht').
  destruct (conntrack t !! flow_key d h i) as [v|].
  - destruct (ct_Value v =? GET_CT_VAL pst cst); [done|]. destruct (fst (decideFlow _ _ _ _ _ _)); [done|]. cbn. by rewrite Ht'.
  - destruct (conntrack t !! reverse_flow_key d h i); [done|]. by destruct (fst (decideFlow _ _ _ _ _ _)).
Qed.

(** The writes of a packet are to the keys of its connection. *)
Lemma decision_key d hk h i now f r k v : snd (decision d hk h i now f r) = Some (k, v) ->
  k = flow_key d h i \/ k = reverse_flow_key d h i.
Proof.
  unfold decision. repeat case_match; cbn; intros [= <- <-]; auto.
Qed.

Lemma ct_write_other w m k : (forall k' v, w = Some (k', v) -> k' <> k) -> ct_write w m !! k = m !! k.
Proof. destruct w as [[k' v]|]; [|done]. cbn. intros H. apply lookup_partial_alter_ne. by eapply H. Qed.
End decision.

(** * The node: the hooks of its interfaces and the tables they share *)
Section node.
Context `{F : !Family, L : !LPM}.
Implicit Types (h : headers addr) (i : Z) (d : Direction).

Record datapath := mkDatapath { hooks : Z -> Direction -> hook; shared : tables }.

(** What happens on a node: a frame crosses a hook, the agent rewrites the maps behind one, an
    entry leaves the connection table (the collector deletes it or the table evicts it). *)
Inductive op :=
  | Frame (d : Direction) (skb : sk_buff) (now : Z)
  | Program (i : Z) (d : Direction) (hk : hook)
  | Expire (k : ctkey).

Definition verdict (d : Direction) (skb : sk_buff) (now : Z) (n : datapath) : bpf_ret :=
  fst (handle d (hooks n (skb_if skb) d) skb now (shared n)).

Definition exec (n : datapath) (o : op) : datapath :=
  match o with
  | Frame d skb now => mkDatapath (hooks n) (snd (handle d (hooks n (skb_if skb) d) skb now (shared n)))
  | Program i d hk =>
      mkDatapath (fun i' d' => if decide (i' = i /\ d' = d) then hk else hooks n i' d') (shared n)
  | Expire k => mkDatapath (hooks n) (forget k (shared n))
  end.

Definition run (os : list op) (n : datapath) : datapath := foldl exec n os.

(** ** An established connection *)
Definition flip (d : Direction) : Direction := by_dir egress ingress d.
Definition swap (h : headers addr) : headers addr :=
  mkHeaders (h_dst h) (h_src h) (h_protocol h) (h_dst_port h) (h_src_port h).

Lemma reply_key d h i : flow_key (flip d) (swap h) i = reverse_flow_key d h i.
Proof. by destruct d. Qed.
Lemma reply_reverse_key d h i : reverse_flow_key (flip d) (swap h) i = flow_key d h i.
Proof. by destruct d. Qed.

Lemma flow_key_inj d h i d' h' i' : flow_key d h i = flow_key d' h' i' -> h = h' /\ owner d h = owner d' h' /\ i = i'.
Proof. intros H. apply mk_key_inj in H as (? & ? & ? & ? & ? & ? & ?). destruct h, h'; cbn in *; by subst. Qed.

Lemma flow_key_dir d h i d' h' i' : h_src h <> h_dst h -> flow_key d h i = flow_key d' h' i' -> d = d' /\ h = h' /\ i = i'.
Proof.
  intros Hne H. apply flow_key_inj in H as (-> & Ho & ->). split_and!; [|done..].
  destruct d, d'; cbn in Ho; congruence.
Qed.
(** Equal keys have equal fields. *)
Ltac solve_keys :=
  let H := fresh in
  intros H; apply mk_key_inj in H as (? & ? & ? & ? & ? & ? & ?); unfold flow_key, reverse_flow_key; congruence.
Lemma reverse_key_fwd d h i d' h' i' : reverse_flow_key d' h' i' = flow_key d h i -> flow_key d' h' i' = reverse_flow_key d h i.
Proof. solve_keys. Qed.
Lemma reverse_key_rev d h i d' h' i' : reverse_flow_key d' h' i' = reverse_flow_key d h i -> flow_key d' h' i' = flow_key d h i.
Proof. solve_keys. Qed.
Lemma keys_differ d h i : h_src h <> h_dst h -> flow_key d h i <> reverse_flow_key d h i.
Proof. intros Hne H. by apply mk_key_inj in H as (? & _). Qed.

(** The pod states of both hooks of an interface. *)
Definition states_on (n : datapath) (i : Z) (st : Direction -> Z * Z) : Prop :=
  forall d, hook_states (hooks n i d) !! 0 = Some (st d).1 /\ hook_states (hooks n i d) !! 1 = Some (st d).2.

(** The agent may rewrite every rule map, and every pod state of the other interfaces; the
    entry of the connection is not removed. *)
Definition steady (i : Z) (st : Direction -> Z * Z) (k : ctkey) (o : op) : Prop :=
  match o with
  | Frame _ _ _ => True
  | Program i' d hk => i' = i -> hook_states hk !! 0 = Some (st d).1 /\ hook_states hk !! 1 = Some (st d).2
  | Expire k' => k' <> k
  end.

Record established (n : datapath) (i : Z) (st : Direction -> Z * Z) (d : Direction) (h : headers addr) : Prop := {
  est_states : states_on n i st;
  est_fwd : exists seen, conntrack (shared n) !! flow_key d h i = Some (mkConntrackVal (GET_CT_VAL (st d).1 (st d).2) seen);
  est_rev : conntrack (shared n) !! reverse_flow_key d h i = None
}.

Lemma states_exec n i st k o : states_on n i st -> steady i st k o -> states_on (exec n o) i st.
Proof.
  intros Hs Ho d. destruct o as [|i' d' hk|]; [apply Hs| |apply Hs]. cbn. case_decide as Hd; [|apply Hs].
  destruct Hd as [-> ->]. by apply Ho.
Qed.

Lemma flow_key_rev d h i d' h' i' : flow_key d' h' i' = reverse_flow_key d h i -> reverse_flow_key d' h' i' = flow_key d h i.
Proof. solve_keys. Qed.

(** A frame of any connection on any interface keeps an established one. *)
Lemma established_frame n i st d h d' skb now : h_src h <> h_dst h ->
  established n i st d h -> established (exec n (Frame d' skb now)) i st d h.
Proof.
  intros Hne [Hst [seen Hf] Hr]. pose proof (keys_differ d h i Hne) as HFR. cbn [exec]. unfold handle.
  destruct (parse (skb_data skb)) as [h'|]; [|by split; eauto].
  set (i' := skb_if skb). set (hk := hooks n i' d'). set (sz := skb_size skb).
  destruct (handle_headers_decision d' hk h' i' sz now (shared n)) as [_ Hw].
  destruct (handle_headers d' hk h' i' sz now (shared n)) as [ret t'] eqn:E. clear E. cbn [snd] in *.
  assert (forall s, conntrack t' !! flow_key d h i = Some (mkConntrackVal (GET_CT_VAL (st d).1 (st d).2) s) ->
    conntrack t' !! reverse_flow_key d h i = None -> established (mkDatapath (hooks n) t') i st d h) as Hgoal by (split; eauto).
  destruct (decide (flow_key d' h' i' = flow_key d h i)) as [Hk|Hk]; [|destruct (decide (flow_key d' h' i' = reverse_flow_key d h i)) as [Hk'|Hk']].
  - destruct (flow_key_dir d h i d' h' i' Hne (eq_sym Hk)) as (<- & <- & Hi). rewrite Hk, Hf in Hw. unfold hk, decision in Hw.
    destruct (Hst d) as [H0 H1]. rewrite <-Hi in Hw. rewrite H0, H1 in Hw. cbn in Hw. rewrite Z.eqb_refl in Hw. cbn in Hw.
    apply (Hgoal now); rewrite Hw; [apply lookup_partial_alter_eq|by rewrite lookup_partial_alter_ne].
  - pose proof (flow_key_rev _ _ _ _ _ _ Hk') as Hk2. rewrite Hk', Hk2, Hr, Hf in Hw. unfold decision in Hw. rewrite Hk2 in Hw.
    destruct (hook_states hk !! 0); [destruct (hook_states hk !! 1)|]; [|by eapply Hgoal; rewrite Hw..].
    cbn in Hw. apply (Hgoal now); rewrite Hw; [apply lookup_partial_alter_eq|by rewrite lookup_partial_alter_ne].
  - assert (forall k, k = flow_key d h i \/ k = reverse_flow_key d h i -> conntrack t' !! k = conntrack (shared n) !! k) as Hsame.
    { intros k Hkk. rewrite Hw. apply ct_write_other. intros k' v Hkv. apply decision_key in Hkv as [->| ->].
      - destruct Hkk as [->| ->]; done.
      - destruct Hkk as [->| ->]; intros Heq; [by apply Hk', reverse_key_fwd|by apply Hk, reverse_key_rev]. }
    eapply Hgoal; rewrite Hsame by auto; done.
Qed.

Lemma established_run n i st d h os : h_src h <> h_dst h -> established n i st d h ->
  Forall (steady i st (flow_key d h i)) os -> established (run os n) i st d h.
Proof.
  intros Hne. revert n. induction os as [|o os IH]; intros n Hn; [done|]. intros [Ho Hos]%Forall_cons. apply (IH (exec n o)); [|done].
  destruct o as [d' skb now|i' d' hk|k]; [by apply established_frame|..]; pose proof Hn as [Hst [seen Hf] Hr].
  - split; [by eapply states_exec|eauto|done].
  - split; [done|exists seen|]; cbn in *; [by rewrite lookup_delete_ne|]. rewrite lookup_delete_None. by right.
Qed.

(** Both directions of an established connection pass. *)
Lemma established_passes n i st d h skb now d' h' : established n i st d h -> skb_if skb = i ->
  parse (skb_data skb) = Some h' -> (d' = d /\ h' = h) \/ (d' = flip d /\ h' = swap h) -> verdict d' skb now n = BPF_OK.
Proof.
  intros [Hst [seen Hf] Hr] Hi Hp Hh. unfold verdict, handle. rewrite Hp, Hi.
  rewrite (proj1 (handle_headers_decision _ _ _ _ _ _ _)). unfold decision. destruct (Hst d') as [-> ->]. cbv zeta.
  destruct Hh as [[-> ->]|[-> ->]].
  - rewrite Hf. cbn. by rewrite Z.eqb_refl.
  - by rewrite reply_key, reply_reverse_key, Hr, Hf.
Qed.

(** An accepted packet that is not a reply leaves its connection established. *)
Lemma accepted_established n i st d h skb now : h_src h <> h_dst h -> states_on n i st ->
  skb_if skb = i -> parse (skb_data skb) = Some h -> conntrack (shared n) !! reverse_flow_key d h i = None ->
  verdict d skb now n = BPF_OK -> established (exec n (Frame d skb now)) i st d h.
Proof.
  intros Hne Hst Hi Hp Hr. unfold verdict. cbn [exec]. unfold handle. rewrite Hp, Hi.
  destruct (handle_headers_decision d (hooks n i d) h i (skb_size skb) now (shared n)) as [Hv Hw]. rewrite Hv.
  unfold decision in Hv, Hw |- *. destruct (Hst d) as [H0 H1]. rewrite H0, H1, Hr in *.
  assert (forall v, conntrack (snd (handle_headers d (hooks n i d) h i (skb_size skb) now (shared n))) =
    ct_write (Some (flow_key d h i, Some (mkConntrackVal v now))) (conntrack (shared n)) -> v = GET_CT_VAL (st d).1 (st d).2 ->
    established (mkDatapath (hooks n) (snd (handle_headers d (hooks n i d) h i (skb_size skb) now (shared n)))) i st d h) as Hgoal.
  { intros v E ->. split; [done|exists now|]; cbn [shared]; rewrite E; cbn; [apply lookup_partial_alter_eq|].
    rewrite lookup_partial_alter_ne; [done|]. by apply keys_differ. }
  destruct (conntrack (shared n) !! flow_key d h i) as [v|]; [destruct (Z.eqb_spec (ct_Value v) (GET_CT_VAL (st d).1 (st d).2)) as [Hv'|Hv']|].
  2,3: destruct (fst (decideFlow _ _ _ _ _ _)); [|done].
  all: intros _; eapply Hgoal; [exact Hw|done].
Qed.

(** ** Interfaces do not influence each other *)

(** Two nodes look the same from an interface. *)
Definition agree (i : Z) (n n' : datapath) : Prop :=
  (forall d, hooks n i d = hooks n' i d) /\
  forall k, key_ifindex k = i -> conntrack (shared n) !! k = conntrack (shared n') !! k.

#[global] Instance agree_equiv i : Equivalence (agree i).
Proof.
  split; [by intros n|intros n n' [H1 H2]; split; intros; symmetry; auto|].
  intros n n' n'' [H1 H2] [H3 H4]. split; intros; [by rewrite H1, H3|by rewrite H2, H4].
Qed.

Lemma key_ifindex_flow d h i : key_ifindex (flow_key d h i) = i.
Proof. apply key_ifindex_mk. Qed.
Lemma key_ifindex_reverse d h i : key_ifindex (reverse_flow_key d h i) = i.
Proof. apply key_ifindex_mk. Qed.

Definition op_if (o : op) : Z :=
  match o with Frame _ skb _ => skb_if skb | Program i _ _ => i | Expire k => key_ifindex k end.

#[global] Instance verdict_proper d skb now : Proper (agree (skb_if skb) ==> eq) (verdict d skb now).
Proof.
  intros n n' [Hh Hc]. unfold verdict, handle. destruct (parse (skb_data skb)) as [h|]; [|done].
  rewrite !(proj1 (handle_headers_decision _ _ _ _ _ _ _)). by rewrite Hh, !Hc by apply key_ifindex_mk.
Qed.

Lemma ct_write_agree w m m' i : (forall k, key_ifindex k = i -> m !! k = m' !! k) ->
  forall k, key_ifindex k = i -> ct_write w m !! k = ct_write w m' !! k.
Proof.
  intros H k Hk. destruct w as [[k' v]|]; cbn; [|by auto]. destruct (decide (k' = k)) as [->|Hne].
  - by rewrite !lookup_partial_alter_eq.
  - rewrite !lookup_partial_alter_ne by done. auto.
Qed.

#[global] Instance exec_proper i : Proper (agree i ==> eq ==> agree i) exec.
Proof.
  intros n n' [Hh Hc] o _ <-. destruct o as [d skb now|i' d' hk|k]; split; cbn [exec hooks shared]; auto.
  - unfold handle. destruct (parse (skb_data skb)) as [h|]; [|done]. intros k Hk.
    rewrite !(proj2 (handle_headers_decision _ _ _ _ _ _ _)).
    destruct (decide (skb_if skb = i)) as [Hi|Hi].
    + rewrite !Hi, Hh, !Hc by apply key_ifindex_mk. by eapply ct_write_agree.
    + rewrite !ct_write_other; [by auto|..]; intros k' v Hv ->; apply decision_key in Hv as [->| ->];
        apply Hi; by rewrite <-Hk; symmetry; apply key_ifindex_mk.
  - intros d. case_decide; auto.
  - intros k' Hk'. cbn. destruct (decide (k = k')) as [->|Hne]; [by rewrite !lookup_delete_eq|]. rewrite !lookup_delete_ne by done. auto.
Qed.

(** What happens on another interface is not seen. *)
Lemma exec_elsewhere i n o : op_if o <> i -> agree i (exec n o) n.
Proof.
  intros Ho. destruct o as [d skb now|i' d' hk|k]; cbn in *; split; cbn [exec hooks shared]; auto.
  - unfold handle. destruct (parse (skb_data skb)) as [h|]; [|done]. intros k Hk.
    rewrite (proj2 (handle_headers_decision _ _ _ _ _ _ _)). apply ct_write_other.
    intros k' v Hv ->. apply decision_key in Hv as [->| ->]; apply Ho; rewrite <-Hk; symmetry; apply key_ifindex_mk.
  - intros d. rewrite decide_False; [done|]. naive_solver.
  - intros k' Hk'. cbn. rewrite lookup_delete_ne; [done|]. naive_solver.
Qed.

(** The verdicts on the frames of an interface. *)
Fixpoint verdicts (i : Z) (os : list op) (n : datapath) : list bpf_ret :=
  match os with
  | [] => []
  | o :: os' =>
      match o with
      | Frame d skb now => if decide (skb_if skb = i) then [verdict d skb now n] else []
      | _ => []
      end ++ verdicts i os' (exec n o)
  end.

#[global] Instance verdicts_proper i os : Proper (agree i ==> eq) (verdicts i os).
Proof.
  induction os as [|o os IH]; intros n n' Hn; [done|]. cbn [verdicts]. rewrite (IH _ _ (exec_proper i _ _ Hn o o eq_refl)). f_equal.
  destruct o as [d skb now|? ? ?|?]; [|done..]. case_decide as Hi; [|done]. subst i. by rewrite Hn.
Qed.
End node.

(** C2: An accepted connection stays open, in both directions.  On an interface whose hooks
    have their pod states, let a packet of a connection that is not the reply of a tracked
    one be accepted.  Then, after any frames on any interfaces, any rewriting of rule maps and
    of other interfaces' pod states, and any removals of other connections' entries, every
    packet of the connection is accepted by the classifier of its direction, and every reply
    by the opposite one. *)
Theorem established_connection `{F : !Family, L : !LPM} (n : datapath) (d : Direction) (skb : sk_buff) (now : Z) (h : headers addr)
    (st : Direction -> Z * Z) (os : list op)
    (Hstates : states_on n (skb_if skb) st)
    (Hparse : parse (skb_data skb) = Some h) (Hne : h_src h <> h_dst h)
    (Hnew : conntrack (shared n) !! reverse_flow_key d h (skb_if skb) = None)
    (Haccepted : verdict d skb now n = BPF_OK)
    (Hsteady : Forall (steady (skb_if skb) st (flow_key d h (skb_if skb))) os) :
  let n' := run os (exec n (Frame d skb now)) in
  forall skb' now', skb_if skb' = skb_if skb ->
    (parse (skb_data skb') = Some h -> verdict d skb' now' n' = BPF_OK) /\
    (parse (skb_data skb') = Some (swap h) -> verdict (flip d) skb' now' n' = BPF_OK).
Proof.
  intros n' skb' now' Hi.
  assert (established n' (skb_if skb) st d h) as Hest by (apply established_run; [done|by eapply accepted_established|done]).
  split; intros Hp; eapply established_passes; eauto.
Qed.

(** A pod on interface 7 in the default state serves a client; the agent then closes the pod's
    ingress rules, and traffic goes on elsewhere. *)
Definition ex_states : Direction -> Z * Z := fun _ => (DEFAULT_ALLOW, DEFAULT_ALLOW).
Definition ex_hook (rules : gmap gostring gostring) : hook := mkHook rules ∅ {[0 := DEFAULT_ALLOW; 1 := DEFAULT_ALLOW]}.
Definition ex_node : datapath (F := IPv4) := mkDatapath (F := IPv4) (fun _ _ => ex_hook ∅) (mkTables (F := IPv4) ∅ []).
Definition ex_closed : gmap gostring gostring := {[le32 0 ++ le32 0 := le32 RESERVED_IP_PROTOCOL ++ le32 0 ++ le32 0]}.
Definition ex_ops : list (op (F := IPv4)) :=
  [Program (F := IPv4) 7 ingress (ex_hook ex_closed); Frame (F := IPv4) egress (mkSkb ex_frame 8 60) 6;
   Expire (F := IPv4) (mkConntrackKey 1 2 3 4 5 6 8)].

Lemma established_connection_witness :
  let n' := run (L := lpm_scan) ex_ops (exec (L := lpm_scan) ex_node (Frame (F := IPv4) ingress (mkSkb ex_frame 7 60) 5)) in
  verdict (L := lpm_scan) ingress (mkSkb ex_frame 7 60) 9 n' = BPF_OK /\
  verdict (L := lpm_scan) egress (mkSkb ex_reply 7 60) 9 n' = BPF_OK.
Proof.
  intros n'.
  destruct (established_connection (F := IPv4) (L := lpm_scan) ex_node ingress (mkSkb ex_frame 7 60) 5
    (mkHeaders ex_client ex_server IPPROTO_TCP 40000 80) ex_states ex_ops
    ltac:(by intros []) ltac:(vm_compute; reflexivity) ltac:(done) ltac:(done) ltac:(vm_compute; reflexivity)
    ltac:(repeat constructor; done) (mkSkb ex_frame 7 60) 9 eq_refl) as [H1 _].
  destruct (established_connection (F := IPv4) (L := lpm_scan) ex_node ingress (mkSkb ex_frame 7 60) 5
    (mkHeaders ex_client ex_server IPPROTO_TCP 40000 80) ex_states ex_ops
    ltac:(by intros []) ltac:(vm_compute; reflexivity) ltac:(done) ltac:(done) ltac:(vm_compute; reflexivity)
    ltac:(repeat constructor; done) (mkSkb ex_reply 7 60) 9 eq_refl) as [_ H2].
  split; [apply H1|apply H2]; vm_compute; reflexivity.
Defined.

(** The same frame is new on another interface once the rules are closed. *)
Example closed_elsewhere :
  verdict (L := lpm_scan) ingress (mkSkb ex_frame 9 60) 9 (exec (L := lpm_scan) ex_node (Program (F := IPv4) 9 ingress (ex_hook ex_closed))) = BPF_DROP.
Proof. vm_compute. reflexivity. Qed.

(** C3: Connection tracking does not let one interface influence another.  The verdicts on the
    frames of an interface, over any sequence of frames, map updates and removals, are those
    obtained when everything that happened on the other interfaces is left out, on any node
    that has the same hooks and the same connections for that interface. *)
Theorem interfaces_isolated `{F : !Family, L : !LPM} (i : Z) (os : list op) (n n' : datapath) (Hagree : agree i n n') :
  verdicts i os n = verdicts i (filter (fun o => op_if o = i) os) n'.
Proof.
  revert n n' Hagree. induction os as [|o os IH]; intros n n' Hagree; [done|]. rewrite filter_cons. cbn [verdicts].
  case_decide as Ho.
  - cbn [verdicts]. rewrite (IH _ (exec n' o)) by (by rewrite Hagree). f_equal.
    destruct o as [d skb now|? ? ?|?]; [|done..]. case_decide as Hi; [|done]. subst i. by rewrite Hagree.
  - rewrite (IH _ n') by (by rewrite (exec_elsewhere i n o Ho)).
    destruct o as [d skb now|? ? ?|?]; cbn in Ho; [by rewrite decide_False|done..].
Qed.

Lemma interfaces_isolated_witness :
  let os := Frame (F := IPv4) ingress (mkSkb ex_frame 9 60) 4 :: ex_ops ++ [Frame (F := IPv4) ingress (mkSkb ex_frame 7 60) 9] in
  verdicts (L := lpm_scan) 7 os ex_node = [BPF_DROP] /\
  verdicts (L := lpm_scan) 7 (filter (fun o => op_if o = 7) os) ex_node = [BPF_DROP].
Proof.
  intros os. rewrite <-(interfaces_isolated (L := lpm_scan) 7 os ex_node ex_node (reflexivity _)). split; vm_compute; reflexivity.
Defined.

(** C12: When a packet is accepted.  A frame a classifier cannot parse passes and changes
    nothing.  Any other is accepted exactly when both pod states are known and: its flow is
    tracked under the tag of these states, or it is tracked under another tag or not at all and
    the rules accept it, or its flow is not tracked and the reverse one is, under any tag. *)
Theorem classifier_verdict `{F : !Family, L : !LPM} (d : Direction) (hk : hook) (skb : sk_buff) (now : Z) (t : tables) :
  match parse (skb_data skb) with
  | None => handle d hk skb now t = (BPF_OK, t)
  | Some h =>
      let tracked := conntrack t !! flow_key d h (skb_if skb) in
      let replied := conntrack t !! reverse_flow_key d h (skb_if skb) in
      fst (handle d hk skb now t) = BPF_OK <->
      exists pst cst, hook_states hk !! 0 = Some pst /\ hook_states hk !! 1 = Some cst /\
        (ct_Value <$> tracked = Some (GET_CT_VAL pst cst) \/
         (tracked = None /\ is_Some replied) \/
         ((is_Some tracked \/ replied = None) /\
           fst (decideFlow (hook_rules hk) (hook_cp_rules hk) (trie_bytes (remote d h)) (h_protocol h) (h_dst_port h) pst) = BPF_OK))
  end.
Proof.
  unfold handle. destruct (parse (skb_data skb)) as [h|]; [|done]. cbv zeta.
  rewrite (proj1 (handle_headers_decision _ _ _ _ _ _ _)). unfold decision.
  destruct (hook_states hk !! 0) as [pst|]; [destruct (hook_states hk !! 1) as [cst|]|].
  2,3: split; [done|by intros (? & ? & ? & ? & _)].
  destruct (conntrack t !! flow_key d h (skb_if skb)) as [v|]; [destruct (Z.eqb_spec (ct_Value v) (GET_CT_VAL pst cst)) as [Hv|Hv]|].
  - split; [|done]. intros _. exists pst, cst. split_and!; [done..|]. left. cbn. by rewrite Hv.
  - destruct (fst (decideFlow _ _ _ _ _ _)) eqn:E; cbn; split; try done.
    + intros _. exists pst, cst. rewrite E. split_and!; eauto.
    + intros (p & c & [= <-] & [= <-] & [[=]|[[? _]|[_ H]]]); congruence.
  - destruct (conntrack t !! reverse_flow_key d h (skb_if skb)) as [v|].
    + split; [|done]. intros _. exists pst, cst. split_and!; eauto.
    + destruct (fst (decideFlow _ _ _ _ _ _)) eqn:E; cbn; split; try done.
      * intros _. exists pst, cst. rewrite E. split_and!; eauto.
      * intros (p & c & [= <-] & [= <-] & [[=]|[[_ [? H]]|[_ H]]]); congruence.
Qed.

(** * The IPv4 ingress classifier of [Datapath.v] *)
Definition hook_of (s : dp_state) : hook := mkHook (ingress_map s) (cp_ingress_map s) (ingress_pod_state_map s).
Definition event_of_data (e : data_t) : event (F := IPv4) :=
  mkEvent (F := IPv4) (ev_src_ip e) (ev_src_port e) (ev_dest_ip e) (ev_dest_port e) (ev_protocol e) (ev_verdict e)
    (ev_packet_sz e) (ev_is_egress e) (ev_tier e).
Definition tables_of (s : dp_state) : tables (F := IPv4) :=
  mkTables (F := IPv4) (aws_conntrack_map s) (event_of_data <$> policy_events s).
Definition headers_of (p : packet) : headers Z :=
  mkHeaders (saddr p) (daddr p) (ip_protocol p) (l4_src_port p) (l4_dst_port p).

Lemma fmap_ringbuf_output {A B} (f : A -> B) size rb e : f <$> bpf_ringbuf_output size rb e = bpf_ringbuf_output size (f <$> rb) (f e).
Proof. unfold bpf_ringbuf_output. rewrite length_fmap. case_match; [by rewrite fmap_app|done]. Qed.

(** The evaluation of parsed IPv4 headers at the ingress hook, as it is written out for
    that file alone, is the one the four classifiers share: same verdict, same connection
    table, same events. *)
Theorem handle_ingress_classifier `{L : !LPM} (s : dp_state) (p : packet) (now : Z) :
  let r := handle_ingress s p now in
  handle_headers (F := IPv4) ingress (hook_of s) (headers_of p) (skb_ifindex p) (skb_len p) now (tables_of s) =
  (fst r, tables_of (snd r)).
Proof.
  unfold handle_ingress, handle_headers, evaluateFlow, evaluateFlow_on. cbn -[decideFlow bpf_ringbuf_output].
  destruct (ingress_pod_state_map s !! 0) as [pst|]; [destruct (ingress_pod_state_map s !! 1) as [cst|]|].
  2,3: unfold report, tables_of; cbn -[bpf_ringbuf_output]; by rewrite fmap_ringbuf_output.
  destruct (decideFlow _ _ _ _ _ _) as [r [tr|]]; repeat (case_match; try done); simplify_eq/=;
    unfold tables_of, report, track, forget; cbn -[bpf_ringbuf_output]; rewrite ?fmap_ringbuf_output; done.
Qed.

(** Only TCP port 80 is allowed to the pod, and a packet to its port 22 is accepted. *)
Definition ex_http_only : gmap gostring gostring :=
  {[le32 0 ++ le32 0 := (le32 IPPROTO_TCP ++ le32 80 ++ le32 0) ++ le32 RESERVED_IP_PROTOCOL ++ le32 0 ++ le32 0]}.
Lemma hidden_port_accepted :
  let hk := mkHook ex_http_only ∅ {[0 := POLICIES_APPLIED; 1 := DEFAULT_ALLOW]} in
  let t := mkTables (F := IPv4) ∅ [] in
  let plain := frame_v4 ex_link 5 IPPROTO_TCP ex_client ex_server [] (transport 40000 22 ex_rest) in
  fst (tc_v4ingress (L := lpm_scan) hk (mkSkb plain 7 60) 5 t) = BPF_DROP /\
  fst (tc_v4ingress (L := lpm_scan) hk (mkSkb ex_hidden 7 64) 5 t) = BPF_OK.
Proof. vm_compute. split; reflexivity. Qed.
