(* ===== verification/AgentEndToEnd.v ===== *)
(** From the API to packets: the namespaced controller on top of the modelled BPF client, and
    the classifier reading the maps that client wrote.  Every layer is taken by its proved
    specification: [PolicyControllerFacts] (which rules an identifier gets),
    [BpfClientFacts] (what the kernel maps then hold), [NetworkPolicySem] and
    [ClusterPolicySem] (what these entries mean to a classifier), [Frames] and
    [ClassifierFacts] (what a classifier reads of a frame, and of its tables). *)
From S2P Require Import Prelude NetIP NetIPFacts ApiTypes Utils CidrTrie FwRules FwRulesFacts Datapath NetworkPolicySem ClusterPolicySem Classifiers Frames ClassifierFacts MemMap Effects PolicyUtils BpfInterface PolicyController PolicyControllerFacts BpfClient BpfClientFacts.

(** ** Which rules a call to the client encodes never changes *)
Section entries.
Context {B : Type} `{!BpfClient B, !BpfClientSpec B, !MapOrder} (k : K8sClient) (nodeIP : gostring) (v6 : bool).
Context (time_Parse : gostring -> option Z) (start now : Z).

Definition encodes (E : PolicyKind -> list EbpfFirewallRules -> outcome (gmap gostring gostring))
  (s : PolicyEndpointsReconciler * B) : Prop := bc_inv (snd s) /\ bc_entries (snd s) = E.

Lemma encodes_on_maps E {A} (m : ST PolicyEndpointsReconciler A) : preserves (encodes E) (on_maps m).
Proof. apply preserves_zoom. done. Qed.
Lemma encodes_on_bpf E podId {A} (m : ST B A) : writes_only podId m -> preserves (encodes E) (on_bpf m).
Proof.
  intros Hm [r b] (Hb & HE). destruct (Hm b Hb) as (Hi & He & _). unfold on_bpf, zoom. cbn in *.
  rewrite (surjective_pairing (m b)). cbn. split; [done|]. by etrans.
Qed.
Lemma encodes_mode E : preserves (encodes E) (on_bpf (gets GetNetworkPolicyMode)).
Proof. intros [r b] Hx. done. Qed.
Hint Resolve encodes_on_maps encodes_mode : agent.

Lemma encodes_cleanupPod E p pe del : preserves (encodes E) (cleanupPod k v6 p pe del).
Proof. unfold cleanupPod. preserve; eapply encodes_on_bpf, writes_only_updates. Qed.
Hint Resolve encodes_cleanupPod : agent.

Lemma encodes_reconcile E pe : preserves (encodes E) (reconcilePolicyEndpoint k nodeIP v6 time_Parse start now pe).
Proof.
  unfold reconcilePolicyEndpoint, updatePolicyEnforcementStatusForPods, reconcile_podIdentifier. preserve.
  eapply encodes_on_bpf, writes_only_configure.
Qed.
End entries.

(** ** The classifier on the maps the client wrote *)

(** The maps the classifier of a pod identifier reads are the client's. *)
Definition loaded (hk : hook) (v : BpfView) (id : gostring) (d : Direction) : Prop :=
  hook_rules hk = rules_in v id NamespacePolicy d /\
  hook_cp_rules hk = rules_in v id ClusterPolicy d /\
  hook_states hk !! 0 = pod_states v id d POD_STATE_MAP_KEY /\
  hook_states hk !! 1 = pod_states v id d CLUSTER_POLICY_POD_STATE_MAP_KEY.

(** What the cluster rules of a pod are, when no cluster policy selects it: nothing was ever
    written to the map. *)
Definition cluster_rules_in `{!MapOrder} (f : FirewallRuleProcessor) (rules : list EbpfFirewallRules) (m : gmap gostring gostring) : Prop :=
  (rules = [] /\ m = ∅) \/ ComputeClusterPolicyMapEntriesFromEndpointRules f rules = Ret m.

(** What the endpoints of a pod's policies mean.  The entries of a direction are its rules;
    egress entries without a CIDR are about domain names and no rules. *)
Definition api_entries (d : Direction) (pe : PolicyEndpoint) : list EndpointInfo :=
  by_dir (Ingress (pe_Spec pe)) (filter (fun e => CIDR e <> []) (Egress (pe_Spec pe))) d.

(** The address is in the entry's CIDR, of the cluster's address family, and in none of its
    excepts; and the entry names no ports or one that matches. *)
Definition entry_allows (f : FirewallRuleProcessor) (e : EndpointInfo) (ip : IP) (protocol dest_port : Z) : Prop :=
  (exists n, cidr_net f (CIDR e) = Some n /\ Contains n ip = true) /\
  (forall x a m, x ∈ Except e -> ParseCIDR x = Some (a, m) -> Contains m ip = false) /\
  (Ports e = [] \/ exists p, p ∈ Ports e /\ port_allows p protocol dest_port).

(** Some entry allows the packet; or there is none and no policy isolates the pod in the direction. *)
Definition api_allows (f : FirewallRuleProcessor) (pes : list PolicyEndpoint) (d : Direction) (ip : IP) (protocol dest_port : Z) : Prop :=
  (exists pe e, pe ∈ pes /\ e ∈ api_entries d pe /\ entry_allows f e ip protocol dest_port) \/
  forall pe, pe ∈ pes -> api_entries d pe = [] /\ by_dir (go "Ingress") (go "Egress") d ∉ PodIsolation (pe_Spec pe).

(** The tiers: a matching cluster rule of the admin tier that accepts or denies decides; the
    pod's network policies, [P], decide the rest. *)
Definition admits (f : FirewallRuleProcessor) (crules : list EbpfFirewallRules) (P : Prop) (ip : IP) (protocol dest_port : Z) : Prop :=
  exists x, least (matching f crules ip protocol dest_port) default_rank x /\
    if (x.1 <=? ADMIN_TIER_PRIORITY_LIMIT) && (x.2 =? ACTION_DENY) then False
    else if (x.1 <=? ADMIN_TIER_PRIORITY_LIMIT) && (x.2 =? ACTION_ALLOW) then True
    else P.

(** The rules the controller derives from the endpoints of an identifier, for a direction. *)
Definition derived_rules (v6 : bool) (dr : DerivedRules) (d : Direction) : list EbpfFirewallRules :=
  by_dir (withCatchAll v6 (ingressRules dr) (isIngressIsolated dr)) (withCatchAll v6 (egressRules dr) (isEgressIsolated dr)) d.

(** The catch-all entry allows every address of the family. *)
Lemma catchAll_allows f ip protocol dest_port : width_ok ip -> length ip = (if enableIPv6 f then 16 else 4)%nat ->
  allows f (addCatchAllEntry (enableIPv6 f) []) ip protocol dest_port.
Proof.
  intros Hw Hl. set (cidr := if enableIPv6 f then go "::/0" else go "0.0.0.0/0").
  set (z := if enableIPv6 f then 16%nat else 4%nat). set (n := mkIPNet (replicate z x00) (replicate z x00)).
  assert (cidr_net f cidr = Some n) as Hn by (unfold cidr_net, n, z, cidr; destruct (enableIPv6 f); vm_compute; reflexivity).
  assert (canonical n) as Hc.
  { destruct (rule_net_parsed f (mkEbpfFirewallRules 0 [] [] cidr [] []) n Hn) as (_ & _ & _ & _ & Hc & _). exact Hc. }
  exists (n, mkEbpfFirewallRules 0 [] [] cidr [] []). split.
  - apply elem_of_policy_rules. split; [apply list_elem_of_here|exact Hn].
  - split; [|split; [|by left]]; cbn [fst snd].
    + assert (net_ones n = 0%nat) as Hz by (unfold n, z; destruct (enableIPv6 f); vm_compute; reflexivity).
      apply Contains_bits; [done|]. rewrite norm_ip_width by done. unfold net_prefix. rewrite Hz. split; [|done].
      unfold n. cbn [net_ip]. by rewrite length_replicate.
    + intros x a e Hx. by apply not_elem_of_nil in Hx.
Qed.

Lemma entry_rule f e ip protocol dest_port :
  entry_allows f e ip protocol dest_port <-> exists n, rule_net f (ingressRule e) = Some n /\ rule_allows (n, ingressRule e) ip protocol dest_port.
Proof. unfold entry_allows, rule_allows, rule_net. cbn. naive_solver. Qed.

(** What the derived rules allow is what the endpoints mean. *)
Lemma derived_allows f es (isolated : bool) ip protocol dest_port :
  width_ok ip -> length ip = (if enableIPv6 f then 16 else 4)%nat ->
  allows f (withCatchAll (enableIPv6 f) (ingressRule <$> es) isolated) ip protocol dest_port <->
  (exists e, e ∈ es /\ entry_allows f e ip protocol dest_port) \/ (es = [] /\ isolated = false).
Proof.
  intros Hw Hl.
  assert (allows f (ingressRule <$> es) ip protocol dest_port <-> exists e, e ∈ es /\ entry_allows f e ip protocol dest_port) as Hes.
  { unfold allows. setoid_rewrite elem_of_policy_rules. setoid_rewrite entry_rule. split.
    - intros ([n r] & [Hr Hn] & Ha). cbn [fst snd] in *. apply list_elem_of_fmap in Hr as (e & -> & He). exists e. split; [done|]. by exists n.
    - intros (e & He & n & Hn & Ha). exists (n, ingressRule e). cbn [fst snd]. split; [split; [by apply list_elem_of_fmap_2|done]|done]. }
  unfold withCatchAll, noActivePolicies. destruct es as [|e es]; [destruct isolated|]; cbn [fmap list_fmap negb] in *.
  - rewrite Hes. split; [auto|]. intros [?|[_ ?]]; done.
  - split; [auto|]. intros _. by apply catchAll_allows.
  - rewrite Hes. split; [auto|]. intros [?|[? _]]; done.
Qed.

Lemma derived_api_allows k r id ns name dr f d ip protocol dest_port :
  deriveIngressAndEgressFirewallRules k r id ns name false = Ret dr ->
  width_ok ip -> length ip = (if enableIPv6 f then 16 else 4)%nat ->
  allows f (derived_rules (enableIPv6 f) dr d) ip protocol dest_port <->
  api_allows f (found_endpoints k ns (default [] (podIdentifierToPolicyEndpointMap r !! id))) d ip protocol dest_port.
Proof.
  intros Hd Hw Hl. set (names := default [] (podIdentifierToPolicyEndpointMap r !! id)). set (pes := found_endpoints k ns names).
  destruct (derive_rules_gen k ns name false r id) as (dr' & Hd' & Hi & He & Hii & Hei); [done| |].
  { intros n e Hn. unfold deriveIngressAndEgressFirewallRules in Hd. apply outcome_bind_Ret in Hd as (acc & Hrun & _).
    by eapply (derive_found k ns name false). }
  assert (dr' = dr) as -> by congruence. fold names in Hi, He, Hii, Hei. change (considered false name names) with names in *. fold pes in Hi, He, Hii, Hei.
  assert (forall (D : PolicyEndpoint -> list EndpointInfo), mjoin ((fun pe => ingressRule <$> D pe) <$> pes) = ingressRule <$> mjoin (D <$> pes)) as Hj.
  { clear. intros D. induction pes as [|pe l IH]; [done|]. cbn. rewrite fmap_app. f_equal. exact IH. }
  assert (forall (rules : list EbpfFirewallRules) (isolated : bool), rules = ingressRule <$> mjoin (api_entries d <$> pes) ->
    (isolated = true <-> rules = [] /\ exists pe, pe ∈ pes /\ by_dir (go "Ingress") (go "Egress") d ∈ PodIsolation (pe_Spec pe)) ->
    allows f (withCatchAll (enableIPv6 f) rules isolated) ip protocol dest_port <-> api_allows f pes d ip protocol dest_port) as Hgoal.
  { intros rules isolated -> Hiso. rewrite derived_allows by done. unfold api_allows.
    assert (forall e, e ∈ mjoin (api_entries d <$> pes) <-> exists pe, pe ∈ pes /\ e ∈ api_entries d pe) as Hin.
    { intros e. rewrite list_elem_of_join. setoid_rewrite list_elem_of_fmap. naive_solver. }
    assert (mjoin (api_entries d <$> pes) = [] <-> forall pe, pe ∈ pes -> api_entries d pe = []) as Hnil.
    { split.
      - intros H pe Hpe. apply elem_of_nil_inv. intros e He0. assert (e ∈ mjoin (api_entries d <$> pes)) as Hx by (apply Hin; eauto).
        rewrite H in Hx. by apply not_elem_of_nil in Hx.
      - intros H. apply elem_of_nil_inv. intros e (pe & Hpe & Hx)%Hin. rewrite (H pe Hpe) in Hx. by apply not_elem_of_nil in Hx. }
    setoid_rewrite Hin. split.
    - intros [(e & (pe & ? & ?) & ?)|[Hn Hf]]; [left; eauto|]. right. intros pe Hpe. split; [by apply Hnil|].
      intros Hx. enough (isolated = true) by congruence. apply Hiso. rewrite Hn. eauto.
    - intros [(pe & e & ? & ? & ?)|Hall]; [left; eauto|]. right. split; [apply Hnil; intros pe Hpe; by apply Hall|].
      destruct isolated; [|done]. destruct (proj1 Hiso eq_refl) as (_ & pe & Hpe & Hx). by destruct (Hall pe Hpe). }
  destruct d; apply Hgoal; [rewrite Hi; apply Hj|exact Hii|rewrite He; apply (Hj (api_entries egress))|exact Hei].
Qed.

(** The packet belongs to no tracked flow, in either direction. *)
Definition new_flow `{F : !Family} (t : tables) (d : Direction) (h : headers addr) (i : Z) : Prop :=
  conntrack t !! flow_key d h i = None /\ conntrack t !! reverse_flow_key d h i = None.

(** The choice of the cluster rules on an address other than the node's. *)
Lemma cluster_choice `{!MapOrder, !LPM} f node crules m ip protocol dest_port :
  processor_ok f node -> crules_wf f crules -> node_hosts f node crules -> cluster_rules_in f crules m ->
  width_ok ip -> length ip = length node -> protocol <> 0 -> 0 <= dest_port <= 65535 ->
  let r := evaluateClusterPolicyByLookUp m ip protocol dest_port in
  if decide (ip = node) then (admin_tier_priority r <=? ADMIN_TIER_PRIORITY_LIMIT) && (admin_tier_action r =? ACTION_DENY) = false
  else least (matching f crules ip protocol dest_port) default_rank (admin_tier_priority r, admin_tier_action r).
Proof.
  intros Hproc Hwf Hhosts Hm Hip Hlen Hproto Hport. cbv zeta. destruct Hm as [[-> ->]|Hm].
  - assert (bpf_map_lookup_lpm ∅ ip = None) as HN.
    { destruct (bpf_map_lookup_lpm ∅ ip) eqn:E; [|done]. apply lookup_lpm_Some in E as (k & Hk & _). by rewrite lookup_empty in Hk. }
    unfold evaluateClusterPolicyByLookUp. rewrite HN. case_decide; [done|]. split; [by left|].
    intros x [->|(q & Hq & _)]; [by right|]. by apply not_elem_of_nil in Hq.
  - destruct (cluster_compute_result f node crules Hproc Hwf) as (m' & st & Hm' & Hinv & HT). assert (m' = m) as -> by congruence.
    pose proof (cp_verdict_table f node crules Hproc Hwf protocol dest_port Hproto Hport m st ip Hinv HT Hip Hlen) as Hv. cbv zeta in Hv.
    case_decide as Hne; [destruct Hv as [-> ->]; done|]. destruct Hv as [Hv _]. eapply least_iff; [|exact Hv].
    intros x. by rewrite (matching_live f node).
Qed.

(** The tiers of [decideFlow] on a pod with policies. *)
Lemma decideFlow_admin `{!LPM} np cp ip protocol dest_port P :
  verdict_is (evaluateNamespacePolicyByLookUp np ip protocol dest_port POLICIES_APPLIED) P ->
  let r := evaluateClusterPolicyByLookUp cp ip protocol dest_port in
  fst (decideFlow np cp ip protocol dest_port POLICIES_APPLIED) = BPF_OK <->
  if (admin_tier_priority r <=? ADMIN_TIER_PRIORITY_LIMIT) && (admin_tier_action r =? ACTION_DENY) then False
  else if (admin_tier_priority r <=? ADMIN_TIER_PRIORITY_LIMIT) && (admin_tier_action r =? ACTION_ALLOW) then True
  else P.
Proof.
  intros Hv r. unfold decideFlow. fold r. cbv zeta.
  destruct (admin_tier_priority r <=? ADMIN_TIER_PRIORITY_LIMIT); cbn [andb];
    [destruct (admin_tier_action r =? ACTION_DENY); [done|]; destruct (admin_tier_action r =? ACTION_ALLOW); [done|]|].
  all: destruct Hv as [[-> HP]|[-> HP]]; cbn; split; done.
Qed.

Lemma decideFlow_tiers `{!MapOrder, !LPM} f node crules P np cp ip protocol dest_port :
  processor_ok f node -> crules_wf f crules -> node_hosts f node crules -> cluster_rules_in f crules cp ->
  width_ok ip -> length ip = length node -> protocol <> 0 -> 0 <= dest_port <= 65535 ->
  verdict_is (evaluateNamespacePolicyByLookUp np ip protocol dest_port POLICIES_APPLIED) (ip = node \/ P) ->
  fst (decideFlow np cp ip protocol dest_port POLICIES_APPLIED) = BPF_OK <-> ip = node \/ admits f crules P ip protocol dest_port.
Proof.
  intros Hproc Hwf Hhosts Hcp Hip Hlen Hproto Hport Hns. rewrite (decideFlow_admin _ cp _ _ _ _ Hns).
  pose proof (cluster_choice f node crules cp ip protocol dest_port Hproc Hwf Hhosts Hcp Hip Hlen Hproto Hport) as Hc. cbv zeta in Hc.
  set (r := evaluateClusterPolicyByLookUp cp ip protocol dest_port) in *. case_decide as Hnode.
  - rewrite Hc. case_match; tauto.
  - assert (admits f crules P ip protocol dest_port <->
      if (admin_tier_priority r <=? ADMIN_TIER_PRIORITY_LIMIT) && (admin_tier_action r =? ACTION_DENY) then False
      else if (admin_tier_priority r <=? ADMIN_TIER_PRIORITY_LIMIT) && (admin_tier_action r =? ACTION_ALLOW) then True
      else P) as ->.
    { split; [|by eexists]. intros (x & Hx & Ha). by rewrite (least_unique _ _ _ _ Hx Hc) in Ha. }
    repeat case_match; tauto.
Qed.

Section traffic.
Context `{!BpfMapSDK, !BpfSDK, !MapOrder, !LPM} (k : K8sClient) (host : gostring) (v6 : bool).
Context (time_Parse : gostring -> option Z) (start now clock : Z).
#[local] Instance ops : BpfClient bpfClient := bpfClient_ops clock.
#[local] Instance spec : BpfClientSpec bpfClient := bpfClient_spec clock.

End traffic.
