(* ===== verification/RpcHandler.v ===== *)
(** [pkg/rpc/rpc_handler.go]: the gRPC server the CNI plugin calls when a pod is added or
    deleted.  The two reconcilers share one BPF client; a reconciler is [None] while network
    policies are disabled.  Serving the socket is left out. *)
From S2P Require Import Prelude ApiTypes Utils FwRules Datapath Effects PolicyUtils BpfInterface PolicyController ClusterController.

Record EnforceNpRequest := mkEnforceNpRequest {
  K8S_POD_NAME : gostring;
  K8S_POD_NAMESPACE : gostring;
  NETWORK_POLICY_MODE : gostring;
  InterfaceCount : Z
}.

Record server (B : Type) := mkServer {
  policyReconciler : option PolicyEndpointsReconciler;
  clusterPolicyReconciler : option ClusterPolicyEndpointsReconciler;
  bpf_client : B
}.
Arguments mkServer {B}.
Arguments policyReconciler {B}.
Arguments clusterPolicyReconciler {B}.
Arguments bpf_client {B}.

Section rpc.
Context {B : Type} `{!BpfClient B, !MapOrder}.
Context (k8s : K8sClient) (c_k8s : ClusterK8sClient) (enableIPv6 : bool).

Definition on_client {A} (m : ST B A) : ST (server B) A :=
  zoom bpf_client (fun b s => mkServer (policyReconciler s) (clusterPolicyReconciler s) b) m.

(** The default pod state of an enforcing mode. *)
Definition defaultPodState (mode : gostring) : Z := if IsStrictMode mode then DEFAULT_DENY else DEFAULT_ALLOW.

(** Program a pod identifier from the policies in the local caches.  A derivation error is
    ignored: the rules are then nil. *)
Definition programFromCache (r : PolicyEndpointsReconciler) (cr : ClusterPolicyEndpointsReconciler)
  (podIdentifier podNamespace mode : gostring) (policiesAvailable clusterPoliciesAvailable : bool) : ST B unit :=
  podState ←
  (if policiesAvailable then
    rules ← lift (DeriveFireWallRulesPerPodIdentifier k8s enableIPv6 r podIdentifier podNamespace);
    UpdateEbpfMaps podIdentifier (fst rules) (snd rules);;
    mret POLICIES_APPLIED
  else mret (defaultPodState mode));
  clusterPolicyState ←
  (if clusterPoliciesAvailable then
    rules ← lift (match DeriveClusterPolicyFireWallRulesPerPodIdentifier c_k8s cr podIdentifier with
                 | Err _ => Ret ([], [])
                 | res => res
                 end);
    UpdateClusterPolicyEbpfMaps podIdentifier (fst rules) (snd rules);;
    mret POLICIES_APPLIED
  else mret DEFAULT_ALLOW);
  UpdatePodStateEbpfMaps podIdentifier POD_STATE_MAP_KEY podState true true;;
  UpdatePodStateEbpfMaps podIdentifier CLUSTER_POLICY_POD_STATE_MAP_KEY clusterPolicyState true true.

(** The reply's [Success]. *)
Definition EnforceNpToPod (req : EnforceNpRequest) : ST (server B) bool :=
  s ← get;
  match policyReconciler s, clusterPolicyReconciler s with
  | None, None => mret true
  | Some r, Some cr =>
      if negb (IsValidNetworkPolicyEnforcingMode (NETWORK_POLICY_MODE req)) then fail (go "Invalid Network Policy Mode") else
      let podIdentifier := GetPodIdentifier (K8S_POD_NAME req) (K8S_POD_NAMESPACE req) in
      isFirstPodInPodIdentifier ← on_client (AttacheBPFProbes (mkNamespacedName (K8S_POD_NAME req) (K8S_POD_NAMESPACE req))
                                 podIdentifier (InterfaceCount req) true);
      let policiesAvailableInLocalCache := ArePoliciesAvailableInLocalCache r podIdentifier in
      let clusterPolicyAvailableInLocalCache := c_ArePoliciesAvailableInLocalCache cr podIdentifier in
      (if (policiesAvailableInLocalCache || clusterPolicyAvailableInLocalCache) && isFirstPodInPodIdentifier then
        on_client (programFromCache r cr podIdentifier (K8S_POD_NAMESPACE req) (NETWORK_POLICY_MODE req)
                  policiesAvailableInLocalCache clusterPolicyAvailableInLocalCache)
      else if negb (policiesAvailableInLocalCache || clusterPolicyAvailableInLocalCache) then
        on_client (UpdatePodStateEbpfMaps podIdentifier POD_STATE_MAP_KEY (defaultPodState (NETWORK_POLICY_MODE req)) true true);;
        on_client (UpdatePodStateEbpfMaps podIdentifier CLUSTER_POLICY_POD_STATE_MAP_KEY DEFAULT_ALLOW true true)
      else mret tt);;
      mret true
  | _, _ => fail (go "One of the policy reconcilers is not ready")
  end.

Definition DeletePodNp (podName podNamespace : gostring) : ST (server B) bool :=
  s ← get;
  match policyReconciler s with
  | None => mret true
  | Some _ =>
      on_client (DeleteBPFProbes (mkNamespacedName podName podNamespace) (GetPodIdentifier podName podNamespace));;
      mret true
  end.
End rpc.

(** * What a successful ADD leaves *)
Section add.
Context {B : Type} `{!BpfClient B, !BpfClientSpec B, !MapOrder}.
Context (k8s : K8sClient) (c_k8s : ClusterK8sClient) (v6 : bool).

(** Both pod states of every hook that has a program. *)
Definition states_are (b : B) (id : gostring) (np cp : Z) : Prop := forall d, hooked (bc_view b) id d = true ->
  pod_states (bc_view b) id d POD_STATE_MAP_KEY = Some np /\
  pod_states (bc_view b) id d CLUSTER_POLICY_POD_STATE_MAP_KEY = Some cp.
(** The rules of a kind that every hook holds. *)
Definition rules_are (b : B) (id : gostring) (kind : PolicyKind) (ing egr : list EbpfFirewallRules) : Prop :=
  forall d, hooked (bc_view b) id d = true ->
  exists m, bc_entries b kind (by_dir ing egr d) = Ret m /\ installed bc_exact m (rules_in (bc_view b) id kind d).

Lemma u8_small z : 0 <= z < 256 -> u8 z = z.
Proof. intros Hz. unfold u8. apply Z.mod_small. exact Hz. Qed.

Lemma two_states id np cp b b' :
  bc_inv b -> 0 <= np < 256 -> 0 <= cp < 256 ->
  (UpdatePodStateEbpfMaps id POD_STATE_MAP_KEY np true true;;
    UpdatePodStateEbpfMaps id CLUSTER_POLICY_POD_STATE_MAP_KEY cp true true) b = (b', Ret tt) ->
  states_are b' id np cp /\ forall kind ing egr, rules_are b id kind ing egr -> rules_are b' id kind ing egr.
Proof.
  intros Hb Hnp Hcp. unfold mbind, ST_bind.
  destruct (UpdatePodStateEbpfMaps id POD_STATE_MAP_KEY np true true b) as [b1 [[]|e|w]] eqn:E1; [|done..]. intros E2.
  pose proof (write_frame (UpdatePodStateEbpfMaps id POD_STATE_MAP_KEY np true true) b id ltac:(eauto 10) Hb) as F1.
  rewrite E1 in F1. destruct F1 as (Hi1 & He1 & Hh1 & _).
  pose proof (write_frame (UpdatePodStateEbpfMaps id CLUSTER_POLICY_POD_STATE_MAP_KEY cp true true) b1 id ltac:(eauto 10) Hi1) as F2.
  rewrite E2 in F2. destruct F2 as (Hi2 & He2 & Hh2 & _). cbn in *.
  apply pod_state_law in E1 as (_ & Hp1 & Hr1); [|done]. apply pod_state_law in E2 as (_ & Hp2 & Hr2); [|done].
  split.
  - intros d Hd. rewrite !Hp2, !Hp1. rewrite Hh2, Hh1 in Hd. rewrite Hh1, Hd.
    replace (by_dir true true d) with true by by destruct d. cbn. by rewrite !u8_small.
  - intros kind ing egr Hr d Hd. rewrite Hh2, Hh1 in Hd. destruct (Hr d Hd) as (m & Hm & Hsub).
    exists m. rewrite He2, He1, Hr2, Hr1. done.
Qed.

Lemma default_state_range mode : 0 <= defaultPodState mode < 256.
Proof. unfold defaultPodState. case_match; done. Qed.

(** The rules an ADD programs for a kind of policy. *)
Definition np_rules (r : PolicyEndpointsReconciler) (id ns : gostring) : outcome (list EbpfFirewallRules * list EbpfFirewallRules) :=
  DeriveFireWallRulesPerPodIdentifier k8s v6 r id ns.
Definition cp_rules (cr : ClusterPolicyEndpointsReconciler) (id : gostring) : outcome (list EbpfFirewallRules * list EbpfFirewallRules) :=
  match DeriveClusterPolicyFireWallRulesPerPodIdentifier c_k8s cr id with Err _ => Ret ([], []) | res => res end.

Lemma wp_update_rules kind id ing egr b b' :
  bc_inv b ->
  match kind with NamespacePolicy => UpdateEbpfMaps id ing egr | ClusterPolicy => UpdateClusterPolicyEbpfMaps id ing egr end b = (b', Ret tt) ->
  bc_inv b' /\ rules_are b' id kind ing egr /\
  forall kind' ing' egr', kind' <> kind -> rules_are b id kind' ing' egr' -> rules_are b' id kind' ing' egr'.
Proof.
  intros Hb Hrun. set (m := match kind with NamespacePolicy => _ | _ => _ end) in Hrun.
  pose proof (write_frame m b id ltac:(destruct kind; eauto 10) Hb) as F. rewrite Hrun in F. destruct F as (Hi & He & Hh & _). cbn in *.
  split; [done|]. destruct kind; [apply rules_law in Hrun as (_ & Hr & Ho & _)|apply cluster_rules_law in Hrun as (_ & Hr & Ho & _)]; try done;
    (split; [intros d Hd; rewrite Hh in Hd; rewrite He; auto|]); intros kind' ing' egr' Hk Hold d Hd; rewrite Hh in Hd;
    destruct (Hold d Hd) as (m0 & Hm & Hsub); exists m0; rewrite He; destruct kind'; try done; by rewrite Ho.
Qed.

Lemma programFromCache_programs r cr id ns mode np cp b b' :
  bc_inv b -> programFromCache k8s c_k8s v6 r cr id ns mode np cp b = (b', Ret tt) ->
  states_are b' id (if np then POLICIES_APPLIED else defaultPodState mode) (if cp then POLICIES_APPLIED else DEFAULT_ALLOW) /\
  (np = true -> exists ing egr, np_rules r id ns = Ret (ing, egr) /\ rules_are b' id NamespacePolicy ing egr) /\
  (cp = true -> exists ing egr, cp_rules cr id = Ret (ing, egr) /\ rules_are b' id ClusterPolicy ing egr).
Proof.
  intros Hb Hrun. pose proof (default_state_range mode) as Hd. unfold programFromCache in Hrun. fold (np_rules r id ns) (cp_rules cr id) in Hrun.
  assert (exists b1, bc_inv b1 /\ (np = true -> exists ing egr, np_rules r id ns = Ret (ing, egr) /\ rules_are b1 id NamespacePolicy ing egr) /\
    ((clusterPolicyState ← (if cp then rules ← lift (cp_rules cr id); UpdateClusterPolicyEbpfMaps id (fst rules) (snd rules);; mret POLICIES_APPLIED
    else mret DEFAULT_ALLOW);
    UpdatePodStateEbpfMaps id POD_STATE_MAP_KEY (if np then POLICIES_APPLIED else defaultPodState mode) true true;;
    UpdatePodStateEbpfMaps id CLUSTER_POLICY_POD_STATE_MAP_KEY clusterPolicyState true true) b1 = (b', Ret tt))) as (b1 & Hb1 & Hnp & Hrun1).
  { destruct np; [|by exists b]. apply bind_returns in Hrun as (b1 & st & Hnp & Hrest).
    apply bind_returns in Hnp as (b0 & [ing egr] & Hl & Hnp). unfold lift in Hl. injection Hl as <- Hder.
    apply bind_returns in Hnp as (b1' & [] & E1 & Hret). injection Hret as -> <-.
    apply (wp_update_rules NamespacePolicy) in E1 as (Hi & Hr & _); [|done]. exists b1. eauto 10. }
  assert (exists b2, bc_inv b2 /\ (np = true -> exists ing egr, np_rules r id ns = Ret (ing, egr) /\ rules_are b2 id NamespacePolicy ing egr) /\
    (cp = true -> exists ing egr, cp_rules cr id = Ret (ing, egr) /\ rules_are b2 id ClusterPolicy ing egr) /\
    ((UpdatePodStateEbpfMaps id POD_STATE_MAP_KEY (if np then POLICIES_APPLIED else defaultPodState mode) true true;;
    UpdatePodStateEbpfMaps id CLUSTER_POLICY_POD_STATE_MAP_KEY (if cp then POLICIES_APPLIED else DEFAULT_ALLOW) true true) b2 = (b', Ret tt)))
    as (b2 & Hb2 & Hnp2 & Hcp2 & Hrun2).
  { destruct cp; [|by exists b1]. apply bind_returns in Hrun1 as (b2 & st & Hcp & Hrest).
    apply bind_returns in Hcp as (b0 & [ing egr] & Hl & Hcp). unfold lift in Hl. injection Hl as <- Hder.
    apply bind_returns in Hcp as (b2' & [] & E1 & Hret). injection Hret as -> <-.
    apply (wp_update_rules ClusterPolicy) in E1 as (Hi & Hr & Ho); [|done]. exists b2. split; [done|]. split; [|eauto 10].
    intros Hx. destruct (Hnp Hx) as (i & g & ? & ?). exists i, g. split; [done|]. by apply Ho. }
  apply two_states in Hrun2 as [Hs Hr]; [|done|by destruct np|by destruct cp].
  split; [done|]. split.
  - intros Hx. destruct (Hnp2 Hx) as (i & g & ? & ?). eauto.
  - intros Hx. destruct (Hcp2 Hx) as (i & g & ? & ?). eauto.
Qed.

(** C29: What a successful pod ADD leaves in the kernel.  When [EnforceNpToPod] succeeds with
    both reconcilers running, the mode was valid and the probes were attached; the caches and
    the attachment decide the rest.  For the first pod of an identifier with cached policies
    every hook holds the rules derived from the caches and the policies-applied state of each
    kind that has any (the mode's default, or allow for cluster policies, otherwise).  With no
    cached policy both states are the defaults.  A further pod of an identifier with policies
    changes nothing after the attachment. *)
Theorem add_pod_programs req r cr (b : B) s'
  (Hinv : bc_inv b)
  (Hrun : EnforceNpToPod k8s c_k8s v6 req (mkServer (Some r) (Some cr) b) = (s', Ret true)) :
  let id := GetPodIdentifier (K8S_POD_NAME req) (K8S_POD_NAMESPACE req) in
  let mode := NETWORK_POLICY_MODE req in
  let np := ArePoliciesAvailableInLocalCache r id in
  let cp := c_ArePoliciesAvailableInLocalCache cr id in
  IsValidNetworkPolicyEnforcingMode mode = true /\
  policyReconciler s' = Some r /\ clusterPolicyReconciler s' = Some cr /\
  exists b1 first,
  AttacheBPFProbes (mkNamespacedName (K8S_POD_NAME req) (K8S_POD_NAMESPACE req)) id (InterfaceCount req) true b = (b1, Ret first) /\
  if np || cp then
    if first then
      states_are (bpf_client s') id (if np then POLICIES_APPLIED else defaultPodState mode)
                                  (if cp then POLICIES_APPLIED else DEFAULT_ALLOW) /\
      (np = true -> exists ing egr, np_rules r id (K8S_POD_NAMESPACE req) = Ret (ing, egr) /\
                                  rules_are (bpf_client s') id NamespacePolicy ing egr) /\
      (cp = true -> exists ing egr, cp_rules cr id = Ret (ing, egr) /\ rules_are (bpf_client s') id ClusterPolicy ing egr)
    else bpf_client s' = b1
  else states_are (bpf_client s') id (defaultPodState mode) DEFAULT_ALLOW.
Proof.
  cbv zeta. unfold EnforceNpToPod in Hrun. unfold mbind at 1, ST_bind at 1, get in Hrun. cbn [policyReconciler clusterPolicyReconciler] in Hrun.
  destruct (IsValidNetworkPolicyEnforcingMode (NETWORK_POLICY_MODE req)); cbn [negb] in Hrun; [|done]. split; [done|].
  cbv zeta in Hrun. set (id := GetPodIdentifier _ _) in *. unfold mbind at 1, ST_bind at 1, on_client at 1, zoom in Hrun. cbn [bpf_client] in Hrun.
  pose proof (attach_frame b (mkNamespacedName (K8S_POD_NAME req) (K8S_POD_NAMESPACE req)) id (InterfaceCount req) true Hinv) as Hf.
  destruct (AttacheBPFProbes _ id _ true b) as [b1 [first|e|w]]; [|done..]. cbn [policyReconciler clusterPolicyReconciler] in Hrun.
  destruct Hf as (Hb1 & _). cbn [fst] in Hb1.
  set (np := ArePoliciesAvailableInLocalCache r id) in *. set (cp := c_ArePoliciesAvailableInLocalCache cr id) in *.
  destruct (np || cp) eqn:Eor; cbn [andb negb] in Hrun; [destruct first|].
  - unfold mbind, ST_bind, on_client, zoom in Hrun. cbn [bpf_client policyReconciler clusterPolicyReconciler] in Hrun.
    destruct (programFromCache _ _ _ _ _ _ _ _ _ _ b1) as [b2 [[]|e|w]] eqn:Ep; [|done..]. injection Hrun as <-.
    split; [done|]. split; [done|]. exists b1, true. split; [done|]. by apply programFromCache_programs in Ep.
  - injection Hrun as <-. split; [done|]. split; [done|]. by exists b1, false.
  - unfold mbind, ST_bind, on_client, zoom in Hrun. cbn [bpf_client policyReconciler clusterPolicyReconciler] in Hrun.
    destruct (UpdatePodStateEbpfMaps id POD_STATE_MAP_KEY _ true true b1) as [b2 [[]|e|w]] eqn:E1; [|done..].
    cbn [bpf_client policyReconciler clusterPolicyReconciler] in Hrun.
    destruct (UpdatePodStateEbpfMaps id CLUSTER_POLICY_POD_STATE_MAP_KEY _ true true b2) as [b3 [[]|e|w]] eqn:E2; [|done..].
    injection Hrun as <-. split; [done|]. split; [done|]. exists b1, first. split; [done|].
    destruct (two_states id (defaultPodState (NETWORK_POLICY_MODE req)) DEFAULT_ALLOW b1 b3) as [Hs _]; try done.
    + apply default_state_range.
    + unfold mbind, ST_bind. by rewrite E1.
Qed.
End add.
