(* ===== verification/Scenarios.v ===== *)
(** Runs of the whole agent on a small cluster: the reconcilers and the RPC server on top of
    the modelled BPF client and the kernel of [DemoKernel].  They instantiate the theorems of
    the controllers and of the RPC server, and record five behaviours worth knowing. *)
From S2P Require Import Prelude NetIP NetIPFacts ApiTypes Utils CidrTrie FwRules FwRulesFacts Datapath NetworkPolicySem ClusterPolicySem Classifiers Frames ClassifierFacts MemMap Effects PolicyUtils BpfInterface PolicyController PolicyControllerFacts BpfClient BpfClientFacts BpfClientTables DemoKernel AgentEndToEnd ClusterController ClusterControllerFacts RpcHandler.

#[local] Existing Instance reliable_sdk.
#[local] Existing Instance demo_sdk.
#[local] Existing Instance listed_order.
#[local] Instance demo_ops : BpfClient bpfClient := bpfClient_ops 9.

(** * A snapshot of the API *)
Definition k8s_of (pes : list PolicyEndpoint) : K8sClient := mkK8sClient
  (fun nn => match filter (fun pe => mkNamespacedName (meta_Name (pe_meta pe)) (meta_Namespace (pe_meta pe)) = nn) pes with
             | pe :: _ => Found pe
             | [] => NotFound
             end)
  (fun ns => Ret (filter (fun pe => meta_Namespace (pe_meta pe) = ns) pes)).

Definition c_k8s_of (cpes : list ClusterPolicyEndpoint) : ClusterK8sClient := mkClusterK8sClient
  (fun n => match filter (fun cpe => cpe_name cpe = n) cpes with cpe :: _ => Found cpe | [] => NotFound end) (Ret cpes).

Definition node : gostring := go "10.1.0.1".
Definition on_node (name ns ip : string) : PodEndpoint := mkPodEndpoint node (go ip) (go name) (go ns).
Definition tcp80 : list Port := [mkPort (Some (mkProtocolPtr 1 ProtocolTCP)) (Some 80) None].

(** A policy [policy] of a namespace, with one endpoint. *)
Definition policy_endpoint (name policy ns : string) (pods : list PodEndpoint) (ing : list EndpointInfo) : PolicyEndpoint :=
  mkPolicyEndpoint
    (mkObjectMeta (go name) (go ns) (Some {[LastChangeTriggerTimeAnnotation := go "t"]}) None)
    (mkPolicyEndpointSpec (mkPolicyReference (go policy) (go ns)) [PolicyTypeIngress] pods ing []).

Definition from_10_2 : list EndpointInfo := [mkEndpointInfo (go "10.2.0.0/16") [] [] tcp80].
Definition web_policy : PolicyEndpoint :=
  policy_endpoint "allow-web-abcde" "allow-web" "default" [on_node "web-1" "default" "10.1.0.5"] from_10_2.
Definition demo_k8s : K8sClient := k8s_of [web_policy].
Definition parse_time (s : gostring) : option Z := if decide (s = go "t") then Some 100 else None.

Definition web : gostring := go "web@default".
Definition web_pod : Pod := mkPod (demo_pod "web-1") (go "10.1.0.5").

(** The outcome of a run, and the state it leaves. *)
Definition np_run (k : K8sClient) (pe : PolicyEndpoint) (s : PolicyEndpointsReconciler * bpfClient) :=
  reconcilePolicyEndpoint k node false parse_time 0 150 pe s.
Definition reconciled : (PolicyEndpointsReconciler * bpfClient) * outcome unit :=
  np_run demo_k8s web_policy (NewPolicyEndpointsReconciler, demo_attached).

Lemma reconciled_ret : snd reconciled = Ret tt.
Proof. vm_compute. reflexivity. Qed.

(** * Witnesses of the namespaced controller *)
Lemma derive_rules_spec_witness :
  podIdentifierToPolicyEndpointMap (fst (fst reconciled)) !! web = Some [go "allow-web-abcde"] /\
  exists d, deriveIngressAndEgressFirewallRules demo_k8s (fst (fst reconciled)) web (go "default") (go "allow-web-abcde") false = Ret d /\
    ingressRules d = peIngressRules web_policy /\ egressRules d = [] /\ isIngressIsolated d = false.
Proof.
  assert (podIdentifierToPolicyEndpointMap (fst (fst reconciled)) !! web = Some [go "allow-web-abcde"]) as Hn by (vm_compute; reflexivity).
  split; [exact Hn|].
  destruct (derive_rules_spec demo_k8s (go "default") (go "allow-web-abcde") false (fst (fst reconciled)) web [go "allow-web-abcde"] Hn)
    as (d & Hd & Hi & He & Hii & _).
  - intros Hf. discriminate Hf.
  - intros n e Hin. apply list_elem_of_singleton in Hin as ->. vm_compute. discriminate.
  - exists d. split; [exact Hd|]. rewrite Hi in *. split; [vm_compute; reflexivity|]. split; [rewrite He; vm_compute; reflexivity|].
    destruct (isIngressIsolated d); [|reflexivity]. destruct (proj1 Hii eq_refl) as [Hx _]. vm_compute in Hx. discriminate Hx.
Defined.

Lemma np_target_pods_spec_witness :
  NoDup (derivePolicyEndpointsOfParentNP demo_k8s (go "allow-web") (go "default")) /\
  exists r' ids cleanup,
    deriveTargetPodsForParentNP demo_k8s node (go "allow-web") (go "default") (go "allow-web-abcde") NewPolicyEndpointsReconciler
      = (r', Ret ([web_pod], ids, cleanup)) /\ web ∈ ids /\ tracks (podIdentifierToPolicyEndpointMap r') web (go "allow-web-abcde").
Proof.
  assert (NoDup (derivePolicyEndpointsOfParentNP demo_k8s (go "allow-web") (go "default"))) as Hnd
    by (vm_compute; apply NoDup_singleton).
  split; [exact Hnd|].
  destruct (np_target_pods_spec demo_k8s node (go "allow-web") (go "default") (go "allow-web-abcde") (go "allow-web")
    NewPolicyEndpointsReconciler ltac:(vm_compute; reflexivity) Hnd) as (r' & pods & ids & cleanup & Hrun & Hpods & Hids & _ & Htr & _).
  assert (pods = [web_pod]) as -> by (rewrite Hpods; vm_compute; reflexivity).
  exists r', ids, cleanup. split; [exact Hrun|]. split; [apply Hids; vm_compute; left|].
  apply Htr. split; [right; split; vm_compute; left|]. intros [(l & Hl & _) _]. vm_compute in Hl. discriminate Hl.
Defined.

Lemma k8s_of_NoDup pes parentNP ns :
  NoDup ((fun pe => mkNamespacedName (meta_Name (pe_meta pe)) (meta_Namespace (pe_meta pe))) <$> pes) ->
  NoDup (derivePolicyEndpointsOfParentNP (k8s_of pes) parentNP ns).
Proof.
  intros Hnd. unfold derivePolicyEndpointsOfParentNP. cbn [k8s_List k8s_of].
  induction pes as [|pe pes IH]; [constructor|]. cbn in Hnd. apply NoDup_cons in Hnd as [Hni Hnd]. specialize (IH Hnd).
  rewrite filter_cons. case_decide as Hns; [|exact IH]. rewrite filter_cons. case_decide; [|exact IH].
  cbn. apply NoDup_cons. split; [|exact IH]. intros (q & Hq & Hin)%list_elem_of_fmap. apply Hni.
  apply list_elem_of_filter in Hin as [_ Hin]. apply list_elem_of_filter in Hin as [Hqns Hin].
  apply list_elem_of_fmap. exists q. split; [|exact Hin]. f_equal; congruence.
Qed.


(** The policy is gone: the pod goes back to the default state of the mode. *)
Lemma cleanupPod_programs_witness :
  let r := fst (fst reconciled) in
  client_inv demo_attached /\
  snd (cleanupPod (k8s_of []) false web_pod (go "allow-web-abcde") true (r, demo_attached)) = Ret tt /\
  programmed (BpfClientSpec0 := bpfClient_spec 9) (snd (fst (cleanupPod (k8s_of []) false web_pod (go "allow-web-abcde") true (r, demo_attached))))
    web NamespacePolicy [] [] DEFAULT_ALLOW.
Proof.
  intros r. split; [apply demo_attached_inv|].
  assert (snd (cleanupPod (k8s_of []) false web_pod (go "allow-web-abcde") true (r, demo_attached)) = Ret tt) as Hret
    by (vm_compute; reflexivity).
  split; [exact Hret|].
  destruct (cleanupPod_programs (BpfClientSpec0 := bpfClient_spec 9) (k8s_of []) false web_pod (go "allow-web-abcde") true r demo_attached
    (fst (cleanupPod (k8s_of []) false web_pod (go "allow-web-abcde") true (r, demo_attached))))
    as (d & Hd & _ & Hp).
  - apply demo_attached_inv.
  - vm_compute. eauto.
  - rewrite <-Hret. apply surjective_pairing.
  - assert (d = mkDerivedRules [] [] false false) as -> by (vm_compute in Hd; congruence). exact Hp.
Defined.

Lemma reconcile_sample_enforced_witness :
  let '((r', b'), res) := reconciled in
  client_inv demo_attached /\ res = Ret tt /\ policyProgrammingLatency r' = [50] /\
  enforced (BpfClientSpec0 := bpfClient_spec 9) demo_k8s false web_policy r' b' web.
Proof.
  assert (policyProgrammingLatency (fst (fst reconciled)) = [50]) as Hl by (vm_compute; reflexivity).
  pose proof reconciled_ret as Hret. destruct reconciled as [[r' b'] res] eqn:Hrun. cbn in Hl, Hret. subst res.
  split; [apply demo_attached_inv|]. split; [reflexivity|]. split; [exact Hl|].
  apply (reconcile_sample_enforced (BpfClientSpec0 := bpfClient_spec 9) demo_k8s node false parse_time 0 150 web_policy (go "allow-web")
    NewPolicyEndpointsReconciler demo_attached r' b').
  - apply demo_attached_inv.
  - vm_compute. reflexivity.
  - apply k8s_of_NoDup. apply NoDup_singleton.
  - exact Hrun.
  - rewrite Hl. discriminate.
  - vm_compute. left.
Defined.

(** * The packets of the reconciled pod *)
Definition node_bytes : IP := [x0a; x01; x00; x01].
Definition web_rules : list EbpfFirewallRules := peIngressRules web_policy.

Lemma demo_processor_ok : processor_ok (fwRuleProcessor demo_attached) node_bytes.
Proof.
  split; [by left|vm_compute; reflexivity|vm_compute; reflexivity|vm_compute; reflexivity|].
  apply (bool_decide_unpack _). vm_compute. exact I.
Qed.

Lemma web_rules_wf : rules_wf (fwRuleProcessor demo_attached) node_bytes web_rules.
Proof.
  assert (live_rules (fwRuleProcessor demo_attached) web_rules =
    [(mkIPNet [x0a; x02; x00; x00] [xff; xff; x00; x00], mkEbpfFirewallRules 0 [] [] (go "10.2.0.0/16") [] tcp80)]) as Hl
    by (vm_compute; reflexivity).
  split.
  - apply Forall_cons. split; [|constructor]. apply rule_ok_intro. vm_compute. done.
  - rewrite Hl. intros q x Hq Hx. apply list_elem_of_singleton in Hq as ->. destruct (not_elem_of_nil x Hx).
  - rewrite Hl. intros q Hq. apply list_elem_of_singleton in Hq as ->. repeat constructor; cbn; try lia. intros ? [= <-]. done.
  - rewrite Hl. intros q Hq. apply list_elem_of_singleton in Hq as ->. vm_compute. lia.
Qed.

(** The ingress classifier on the maps of an identifier, with no tracked flow. *)
Definition classifier_of (b : bpfClient) (id : gostring) : dp_state :=
  let v := client_view b in
  mkDp (rules_in v id NamespacePolicy ingress) (rules_in v id ClusterPolicy ingress)
    (list_to_map (omap (fun key => (fun st => (key, st)) <$> pod_states v id ingress key) [0; 1])) ∅ [].

Definition packet_from (src : Z) (port : Z) : packet := mkPacket src 83886346 6 40000 port 3 100.
(** 10.2.7.7 and 10.3.7.7, as the 32-bit words of the header. *)
Definition allowed_src : Z := of_le32 [x0a; x02; x07; x07].
Definition other_src : Z := of_le32 [x0a; x03; x07; x07].

Lemma demo_deletes : @deletes_succeed reliable_sdk.
Proof. done. Qed.

(** The same, as the hook of a frame. *)
Definition web_hook (b : bpfClient) (id : gostring) : hook := hook_of (classifier_of b id).
Definition web_frame (src port : Z) : sk_buff :=
  mkSkb (frame_v4 ex_link 5 IPPROTO_TCP src 83886346 [] (transport 40000 port ex_rest)) 3 54.
Definition no_tables : tables (F := IPv4) := mkTables (F := IPv4) ∅ [].

Lemma no_cluster_rules : crules_wf (fwRuleProcessor demo_attached) [].
Proof.
  split; [constructor| | |]; unfold live_l4; cbn; intros; repeat (match goal with
    | H : exists _, _ |- _ => destruct H
    | H : _ /\ _ |- _ => destruct H
    | H : _ ∈ [] |- _ => by apply not_elem_of_nil in H
    end).
Qed.

Lemma web_node_hosts : node_hosts (fwRuleProcessor demo_attached) node_bytes web_rules.
Proof.
  assert (policy_rules (fwRuleProcessor demo_attached) web_rules =
    [(mkIPNet [x0a; x02; x00; x00] [xff; xff; x00; x00], mkEbpfFirewallRules 0 [] [] (go "10.2.0.0/16") [] tcp80)]) as Hl
    by (vm_compute; reflexivity).
  intros q Hq. rewrite Hl in Hq. by apply list_elem_of_singleton in Hq as ->.
Qed.


(** * The cluster controller *)
Definition cluster_policy (name policy : string) (pods : list PodEndpoint) (ing : list ClusterEndpointInfo) : ClusterPolicyEndpoint :=
  mkClusterPolicyEndpoint (mkObjectMeta (go name) [] None None)
    (mkClusterPolicyEndpointSpec (go policy) AdminTier 10 pods ing []).
Definition deny_10_9 : list ClusterEndpointInfo :=
  [mkClusterEndpointInfo (go "10.9.0.0/16") [] [] ClusterNetworkPolicyRuleActionDeny].
Definition block_policy : ClusterPolicyEndpoint :=
  cluster_policy "block-xyz" "block" [on_node "web-1" "default" "10.1.0.5"] deny_10_9.
Definition baseline_policy : ClusterPolicyEndpoint :=
  mkClusterPolicyEndpoint (mkObjectMeta (go "base-xyz") [] None None)
    (mkClusterPolicyEndpointSpec (go "base") BaselineTier 3 [on_node "web-1" "default" "10.1.0.5"] deny_10_9 []).
Definition newCluster : ClusterPolicyEndpointsReconciler := mkClusterPolicyEndpointsReconciler ∅ ∅ ∅ ∅ [].
Definition cp_run (k : ClusterK8sClient) (cpe : ClusterPolicyEndpoint) (s : ClusterPolicyEndpointsReconciler * bpfClient) :=
  reconcileClusterPolicyEndpoint k node parse_time 0 150 cpe s.
Definition c_reconciled : (ClusterPolicyEndpointsReconciler * bpfClient) * outcome unit :=
  cp_run (c_k8s_of [block_policy]) block_policy (newCluster, demo_attached).

Definition both_recorded : ClusterPolicyEndpointsReconciler :=
  set_c_podIdMap (fun _ => {[web := [go "block-xyz"; go "base-xyz"]]}) newCluster.


(** The policy stops selecting the pod: its cluster rules go. *)
Definition block_none : ClusterPolicyEndpoint := cluster_policy "block-xyz" "block" [] deny_10_9.
Definition c_unselect : (ClusterPolicyEndpointsReconciler * bpfClient) * outcome unit :=
  cp_run (c_k8s_of [block_none]) block_none (fst (fst c_reconciled), demo_attached).

Lemma cluster_no_pod_forgotten_witness :
  recorded (fst (fst c_reconciled)) (go "block-xyz") web_pod /\ snd c_unselect = Ret tt /\
  clean (BpfClientSpec0 := bpfClient_spec 9) (c_k8s_of [block_none]) (go "block-xyz") false (fst (fst c_unselect)) (snd (fst c_unselect)) web.
Proof.
  assert (recorded (fst (fst c_reconciled)) (go "block-xyz") web_pod) as Hrec
    by (exists [web_pod]; split; [vm_compute; reflexivity|left]).
  assert (snd c_unselect = Ret tt) as Hret by (vm_compute; reflexivity).
  split; [exact Hrec|]. split; [exact Hret|].
  destruct (deriveTargetPodsForParentCNP (c_k8s_of [block_none]) node (go "block") (go "block-xyz") (fst (fst c_reconciled))) as [r1 res1] eqn:Et.
  assert (res1 = Ret (mkCnpTargets [] ∅ [web_pod] [go "block-xyz"])) as ->.
  { change (snd (r1, res1) = Ret (mkCnpTargets [] ∅ [web_pod] [go "block-xyz"])). rewrite <-Et. vm_compute. reflexivity. }
  destruct (cluster_no_pod_forgotten (BpfClientSpec0 := bpfClient_spec 9) (c_k8s_of [block_none]) node parse_time 0 150 block_none
    (fst (fst c_reconciled)) demo_attached (fst c_unselect) (snd c_unselect) r1 _ demo_attached_inv Et
    (surjective_pairing _)) with (n := go "block-xyz") (p := web_pod) as [Hx|[Hx|[Hc|[Hx _]]]].
  - intros w. rewrite Hret. discriminate.
  - left.
  - exact Hrec.
  - destruct (not_elem_of_nil _ Hx).
  - destruct (not_elem_of_empty _ Hx).
  - exact Hc.
  - destruct (Hx Hret).
Defined.

Definition c_k8s_down : ClusterK8sClient := mkClusterK8sClient (fun _ => Found block_policy) (Err (go "timeout")).

Lemma cluster_list_failure_witness :
  c_List c_k8s_down = Err (go "timeout") /\
  snd (fst (c_reconcile c_k8s_down node parse_time 0 150 (go "block-xyz") (fst (fst c_reconciled), demo_attached))) = demo_attached.
Proof.
  split; [reflexivity|].
  pose proof (cluster_list_failure c_k8s_down node parse_time 0 150 (go "block-xyz") (fst (fst c_reconciled)) demo_attached (go "timeout") eq_refl) as Hf.
  destruct (c_reconcile c_k8s_down node parse_time 0 150 (go "block-xyz") (fst (fst c_reconciled), demo_attached)) as [[r' b'] res].
  apply Hf.
Defined.

(** * The RPC server *)
Definition add_request (name mode : string) : EnforceNpRequest := mkEnforceNpRequest (go name) (go "default") (go mode) 1.
(** A server whose controllers know [web_policy], on a client whose attachments follow a script. *)
Definition demo_server (script : list (option gostring)) : server bpfClient :=
  mkServer (Some (fst (fst reconciled))) (Some newCluster) (demo_client (go "strict") script).
Definition add (name : string) : ST (server bpfClient) bool := EnforceNpToPod demo_k8s (c_k8s_of []) false (add_request name "strict").
Definition del (name : string) : ST (server bpfClient) bool := DeletePodNp (go name) (go "default").

Lemma add_pod_programs_witness :
  client_inv (demo_client (go "strict") []) /\ snd (add "web-1" (demo_server [])) = Ret true /\
  states_are (BpfClientSpec0 := bpfClient_spec 9) (bpf_client (fst (add "web-1" (demo_server [])))) web POLICIES_APPLIED DEFAULT_ALLOW.
Proof.
  assert (snd (add "web-1" (demo_server [])) = Ret true) as Hret by (vm_compute; reflexivity).
  split; [apply demo_client_inv|]. split; [exact Hret|].
  destruct (add_pod_programs (BpfClientSpec0 := bpfClient_spec 9) demo_k8s (c_k8s_of []) false (add_request "web-1" "strict")
    (fst (fst reconciled)) newCluster (demo_client (go "strict") []) (fst (add "web-1" (demo_server []))))
    as (_ & _ & _ & b1 & first & Hatt & Hif).
  - apply demo_client_inv.
  - rewrite <-Hret. exact (surjective_pairing (add "web-1" (demo_server []))).
  - assert (first = true) as ->.
    { enough (Ret first = Ret true) by congruence. change (snd (b1, Ret first) = Ret true). rewrite <-Hatt. vm_compute. reflexivity. }
    assert (ArePoliciesAvailableInLocalCache (fst (fst reconciled)) web = true) as Hnp by (vm_compute; reflexivity).
    change (GetPodIdentifier _ _) with web in Hif. rewrite Hnp in Hif. exact (proj1 Hif).
Defined.

(** * Five behaviours worth knowing *)

Lemma np_run_inv k pe s : client_inv (snd s) -> client_inv (snd (fst (np_run k pe s))).
Proof.
  intros Hs. apply (encodes_reconcile (BpfClientSpec0 := bpfClient_spec 9) k node false parse_time 0 150
    (bc_entries (BpfClientSpec := bpfClient_spec 9) (snd s)) pe s (conj Hs eq_refl)).
Qed.

(** An attachment that fails half-way is not repaired by the retry.  The egress filter of the
    first pod of [web] cannot be attached and the ADD fails; the runtime's DEL leaves the
    identifier's programs and context in place, since the pod is in neither table; the ADD of
    the next pod then succeeds, but takes the pod for a further one of a programmed
    identifier: neither pod state was ever written, so the classifier drops every packet to a
    pod whose policy admits 10.2.0.0/16. *)
Theorem failed_attach_not_repaired :
  let s1 := add "web-1" (demo_server [None; Some (go "tc failed")]) in
  let s2 := del "web-1" (fst s1) in
  let s3 := add "web-2" (fst s2) in
  let v := client_view (bpf_client (fst s3)) in
  snd s1 = Err (go "tc failed") /\ snd s2 = Ret true /\ snd s3 = Ret true /\
  bpf_HasBPFContext web (bpf_client (fst s2)) = true /\
  hooked v web ingress = true /\ pod_states v web ingress POD_STATE_MAP_KEY = None /\
  fst (@handle_ingress lpm_scan (classifier_of (bpf_client (fst s3)) web) (packet_from allowed_src 80) 7) = BPF_DROP.
Proof. vm_compute. repeat split. Qed.

(** Two endpoints of one policy, both selecting the pod. *)
Definition slice (name : string) : PolicyEndpoint :=
  policy_endpoint name "allow-web" "default" [on_node "web-1" "default" "10.1.0.5"] from_10_2.
Definition two_slices : K8sClient := k8s_of [slice "allow-web-a"; slice "allow-web-b"].
Definition both_slices : PolicyEndpointsReconciler * bpfClient :=
  fst (np_run two_slices (slice "allow-web-b") (NewPolicyEndpointsReconciler, demo_attached)).
(** The second is deleted while the API cannot list. *)
Definition listing_down : K8sClient := mkK8sClient (k8s_Get (k8s_of [slice "allow-web-a"])) (fun _ => Err (go "timeout")).

(** A failing List opens a protected pod.  One of two slices of a policy is deleted; while it is
    cleaned up, listing the policy's endpoints fails.  The reconcile succeeds and leaves the
    pod in the default-allow state, although the other slice still selects it. *)
Theorem list_failure_opens_pod :
  let req := mkNamespacedName (go "allow-web-b") (go "default") in
  let '((r, b), res) := reconcile listing_down node false parse_time 0 150 req both_slices in
  pod_states (client_view (snd both_slices)) web ingress POD_STATE_MAP_KEY = Some POLICIES_APPLIED /\
  res = Ret tt /\ k8s_Get listing_down (mkNamespacedName (go "allow-web-a") (go "default")) = Found (slice "allow-web-a") /\
  pod_states (client_view b) web ingress POD_STATE_MAP_KEY = Some DEFAULT_ALLOW /\
  fst (@handle_ingress lpm_scan (classifier_of (snd both_slices) web) (packet_from other_src 80) 7) = BPF_DROP /\
  fst (@handle_ingress lpm_scan (classifier_of b web) (packet_from other_src 80) 7) = BPF_OK.
Proof. vm_compute. repeat split. Qed.

Definition deleted_req : NamespacedName := mkNamespacedName (go "allow-web-b") (go "default").
Definition unlisted_run : (PolicyEndpointsReconciler * bpfClient) * outcome unit :=
  reconcile listing_down node false parse_time 0 150 deleted_req both_slices.
Lemma list_failure_unprotects_witness :
  snd unlisted_run = Ret tt /\ programmed (BpfClientSpec0 := bpfClient_spec 9) (snd (fst unlisted_run)) web NamespacePolicy [] [] DEFAULT_ALLOW.
Proof.
  assert (snd unlisted_run = Ret tt) as Hret by (vm_compute; reflexivity). split; [exact Hret|].
  assert (pod_identifier web_pod = web) as Hweb by (vm_compute; reflexivity).
  assert (default_state (GetNetworkPolicyMode (BpfClient := bpfClient_ops 9) (snd both_slices)) = DEFAULT_ALLOW) as Hst by (vm_compute; reflexivity).
  assert (unlisted_run = (fst unlisted_run, Ret tt)) as Hrun by (rewrite <-Hret; apply surjective_pairing).
  pose proof (list_failure_unprotects (BpfClientSpec0 := bpfClient_spec 9) listing_down node false parse_time 0 150 deleted_req (go "allow-web")
    (fst both_slices) (snd both_slices) (fst unlisted_run) (go "timeout") web_pod [go "allow-web-a"; go "allow-web-b"]) as H.
  rewrite Hst, Hweb in H. apply H.
  - apply np_run_inv, demo_attached_inv.
  - vm_compute. reflexivity.
  - reflexivity.
  - vm_compute. reflexivity.
  - vm_compute. left.
  - vm_compute. reflexivity.
  - intros n Hn. repeat (apply elem_of_cons in Hn as [->|Hn]; [vm_compute; reflexivity|]). destruct (not_elem_of_nil n Hn).
  - rewrite <-surjective_pairing. exact Hrun.
Defined.

(** The same policy name in two namespaces. *)
Definition blue_policy : PolicyEndpoint :=
  policy_endpoint "allow-web-blue1" "allow-web" "blue" [on_node "api-1" "blue" "10.1.0.6"] from_10_2.
Definition both_namespaces : K8sClient := k8s_of [web_policy; blue_policy].
Definition web_unselected : PolicyEndpoint := policy_endpoint "allow-web-abcde" "allow-web" "default" [] from_10_2.
Definition api_attached : bpfClient :=
  fst (bpf_AttacheBPFProbes (mkNamespacedName (go "api-1") (go "blue")) (go "api@blue") 1 true demo_attached).
(** Reconcile the policy of [default], then the one of [blue], then the first again, after
    it stopped selecting any pod. *)
Definition unselect_after (between : list PolicyEndpoint) : (PolicyEndpointsReconciler * bpfClient) * outcome unit :=
  let s := fst (np_run both_namespaces web_policy (NewPolicyEndpointsReconciler, api_attached)) in
  let s := foldl (fun s pe => fst (np_run both_namespaces pe s)) s between in
  np_run (k8s_of [web_unselected; blue_policy]) web_unselected s.

Definition selected_once : PolicyEndpointsReconciler * bpfClient :=
  fst (np_run both_namespaces web_policy (NewPolicyEndpointsReconciler, api_attached)).

Lemma unselected_pod_untouched_witness :
  let run := np_run (k8s_of [web_unselected; blue_policy]) web_unselected selected_once in
  podIdentifierToPolicyEndpointMap (fst (fst run)) !! web = None /\
  pod_states (client_view (snd (fst run))) web ingress POD_STATE_MAP_KEY = Some POLICIES_APPLIED.
Proof.
  intros run.
  destruct (unselected_pod_untouched (BpfClientSpec0 := bpfClient_spec 9) (k8s_of [web_unselected; blue_policy]) node false parse_time 0 150
    web_unselected (go "allow-web") (fst selected_once) (snd selected_once) (fst run) (snd run) web [web]) as [Hn Hs].
  - apply np_run_inv. exact (proj1 (attach_others demo_attached (mkNamespacedName (go "api-1") (go "blue")) (go "api@blue") 1 true demo_attached
      (others_as_refl demo_attached _ demo_attached_inv))).
  - split; [|split]; apply (bool_decide_unpack _); vm_compute; exact I.
  - vm_compute. reflexivity.
  - intros. apply k8s_of_NoDup. vm_compute. repeat constructor; set_solver.
  - vm_compute. reflexivity.
  - by left.
  - vm_compute. apply not_elem_of_nil.
  - intros p (names & Hl & Hp). vm_compute in Hl. injection Hl as <-. apply list_elem_of_singleton in Hp as ->. vm_compute. by left.
  - rewrite <-surjective_pairing. apply surjective_pairing.
  - split; [exact Hn|]. destruct (Hs ingress) as (_ & Hst & _). etrans; [exact (Hst POD_STATE_MAP_KEY)|]. vm_compute. reflexivity.
Defined.

(** A pod that its last policy stops selecting stays restricted: the reconcile succeeds, the
    identifier has no policy any more, and traffic from 10.3.7.7 is still dropped. *)
Theorem unselected_pod_stays_restricted :
  let '((r, b), res) := unselect_after [] in
  res = Ret tt /\ podIdentifierToPolicyEndpointMap r !! web = None /\
  pod_states (client_view b) web ingress POD_STATE_MAP_KEY = Some POLICIES_APPLIED /\
  fst (@handle_ingress lpm_scan (classifier_of b web) (packet_from other_src 80) 7) = BPF_DROP.
Proof. vm_compute. repeat split. Qed.

(** A policy of the same name in another namespace keeps a policy recorded for a pod it no
    longer selects.  The identifiers of a policy are recorded under its bare name, which the
    reconcile of the other namespace's policy overwrites; when the first policy then stops
    selecting [web], the identifier is not recognised as stale, so a new pod of [web] is
    programmed with the rules of a policy that does not select it. *)
Theorem same_name_keeps_policy_recorded :
  let '((r, b), res) := unselect_after [blue_policy] in
  res = Ret tt /\ podIdentifierToPolicyEndpointMap r !! web = Some [go "allow-web-abcde"] /\
  DeriveFireWallRulesPerPodIdentifier (k8s_of [web_unselected; blue_policy]) false r web (go "default")
    = Ret (web_rules, addCatchAllEntry false []).
Proof. vm_compute. repeat split. Qed.

(** A reconcile that could not program a pod reports success.  The filter cannot be attached,
    the error is logged, and the reconcile returns nil, so it is not retried; no latency
    sample is recorded. *)
Theorem programming_error_not_returned :
  let '((r, b), res) := np_run demo_k8s web_policy (NewPolicyEndpointsReconciler, demo_client (go "strict") [Some (go "tc failed")]) in
  res = Ret tt /\ policyProgrammingLatency r = [] /\ pod_states (client_view b) web ingress POD_STATE_MAP_KEY = None.
Proof. vm_compute. repeat split. Qed.
