(* ===== verification/Conntrack.v ===== *)
(** [pkg/ebpf/conntrack/conntrack_client.go]: the collector of stale entries of the agent's
    conntrack map.  It alternates between two calls: one copies the keys of the map into a
    local cache, the next deletes those of them that no kernel flow matches and that the
    datapath has not touched since.

    The IPv4 and IPv6 versions differ in the key type, in how a flow becomes keys and in the
    reset of the cache, so the collector is written once over a [Family].  The kernel (the
    map, the clock, the flow table) is the class [CtKernel]: any call may fail, and between
    calls the datapath changes entries of the map. *)
From S2P Require Import Prelude NetIP ApiTypes Utils Effects.

(** [netlink.ConntrackFlow], the fields the collector reads. *)
Record IPTuple := mkIPTuple { SrcIP : IP; DstIP : IP; SrcPort : Z; DstPort : Z; ip_Protocol : Z }.
Record ConntrackFlow := mkConntrackFlow { Forward : IPTuple; Reverse : IPTuple }.

(** The result of a call that may report ENOENT. *)
Inductive ct_res (A : Type) := Got (a : A) | NoEntry | Failed (e : gostring).
Arguments Got {A} a.
Arguments NoEntry {A}.
Arguments Failed {A} e.

(** The kernel, seen from the collector.  [dp] says how the datapath may change one entry
    between two calls. *)
Class CtKernel (RK : Type) `{Countable RK} := {
  kst : Type;
  ct_contents : kst -> gmap RK ConntrackVal;
  GetMapFromPinPath : kst -> kst * option Z;
  GetFirstMapEntryByID : Z -> kst -> kst * ct_res RK;
  GetMapEntryByID : Z -> RK -> kst -> kst * ct_res ConntrackVal;
  GetNextMapEntryByID : Z -> RK -> kst -> kst * ct_res RK;
  KtimeGetNs : kst -> kst * option Z;
  ConntrackTableList : kst -> kst * option (list ConntrackFlow);
  ct_GetMapEntry : RK -> kst -> kst * option ConntrackVal;
  ct_DeleteMapEntry : RK -> kst -> kst * option gostring;
  dp : option ConntrackVal -> option ConntrackVal -> Prop;
  dp_preorder :: PreOrder dp;
  pin_law : forall s k, dp (ct_contents s !! k) (ct_contents (fst (GetMapFromPinPath s)) !! k);
  first_law : forall id s k, dp (ct_contents s !! k) (ct_contents (fst (GetFirstMapEntryByID id s)) !! k);
  byid_law : forall id key s k, dp (ct_contents s !! k) (ct_contents (fst (GetMapEntryByID id key s)) !! k);
  next_law : forall id key s k, dp (ct_contents s !! k) (ct_contents (fst (GetNextMapEntryByID id key s)) !! k);
  ktime_law : forall s k, dp (ct_contents s !! k) (ct_contents (fst (KtimeGetNs s)) !! k);
  flows_law : forall s k, dp (ct_contents s !! k) (ct_contents (fst (ConntrackTableList s)) !! k);
  (** A lookup that succeeds returns the entry. *)
  ct_get_law : forall key s s' r, ct_GetMapEntry key s = (s', r) ->
    (forall k, dp (ct_contents s !! k) (ct_contents s' !! k)) /\ forall v, r = Some v -> ct_contents s' !! key = Some v;
  (** A delete that succeeds removes the entry it names. *)
  ct_delete_law : forall key s s' e, ct_DeleteMapEntry key s = (s', e) ->
    forall k, exists o, dp (ct_contents s !! k) o /\
      ct_contents s' !! k = if decide (k = key) then (match e with None => None | Some _ => o end) else o
}.

Record conntrackClient := mkConntrackClient {
  ct_enableIPv6 : bool;
  hydratelocalConntrack : bool;
  (** [None] is a nil map. *)
  localConntrackV4Cache : option (gset ConntrackKey);
  localConntrackV6Cache : option (gset ConntrackKeyV6)
}.

Definition NewConntrackClient (enableIPv6 : bool) : conntrackClient := mkConntrackClient enableIPv6 true None None.

Definition InitializeLocalCache (c : conntrackClient) : conntrackClient :=
  if ct_enableIPv6 c
  then mkConntrackClient (ct_enableIPv6 c) (hydratelocalConntrack c) (localConntrackV4Cache c) (Some ∅)
  else mkConntrackClient (ct_enableIPv6 c) (hydratelocalConntrack c) (Some ∅) (localConntrackV6Cache c).

Definition set_hydrate (b : bool) (c : conntrackClient) : conntrackClient :=
  mkConntrackClient (ct_enableIPv6 c) b (localConntrackV4Cache c) (localConntrackV6Cache c).

(** A failed read keeps the entry. *)
Definition entryActiveFromRead (cur : ConntrackVal) (readErr : bool) (gcStart : Z) : bool :=
  if readErr then true else gcStart <=? LastSeen cur.

(** ** The two families *)
Record Family (RK K : Type) `{Countable RK, Countable K} := mkFamily {
  (** The map's key, and the cache's. *)
  of_raw : RK -> K;
  to_raw : K -> RK;
  (** The cached key without the interface, in the kernel's byte order. *)
  strip : K -> outcome K;
  flow_keys : ConntrackFlow -> outcome (list K);
  local_cache : conntrackClient -> option (gset K);
  set_cache : option (gset K) -> conntrackClient -> conntrackClient;
  resets : bool
}.
Arguments of_raw {RK K _ _ _ _}.
Arguments to_raw {RK K _ _ _ _}.
Arguments strip {RK K _ _ _ _}.
Arguments flow_keys {RK K _ _ _ _}.
Arguments local_cache {RK K _ _ _ _}.
Arguments set_cache {RK K _ _ _ _}.
Arguments resets {RK K _ _ _ _}.

(** The destination after translation, when it differs: [net.ParseIP(ip.String())] on both. *)
Definition destDiffers (f : ConntrackFlow) : bool :=
  negb (ip_Equal (ParseIP (IP_String (DstIP (Forward f)))) (ParseIP (IP_String (SrcIP (Reverse f))))).

Definition flow_keys4 (f : ConntrackFlow) : outcome (list ConntrackKey) :=
  let fwd := Forward f in
  s ← ConvIPv4ToInt (SrcIP fwd);
  d ← ConvIPv4ToInt (DstIP fwd);
  let key dest port owner := mkConntrackKey s (SrcPort fwd) dest port (ip_Protocol fwd) owner 0 in
  let fwdKeys := [key d (DstPort fwd) s; key d (DstPort fwd) d] in
  if destDiffers f then
    r ← ConvIPv4ToInt (SrcIP (Reverse f));
    Ret (fwdKeys ++ [key r (SrcPort (Reverse f)) s; key r (SrcPort (Reverse f)) r])
  else Ret fwdKeys.

Definition strip4 (k : ConntrackKey) : outcome ConntrackKey :=
  s ← ConvIPv4ToInt (ConvIntToIPv4 (Source_ip k));
  d ← ConvIPv4ToInt (ConvIntToIPv4 (Dest_ip k));
  o ← ConvIPv4ToInt (ConvIntToIPv4 (Owner_ip k));
  Ret (mkConntrackKey s (Source_port k) d (Dest_port k) (ct_Protocol k) o 0).

(** [copy(dst[:], utils.ConvIPv6ToByte(ip))] into a zero array. *)
Definition copy16 (ip : IP) : list byte := take 16 (default [] (To16 ip) ++ replicate 16 x00).

Definition flow_keys6 (f : ConntrackFlow) : outcome (list ConntrackKeyV6) :=
  let fwd := Forward f in
  let s := copy16 (SrcIP fwd) in
  let d := copy16 (DstIP fwd) in
  let key dest port owner := mkConntrackKeyV6 s (SrcPort fwd) dest port (ip_Protocol fwd) owner 0 in
  let fwdKeys := [key d (DstPort fwd) s; key d (DstPort fwd) d] in
  if destDiffers f then
    let r := copy16 (SrcIP (Reverse f)) in
    Ret (fwdKeys ++ [key r (SrcPort (Reverse f)) s; key r (SrcPort (Reverse f)) r])
  else Ret fwdKeys.

Definition strip6 (k : ConntrackKeyV6) : outcome ConntrackKeyV6 :=
  Ret (mkConntrackKeyV6 (Source_ip6 k) (Source_port6 k) (Dest_ip6 k) (Dest_port6 k) (ct_Protocol6 k) (Owner_ip6 k) 0).

Definition family4 : Family ConntrackKey ConntrackKey := mkFamily _ _ _ _ _ _ id id strip4 flow_keys4
  localConntrackV4Cache
  (fun m c => mkConntrackClient (ct_enableIPv6 c) (hydratelocalConntrack c) m (localConntrackV6Cache c)) false.
Definition family6 : Family gostring ConntrackKeyV6 := mkFamily _ _ _ _ _ _ ConvByteToConntrackV6 ConvConntrackV6ToByte
  strip6 flow_keys6 localConntrackV6Cache
  (fun m c => mkConntrackClient (ct_enableIPv6 c) (hydratelocalConntrack c) (localConntrackV4Cache c) m) true.

(** ** The collector *)
Section collector.
Context {RK K : Type} `{Countable RK, Countable K, !CtKernel RK, !MapOrder} (fam : Family RK K).

Definition world : Type := conntrackClient * kst.
Definition kcall {A} (f : kst -> kst * A) : ST world A := fun w =>
  let '(s, a) := f (snd w) in ((fst w, s), Ret a).
Definition on_client (f : conntrackClient -> conntrackClient) : ST world unit := modify (fun w => (f (fst w), snd w)).

(** [cache[key] = true]: panics on a nil map. *)
Definition addToCache (key : K) : ST world unit :=
  w ← get;
  match local_cache fam (fst w) with
  | None => lift (Panic (go "assignment to entry in nil map"))
  | Some m => on_client (set_cache fam (Some ({[key]} ∪ m)))
  end.

(** The loop that copies the keys: [Some true] is a break, [Some false] a return, and [None]
    stands for a loop that outlasts the fuel. *)
Fixpoint hydrate_loop (fuel : nat) (mapID : Z) (iterKey : RK) : ST world (option bool) :=
  match fuel with
  | O => mret None
  | S fuel' =>
      r ← kcall (GetMapEntryByID mapID iterKey);
      match r with
      | NoEntry => mret (Some true)
      | Failed _ => mret (Some false)
      | Got _ =>
          addToCache (of_raw fam iterKey);;
          n ← kcall (GetNextMapEntryByID mapID iterKey);
          match n with
          | Got iterNextKey => hydrate_loop fuel' mapID iterNextKey
          | NoEntry | Failed _ => mret (Some true)
          end
      end
  end.

(** [kernelConntrackV4Cache]: the keys of all flows. *)
Fixpoint flows_cache (flows : list ConntrackFlow) : outcome (list K) :=
  match flows with
  | [] => Ret []
  | f :: flows' => ks ← flow_keys fam f; rest ← flows_cache flows'; Ret (ks ++ rest)
  end.

Definition isEntryActive (key : RK) (gcStart : Z) : ST world bool :=
  r ← kcall (ct_GetMapEntry key);
  mret (match r with
      | Some cur => entryActiveFromRead cur false gcStart
      | None => entryActiveFromRead (mkConntrackVal 0 0) true gcStart
      end).

(** One entry of the cache; the deleted ones are listed, the code counts them. *)
Definition gc_entry (kernelCache : list K) (gcStart : Z) (deleted : list K) (entry : K) : ST world (list K) :=
  newKey ← lift (strip fam entry);
  if decide (newKey ∈ kernelCache) then mret deleted else
  active ← isEntryActive (to_raw fam entry) gcStart;
  if (active : bool) then mret deleted else
  _ ← kcall (ct_DeleteMapEntry (to_raw fam entry));
  mret (deleted ++ [entry]).

(** The entries deleted by the call; [None] when the fuel ran out. *)
Definition cleanup (fuel : nat) : ST world (option (list K)) :=
  mapInfo ← kcall GetMapFromPinPath;
  match mapInfo with
  | None => mret (Some [])
  | Some mapID =>
      w ← get;
      if hydratelocalConntrack (fst w) then
        on_client InitializeLocalCache;;
        first ← kcall (GetFirstMapEntryByID mapID);
        match first with
        | NoEntry | Failed _ => mret (Some [])
        | Got iterKey =>
            r ← hydrate_loop fuel mapID iterKey;
            match r with
            | None => mret None
            | Some false => mret (Some [])
            | Some true => on_client (set_hydrate false);; mret (Some [])
            end
        end
      else
        t ← kcall KtimeGetNs;
        match t with
        | None => on_client (set_hydrate true);; mret (Some [])
        | Some gcStart =>
            flows ← kcall ConntrackTableList;
            match flows with
            | None => mret (Some [])
            | Some conntrackFlows =>
                kernelCache ← lift (flows_cache conntrackFlows);
                deleted ← fold_each (gc_entry kernelCache gcStart)
                          (go_range (go "localConntrackCache") (elements (default ∅ (local_cache fam (fst w))))) [];
                (if resets fam then on_client (set_cache fam (Some ∅)) else mret tt);;
                on_client (set_hydrate true);;
                mret (Some deleted)
            end
        end
  end.
End collector.

Definition CleanupConntrackMap `{!CtKernel ConntrackKey, !MapOrder} (fuel : nat) : ST world (option (list ConntrackKey)) :=
  cleanup family4 fuel.
Definition Cleanupv6ConntrackMap `{!CtKernel gostring, !MapOrder} (fuel : nat) : ST world (option (list ConntrackKeyV6)) :=
  cleanup family6 fuel.
