(* ===== verification/ConntrackFacts.v ===== *)
(** What the conntrack collector may delete, that it deletes all it should, and which keys a
    kernel flow protects. *)
From S2P Require Import Prelude NetIP NetIPFacts ApiTypes Utils UtilsFacts Effects Conntrack.

Section facts.
Context {RK K : Type} `{Countable RK, Countable K, !CtKernel RK, !MapOrder} (fam : Family RK K).

(** The keys a cache can hold: [strip] is defined on them and [to_raw] tells them apart. *)
Context (good : K -> Prop).
Hypothesis good_of_raw : forall rk, good (of_raw fam rk).
Hypothesis good_strip : forall k, good k -> exists k', strip fam k = Ret k'.
Hypothesis good_to_raw : forall k k', good k -> good k' -> to_raw fam k = to_raw fam k' -> k = k'.
Hypothesis cache_set : forall m c, local_cache fam (set_cache fam m c) = m.
Hypothesis cache_hydrate : forall b c, local_cache fam (set_hydrate b c) = local_cache fam c.
Hypothesis cache_init : forall c, local_cache fam (InitializeLocalCache c) = Some ∅ \/
  local_cache fam (InitializeLocalCache c) = local_cache fam c.

(** Only the datapath changed the map. *)
Definition evolves (s s' : kst) : Prop := forall k, dp (ct_contents s !! k) (ct_contents s' !! k).
#[local] Instance evolves_preorder : PreOrder evolves.
Proof. split; [intros s k; reflexivity|intros s1 s2 s3 Ha Hb k; etrans; [apply Ha|apply Hb]]. Qed.

Definition cache_ok (c : conntrackClient) : Prop := forall m k, local_cache fam c = Some m -> k ∈ m -> good k.

(** What the deletion pass did to the map: the entries that are not listed evolved; a listed
    one had, when it was read again, a time before the start of the pass. *)
Record collected (keys : list K) (t : Z) (s s' : kst) (dels : list K) : Prop := {
  col_kept : forall raw, raw ∉ to_raw fam <$> dels -> dp (ct_contents s !! raw) (ct_contents s' !! raw);
  col_stale : forall k, k ∈ dels -> exists k' v, strip fam k = Ret k' /\ (k' ∉ keys) /\
  dp (ct_contents s !! to_raw fam k) (Some v) /\ LastSeen v < t
}.

Lemma collected_nil keys t s s' : evolves s s' -> collected keys t s s' [].
Proof. intros He. split; [intros; apply He|intros k Hk; by apply not_elem_of_nil in Hk]. Qed.

(** A first entry that was kept, or deleted, and the rest. *)
Lemma collected_keep keys t s s1 s' dels : evolves s s1 -> collected keys t s1 s' dels -> collected keys t s s' dels.
Proof.
  intros He [Hk Hs]. split; [intros raw Hr; etrans; [apply He|by apply Hk]|].
  intros k Hin. destruct (Hs k Hin) as (k' & v & ? & ? & Hd & ?). exists k', v. split; [done|]. split; [done|].
  split; [|done]. etrans; [apply He|exact Hd].
Qed.
Lemma collected_delete keys t s s1 s' x x' v dels :
  (forall raw, raw <> to_raw fam x -> dp (ct_contents s !! raw) (ct_contents s1 !! raw)) ->
  strip fam x = Ret x' -> (x' ∉ keys) -> dp (ct_contents s !! to_raw fam x) (Some v) -> LastSeen v < t ->
  (to_raw fam x ∉ to_raw fam <$> dels) ->
  collected keys t s1 s' dels -> collected keys t s s' (x :: dels).
Proof.
  intros He Hx Hnk Hd Hv Hni [Hk Hs]. split.
  - intros raw Hr. rewrite fmap_cons, not_elem_of_cons in Hr. destruct Hr as [? ?]. etrans; [by apply He|by apply Hk].
  - intros k [->|Hin]%elem_of_cons; [eauto 10|].
    destruct (Hs k Hin) as (k' & w & ? & ? & Hdk & ?). exists k', w. split; [done|]. split; [done|]. split; [|done].
    etrans; [apply He; intros Heq; apply Hni; rewrite <-Heq; by apply list_elem_of_fmap_2|exact Hdk].
Qed.

Lemma gc_entry_run keys t acc x w w' r :
  good x -> gc_entry fam keys t acc x w = (w', r) ->
  exists x', strip fam x = Ret x' /\ fst w' = fst w /\
  ((r = Ret acc /\ evolves (snd w) (snd w')) \/
    (r = Ret (acc ++ [x]) /\ (x' ∉ keys) /\
      (forall raw, raw <> to_raw fam x -> dp (ct_contents (snd w) !! raw) (ct_contents (snd w') !! raw)) /\
      exists v, dp (ct_contents (snd w) !! to_raw fam x) (Some v) /\ LastSeen v < t)).
Proof.
  intros Hx. destruct (good_strip x Hx) as [x' Hst]. unfold gc_entry, isEntryActive, kcall, mbind, ST_bind, lift, mret, ST_ret.
  rewrite Hst. intros Hrun. exists x'. split; [done|]. revert Hrun. case_decide as Hin; [intros [= <- <-]; split; [done|]; left; done|].
  destruct (ct_GetMapEntry (to_raw fam x) (snd w)) as [s1 rd] eqn:Eg. apply ct_get_law in Eg as [Hev Hv].
  destruct rd as [v|]; cbn [entryActiveFromRead fst snd]; [|intros [= <- <-]; split; [done|]; left; done].
  destruct (Z.leb_spec t (LastSeen v)) as [|Hlt]; [intros [= <- <-]; split; [done|]; left; done|].
  cbn [fst snd]. destruct (ct_DeleteMapEntry (to_raw fam x) s1) as [s2 e] eqn:Ed. pose proof (ct_delete_law _ _ _ _ Ed) as Hdel.
  intros [= <- <-]. split; [done|]. cbn [fst snd]. right. split; [done|]. split; [done|]. split.
  - intros raw Hne. destruct (Hdel raw) as (o & Ho & ->). rewrite decide_False by done. etrans; [apply Hev|exact Ho].
  - exists v. split; [|done]. rewrite <-(Hv v eq_refl). apply Hev.
Qed.

Lemma gc_loop keys t l : forall acc w w' r,
  NoDup (to_raw fam <$> l) -> (forall k, k ∈ l -> good k) ->
  fold_each (gc_entry fam keys t) l acc w = (w', r) ->
  exists dels, r = Ret (acc ++ dels) /\ fst w' = fst w /\ (forall k, k ∈ dels -> k ∈ l) /\ collected keys t (snd w) (snd w') dels.
Proof.
  induction l as [|x l IH]; intros acc w w' r Hnd Hgood; cbn [fold_each].
  { intros [= <- <-]. exists []. rewrite app_nil_r. split; [done|]. split; [done|]. split; [done|].
    by apply collected_nil. }
  rewrite fmap_cons, NoDup_cons in Hnd. destruct Hnd as [Hni Hnd].
  destruct (gc_entry fam keys t acc x w) as [w1 r1] eqn:E1. unfold mbind at 1, ST_bind at 1. rewrite E1.
  apply gc_entry_run in E1 as (x' & Hst & Hc & Hcase); [|apply Hgood; left].
  destruct Hcase as [(-> & Hev)|(-> & Hnk & Hoth & v & Hd & Hv)]; intros Hrun.
  - apply IH in Hrun as (dels & -> & Hc' & Hsub & Hcol); [|done|set_solver].
    exists dels. split; [done|]. split; [congruence|]. split; [set_solver|]. by eapply collected_keep.
  - apply IH in Hrun as (dels & -> & Hc' & Hsub & Hcol); [|done|set_solver].
    exists (x :: dels). rewrite <-app_assoc. split; [done|]. split; [congruence|]. split; [set_solver|].
    eapply collected_delete; try done. intros (y & Hy & Hin)%list_elem_of_fmap. apply Hni.
    rewrite Hy. apply list_elem_of_fmap_2. by apply Hsub.
Qed.

Lemma kcall_evolves {A} (f : kst -> kst * A) w :
  evolves (snd w) (fst (f (snd w))) -> evolves (snd w) (snd (fst (kcall f w))) /\ fst (fst (kcall f w)) = fst w.
Proof. unfold kcall. destruct (f (snd w)). done. Qed.

(** Copying the keys changes nothing and caches good keys only. *)
Lemma hydrate_run fuel mapID : forall iterKey w w' r,
  cache_ok (fst w) -> hydrate_loop fam fuel mapID iterKey w = (w', r) ->
  evolves (snd w) (snd w') /\ cache_ok (fst w').
Proof.
  induction fuel as [|fuel IH]; intros iterKey w w' r Hok; cbn [hydrate_loop]; [by intros [= <- <-]|].
  unfold mbind, ST_bind, kcall at 1. pose proof (byid_law mapID iterKey (snd w)) as L1.
  destruct (GetMapEntryByID mapID iterKey (snd w)) as [s1 [v| |e]]; [|by intros [= <- <-]..]. cbn in L1.
  unfold addToCache, mbind, ST_bind, get, on_client, modify. cbn [fst snd].
  destruct (local_cache fam (fst w)) as [m|] eqn:Em; [|intros [= <- <-]; done]. cbn [fst snd].
  unfold kcall. cbn [fst snd]. pose proof (next_law mapID iterKey s1) as L2.
  assert (cache_ok (set_cache fam (Some ({[of_raw fam iterKey]} ∪ m)) (fst w))) as Hok'.
  { intros m' k. rewrite cache_set. intros [= <-] [->%elem_of_singleton|Hin]%elem_of_union; [apply good_of_raw|by apply (Hok m)]. }
  destruct (GetNextMapEntryByID mapID iterKey s1) as [s2 n]. cbn in L2.
  assert (evolves (snd w) s2) by (etrans; [exact L1|exact L2]).
  destruct n as [k| |e]; [|intros [= <- <-]; done..].
  intros Hrun. apply IH in Hrun as [Hev Hc]; [|done]. split; [etrans; [done|exact Hev]|done].
Qed.

(** The deletion pass of a call, with the clock reading and the flows it is based on. *)
Definition pass_of (s s' : kst) (cache : option (gset K)) (dels : list K) : Prop :=
  exists s1 s2 s3 gcStart flows keys,
  evolves s s1 /\ KtimeGetNs s1 = (s2, Some gcStart) /\ ConntrackTableList s2 = (s3, Some flows) /\
  flows_cache fam flows = Ret keys /\ (forall k, k ∈ dels -> exists m, cache = Some m /\ k ∈ m) /\
  collected keys gcStart s3 s' dels /\ evolves s s3.

Lemma good_elements (c : option (gset K)) l :
  (forall m k, c = Some m -> k ∈ m -> good k) -> l ≡ₚ elements (default ∅ c) ->
  NoDup (to_raw fam <$> l) /\ (forall k, k ∈ l -> good k) /\ forall k, k ∈ l -> exists m, c = Some m /\ k ∈ m.
Proof.
  intros Hok Hl. assert (forall k, k ∈ l -> exists m, c = Some m /\ k ∈ m) as Hin.
  { intros k. rewrite Hl, elem_of_elements. destruct c as [m|]; cbn; [eauto|set_solver]. }
  assert (forall k, k ∈ l -> good k) as Hg by (intros k Hk; destruct (Hin k Hk) as (m & Hm & Hkm); eauto).
  split; [|done]. assert (NoDup l) as Hnd by (rewrite Hl; apply NoDup_elements).
  clear Hin Hl. induction Hnd as [|x l Hx Hnd IH]; [constructor|]. rewrite fmap_cons, NoDup_cons. split; [|apply IH; set_solver].
  intros (y & Hy & Hin)%list_elem_of_fmap. apply Hx. replace x with y; [done|].
  symmetry. apply good_to_raw; [set_solver|set_solver|done].
Qed.

Lemma cleanup_gen fuel w w' r :
  cache_ok (fst w) -> cleanup fam fuel w = (w', r) ->
  cache_ok (fst w') /\
  (evolves (snd w) (snd w') /\ (forall dels, r = Ret (Some dels) -> dels = []) \/
    hydratelocalConntrack (fst w) = false /\ exists dels, r = Ret (Some dels) /\ hydratelocalConntrack (fst w') = true /\
    pass_of (snd w) (snd w') (local_cache fam (fst w)) dels).
Proof.
  intros Hok. unfold cleanup. unfold mbind at 1, ST_bind at 1, kcall at 1.
  pose proof (pin_law (snd w)) as L0. destruct (GetMapFromPinPath (snd w)) as [s0 [mapID|]]; cbn [fst] in L0;
    [|intros [= <- <-]; split; [done|]; left; split; [done|]; by intros dels [= <-]].
  unfold mbind at 1, ST_bind at 1, get at 1. cbn [fst snd].
  destruct (hydratelocalConntrack (fst w)) eqn:Eh.
  - unfold mbind at 1, ST_bind at 1, on_client at 1, modify at 1. cbn [fst snd].
    unfold mbind at 1, ST_bind at 1, kcall at 1. cbn [fst snd].
    pose proof (first_law mapID s0) as L1. destruct (GetFirstMapEntryByID mapID s0) as [s1 f]. cbn [fst] in L1.
    assert (evolves (snd w) s1) as E1 by (etrans; [exact L0|exact L1]).
    assert (cache_ok (InitializeLocalCache (fst w))) as Hok1.
    { intros m k Hm Hk. destruct (cache_init (fst w)) as [Hi|Hi]; rewrite Hi in Hm; [injection Hm as <-; set_solver|eauto]. }
    destruct f as [iterKey| |e];
      [|intros [= <- <-]; split; [done|]; left; split; [done|]; by intros dels [= <-]..].
    unfold mbind at 1, ST_bind at 1. destruct (hydrate_loop fam fuel mapID iterKey _) as [w2 r2] eqn:E2.
    apply hydrate_run in E2 as [Hev Hok2]; [|done]. cbn [snd] in Hev.
    assert (evolves (snd w) (snd w2)) as E2' by (etrans; [exact E1|exact Hev]).
    destruct r2 as [[[]|]|e|x]; [|intros [= <- <-]; split; [done|]; left; split; [done|]; by intros dels [= <-]..].
    intros [= <- <-]. split; [intros m k; cbn [fst]; rewrite cache_hydrate; apply Hok2|]. left. split; [done|]. by intros dels [= <-].
  - unfold mbind at 1, ST_bind at 1, kcall at 1. cbn [fst snd].
    pose proof (ktime_law s0) as L1. destruct (KtimeGetNs s0) as [s1 [t|]] eqn:Et; cbn [fst] in L1.
    2:{ intros [= <- <-]. split; [intros m k; cbn [fst]; rewrite cache_hydrate; apply Hok|]. left.
    split; [etrans; [exact L0|exact L1]|]. by intros dels [= <-]. }
  unfold mbind at 1, ST_bind at 1, kcall at 1. cbn [fst snd].
  pose proof (flows_law s1) as L2. destruct (ConntrackTableList s1) as [s2 [flows|]] eqn:Ef; cbn [fst] in L2.
  2:{ intros [= <- <-]. split; [done|]. left. split; [etrans; [exact L0|]; etrans; [exact L1|exact L2]|]. by intros dels [= <-]. }
  assert (evolves (snd w) s2) as E2 by (etrans; [exact L0|]; etrans; [exact L1|exact L2]).
  unfold mbind at 1, ST_bind at 1, lift. destruct (flows_cache fam flows) as [keys|e|x] eqn:Ek;
    [|intros [= <- <-]; split; [done|]; left; done..].
  unfold mbind at 1, ST_bind at 1. cbn [fst].
  destruct (good_elements (local_cache fam (fst w)) (go_range (go "localConntrackCache") (elements (default ∅ (local_cache fam (fst w))))))
    as (Hnd & Hg & Hin); [done|apply go_range_perm|].
  destruct (fold_each _ _ [] _) as [w3 r3] eqn:E3. apply gc_loop in E3 as (dels & -> & Hc3 & Hsub & Hcol); [|done|done].
  cbn [fst snd app] in *. intros Hrun.
  assert (r = Ret (Some dels) /\ snd w' = snd w3 /\ hydratelocalConntrack (fst w') = true /\ cache_ok (fst w')) as (-> & -> & Hh & Hok').
  { destruct (resets fam); injection Hrun as <- <-; (split; [done|]; split; [done|]; split; [done|]); intros m k; cbn [fst];
      rewrite ?cache_hydrate, ?cache_set; [intros [= <-]; set_solver|rewrite Hc3; apply Hok]. }
  split; [done|]. right. split; [done|]. exists dels. split; [done|]. split; [done|].
  exists s0, s1, s2, t, flows, keys. repeat (split; [done || eauto|]). done.
Qed.
End facts.

(** * Keys and flows *)

Lemma ConvIPv4ToInt_bytes bs : length bs = 4%nat -> ConvIPv4ToInt bs = Ret (of_le32 (rev bs)).
Proof.
  intros Hl. destruct bs as [|b0 [|b1 [|b2 [|b3 [|]]]]]; try discriminate Hl. cbn. f_equal. unfold of_le32, le_combine.
  rewrite !Z.shiftl_lor, !Z.shiftl_shiftl, Z.shiftl_0_l, Z.lor_0_r by lia. cbn.
  rewrite <-!Z.lor_assoc. rewrite (Z.lor_comm (Z.shiftl (byte.unsigned b0) 24)), (Z.lor_comm (Z.shiftl (byte.unsigned b1) 16)).
  rewrite (Z.lor_comm (Z.shiftl (byte.unsigned b2) 8)). rewrite <-!Z.lor_assoc. f_equal.
Qed.

Lemma rev_le32_inj a b : length a = 4%nat -> length b = 4%nat -> of_le32 (rev a) = of_le32 (rev b) -> a = b.
Proof.
  intros Ha Hb He. apply (f_equal le32) in He. rewrite !le32_of_le32 in He by (by rewrite length_rev).
  by rewrite <-(rev_involutive a), He, rev_involutive.
Qed.

Lemma strip4_total k : strip4 k = Ret (mkConntrackKey (of_le32 (rev (ConvIntToIPv4 (Source_ip k)))) (Source_port k)
  (of_le32 (rev (ConvIntToIPv4 (Dest_ip k)))) (Dest_port k) (ct_Protocol k) (of_le32 (rev (ConvIntToIPv4 (Owner_ip k)))) 0).
Proof. unfold strip4. rewrite !ConvIPv4ToInt_bytes by apply length_le32. done. Qed.

(** A flow with 4-byte addresses. *)
Definition flow_v4 (f : ConntrackFlow) : Prop :=
  length (SrcIP (Forward f)) = 4%nat /\ length (DstIP (Forward f)) = 4%nat /\ length (SrcIP (Reverse f)) = 4%nat.

(** A kernel flow accounts for a map entry: same source, protocol and ports, the destination
    before or after translation, and either end as the owner; the interface is not compared. *)
Definition flow_covers4 (f : ConntrackFlow) (k : ConntrackKey) : Prop :=
  let '(src, dst, own) := (ConvIntToIPv4 (Source_ip k), ConvIntToIPv4 (Dest_ip k), ConvIntToIPv4 (Owner_ip k)) in
  src = SrcIP (Forward f) /\ Source_port k = SrcPort (Forward f) /\ ct_Protocol k = ip_Protocol (Forward f) /\
  (own = src \/ own = dst) /\
  (dst = DstIP (Forward f) /\ Dest_port k = DstPort (Forward f) \/
   DstIP (Forward f) <> SrcIP (Reverse f) /\ dst = SrcIP (Reverse f) /\ Dest_port k = SrcPort (Reverse f)).

Lemma destDiffers_v4 f : flow_v4 f -> destDiffers f = true <-> DstIP (Forward f) <> SrcIP (Reverse f).
Proof.
  intros (_ & Hd & Hr). unfold destDiffers, ParseIP.
  destruct (IP_String_parse (DstIP (Forward f))) as [-> _]; [by left|]. destruct (IP_String_parse (SrcIP (Reverse f))) as [-> _]; [by left|].
  rewrite !addr_of_4 by done. cbn [fmap option_fmap option_map As16 ip_Equal]. rewrite decide_True by (rewrite !length_app; congruence).
  rewrite negb_true_iff, bool_decide_eq_false. split; intros Hne Heq; apply Hne; [by rewrite Heq|by apply app_inv_head in Heq].
Qed.

Lemma flow_keys4_spec f :
  flow_v4 f -> exists ks, flow_keys4 f = Ret ks /\ forall k k', strip4 k = Ret k' -> k' ∈ ks <-> flow_covers4 f k.
Proof.
  intros Hf. pose proof Hf as (Hs & Hd & Hr). unfold flow_keys4. rewrite !ConvIPv4ToInt_bytes by done. cbn [mbind outcome_bind].
  pose proof (destDiffers_v4 f Hf) as Hdiff.
  assert (forall k k' dst port ks, strip4 k = Ret k' -> length dst = 4%nat ->
    (k' ∈ mkConntrackKey (of_le32 (rev (SrcIP (Forward f)))) (SrcPort (Forward f)) (of_le32 (rev dst)) port (ip_Protocol (Forward f))
            (of_le32 (rev (SrcIP (Forward f)))) 0 ::
          mkConntrackKey (of_le32 (rev (SrcIP (Forward f)))) (SrcPort (Forward f)) (of_le32 (rev dst)) port (ip_Protocol (Forward f))
            (of_le32 (rev dst)) 0 :: ks <->
     (ConvIntToIPv4 (Source_ip k) = SrcIP (Forward f) /\ Source_port k = SrcPort (Forward f) /\ ct_Protocol k = ip_Protocol (Forward f) /\
      (ConvIntToIPv4 (Owner_ip k) = ConvIntToIPv4 (Source_ip k) \/ ConvIntToIPv4 (Owner_ip k) = ConvIntToIPv4 (Dest_ip k)) /\
      ConvIntToIPv4 (Dest_ip k) = dst /\ Dest_port k = port) \/ k' ∈ ks)) as Hpair.
  { intros k k' dst port ks Hk Hdst. rewrite strip4_total in Hk. match type of Hk with Ret ?x = _ => assert (k' = x) as -> by congruence end. clear Hk. rewrite !elem_of_cons.
    assert (forall x y, length y = 4%nat -> of_le32 (rev (ConvIntToIPv4 x)) = of_le32 (rev y) <-> ConvIntToIPv4 x = y) as Hx.
    { intros x y Hy. split; [|by intros ->]. apply rev_le32_inj; [apply length_le32|done]. }
    split.
    - intros [[= E1 E2 E3 E4 E5 E6]|[[= E1 E2 E3 E4 E5 E6]|Hin]]; [| |by right]; left;
        (apply Hx in E1; [|done]); (apply Hx in E3; [|done]); (apply Hx in E6; [|done]).
      + split; [done|]. split; [done|]. split; [done|]. split; [left; congruence|done].
      + split; [done|]. split; [done|]. split; [done|]. split; [right; congruence|done].
    - intros [(E1 & E2 & E3 & Ho & E4 & E5)|Hin]; [|by right; right].
      destruct Ho as [Ho|Ho]; rewrite Ho, E1, E2, E3, E4, E5; auto. }
  destruct (destDiffers f) eqn:Ed.
  - cbn [mbind outcome_bind app]. eexists. split; [done|]. intros k k' Hk. rewrite (Hpair k k') by done. rewrite (Hpair k k') by done.
    rewrite elem_of_nil. unfold flow_covers4. assert (DstIP (Forward f) <> SrcIP (Reverse f)) as Hn by (by apply Hdiff). clear -Hn. tauto.
  - eexists. split; [done|]. intros k k' Hk. rewrite (Hpair k k') by done. rewrite elem_of_nil. unfold flow_covers4.
    assert (DstIP (Forward f) = SrcIP (Reverse f)) as Hn.
    { destruct (decide (DstIP (Forward f) = SrcIP (Reverse f))) as [|Hne]; [done|]. by apply Hdiff in Hne. }
    clear -Hn. tauto.
Qed.

Lemma flows_cache4_spec flows :
  Forall flow_v4 flows -> exists keys, flows_cache family4 flows = Ret keys /\
    forall k k', strip4 k = Ret k' -> k' ∈ keys <-> exists f, f ∈ flows /\ flow_covers4 f k.
Proof.
  induction 1 as [|f flows Hf Hfs (keys & Hk & Hin)]; cbn [flows_cache].
  { exists []. split; [done|]. set_solver. }
  destruct (flow_keys4_spec f Hf) as (ks & Hks & Hfk). cbn [flow_keys family4]. rewrite Hks. cbn [mbind outcome_bind]. rewrite Hk.
  cbn [mbind outcome_bind]. exists (ks ++ keys). split; [done|]. intros k k' Hst.
  rewrite elem_of_app, (Hfk k k' Hst), (Hin k k' Hst). setoid_rewrite elem_of_cons. naive_solver.
Qed.

(** * The IPv4 collector *)
Section v4.
Context `{!CtKernel ConntrackKey, !MapOrder}.

Lemma cleanup4_gen fuel w w' r :
  CleanupConntrackMap fuel w = (w', r) ->
  evolves (snd w) (snd w') /\ (forall dels, r = Ret (Some dels) -> dels = []) \/
  hydratelocalConntrack (fst w) = false /\ exists dels, r = Ret (Some dels) /\ hydratelocalConntrack (fst w') = true /\
  pass_of family4 (snd w) (snd w') (localConntrackV4Cache (fst w)) dels.
Proof.
  intros Hrun. eapply (cleanup_gen family4 (fun _ => True)) in Hrun as [_ Hc]; [exact Hc|done| | | | | |done].
  - intros k _. eexists. apply strip4_total.
  - intros k k' _ _. done.
  - done.
  - done.
  - intros c. unfold InitializeLocalCache. destruct (ct_enableIPv6 c); [by right|by left].
Qed.

(** C9: The conntrack collector deletes only dead entries.  Whatever the kernel answers, however
    the datapath changes the map between the collector's calls, and in whatever order the
    cache is visited: an entry that is not deleted only changes the way the datapath changes
    it.  An entry that is deleted was in the cache of an earlier hydration; when it was read
    again, after the clock and the kernel's flow table had been read, its last-seen time was
    before that clock reading; and no flow of the table accounts for it. *)
Theorem conntrack_gc_safe fuel c s c' s' r (Hrun : CleanupConntrackMap fuel (c, s) = ((c', s'), r)) :
  let deleted := match r with Ret (Some l) => l | _ => [] end in
  (forall key, key ∉ deleted -> dp (ct_contents s !! key) (ct_contents s' !! key)) /\
  (forall key, key ∈ deleted ->
    hydratelocalConntrack c = false /\ (exists m, localConntrackV4Cache c = Some m /\ key ∈ m) /\
    exists s1 s2 s3 gcStart flows v,
     KtimeGetNs s1 = (s2, Some gcStart) /\ ConntrackTableList s2 = (s3, Some flows) /\ evolves s s3 /\
     dp (ct_contents s3 !! key) (Some v) /\ LastSeen v < gcStart /\
     (Forall flow_v4 flows -> forall f, f ∈ flows -> ~ flow_covers4 f key)).
Proof.
  apply cleanup4_gen in Hrun as [[Hev Hnil]|(Hh & dels & -> & _ & s1 & s2 & s3 & t & flows & keys & He1 & Ht & Hf & Hk & Hc & Hcol & He3)];
    cbn [fst snd] in *.
  - destruct r as [[l|]|e|w]; [rewrite (Hnil l eq_refl)|..]; (split; [intros key _; apply Hev|]); intros key Hin; by apply not_elem_of_nil in Hin.
  - destruct Hcol as [Hkept Hstale]. split.
    + intros key Hni. etrans; [apply He3|]. apply Hkept. by rewrite list_fmap_id.
    + intros key Hin. split; [done|]. split; [by apply Hc|]. destruct (Hstale key Hin) as (k' & v & Hst & Hnk & Hd & Hv).
      exists s1, s2, s3, t, flows, v. repeat (split; [done|]). intros Hv4 f Hfin Hcov.
      destruct (flows_cache4_spec flows Hv4) as (keys' & Hk' & Hspec). assert (keys' = keys) as -> by congruence.
      apply Hnk. apply (Hspec key k' Hst). eauto.
Qed.
End v4.

(** * A quiet kernel *)

(** No call fails, the datapath is idle, and iteration follows a fixed order. *)
Class QuietKernel `{!CtKernel ConntrackKey} := {
  key_order : kst -> list ConntrackKey;
  clock : kst -> Z;
  flow_table : kst -> list ConntrackFlow;
  map_id : Z;
  order_law : forall s, key_order s ≡ₚ (map_to_list (ct_contents s)).*1;
  q_pin : forall s, GetMapFromPinPath s = (s, Some map_id);
  q_first : forall s, GetFirstMapEntryByID map_id s = (s, match key_order s with k :: _ => Got k | [] => NoEntry end);
  q_byid : forall k s, GetMapEntryByID map_id k s = (s, match ct_contents s !! k with Some v => Got v | None => NoEntry end);
  q_next : forall s pre k post, key_order s = pre ++ k :: post ->
    GetNextMapEntryByID map_id k s = (s, match post with k' :: _ => Got k' | [] => NoEntry end);
  q_clock : forall s, KtimeGetNs s = (s, Some (clock s));
  q_flows : forall s, ConntrackTableList s = (s, Some (flow_table s));
  q_get : forall k s, ct_GetMapEntry k s = (s, ct_contents s !! k);
  q_delete : forall k s, snd (ct_DeleteMapEntry k s) = None /\ ct_contents (fst (ct_DeleteMapEntry k s)) = delete k (ct_contents s)
}.

Section quiet.
Context `{!CtKernel ConntrackKey, !QuietKernel, !MapOrder}.

Lemma hydrate_quiet s post : forall pre k fuel c m,
  key_order s = pre ++ k :: post -> (length post < fuel)%nat -> localConntrackV4Cache c = Some m ->
  hydrate_loop family4 fuel map_id k (c, s) =
  ((set_cache family4 (Some (list_to_set (k :: post) ∪ m)) c, s), Ret (Some true)).
Proof.
  induction post as [|k' post IH]; intros pre k fuel c m Ho Hf Hm; (destruct fuel as [|fuel]; [cbn in Hf; lia|]);
    cbn [hydrate_loop]; unfold mbind at 1, ST_bind at 1, kcall at 1; cbn [snd]; rewrite q_byid;
    (assert (is_Some (ct_contents s !! k)) as [v ->] by
    (assert (k ∈ (map_to_list (ct_contents s)).*1) as Hin by (rewrite <-order_law, Ho; set_solver);
     apply list_elem_of_fmap in Hin as ([k0 v] & -> & Hin); apply elem_of_map_to_list in Hin; by exists v));
    unfold mbind at 1, ST_bind at 1, addToCache, mbind at 1, ST_bind at 1, get at 1; cbn [fst snd local_cache family4]; rewrite Hm;
    cbn [on_client modify fst snd]; unfold mbind at 1, ST_bind at 1, kcall at 1, on_client, modify; cbn [fst snd]; rewrite (q_next s pre k _ Ho).
  - replace (list_to_set [k] ∪ m) with ({[k]} ∪ m : gset ConntrackKey) by set_solver. done.
  - change (of_raw family4 k) with k. rewrite (IH (pre ++ [k]) k' fuel _ ({[k]} ∪ m)); [|by rewrite <-app_assoc|cbn in Hf; lia|done].
    replace (list_to_set (k :: k' :: post) ∪ m) with (list_to_set (k' :: post) ∪ ({[k]} ∪ m) : gset ConntrackKey) by set_solver. done.
Qed.

(** An entry the collector keeps. *)
Definition kept (flows : list ConntrackFlow) (t : Z) (kv : ConntrackKey * ConntrackVal) : Prop :=
  (exists f, f ∈ flows /\ flow_covers4 f kv.1) \/ t <= LastSeen kv.2.

Lemma gc_entry_quiet keys t acc k c s :
  exists s' acc', gc_entry family4 keys t acc k (c, s) = ((c, s'), Ret acc') /\
  ct_contents s' = match ct_contents s !! k, strip4 k with
                   | Some v, Ret k' => if decide (k' ∈ keys \/ t <= LastSeen v) then ct_contents s else delete k (ct_contents s)
                   | _, _ => ct_contents s
                   end.
Proof.
  unfold gc_entry, lift, isEntryActive, kcall. cbn [strip family4]. unfold mbind at 1, ST_bind at 1. rewrite strip4_total.
  set (k' := mkConntrackKey _ _ _ _ _ _ _). destruct (decide (k' ∈ keys)) as [Hin|Hni].
  { exists s, acc. split; [done|]. destruct (ct_contents s !! k); [|done]. by rewrite decide_True by (by left). }
  unfold mbind, ST_bind. cbn [fst snd to_raw family4]. unfold id. rewrite q_get.
  destruct (ct_contents s !! k) as [v|] eqn:Ev; cbn [entryActiveFromRead]; unfold mret, ST_ret; [|by exists s, acc].
  destruct (Z.leb_spec t (LastSeen v)) as [Hle|Hlt]; cbn.
  - exists s, acc. split; [done|]. by rewrite decide_True by (by right).
  - destruct (q_delete k s) as [_ Hd]. destruct (ct_DeleteMapEntry k s) as [s' e]. cbn in Hd. exists s', (acc ++ [k]). split; [done|].
    rewrite decide_False by (intros [?|?]; [done|lia]). done.
Qed.

Lemma gc_loop_quiet keys t l : forall acc c s, NoDup l ->
  exists s' acc', fold_each (gc_entry family4 keys t) l acc (c, s) = ((c, s'), Ret acc') /\
  forall k, ct_contents s' !! k = if decide (k ∈ l)
    then (v ← ct_contents s !! k; match strip4 k with Ret k' => if decide (k' ∈ keys \/ t <= LastSeen v) then Some v else None | _ => Some v end)
    else ct_contents s !! k.
Proof.
  induction l as [|x l IH]; intros acc c s Hnd; cbn [fold_each].
  { exists s, acc. split; [done|]. intros k. by rewrite decide_False by set_solver. }
  apply NoDup_cons in Hnd as [Hx Hnd]. destruct (gc_entry_quiet keys t acc x c s) as (s1 & acc1 & E1 & C1).
  destruct (IH acc1 c s1 Hnd) as (s2 & acc2 & E2 & C2). exists s2, acc2. unfold mbind at 1, ST_bind at 1. rewrite E1.
  split; [exact E2|]. intros k. rewrite C2, C1. destruct (decide (k = x)) as [->|Hne].
  - rewrite decide_False by done. rewrite (decide_True (P := x ∈ x :: l)) by set_solver.
    destruct (ct_contents s !! x) as [v|] eqn:Ev; cbn; [|done]. destruct (strip4 x); [|done..]. case_decide; [done|apply lookup_delete_eq].
  - assert (ct_contents s1 !! k = ct_contents s !! k) as Hk.
    { rewrite C1. repeat case_match; try done. by rewrite lookup_delete_ne. }
    rewrite C1 in Hk. rewrite Hk. destruct (decide (k ∈ l)); [rewrite (decide_True (P := k ∈ x :: l)) by set_solver
      |rewrite (decide_False (P := k ∈ x :: l)) by set_solver]; done.
Qed.

(** C17: Two calls of the collector collect.  On a quiet kernel with IPv4 flows, starting a
    hydration with enough fuel for the map (one turn per entry), the first call copies every
    key and terminates, and the second leaves exactly the entries that a kernel flow accounts
    for or that were last seen at or after its clock reading; the collector is then ready to
    hydrate again. *)
Theorem conntrack_gc_complete fuel c s
  (Hhydrate : hydratelocalConntrack c = true) (Hv4 : ct_enableIPv6 c = false)
  (Hfuel : (size (ct_contents s) <= fuel)%nat) (Hne : ct_contents s <> ∅)
  (Hflows : Forall flow_v4 (flow_table s)) :
  exists c' s' dels,
  (CleanupConntrackMap fuel;; CleanupConntrackMap fuel) (c, s) = ((c', s'), Ret (Some dels)) /\
  hydratelocalConntrack c' = true /\
  forall k v, ct_contents s' !! k = Some v <-> ct_contents s !! k = Some v /\ kept (flow_table s) (clock s) (k, v).
Proof.
  destruct (key_order s) as [|k0 post] eqn:Eo.
  { destruct Hne. pose proof (order_law s) as Hp. rewrite Eo in Hp. apply Permutation_nil in Hp.
    apply fmap_nil_inv in Hp. by apply map_to_list_empty_iff. }
  assert (length (k0 :: post) = size (ct_contents s)) as Hlen.
  { rewrite <-Eo, (order_law s), length_fmap. apply length_map_to_list. }
  set (keys := list_to_set (k0 :: post) ∪ ∅ : gset ConntrackKey).
  set (c1 := mkConntrackClient false false (Some keys) (localConntrackV6Cache c)).
  assert (CleanupConntrackMap fuel (c, s) = ((c1, s), Ret (Some []))) as Hfirst.
  { unfold CleanupConntrackMap, cleanup. unfold mbind at 1, ST_bind at 1, kcall at 1. cbn [fst snd]. rewrite q_pin.
    unfold mbind at 1, ST_bind at 1, get at 1. cbn [fst snd]. rewrite Hhydrate.
    unfold mbind at 1, ST_bind at 1, on_client at 1, modify. cbn [fst snd]. unfold mbind at 1, ST_bind at 1, kcall at 1. cbn [fst snd].
    rewrite q_first, Eo. unfold mbind at 1, ST_bind at 1.
    rewrite (hydrate_quiet s post [] k0 fuel _ ∅); [|done|cbn in Hlen; lia|unfold InitializeLocalCache; by rewrite Hv4].
    unfold InitializeLocalCache. rewrite Hv4. by destruct c. }
  unfold mbind at 1, ST_bind at 1. rewrite Hfirst. clear Hfirst.
  destruct (flows_cache4_spec (flow_table s) Hflows) as (kc & Hkc & Hin).
  set (l := go_range (go "localConntrackCache") (elements keys)).
  destruct (gc_loop_quiet kc (clock s) l [] c1 s) as (s' & dels & Hloop & Hc).
  { unfold l. rewrite go_range_perm. apply NoDup_elements. }
  exists (set_hydrate true c1), s', dels. split; [|split; [done|]].
  - unfold CleanupConntrackMap, cleanup. unfold mbind at 1, ST_bind at 1, kcall at 1. cbn [fst snd]. rewrite q_pin.
    unfold mbind at 1, ST_bind at 1, get at 1. cbn [fst snd hydratelocalConntrack c1].
    unfold mbind at 1, ST_bind at 1, kcall at 1. cbn [fst snd]. rewrite q_clock.
    unfold mbind at 1, ST_bind at 1, kcall at 1. cbn [fst snd]. rewrite q_flows.
    unfold mbind at 1, ST_bind at 1, lift at 1. rewrite Hkc. unfold mbind at 1, ST_bind at 1.
    change (elements (default ∅ (local_cache family4 c1))) with (elements keys). fold l. rewrite Hloop. done.
  - intros k v. rewrite Hc. assert (k ∈ l <-> is_Some (ct_contents s !! k)) as Hl.
    { unfold l. rewrite go_range_perm, elem_of_elements. unfold keys. rewrite union_empty_r_L, elem_of_list_to_set, <-Eo, (order_law s).
      rewrite list_elem_of_fmap. split.
      - intros ([k' v'] & -> & Hk). apply elem_of_map_to_list in Hk. by exists v'.
      - intros [v' Hk]. exists (k, v'). split; [done|]. by apply elem_of_map_to_list. }
    unfold kept. cbn [fst snd]. rewrite strip4_total. pose proof (Hin k _ (strip4_total k)) as Hcov.
    destruct (decide (k ∈ l)) as [Hkl|Hkl].
    + apply Hl in Hkl as [v' Hv']. rewrite Hv'. cbn. case_decide as Hd; rewrite Hcov in Hd; split; [intros [= <-]; done|by intros [[= <-] _]|done|by intros [[= <-] ?]].
    + destruct (ct_contents s !! k) eqn:Ek; [destruct Hkl; apply Hl; eauto|]. split; [done|by intros [? _]].
Qed.
End quiet.

(** * A simulated kernel: a map, a clock and a flow table *)
Section simulated.
Context {RK : Type} `{Countable RK}.
Record sim := mkSim { sim_map : gmap RK ConntrackVal; sim_clock : Z; sim_flows : list ConntrackFlow }.

Definition sim_keys (s : sim) : list RK := (map_to_list (sim_map s)).*1.
Definition res_of {A} (o : option A) : ct_res A := match o with Some v => Got v | None => NoEntry end.
Definition hd_res {A} (l : list A) : ct_res A := match l with k :: _ => Got k | [] => NoEntry end.
(** The key after [k]; the first one again if [k] has gone. *)
Fixpoint key_after (k : RK) (all l : list RK) : ct_res RK :=
  match l with
  | [] => hd_res all
  | x :: l' => if decide (x = k) then hd_res l' else key_after k all l'
  end.

Lemma key_after_spec all k pre post : (k ∉ pre) -> key_after k all (pre ++ k :: post) = hd_res post.
Proof.
  induction pre as [|x pre IH]; intros Hni; cbn; [by rewrite decide_True|].
  rewrite decide_False by set_solver. apply IH. set_solver.
Qed.

#[local] Program Instance sim_kernel : CtKernel RK := {|
    kst := sim;
    ct_contents := sim_map;
    GetMapFromPinPath := fun s => (s, Some 5);
    GetFirstMapEntryByID := fun _ s => (s, hd_res (sim_keys s));
    GetMapEntryByID := fun _ k s => (s, res_of (sim_map s !! k));
    GetNextMapEntryByID := fun _ k s => (s, key_after k (sim_keys s) (sim_keys s));
    KtimeGetNs := fun s => (s, Some (sim_clock s));
    ConntrackTableList := fun s => (s, Some (sim_flows s));
    ct_GetMapEntry := fun k s => (s, sim_map s !! k);
    ct_DeleteMapEntry := fun k s => (mkSim (delete k (sim_map s)) (sim_clock s) (sim_flows s), None);
    dp := eq
    |}.
Next Obligation. done. Qed.
Next Obligation. done. Qed.
Next Obligation. done. Qed.
Next Obligation. done. Qed.
Next Obligation. done. Qed.
Next Obligation. done. Qed.
Next Obligation. intros key s s' r [= <- <-]. done. Qed.
Next Obligation.
  intros key s s' e [= <- <-] k. exists (sim_map s !! k). split; [done|]. cbn. case_decide as Hk; [subst; apply lookup_delete_eq|].
  by apply lookup_delete_ne.
Qed.

Lemma sim_next (s : sim) pre k post : sim_keys s = pre ++ k :: post -> key_after k (sim_keys s) (sim_keys s) = hd_res post.
Proof.
  intros Ho. rewrite Ho. apply key_after_spec.
  pose proof (NoDup_fst_map_to_list (sim_map s)) as Hnd. unfold sim_keys in Ho. rewrite Ho in Hnd.
  apply NoDup_app in Hnd as (_ & Hd & _). intros Hin. apply (Hd k Hin). left.
Qed.

End simulated.
Arguments sim RK {_ _}.

#[local] Instance sim_quiet : @QuietKernel sim_kernel.
Proof.
  refine {| key_order := (sim_keys : @kst _ _ _ sim_kernel -> list ConntrackKey); clock := (sim_clock : @kst _ _ _ sim_kernel -> Z);
    flow_table := (sim_flows : @kst _ _ _ sim_kernel -> list ConntrackFlow); map_id := 5 |}; try (intros; reflexivity).
  - intros s pre k post Ho. cbn in *. by rewrite (sim_next s pre k post Ho).
  - done.
Defined.

(** Two entries to 10.0.0.2:80; the kernel still has the flow of the first. *)
Definition ct_addr (last : byte) : IP := [x0a; x00; x00; last].
Definition ct_key (src : byte) : ConntrackKey :=
  mkConntrackKey (of_le32 (ct_addr src)) 40000 (of_le32 (ct_addr x02)) 80 6 (of_le32 (ct_addr x02)) 3.
Definition ct_flow : ConntrackFlow := mkConntrackFlow
  (mkIPTuple (ct_addr x01) (ct_addr x02) 40000 80 6) (mkIPTuple (ct_addr x02) (ct_addr x01) 80 40000 6).
Definition ct_sim : sim ConntrackKey :=
  mkSim {[ct_key x01 := mkConntrackVal 7 10; ct_key x03 := mkConntrackVal 7 10; ct_key x04 := mkConntrackVal 7 90]} 50 [ct_flow].

Lemma ct_sim_flows : Forall flow_v4 (sim_flows ct_sim).
Proof. repeat constructor. Qed.

Lemma conntrack_gc_complete_witness :
  exists c' s' dels,
    (@CleanupConntrackMap sim_kernel listed_order 3;; @CleanupConntrackMap sim_kernel listed_order 3) (NewConntrackClient false, ct_sim)
      = ((c', s'), Ret (Some dels)) /\
    dels = [ct_key x03] /\ sim_map s' !! ct_key x01 = Some (mkConntrackVal 7 10) /\ sim_map s' !! ct_key x03 = None.
Proof.
  destruct (@conntrack_gc_complete sim_kernel sim_quiet listed_order 3 (NewConntrackClient false) ct_sim)
    as (c' & s' & dels & Hrun & _ & Hc); [reflexivity|reflexivity|apply Nat.leb_le; vm_compute; reflexivity| |apply ct_sim_flows|].
  { intros He. apply (f_equal (fun m => m !! ct_key x01)) in He. vm_compute in He. discriminate He. }
  exists c', s', dels. split; [exact Hrun|].
  assert (Ret (Some dels) = Ret (Some [ct_key x03])) as Hd.
  { change (snd ((c', s'), Ret (Some dels)) = Ret (Some [ct_key x03])). rewrite <-Hrun. vm_compute. reflexivity. }
  split; [congruence|]. split.
  - apply Hc. split; [vm_compute; reflexivity|]. left. exists ct_flow. split; [left|]. vm_compute. auto 10.
  - destruct (sim_map s' !! ct_key x03) as [v|] eqn:Ev; [|reflexivity]. apply Hc in Ev as [Hv [(f & Hf & Hcov)|Ht]].
    + apply list_elem_of_singleton in Hf as ->. destruct Hcov as [Hs _]. vm_compute in Hs. discriminate Hs.
    + vm_compute in Hv. injection Hv as <-. vm_compute in Ht. destruct (Ht eq_refl).
Defined.

(** The second of two calls, from the state the first one leaves. *)
Definition ct_hydrated : conntrackClient * sim ConntrackKey :=
  fst (@CleanupConntrackMap sim_kernel listed_order 3 (NewConntrackClient false, ct_sim)).

Lemma ct_second_run :
  snd (@CleanupConntrackMap sim_kernel listed_order 3 ct_hydrated) = Ret (Some [ct_key x03]).
Proof. vm_compute. reflexivity. Qed.
Lemma ct_keys_differ : (ct_key x04 ∉ [ct_key x03]).
Proof. intros Hin%list_elem_of_singleton. vm_compute in Hin. discriminate Hin. Qed.

Lemma conntrack_gc_safe_witness :
  let '((c', s'), r) := @CleanupConntrackMap sim_kernel listed_order 3 (fst ct_hydrated, snd ct_hydrated) in
  sim_map s' !! ct_key x04 = sim_map (snd ct_hydrated) !! ct_key x04 /\
  exists m, localConntrackV4Cache (fst ct_hydrated) = Some m /\ ct_key x03 ∈ m.
Proof.
  pose proof ct_second_run as Hret. rewrite (surjective_pairing ct_hydrated) in Hret.
  destruct (@CleanupConntrackMap sim_kernel listed_order 3 (fst ct_hydrated, snd ct_hydrated)) as [[c' s'] r] eqn:Hrun. cbn [snd] in Hret. subst r.
  destruct (@conntrack_gc_safe sim_kernel listed_order 3 (fst ct_hydrated) (snd ct_hydrated) c' s' _ Hrun) as [Hkept Hdel]. split.
  - symmetry. apply Hkept. exact ct_keys_differ.
  - apply (Hdel (ct_key x03)). left.
Defined.

(** * The IPv6 collector *)

(** The keys the Go struct can hold. *)
Record key6_ok (k : ConntrackKeyV6) : Prop := {
  k6_src : length (Source_ip6 k) = 16%nat;
  k6_dst : length (Dest_ip6 k) = 16%nat;
  k6_own : length (Owner_ip6 k) = 16%nat;
  k6_sport : 0 <= Source_port6 k < 2 ^ 16;
  k6_dport : 0 <= Dest_port6 k < 2 ^ 16;
  k6_proto : 0 <= ct_Protocol6 k < 2 ^ 8;
  k6_ifindex : 0 <= Ifindex6 k < 2 ^ 32
}.

Lemma le_fits n z : 0 <= z < 2 ^ (Z.of_nat n * 8) -> le_combine (le_split n z) = z.
Proof. intros Hz. rewrite le_combine_split. by apply Z.mod_small. Qed.

(** The struct laid out as its fields. *)
Lemma fields_of (parts : list gostring) i p off rest :
  parts !! i = Some p -> off = length (concat (take i parts)) ->
  take (length p) (drop off (concat parts ++ rest)) = p.
Proof.
  intros Hi ->. rewrite <-(take_drop_middle parts i p Hi) at 2. rewrite concat_app, concat_cons, <-!app_assoc.
  by rewrite drop_app_length, take_app_length.
Qed.

Lemma conntrackV6_bytes k (Hok : key6_ok k) :
  ConvByteToConntrackV6 (ConvConntrackV6ToByte k) = k /\ length (ConvConntrackV6ToByte k) = 60%nat.
Proof.
  destruct k as [s sp d dp pr o ifi], Hok as [Hs Hd Ho Hsp Hdp Hpr Hif].
  cbn [Source_ip6 Source_port6 Dest_ip6 Dest_port6 ct_Protocol6 Owner_ip6 Ifindex6] in *.
  set (parts := [s; le_split 2 sp; [x00; x00]; d; le_split 2 dp; le_split 1 pr; [x00]; o; le_split 4 ifi]).
  assert (ConvConntrackV6ToByte (mkConntrackKeyV6 s sp d dp pr o ifi) = concat parts) as Hb.
  { unfold ConvConntrackV6ToByte, parts. cbn [Source_ip6 Source_port6 Dest_ip6 Dest_port6 ct_Protocol6 Owner_ip6 Ifindex6].
    cbn [concat]. by rewrite app_nil_r. }
  assert (length (concat parts) = 60%nat) as Hlen.
  { unfold parts. cbn [concat]. rewrite !length_app, !length_le_split, Hs, Hd, Ho. done. }
  rewrite Hb. split; [|done]. unfold ConvByteToConntrackV6. rewrite take_app_length' by done.
  assert (forall i p off n, parts !! i = Some p -> length p = n -> off = length (concat (take i parts)) ->
    take n (drop off (concat parts)) = p) as Hf.
  { intros i p off n Hi Hn Hoff. rewrite <-(app_nil_r (concat parts)). subst n. by eapply fields_of. }
  assert (forall a b : gostring, length (a ++ b) = (length a + length b)%nat) as Ha by (intros; apply length_app).
  assert (forall i, length (concat (take i parts)) = sum_list (take i (length (A:=byte) <$> parts))) as Hsum.
  { intros i. rewrite <-fmap_take. induction (take i parts) as [|p l IH]; [done|]. cbn [concat fmap list_fmap]. rewrite Ha, IH. done. }
  assert (length (A:=byte) <$> parts = [16; 2; 2; 16; 2; 1; 1; 16; 4]%nat) as Hls.
  { unfold parts. cbn [fmap list_fmap]. by rewrite !length_le_split, Hs, Hd, Ho. }
  rewrite (Hf 0%nat s 0%nat 16%nat), (Hf 1%nat (le_split 2 sp) 16%nat 2%nat), (Hf 3%nat d 20%nat 16%nat), (Hf 4%nat (le_split 2 dp) 36%nat 2%nat),
    (Hf 5%nat (le_split 1 pr) 38%nat 1%nat), (Hf 7%nat o 40%nat 16%nat), (Hf 8%nat (le_split 4 ifi) 56%nat 4%nat)
    by (rewrite ?length_le_split, ?Hsum, ?Hls; done).
  rewrite !le_fits by lia. done.
Qed.

(** A 60-byte IPv6 conntrack key survives the conversion to bytes and back: reading the bytes
    of a key gives the key, and the bytes are exactly the size of the struct. *)
Theorem conntrackV6_roundtrip k (Hok : key6_ok k) :
  ConvByteToConntrackV6 (ConvConntrackV6ToByte k) = k /\ length (ConvConntrackV6ToByte k) = 60%nat.
Proof. exact (conntrackV6_bytes k Hok). Qed.

Definition ex_key6 : ConntrackKeyV6 :=
  mkConntrackKeyV6 (replicate 15 x00 ++ [x01]) 40000 (replicate 15 x00 ++ [x02]) 443 6 (replicate 15 x00 ++ [x02]) 7.

Lemma conntrackV6_roundtrip_witness :
  key6_ok ex_key6 /\ ConvByteToConntrackV6 (ConvConntrackV6ToByte ex_key6) = ex_key6.
Proof.
  assert (key6_ok ex_key6) as Hok by (split; cbn; (reflexivity || lia)).
  split; [exact Hok|]. apply (conntrackV6_roundtrip ex_key6 Hok).
Defined.

(** What the bytes of the map are read as. *)
Lemma key6_of_bytes bs : key6_ok (ConvByteToConntrackV6 bs).
Proof.
  set (mem := take 60 (bs ++ replicate 60 x00)).
  assert (length mem = 60%nat) as Hm by (unfold mem; rewrite length_take, length_app, length_replicate; lia).
  assert (forall off n, (off + n <= 60)%nat -> length (take n (drop off mem)) = n) as Hl
    by (intros; rewrite length_take, length_drop; lia).
  assert (forall off n, (off + n <= 60)%nat -> 0 <= le_combine (take n (drop off mem)) < 2 ^ (8 * Z.of_nat n)) as Hb.
  { intros off n Hn. pose proof (le_combine_bound (take n (drop off mem))) as Hbd. by rewrite Hl in Hbd. }
  unfold ConvByteToConntrackV6. fold mem. split; cbn [Source_ip6 Source_port6 Dest_ip6 Dest_port6 ct_Protocol6 Owner_ip6 Ifindex6].
  - apply Hl. lia.
  - apply Hl. lia.
  - apply Hl. lia.
  - apply (Hb 16%nat 2%nat). lia.
  - apply (Hb 36%nat 2%nat). lia.
  - apply (Hb 38%nat 1%nat). lia.
  - apply (Hb 56%nat 4%nat). lia.
Qed.

Section v6.
Context `{!CtKernel gostring, !MapOrder}.

(** Only keys read from the map are ever cached. *)
Definition cache6_ok (c : conntrackClient) : Prop := forall m k, localConntrackV6Cache c = Some m -> k ∈ m -> key6_ok k.

(** The IPv6 collector deletes only dead entries, and caches only keys it can write back.
    An entry of the map whose bytes are not those of a deleted key only changes the way the
    datapath changes it; a deleted key was cached, had its last-seen time before the clock
    reading of the pass when it was read again, and its key without the interface is none of
    the keys of the kernel's flows. *)
Theorem conntrack_gc_safe_v6 fuel c s c' s' r (Hok : cache6_ok c)
  (Hrun : Cleanupv6ConntrackMap fuel (c, s) = ((c', s'), r)) :
  let deleted := match r with Ret (Some l) => l | _ => [] end in
  cache6_ok c' /\
  (forall bs, bs ∉ ConvConntrackV6ToByte <$> deleted -> dp (ct_contents s !! bs) (ct_contents s' !! bs)) /\
  (forall key, key ∈ deleted ->
    hydratelocalConntrack c = false /\ (exists m, localConntrackV6Cache c = Some m /\ key ∈ m) /\
    exists s1 s2 s3 gcStart flows keys v key',
     KtimeGetNs s1 = (s2, Some gcStart) /\ ConntrackTableList s2 = (s3, Some flows) /\ evolves s s3 /\
     dp (ct_contents s3 !! ConvConntrackV6ToByte key) (Some v) /\ LastSeen v < gcStart /\
     flows_cache family6 flows = Ret keys /\ strip6 key = Ret key' /\ (key' ∉ keys)).
Proof.
  eapply (cleanup_gen family6 key6_ok) in Hrun as [Hc' Hc].
  - split; [exact Hc'|].
    destruct Hc as [[Hev Hnil]|(Hh & dels & -> & _ & s1 & s2 & s3 & t & flows & keys & He1 & Ht & Hf & Hk & Hcin & [Hkept Hstale] & He3)];
      cbn [fst snd] in *.
    + destruct r as [[l|]|e|w]; [rewrite (Hnil l eq_refl)|..]; (split; [intros key _; apply Hev|]); intros key Hin; by apply not_elem_of_nil in Hin.
    + split; [intros bs Hni; etrans; [apply He3|by apply Hkept]|].
      intros key Hin. split; [done|]. split; [by apply Hcin|]. destruct (Hstale key Hin) as (k' & v & Hst & Hnk & Hd & Hv).
      exists s1, s2, s3, t, flows, keys, v, k'. repeat (split; [done|]). done.
  - intros bs. apply key6_of_bytes.
  - intros k _. by eexists.
  - intros k k' Hk Hk' He. etrans; [symmetry; apply (conntrackV6_bytes k Hk)|]. etrans; [|apply (conntrackV6_bytes k' Hk')].
    f_equal. exact He.
  - done.
  - done.
  - intros cl. unfold InitializeLocalCache. destruct (ct_enableIPv6 cl); [by left|by right].
  - exact Hok.
Qed.
End v6.

Definition sim6 : sim gostring := mkSim {[ConvConntrackV6ToByte ex_key6 := mkConntrackVal 7 10]} 50 [].
Definition hydrated6 : conntrackClient * sim gostring :=
  fst (@Cleanupv6ConntrackMap sim_kernel listed_order 2 (NewConntrackClient true, sim6)).

Lemma cache6_ok_new b : cache6_ok (NewConntrackClient b).
Proof. intros m k Hm. discriminate Hm. Qed.

(** The first call, which hydrates. *)
Lemma conntrack_gc_safe_v6_witness :
  cache6_ok (NewConntrackClient true) /\ cache6_ok (fst hydrated6).
Proof.
  split; [apply cache6_ok_new|]. unfold hydrated6.
  destruct (@Cleanupv6ConntrackMap sim_kernel listed_order 2 (NewConntrackClient true, sim6)) as [[c' s'] r] eqn:Hrun.
  apply (@conntrack_gc_safe_v6 sim_kernel listed_order 2 (NewConntrackClient true) sim6 c' s' r (cache6_ok_new true) Hrun).
Defined.
