(* ===== verification/LegacyPins.v ===== *)
(** [pkg/ebpf/legacy_pin_migration.go]: on the first start after an upgrade the agent renames
    the pin files of each pod from the old identifier, which joined name and namespace with
    ["-"], to the new one.  The pods come from the CNI's checkpoint file; a marker file keeps
    the migration from running again.

    The file system is the class [FileSystem]: every call may fail.  [json.Unmarshal] of the
    checkpoint is a parameter, of which nothing is assumed. *)
From S2P Require Import Prelude Utils UtilsFacts Effects.

(** The result of a call whose error may be [os.ErrNotExist]. *)
Inductive io_res (A : Type) := IoOk (a : A) | IoNotExist | IoErr (e : gostring).
Arguments IoOk {A} a.
Arguments IoNotExist {A}.
Arguments IoErr {A} e.

Class FileSystem := {
  fs : Type;
  (** The file at a path; a pin is a file too. *)
  files : fs -> gmap gostring gostring;
  os_Stat : gostring -> fs -> fs * io_res unit;
  os_ReadFile : gostring -> fs -> fs * io_res gostring;
  os_Rename : gostring -> gostring -> fs -> fs * option gostring;
  os_MkdirAll : gostring -> fs -> fs * option gostring;
  os_WriteFile : gostring -> gostring -> fs -> fs * option gostring;
  stat_law : forall p s s' r, os_Stat p s = (s', r) -> files s' = files s /\
    match r with IoOk _ => is_Some (files s !! p) | IoNotExist => files s !! p = None | IoErr _ => True end;
  read_law : forall p s s' r, os_ReadFile p s = (s', r) -> files s' = files s /\
    match r with IoOk b => files s !! p = Some b | IoNotExist => files s !! p = None | IoErr _ => True end;
  (** rename(2): atomic, and replaces the target. *)
  rename_law : forall p q s s' e, os_Rename p q s = (s', e) ->
    match e with
    | None => exists b, files s !! p = Some b /\ files s' = <[q := b]> (delete p (files s))
    | Some _ => files s' = files s
    end;
  mkdir_law : forall p s s' e, os_MkdirAll p s = (s', e) -> files s' = files s;
  (** A write that fails may have created or truncated its file. *)
  write_law : forall p b s s' e, os_WriteFile p b s = (s', e) ->
    match e with
    | None => files s' = <[p := b]> (files s)
    | Some _ => files s' = files s \/ exists b', files s' = <[p := b']> (files s)
    end
}.

Definition cniIpamStatePath : gostring := go "/var/run/aws-node/ipam.json".
Definition formatV2MarkerPath : gostring := go "/var/run/aws-node/.npa_format_v2".

Record ipamAllocation := mkIpamAllocation { K8sPodName : gostring; K8sPodNamespace : gostring }.

Inductive renameResult := renameSkipped | renameOK | renameFailed.

(** The [<] of Go strings. *)
Fixpoint str_less (a b : gostring) : bool :=
  match a, b with
  | _, [] => false
  | [], _ :: _ => true
  | x :: a', y :: b' =>
      if (Byte.to_N x <? Byte.to_N y)%N then true
      else if (Byte.to_N y <? Byte.to_N x)%N then false
      else str_less a' b'
  end.

(** [filepath.Dir] of a path that has a ["/"] past its first byte. *)
Definition filepath_Dir (p : gostring) : gostring :=
  match last_index "/"%byte p with Some i => take i p | None => go "." end.

Section migration.
Context `{!FileSystem, !MapOrder} (json_Unmarshal : gostring -> option (list ipamAllocation)).

Definition renamePinIfExists (src dst : gostring) : ST fs renameResult := fun s =>
  let '(s, r) := os_Stat src s in
  match r with
  | IoErr _ => (s, Ret renameFailed)
  | IoNotExist => (s, Ret renameSkipped)
  | IoOk _ =>
      let '(s, e) := os_Rename src dst s in
      (s, Ret (match e with Some _ => renameFailed | None => renameOK end))
  end.

(** [switch renamePinIfExists(src, dst)] on the counters [renamed] and [failed]. *)
Definition countRename (legacyID newID : gostring) (acc : nat * nat) (pin : gostring * gostring) : ST fs (nat * nat) :=
  let '(dir, name) := pin in
  r ← renamePinIfExists (dir ++ legacyID ++ go "_" ++ name) (dir ++ newID ++ go "_" ++ name);
  mret (match r with
      | renameOK => (S (fst acc), snd acc)
      | renameFailed => (fst acc, S (snd acc))
      | renameSkipped => acc
      end).

Definition pinMaps : list gostring :=
  [TC_INGRESS_MAP; TC_EGRESS_MAP; TC_CLUSTER_POLICY_INGRESS_MAP; TC_CLUSTER_POLICY_EGRESS_MAP;
    TC_INGRESS_POD_STATE_MAP; TC_EGRESS_POD_STATE_MAP].

Definition renamePinFamily (progsDir mapsDir legacyID newID : gostring) : ST fs (nat * nat) :=
  acc ← fold_each (fun acc dir =>
        let progName := if decide (dir = go "egress") then TC_EGRESS_PROG else TC_INGRESS_PROG in
        countRename legacyID newID acc (progsDir, progName)) [go "ingress"; go "egress"] (0, 0)%nat;
  fold_each (fun acc mapName => countRename legacyID newID acc (mapsDir, mapName)) pinMaps acc.

Definition legacyID_of (a : ipamAllocation) : gostring := LegacyGetPodIdentifier (K8sPodName a) (K8sPodNamespace a).
Definition newID_of (a : ipamAllocation) : gostring := GetPodIdentifier (K8sPodName a) (K8sPodNamespace a).

(** [byLegacyID]. *)
Definition groupByLegacyID (allocations : list ipamAllocation) : gmap gostring (list ipamAllocation) :=
  foldl (fun m a =>
    if decide (K8sPodName a = [] \/ K8sPodNamespace a = []) then m
    else <[legacyID_of a := default [] (m !! legacyID_of a) ++ [a]]> m) ∅ allocations.

(** [sort.Slice] by pod name and [pods[0]]; pods of one group that have the same name are the
    same pod, so that the sort is not stable does not matter. *)
Definition firstByName (pods : list ipamAllocation) : outcome ipamAllocation :=
  index (slice_stable (fun a b => str_less (K8sPodName a) (K8sPodName b)) pods) 0.

Definition migrateGroup (progsDir mapsDir : gostring) (totalFailed : nat) (g : gostring * list ipamAllocation) : ST fs nat :=
  let '(legacyID, pods) := g in
  p ← lift (firstByName pods);
  c ← renamePinFamily progsDir mapsDir legacyID (newID_of p);
  mret (totalFailed + snd c)%nat.

Definition migrateLegacyPinsFromCNIState (progsDir mapsDir ipamPath markerPath : gostring) : ST fs unit := fun s =>
  let '(s, st) := os_Stat markerPath s in
  match st with
  | IoOk _ => (s, Ret tt)
  | IoErr e => (s, Err (go "checking migration marker " ++ markerPath ++ go ": " ++ e))
  | IoNotExist =>
      let '(s, raw) := os_ReadFile ipamPath s in
      match raw with
      | IoNotExist => (s, Ret tt)
      | IoErr e => (s, Err (go "read CNI ipam state " ++ ipamPath ++ go ": " ++ e))
      | IoOk raw =>
          match json_Unmarshal raw with
          | None => (s, Err (go "parse CNI ipam state " ++ ipamPath))
          | Some allocations =>
              (totalFailed ← fold_each (migrateGroup progsDir mapsDir)
                            (go_range (go "byLegacyID") (map_to_list (groupByLegacyID allocations))) 0%nat;
                if decide (0 < totalFailed)%nat then fail (go "legacy pin migration incomplete") else
                fun s =>
                let '(s, e) := os_MkdirAll (filepath_Dir markerPath) s in
                match e with
                | Some e => (s, Err (go "ensure marker dir for " ++ markerPath ++ go ": " ++ e))
                | None =>
                    let '(s, e) := os_WriteFile markerPath (go "v2" ++ [x0a]) s in
                    match e with
                    | Some e => (s, Err (go "write migration marker " ++ markerPath ++ go ": " ++ e))
                    | None => (s, Ret tt)
                    end
                end) s
          end
      end
  end.

(** The call in [recoverBPFState]. *)
Definition migrateLegacyPins : ST fs unit :=
  migrateLegacyPinsFromCNIState BPF_PROGRAMS_PIN_PATH_DIRECTORY BPF_MAPS_PIN_PATH_DIRECTORY cniIpamStatePath formatV2MarkerPath.
End migration.
