(* ===== verification/LegacyPinsFacts.v ===== *)
(** The legacy pin migration moves each pin family to the identifier of the pod that inherits
    it, whatever the file system answers. *)
From S2P Require Import Prelude Utils UtilsFacts Effects LegacyPins.

(** ** The order of Go strings *)
Lemma str_less_asym a b : str_less a b = true -> str_less b a = false.
Proof.
  revert b. induction a as [|x a IH]; intros [|y b]; cbn; [done..|].
  destruct (N.ltb_spec (Byte.to_N x) (Byte.to_N y)), (N.ltb_spec (Byte.to_N y) (Byte.to_N x)); try done; [lia|apply IH].
Qed.

Lemma str_less_cotrans a b c : str_less a b = false -> str_less b c = false -> str_less a c = false.
Proof.
  revert b c. induction a as [|x a IH]; intros [|y b] [|z c]; cbn; try done.
  destruct (N.ltb_spec (Byte.to_N x) (Byte.to_N y)), (N.ltb_spec (Byte.to_N y) (Byte.to_N x)),
    (N.ltb_spec (Byte.to_N y) (Byte.to_N z)), (N.ltb_spec (Byte.to_N z) (Byte.to_N y)),
    (N.ltb_spec (Byte.to_N x) (Byte.to_N z)), (N.ltb_spec (Byte.to_N z) (Byte.to_N x)); try done; try lia.
  apply IH.
Qed.

Lemma str_less_antisym a b : str_less a b = false -> str_less b a = false -> a = b.
Proof.
  revert b. induction a as [|x a IH]; intros [|y b]; cbn; [done..|].
  destruct (N.ltb_spec (Byte.to_N x) (Byte.to_N y)), (N.ltb_spec (Byte.to_N y) (Byte.to_N x)); try done.
  intros H1 H2. f_equal; [|by apply IH]. apply (inj Some). rewrite <-!Byte.of_to_N. f_equal. lia.
Qed.

Section migration.
Context `{FS : !FileSystem, MO : !MapOrder} (json_Unmarshal : gostring -> option (list ipamAllocation)).

(** ** Which pod inherits a pin family *)

(** Names the API server accepts; empty ones are skipped by the code. *)
Definition k8s_alloc (a : ipamAllocation) : Prop :=
  (forall c, c ∈ ["_"%byte; "@"%byte] -> c ∉ K8sPodName a) /\ (forall c, c ∈ ["_"%byte; "@"%byte] -> c ∉ K8sPodNamespace a).
Definition named (a : ipamAllocation) : Prop := K8sPodName a <> [] /\ K8sPodNamespace a <> [].
#[global] Instance named_dec a : Decision (named a).
Proof. unfold named. apply _. Defined.

(** Of the pods that share an old identifier, the one whose name is least inherits the pins. *)
Definition inherits (allocs : list ipamAllocation) (legacyID newID : gostring) : Prop :=
  exists p, p ∈ allocs /\ named p /\ legacyID_of p = legacyID /\ newID_of p = newID /\
  forall q, q ∈ allocs -> named q -> legacyID_of q = legacyID -> str_less (K8sPodName q) (K8sPodName p) = false.

Lemma group_gen (allocs : list ipamAllocation) (m : gmap gostring (list ipamAllocation)) (L : gostring) :
  let m' := foldl (fun m a =>
    if decide (K8sPodName a = [] \/ K8sPodNamespace a = []) then m
    else <[legacyID_of a := default [] (m !! legacyID_of a) ++ [a]]> m) m allocs in
  default [] (m' !! L) = default [] (m !! L) ++ filter (fun a => named a /\ legacyID_of a = L) allocs /\
  (m !! L <> Some [] -> m' !! L <> Some []).
Proof.
  revert m. induction allocs as [|a l IH]; intros m; cbn [foldl].
  { by rewrite filter_nil, app_nil_r. }
  rewrite filter_cons. destruct (decide (K8sPodName a = [] \/ K8sPodNamespace a = [])) as [Hd|Hd].
  - rewrite (decide_False (P := named a /\ _)) by (unfold named; naive_solver). apply IH.
  - destruct (decide (legacyID_of a = L)) as [<-|Hne].
    + rewrite decide_True by (unfold named; naive_solver).
      destruct (IH (<[legacyID_of a := default [] (m !! legacyID_of a) ++ [a]]> m)) as [-> H]. rewrite lookup_insert_eq in *.
      change (default [] (Some ?x)) with x. split; [by rewrite <-app_assoc|]. intros _. apply H. intros [= H']. by apply app_nil in H' as [_ ?].
    + rewrite decide_False by (unfold named; naive_solver).
      destruct (IH (<[legacyID_of a := default [] (m !! legacyID_of a) ++ [a]]> m)) as [-> H].
      by rewrite lookup_insert_ne in * by done.
Qed.

Lemma group_spec allocs L pods : groupByLegacyID allocs !! L = Some pods ->
  pods <> [] /\ pods = filter (fun a => named a /\ legacyID_of a = L) allocs.
Proof.
  intros H. destruct (group_gen allocs ∅ L) as [H1 H2]. fold (groupByLegacyID allocs) in *. rewrite H, lookup_empty in *.
  cbn in H1. split; [|done]. intros ->. by apply H2.
Qed.

Lemma group_of allocs a : a ∈ allocs -> named a -> is_Some (groupByLegacyID allocs !! legacyID_of a).
Proof.
  intros Hin Hn. destruct (group_gen allocs ∅ (legacyID_of a)) as [H1 _]. fold (groupByLegacyID allocs) in *. rewrite lookup_empty in H1.
  destruct (groupByLegacyID allocs !! legacyID_of a); [done|]. cbn in H1.
  assert (a ∈ filter (fun b => named b /\ legacyID_of b = legacyID_of a) allocs) as H by (by apply list_elem_of_filter).
  rewrite <-H1 in H. by apply not_elem_of_nil in H.
Qed.

(** The head of the sorted slice is a least element. *)
Lemma firstByName_spec pods : pods <> [] -> exists p, firstByName pods = Ret p /\ p ∈ pods /\
  forall q, q ∈ pods -> str_less (K8sPodName q) (K8sPodName p) = false.
Proof.
  set (less a b := str_less (K8sPodName a) (K8sPodName b)).
  assert (forall l, match slice_stable less l with [] => l = [] | h :: _ => forall q, q ∈ l -> less q h = false end) as Hmin.
  { induction l as [|x l IH]; cbn [slice_stable]; [done|].
    assert (less x x = false) as Hxx.
    { destruct (less x x) eqn:E; [|done]. apply str_less_asym in E as E'. unfold less in *. congruence. }
    destruct (slice_stable less l) as [|h t]; cbn [stable_insert].
    - subst l. intros q ->%list_elem_of_singleton. done.
    - destruct (less h x) eqn:E; intros q [->|Hq]%elem_of_cons.
      + by apply str_less_asym in E.
      + by apply IH.
      + done.
      + apply (str_less_cotrans _ (K8sPodName h)); [by apply IH|done]. }
  intros Hne. specialize (Hmin pods). pose proof (slice_stable_perm less pods) as Hp. unfold firstByName. fold less.
  destruct (slice_stable less pods) as [|h t]; [done|]. exists h. split; [done|]. split; [|done]. rewrite <-Hp. left.
Qed.

Lemma legacy_eq_name a b : legacyID_of a = legacyID_of b -> K8sPodName a = K8sPodName b -> a = b.
Proof.
  destruct a as [n ns], b as [n' ns']. unfold legacyID_of, LegacyGetPodIdentifier. cbn. intros H ->.
  apply app_inv_head in H. by injection H as ->.
Qed.

(** What [groupByLegacyID] and [firstByName] compute. *)
Lemma group_first_gen allocs L pods : groupByLegacyID allocs !! L = Some pods ->
  exists p, firstByName pods = Ret p /\ p ∈ allocs /\ legacyID_of p = L /\ forall N, inherits allocs L N <-> N = newID_of p.
Proof.
  intros [Hne ->]%group_spec. destruct (firstByName_spec _ Hne) as (p & Hp & Hin & Hmin).
  apply list_elem_of_filter in Hin as [[Hn HL] Hin]. exists p. split; [done|]. split; [done|]. split; [done|]. intros N. split.
  - intros (q & Hq & Hnq & HLq & <- & Hmq). f_equal. apply legacy_eq_name; [congruence|]. apply str_less_antisym.
    + apply Hmin. by apply list_elem_of_filter.
    + by apply Hmq.
  - intros ->. exists p. split_and!; try done. intros q Hq Hnq HLq. apply Hmin. by apply list_elem_of_filter.
Qed.

(** ** The paths of the pins *)
Definition pins : list (gostring * gostring) :=
  [(BPF_PROGRAMS_PIN_PATH_DIRECTORY, TC_INGRESS_PROG); (BPF_PROGRAMS_PIN_PATH_DIRECTORY, TC_EGRESS_PROG)] ++
  ((fun n => (BPF_MAPS_PIN_PATH_DIRECTORY, n)) <$> pinMaps).
Definition pin_path (pin : gostring * gostring) (id : gostring) : gostring := fst pin ++ id ++ go "_" ++ snd pin.

(** An identifier: the text after its last ["_"] has a separator. *)
Definition sep_id (id : gostring) : Prop := exists x c ns, id = x ++ c :: ns /\ c ∈ ["-"%byte; "@"%byte] /\ "_"%byte ∉ ns.

Lemma sep_id_cp id id' : sep_id id -> id <> id' ++ go "_cp".
Proof.
  intros (x & c & ns & -> & Hc & Hns) H. change (go "_cp") with ("_"%byte :: go "cp") in H.
  assert ("_"%byte ∈ x ++ c :: ns) as Hin by (rewrite H; set_solver).
  apply elem_of_app in Hin as [Hin|[<-|?]%elem_of_cons]; [|set_solver..].
  apply list_elem_of_split_r in Hin as (x1 & x2 & -> & Hx2). rewrite <-app_assoc in H. cbn [app] in H.
  apply app_sep_inj in H as [_ H]; [|set_solver|apply (bool_decide_unpack _); vm_compute; exact I].
  assert (c ∈ go "cp") as Hcp by (rewrite <-H; set_solver).
  change (c ∈ ["c"%byte; "p"%byte]) in Hcp. set_solver.
Qed.

Lemma rev_tail (a b x y : gostring) : a ++ x = b ++ y -> rev x ++ rev a = rev y ++ rev b.
Proof. intros H. rewrite <-!rev_app_distr. by rewrite H. Qed.

Lemma pin_path_inj k k' id id' : k ∈ pins -> k' ∈ pins -> sep_id id -> sep_id id' ->
  pin_path k id = pin_path k' id' -> k = k' /\ id = id'.
Proof.
  intros Hk Hk' Hid Hid' H.
  assert (forall n n' : gostring, id ++ go "_" ++ n = id' ++ go "_" ++ n' ->
    rev (go "_" ++ n) ++ rev id = rev (go "_" ++ n') ++ rev id') as Hrev by (intros; by apply rev_tail).
  assert (forall x y : gostring, rev x = go "pc_" ++ rev y -> x = y ++ go "_cp") as Hcp.
  { intros x y Hx. rewrite <-(rev_involutive x), Hx, rev_app_distr, rev_involutive. done. }
  unfold pins in Hk, Hk'. unfold pin_path in H.
  change (k ∈ [(BPF_PROGRAMS_PIN_PATH_DIRECTORY, TC_INGRESS_PROG); (BPF_PROGRAMS_PIN_PATH_DIRECTORY, TC_EGRESS_PROG);
    (BPF_MAPS_PIN_PATH_DIRECTORY, TC_INGRESS_MAP); (BPF_MAPS_PIN_PATH_DIRECTORY, TC_EGRESS_MAP);
    (BPF_MAPS_PIN_PATH_DIRECTORY, TC_CLUSTER_POLICY_INGRESS_MAP); (BPF_MAPS_PIN_PATH_DIRECTORY, TC_CLUSTER_POLICY_EGRESS_MAP);
    (BPF_MAPS_PIN_PATH_DIRECTORY, TC_INGRESS_POD_STATE_MAP); (BPF_MAPS_PIN_PATH_DIRECTORY, TC_EGRESS_POD_STATE_MAP)]) in Hk.
  change (k' ∈ [(BPF_PROGRAMS_PIN_PATH_DIRECTORY, TC_INGRESS_PROG); (BPF_PROGRAMS_PIN_PATH_DIRECTORY, TC_EGRESS_PROG);
    (BPF_MAPS_PIN_PATH_DIRECTORY, TC_INGRESS_MAP); (BPF_MAPS_PIN_PATH_DIRECTORY, TC_EGRESS_MAP);
    (BPF_MAPS_PIN_PATH_DIRECTORY, TC_CLUSTER_POLICY_INGRESS_MAP); (BPF_MAPS_PIN_PATH_DIRECTORY, TC_CLUSTER_POLICY_EGRESS_MAP);
    (BPF_MAPS_PIN_PATH_DIRECTORY, TC_INGRESS_POD_STATE_MAP); (BPF_MAPS_PIN_PATH_DIRECTORY, TC_EGRESS_POD_STATE_MAP)]) in Hk'.
  rewrite !elem_of_cons, elem_of_nil in Hk, Hk'.
  destruct Hk as [->|[->|[->|[->|[->|[->|[->|[->|[]]]]]]]]], Hk' as [->|[->|[->|[->|[->|[->|[->|[->|[]]]]]]]]];
    cbn [fst snd] in H; (discriminate H || apply app_inv_head, Hrev in H);
    first [ discriminate H
        | apply app_inv_head, rev_inj in H as ->; done
        | exfalso; cbn in H; repeat (injection H as H); first [ by apply (sep_id_cp id id' Hid), Hcp | by apply (sep_id_cp id' id Hid'), Hcp ] ].
Qed.

(** ** Moving files *)
Implicit Types m : gmap gostring gostring.
Definition move_done m m' (src dst : gostring) : Prop :=
  m' !! src = None /\ m' !! dst = match m !! src with Some b => Some b | None => m !! dst end.
Definition move_kept m m' (src dst : gostring) : Prop := m' !! src = m !! src /\ m' !! dst = m !! dst.

Definition endpoint (p : gostring) (moves : list (gostring * gostring)) : Prop :=
  exists mv, mv ∈ moves /\ (p = fst mv \/ p = snd mv).

(** No call fails. *)
Definition reliable : Prop :=
  (forall p s, match snd (os_Stat p s) with IoErr _ => False | _ => True end) /\
  (forall p s, match snd (os_ReadFile p s) with IoErr _ => False | _ => True end) /\
  (forall p q s, is_Some (files s !! p) -> snd (os_Rename p q s) = None) /\
  (forall p s, snd (os_MkdirAll p s) = None) /\ (forall p b s, snd (os_WriteFile p b s) = None).

(** Every move is done, or was left because a call failed; nothing else changed. *)
Definition moved (moves : list (gostring * gostring)) m m' (failed : nat) : Prop :=
  (forall mv, mv ∈ moves -> move_done m m' (fst mv) (snd mv) \/ (move_kept m m' (fst mv) (snd mv) /\ (0 < failed)%nat)) /\
  (forall p, ~ endpoint p moves -> m' !! p = m !! p) /\
  (reliable -> failed = 0%nat).

Lemma moved_nil m : moved [] m m 0.
Proof. split; [|done]. intros mv H. by apply not_elem_of_nil in H. Qed.

Lemma moved_app l1 l2 m m1 m2 f1 f2 :
  (forall p, endpoint p l1 -> ~ endpoint p l2) -> moved l1 m m1 f1 -> moved l2 m1 m2 f2 -> moved (l1 ++ l2) m m2 (f1 + f2).
Proof.
  intros Hd (H1 & O1 & R1) (H2 & O2 & R2).
  assert (forall p, endpoint p (l1 ++ l2) <-> endpoint p l1 \/ endpoint p l2) as Happ by (unfold endpoint; set_solver).
  assert (forall p, endpoint p l1 -> m2 !! p = m1 !! p) as E1 by (intros p Hp; apply O2; by apply Hd).
  assert (forall p, endpoint p l2 -> m1 !! p = m !! p) as E2 by (intros p Hp; apply O1; intros Hp'; by apply (Hd p)).
  split_and!.
  - intros mv [Hin|Hin]%elem_of_app.
    + unfold move_done, move_kept. rewrite !E1 by (exists mv; auto).
      destruct (H1 mv Hin) as [?|[? ?]]; [by left|right; split; [done|lia]].
    + destruct (H2 mv Hin) as [Hm|[Hm ?]]; unfold move_done, move_kept in *; rewrite !E2 in Hm by (exists mv; auto);
        [by left|right; split; [done|lia]].
  - intros p Hp. rewrite Happ in Hp. rewrite O2, O1; tauto.
  - intros Hrel. rewrite R1, R2 by done. done.
Qed.

Lemma renamePinIfExists_moved src dst s : src <> dst ->
  exists s' r, renamePinIfExists src dst s = (s', Ret r) /\
  moved [(src, dst)] (files s) (files s') (match r with renameFailed => 1 | _ => 0 end).
Proof.
  intros Hne. unfold renamePinIfExists.
  assert (forall f, (0 < f)%nat /\ (reliable -> f = 0%nat) \/ files s !! src = None /\ f = 0%nat -> moved [(src, dst)] (files s) (files s) f) as Hkept.
  { intros f Hf. split_and!; [|done|naive_solver]. intros mv ->%list_elem_of_singleton. cbn [fst snd].
    destruct Hf as [[Hf _]|[Hf _]]; [by right|left; split; [done|by rewrite Hf]]. }
  destruct (os_Stat src s) as [s1 st] eqn:Es. destruct (stat_law _ _ _ _ Es) as [Hs Hst].
  destruct st as [[]| |e]; [|exists s1, renameSkipped|exists s1, renameFailed];
    [|split; [done|]; rewrite Hs; apply Hkept; auto..].
  2: { left. split; [lia|]. intros (Hrel & _). specialize (Hrel src s). by rewrite Es in Hrel. }
  destruct (os_Rename src dst s1) as [s2 e] eqn:Er. pose proof Er as Er'. apply rename_law in Er. destruct e as [e|].
  - exists s2, renameFailed. split; [done|]. rewrite Er, Hs. apply Hkept. left. split; [lia|].
    intros (_ & _ & Hrel & _). specialize (Hrel src dst s1). rewrite Hs in Hrel. specialize (Hrel Hst). by rewrite Er' in Hrel.
  - destruct Er as (b & Hb & Er). exists s2, renameOK. split; [done|]. rewrite Er, <-Hs. split_and!; [| |done].
    + intros mv ->%list_elem_of_singleton. left. unfold move_done. cbn [fst snd].
      rewrite lookup_insert_eq, lookup_insert_ne, lookup_delete_eq, Hb by done. done.
    + intros p Hp. assert (p <> src /\ p <> dst) as [? ?].
      { split; intros ->; apply Hp; exists (src, dst); split; [left|cbn; auto|left|cbn; auto]. }
      by rewrite lookup_insert_ne, lookup_delete_ne.
Qed.

(** ** One family *)
Definition family_moves (L N : gostring) (ks : list (gostring * gostring)) : list (gostring * gostring) :=
  (fun k => (pin_path k L, pin_path k N)) <$> ks.

Lemma endpoint_family p L N ks : endpoint p (family_moves L N ks) <-> exists k id, k ∈ ks /\ (id = L \/ id = N) /\ p = pin_path k id.
Proof.
  unfold endpoint, family_moves. split.
  - intros (mv & Hin & Hp). apply list_elem_of_fmap in Hin as (k & -> & Hk). destruct Hp as [->| ->]; [exists k, L|exists k, N]; auto.
  - intros (k & id & Hk & Hid & ->). exists (pin_path k L, pin_path k N). split; [by apply list_elem_of_fmap; exists k|].
    destruct Hid as [->| ->]; cbn; auto.
Qed.

Lemma family_loop_moved {X} (f : X -> gostring * gostring) L N xs acc s :
  sep_id L -> sep_id N -> L <> N -> NoDup (f <$> xs) -> (forall x, x ∈ xs -> f x ∈ pins) ->
  exists s' acc' n, fold_each (fun acc x => countRename L N acc (f x)) xs acc s = (s', Ret acc') /\
  snd acc' = (snd acc + n)%nat /\ moved (family_moves L N (f <$> xs)) (files s) (files s') n.
Proof.
  intros HL HN Hne. revert acc s. induction xs as [|x xs IH]; intros acc s Hnd Hp; cbn [fold_each fmap list_fmap].
  { exists s, acc, 0%nat. split_and!; [done|lia|apply moved_nil]. }
  apply NoDup_cons in Hnd as [Hx Hnd]. unfold mbind, ST_bind.
  destruct (renamePinIfExists_moved (pin_path (f x) L) (pin_path (f x) N) s) as (s1 & r & Hr & Hm).
  { intros E. apply pin_path_inj in E as [_ E]; [done|apply Hp; left|apply Hp; left|done..]. }
  set (n1 := match r with renameFailed => 1%nat | _ => 0%nat end) in *.
  assert (exists a1, countRename L N acc (f x) s = (s1, Ret a1) /\ snd a1 = (snd acc + n1)%nat) as (a1 & Ha & Hsnd).
  { unfold countRename. rewrite (surjective_pairing (f x)). unfold mbind, ST_bind.
    change (fst (f x) ++ ?i ++ go "_" ++ snd (f x)) with (pin_path (f x) i). rewrite Hr.
    eexists. split; [reflexivity|]. unfold n1. destruct r; cbn; lia. }
  rewrite Ha. destruct (IH a1 s1 Hnd) as (s2 & a2 & n2 & Hf & Hs2 & Hm2); [intros; apply Hp; by right|].
  exists s2, a2, (n1 + n2)%nat. split; [done|]. split; [lia|].
  change (family_moves L N (f x :: (f <$> xs))) with ([(pin_path (f x) L, pin_path (f x) N)] ++ family_moves L N (f <$> xs)).
  eapply moved_app; [|done..]. intros p He1 He2. apply Hx.
  apply endpoint_family in He2 as (k & id & Hk & Hid & ->).
  destruct He1 as (mv & ->%list_elem_of_singleton & He1). cbn [fst snd] in He1.
  assert (k ∈ pins) as Hkp by (apply list_elem_of_fmap in Hk as (y & -> & Hy); apply Hp; by right).
  assert (sep_id id) by (destruct Hid as [->| ->]; done).
  destruct He1 as [He1|He1]; apply pin_path_inj in He1 as [<- _]; auto; apply Hp; left.
Qed.

Lemma family_moves_app L N k1 k2 : family_moves L N (k1 ++ k2) = family_moves L N k1 ++ family_moves L N k2.
Proof. apply fmap_app. Qed.

Lemma renamePinFamily_moved L N s : sep_id L -> sep_id N -> L <> N ->
  exists s' c, renamePinFamily BPF_PROGRAMS_PIN_PATH_DIRECTORY BPF_MAPS_PIN_PATH_DIRECTORY L N s = (s', Ret c) /\
  moved (family_moves L N pins) (files s) (files s') (snd c).
Proof.
  intros HL HN Hne.
  set (fp := fun dir : gostring => (BPF_PROGRAMS_PIN_PATH_DIRECTORY, if decide (dir = go "egress") then TC_EGRESS_PROG else TC_INGRESS_PROG)).
  set (fm := fun name : gostring => (BPF_MAPS_PIN_PATH_DIRECTORY, name)).
  destruct (family_loop_moved fp L N [go "ingress"; go "egress"] (0, 0)%nat s) as (s1 & a1 & n1 & H1 & Hn1 & M1);
    [done..|apply (bool_decide_unpack _); vm_compute; exact I|intros x Hx; unfold pins; set_solver|].
  destruct (family_loop_moved fm L N pinMaps a1 s1) as (s2 & a2 & n2 & H2 & Hn2 & M2);
    [done..|apply (bool_decide_unpack _); vm_compute; exact I|intros x Hx; apply elem_of_app; right; apply list_elem_of_fmap; by exists x|].
  exists s2, a2. split.
  - transitivity ((acc ← fold_each (fun acc x => countRename L N acc (fp x)) [go "ingress"; go "egress"] (0, 0)%nat;
                 fold_each (fun acc x => countRename L N acc (fm x)) pinMaps acc) s); [reflexivity|].
    unfold mbind, ST_bind. rewrite H1. exact H2.
  - replace (snd a2) with (n1 + n2)%nat by (cbn in Hn1; lia).
    change pins with ((fp <$> [go "ingress"; go "egress"]) ++ (fm <$> pinMaps)). rewrite family_moves_app.
    eapply moved_app; [|done..]. intros p He1 He2.
    apply endpoint_family in He1 as (k & id & Hk & Hid & ->), He2 as (k' & id' & Hk' & Hid' & He).
    apply pin_path_inj in He as [<- _]; [..|by destruct Hid as [->| ->]|by destruct Hid' as [->| ->]].
    + apply list_elem_of_fmap in Hk as (? & -> & _), Hk' as (? & E & _). discriminate E.
    + change pins with ((fp <$> [go "ingress"; go "egress"]) ++ (fm <$> pinMaps)). set_solver.
    + change pins with ((fp <$> [go "ingress"; go "egress"]) ++ (fm <$> pinMaps)). set_solver.
Qed.

(** ** All families *)
Lemma prefix_chars c n : c ∈ podIdentifierPrefix n -> c = "_"%byte \/ c ∈ n.
Proof.
  rewrite podIdentifierPrefix_base. intros [[-> _]|[_ H]]%elem_of_replace_byte; [by left|right; by apply pod_base_incl].
Qed.

Lemma legacyID_sep a : k8s_alloc a -> sep_id (legacyID_of a) /\ "@"%byte ∉ legacyID_of a.
Proof.
  intros [Hn Hns]. split.
  - exists (podIdentifierPrefix (K8sPodName a)), "-"%byte, (K8sPodNamespace a). split; [done|]. split; [left|]. apply Hns. left.
  - unfold legacyID_of, LegacyGetPodIdentifier. change (go "-") with ["-"%byte].
    intros [[?|Hin]%prefix_chars|[?|Hin]%elem_of_app]%elem_of_app; [done|by apply (Hn "@"%byte); [set_solver|]|set_solver|].
    by apply (Hns "@"%byte); [set_solver|].
Qed.

Lemma newID_sep a : k8s_alloc a -> sep_id (newID_of a) /\ "@"%byte ∈ newID_of a.
Proof.
  intros [Hn Hns]. split.
  - exists (podIdentifierPrefix (K8sPodName a)), "@"%byte, (K8sPodNamespace a). split; [done|]. split; [by right; left|]. apply Hns. left.
  - unfold newID_of, GetPodIdentifier. change (go "@") with ["@"%byte]. set_solver.
Qed.

Lemma newID_legacyID a b : k8s_alloc a -> k8s_alloc b -> newID_of a = newID_of b -> legacyID_of a = legacyID_of b.
Proof.
  intros [_ Ha] [_ Hb] H. unfold newID_of, GetPodIdentifier in H. change (go "@" ++ ?x) with ("@"%byte :: x) in H.
  apply app_sep_inj in H as [H1 H2]; [|apply Ha; set_solver|apply Hb; set_solver].
  unfold legacyID_of, LegacyGetPodIdentifier. congruence.
Qed.

Definition group_moves (g : gostring * list ipamAllocation) : list (gostring * gostring) :=
  match firstByName (snd g) with Ret p => family_moves (fst g) (newID_of p) pins | _ => [] end.

Lemma groups_moved allocs gs acc s : Forall k8s_alloc allocs ->
  (forall g, g ∈ gs -> groupByLegacyID allocs !! fst g = Some (snd g)) -> NoDup (fst <$> gs) ->
  exists s' n, fold_each (migrateGroup BPF_PROGRAMS_PIN_PATH_DIRECTORY BPF_MAPS_PIN_PATH_DIRECTORY) gs acc s = (s', Ret (acc + n)%nat) /\
  moved (gs ≫= group_moves) (files s) (files s') n.
Proof.
  intros Hk. rewrite Forall_forall in Hk. revert acc s. induction gs as [|[L pods] gs IH]; intros acc s Hg Hnd; cbn [fold_each].
  { exists s, 0%nat. rewrite Nat.add_0_r. split; [done|apply moved_nil]. }
  cbn [fmap list_fmap fst] in Hnd. apply NoDup_cons in Hnd as [HL Hnd].
  assert (forall L' pods', groupByLegacyID allocs !! L' = Some pods' -> exists p, firstByName pods' = Ret p /\ p ∈ allocs /\ legacyID_of p = L') as Hfirst.
  { intros L' pods' H'. destruct (group_first_gen _ _ _ H') as (p & ? & ? & ? & _). eauto. }
  destruct (Hfirst L pods (Hg (L, pods) ltac:(left))) as (p & Hp & Hin & HLp).
  destruct (legacyID_sep p (Hk p Hin)) as [HsL HaL], (newID_sep p (Hk p Hin)) as [HsN HaN]. rewrite HLp in HsL, HaL.
  destruct (renamePinFamily_moved L (newID_of p) s HsL HsN) as (s1 & c & Hr & Hm); [intros E; by rewrite <-E in HaN|].
  destruct (IH (acc + snd c)%nat s1) as (s2 & n2 & Hf & Hm2); [intros; apply Hg; by right|done|].
  exists s2, (snd c + n2)%nat. split.
  - unfold mbind, ST_bind. cbn [migrateGroup]. unfold mbind, ST_bind, lift. rewrite Hp, Hr. rewrite Nat.add_assoc. exact Hf.
  - cbn [mbind list_bind]. eapply moved_app; [|unfold group_moves; cbn [fst snd]; rewrite Hp; exact Hm|exact Hm2].
    unfold group_moves at 1. cbn [fst snd]. rewrite Hp. intros q He1 (mv & Hmv & He2).
    apply list_elem_of_bind in Hmv as ([L' pods'] & Hmv & Hin').
    destruct (Hfirst L' pods' (Hg (L', pods') ltac:(by right))) as (p' & Hp' & Hinp' & HLp').
    unfold group_moves in Hmv. cbn [fst snd] in Hmv. rewrite Hp' in Hmv.
    destruct (legacyID_sep p' (Hk p' Hinp')) as [HsL' HaL'], (newID_sep p' (Hk p' Hinp')) as [HsN' HaN']. rewrite HLp' in HsL', HaL'.
    assert (endpoint q (family_moves L' (newID_of p') pins)) as He3 by (by exists mv).
    apply endpoint_family in He1 as (k & id & Hkp & Hid & ->), He3 as (k' & id' & Hkp' & Hid' & He).
    apply pin_path_inj in He as [_ <-]; [|done..|by destruct Hid as [->| ->]|by destruct Hid' as [->| ->]].
    assert (L <> L') as HLL by (intros <-; apply HL; apply list_elem_of_fmap; by exists (L, pods')).
    destruct Hid as [->| ->], Hid' as [E|E]; [done|by rewrite E in HaL|by rewrite <-E in HaL'|].
    apply newID_legacyID in E; [congruence|auto..].
Qed.

Lemma var_run_not_pin k id p : k ∈ pins -> take 5 p = go "/var/" -> p <> pin_path k id.
Proof.
  intros Hk Hp ->. unfold pins in Hk. cbn [pinMaps fmap list_fmap app] in Hk.
  repeat (apply elem_of_cons in Hk as [->|Hk]; [discriminate Hp|]). by apply not_elem_of_nil in Hk.
Qed.

(** ** One run, from a state that is not migrated *)
Definition inherited_pin allocs (p : gostring) : Prop :=
  exists L N k, inherits allocs L N /\ k ∈ pins /\ (p = pin_path k L \/ p = pin_path k N).

(** The pins are moved except for [n] failures, no other file but the marker changes, and the
    marker is not there unless all pins are moved. *)
Record migrated allocs m m' (r : outcome unit) (n : nat) : Prop := {
  mg_moves : forall L N k, inherits allocs L N -> k ∈ pins ->
  move_done m m' (pin_path k L) (pin_path k N) \/ (move_kept m m' (pin_path k L) (pin_path k N) /\ (0 < n)%nat);
  mg_others : forall p, p <> formatV2MarkerPath -> ~ inherited_pin allocs p -> m' !! p = m !! p;
  mg_marker : is_Some (m' !! formatV2MarkerPath) -> n = 0%nat;
  mg_ret : r = Ret tt -> is_Some (m' !! formatV2MarkerPath);
  mg_panic : forall w, r <> Panic w;
  mg_reliable : reliable -> r = Ret tt
}.

Lemma migrated_same allocs m e : ~ reliable -> m !! formatV2MarkerPath = None -> migrated allocs m m (Err e) 1.
Proof. intros Hrel Hm. split; [intros; right; split; [done|lia]|done|rewrite Hm; by intros [? ?]|done|done|done]. Qed.

Lemma inherited_not_marker allocs p : inherited_pin allocs p -> p <> formatV2MarkerPath.
Proof. intros (L & N & k & _ & Hk & [->| ->]) E; symmetry in E; by apply (var_run_not_pin k _ formatV2MarkerPath) in E. Qed.

(** The moves the loop makes are the inherited pins. *)
Lemma groups_inherited allocs gs : gs ≡ₚ map_to_list (groupByLegacyID allocs) ->
  (forall L N k, inherits allocs L N -> k ∈ pins -> (pin_path k L, pin_path k N) ∈ gs ≫= group_moves) /\
  (forall p, endpoint p (gs ≫= group_moves) -> inherited_pin allocs p).
Proof.
  intros Hgs. split.
  - intros L N k Hi Hkp. pose proof Hi as (p & Hp & Hn & <- & _). destruct (group_of allocs p Hp Hn) as [pods Hpods].
    destruct (group_first_gen _ _ _ Hpods) as (q & Hq & _ & _ & Huniq). apply Huniq in Hi as ->.
    apply list_elem_of_bind. exists (legacyID_of p, pods). split.
    + unfold group_moves. cbn [fst snd]. rewrite Hq. apply list_elem_of_fmap. by exists k.
    + rewrite Hgs. by apply elem_of_map_to_list.
  - intros p (mv & Hmv & Hp). apply list_elem_of_bind in Hmv as ([L pods] & Hmv & Hg). rewrite Hgs in Hg. apply elem_of_map_to_list in Hg.
    destruct (group_first_gen _ _ _ Hg) as (q & Hq & _ & _ & Huniq). unfold group_moves in Hmv. cbn [fst snd] in Hmv. rewrite Hq in Hmv.
    apply list_elem_of_fmap in Hmv as (k & -> & Hkp). exists L, (newID_of q), k. by rewrite Huniq.
Qed.

(** After the loop, with or without the marker written. *)
Lemma migrated_moved allocs gs m m1 m' n r : gs ≡ₚ map_to_list (groupByLegacyID allocs) -> m !! formatV2MarkerPath = None ->
  moved (gs ≫= group_moves) m m1 n ->
  (m' = m1 /\ r <> Ret tt) \/ (n = 0%nat /\ exists b, m' = <[formatV2MarkerPath := b]> m1) ->
  (forall w, r <> Panic w) -> (reliable -> n = 0%nat -> r = Ret tt) -> migrated allocs m m' r n.
Proof.
  intros Hgs Hmk (Hmv & Hot & Hrel) Hw Hpan Hret. destruct (groups_inherited allocs gs Hgs) as [Hin Hend].
  assert (forall p, p <> formatV2MarkerPath -> m' !! p = m1 !! p) as Hp1.
  { intros p Hp. destruct Hw as [[-> _]|[_ [b ->]]]; [done|]. by rewrite lookup_insert_ne. }
  split; [| | | |done|auto].
  - intros L N k Hi Hkp. unfold move_done, move_kept.
    rewrite !Hp1 by (apply (inherited_not_marker allocs); exists L, N, k; auto). exact (Hmv _ (Hin L N k Hi Hkp)).
  - intros p Hp Hno. rewrite Hp1 by done. apply Hot. intros He. by apply Hno, Hend.
  - destruct Hw as [[-> _]|[? _]]; [|done]. rewrite Hot, Hmk; [by intros [? ?]|].
    intros He. by apply Hend, inherited_not_marker in He.
  - intros ->. destruct Hw as [[_ ?]|[_ [b ->]]]; [done|]. rewrite lookup_insert_eq. eauto.
Qed.

Lemma migrate_gen allocs raw s s1 r1 :
  files s !! formatV2MarkerPath = None -> files s !! cniIpamStatePath = Some raw ->
  json_Unmarshal raw = Some allocs -> Forall k8s_alloc allocs ->
  migrateLegacyPins json_Unmarshal s = (s1, r1) -> exists n, migrated allocs (files s) (files s1) r1 n.
Proof.
  intros Hmk Hip Hj Hk. unfold migrateLegacyPins, migrateLegacyPinsFromCNIState.
  destruct (os_Stat formatV2MarkerPath s) as [s2 st] eqn:Es. destruct (stat_law _ _ _ _ Es) as [Hs2 Hst].
  destruct st as [u| |e]; [rewrite Hmk in Hst; by destruct Hst| |intros [= <- <-]; rewrite Hs2; exists 1%nat; apply migrated_same; [|done]].
  2: { intros (Hrel & _). specialize (Hrel formatV2MarkerPath s). by rewrite Es in Hrel. }
  destruct (os_ReadFile cniIpamStatePath s2) as [s3 rd] eqn:Er. destruct (read_law _ _ _ _ Er) as [Hs3 Hrd]. rewrite Hs2 in Hs3, Hrd.
  destruct rd as [raw'| |e]; [|congruence|intros [= <- <-]; rewrite Hs3; exists 1%nat; apply migrated_same; [|done]].
  2: { intros (_ & Hrel & _). specialize (Hrel cniIpamStatePath s2). by rewrite Er in Hrel. }
  rewrite Hip in Hrd. injection Hrd as <-. rewrite Hj.
  pose proof (go_range_perm (go "byLegacyID") (map_to_list (groupByLegacyID allocs))) as Hgs.
  set (gs := go_range _ _) in *.
  destruct (groups_moved allocs gs 0 s3 Hk) as (s4 & n & Hf & Hmv).
  { intros [L pods] Hin. rewrite Hgs in Hin. by apply elem_of_map_to_list in Hin. }
  { rewrite Hgs. apply NoDup_fst_map_to_list. }
  rewrite Hs3 in Hmv. unfold mbind, ST_bind. rewrite Hf. cbn [Nat.add]. intros Hrun. exists n.
  case_decide as Hn.
  { injection Hrun as <- <-. apply (migrated_moved allocs gs (files s) (files s4)); [done..|by left|done|lia]. }
  destruct (os_MkdirAll _ s4) as [s5 e] eqn:Em. pose proof (mkdir_law _ _ _ _ Em) as Hs5. destruct e as [e|].
  { injection Hrun as <- <-. apply (migrated_moved allocs gs (files s) (files s4)); [done..|by left|done|].
    intros (_ & _ & _ & Hrel & _). specialize (Hrel (filepath_Dir formatV2MarkerPath) s4). by rewrite Em in Hrel. }
  destruct (os_WriteFile _ _ s5) as [s6 e] eqn:Ew. pose proof (write_law _ _ _ _ _ Ew) as Hs6. rewrite Hs5 in Hs6.
  destruct e as [e|]; injection Hrun as <- <-; apply (migrated_moved allocs gs (files s) (files s4)); try done.
  - destruct Hs6 as [?|?]; [by left|right; split; [lia|done]].
  - intros (_ & _ & _ & _ & Hrel) _. specialize (Hrel formatV2MarkerPath (go "v2" ++ [x0a]) s5). by rewrite Ew in Hrel.
  - right. split; [lia|]. eauto.
Qed.

(** Whatever the checkpoint holds, the migration does not panic. *)
Lemma migrate_no_panic s w : snd (migrateLegacyPins json_Unmarshal s) <> Panic w.
Proof.
  unfold migrateLegacyPins, migrateLegacyPinsFromCNIState.
  destruct (os_Stat formatV2MarkerPath s) as [s1 [u| |e]]; [done| |done].
  destruct (os_ReadFile cniIpamStatePath s1) as [s2 [raw| |e]]; [|done..]. destruct (json_Unmarshal raw) as [allocs|]; [|done].
  assert (forall L N acc k s, exists s' acc', countRename L N acc k s = (s', Ret acc')) as Hc.
  { intros L N acc [dir name] s'. unfold countRename, renamePinIfExists, mbind, ST_bind. repeat case_match; simplify_eq; by eexists _, _. }
  set (gs := go_range _ _). assert (gs ≡ₚ map_to_list (groupByLegacyID allocs)) as Hgs by apply go_range_perm.
  unfold mbind at 1, ST_bind at 1.
  edestruct (fold_each_returns (migrateGroup BPF_PROGRAMS_PIN_PATH_DIRECTORY BPF_MAPS_PIN_PATH_DIRECTORY) gs) as (s3 & n & ->).
  { intros a [L pods] s' Hin. rewrite Hgs in Hin. apply elem_of_map_to_list, group_spec in Hin as [Hne _].
    destruct (firstByName_spec pods Hne) as (p & Hp & _). unfold migrateGroup, renamePinFamily, mbind, ST_bind, lift. rewrite Hp.
    match goal with |- context [fold_each ?b ?l ?c ?s] => destruct (fold_each_returns b l c s) as (s4 & a4 & ->); [intros; apply Hc|] end.
    match goal with |- context [fold_each ?b ?l ?c ?s] => destruct (fold_each_returns b l c s) as (s5 & a5 & ->); [intros; apply Hc|] end. by eexists _, _. }
  repeat case_match; simplify_eq; done.
Qed.

(** C34: The legacy pin migration moves each pin family to the identifier that inherits it.  From a
    node that is not migrated, whatever calls fail and in whatever order the groups are
    visited: of the pods that share an old identifier the one of least name inherits; each of
    the eight pins of the old identifier is moved to that pod's new identifier, or left in place
    by a failed call; no other file changes but the marker; if the call returns nil or the
    marker is there, all pins are moved; and if it fails, a later call that returns nil
    finishes the job: nothing is lost in between.  If no call fails, the call returns nil. *)
Theorem legacy_migration allocs raw s s1 r1
  (Hmarker : files s !! formatV2MarkerPath = None) (Hipam : files s !! cniIpamStatePath = Some raw)
  (Hjson : json_Unmarshal raw = Some allocs) (Hnames : Forall k8s_alloc allocs)
  (Hrun : migrateLegacyPins json_Unmarshal s = (s1, r1)) :
  let complete m' := forall L N k, inherits allocs L N -> k ∈ pins -> move_done (files s) m' (pin_path k L) (pin_path k N) in
  (forall L N k, inherits allocs L N -> k ∈ pins ->
    move_done (files s) (files s1) (pin_path k L) (pin_path k N) \/ move_kept (files s) (files s1) (pin_path k L) (pin_path k N)) /\
  (forall p, p <> formatV2MarkerPath -> ~ inherited_pin allocs p -> files s1 !! p = files s !! p) /\
  (r1 = Ret tt -> is_Some (files s1 !! formatV2MarkerPath)) /\
  (is_Some (files s1 !! formatV2MarkerPath) -> complete (files s1)) /\
  (forall s2, migrateLegacyPins json_Unmarshal s1 = (s2, Ret tt) -> complete (files s2)) /\
  (reliable -> r1 = Ret tt).
Proof.
  intros complete. destruct (migrate_gen allocs raw s s1 r1 Hmarker Hipam Hjson Hnames Hrun) as [n Hm].
  assert (is_Some (files s1 !! formatV2MarkerPath) -> complete (files s1)) as Hc.
  { intros Hmk L N k Hi Hk. destruct (mg_moves _ _ _ _ _ Hm L N k Hi Hk) as [?|[_ Hn]]; [done|]. rewrite (mg_marker _ _ _ _ _ Hm Hmk) in Hn. lia. }
  split_and!; [|apply Hm|apply Hm|done| |apply Hm].
  { intros L N k Hi Hk. destruct (mg_moves _ _ _ _ _ Hm L N k Hi Hk) as [?|[? _]]; auto. }
  intros s2 Hrun2. destruct (files s1 !! formatV2MarkerPath) as [b|] eqn:Hmk.
  - unfold migrateLegacyPins, migrateLegacyPinsFromCNIState in Hrun2.
    destruct (os_Stat formatV2MarkerPath s1) as [s3 st] eqn:Es. destruct (stat_law _ _ _ _ Es) as [Hs3 Hst].
    destruct st as [u| |e]; [|congruence|done]. injection Hrun2 as <-. rewrite Hs3. apply Hc. eauto.
  - assert (files s1 !! cniIpamStatePath = Some raw) as Hip1.
    { rewrite (mg_others _ _ _ _ _ Hm); [done..|]. intros (L & N & k & _ & Hk & [E|E]); by apply (var_run_not_pin k _ cniIpamStatePath) in E. }
    destruct (migrate_gen allocs raw s1 s2 _ Hmk Hip1 Hjson Hnames Hrun2) as [n2 Hm2]. intros L N k Hi Hk.
    destruct (mg_moves _ _ _ _ _ Hm2 L N k Hi Hk) as [H2|[_ Hn]].
    2: { rewrite (mg_marker _ _ _ _ _ Hm2 (mg_ret _ _ _ _ _ Hm2 eq_refl)) in Hn. lia. }
  unfold move_done in *. destruct (mg_moves _ _ _ _ _ Hm L N k Hi Hk) as [[H1 H1']|[[H1 H1'] _]].
  + rewrite H1 in H2. by rewrite <-H1'.
  + by rewrite H1, H1' in H2.
Qed.
End migration.

(** ** A file system, for examples: each [true] of the script makes a rename fail. *)
Definition memfs : FileSystem.
Proof.
  refine {| fs := gmap gostring gostring * list bool; files := fst;
    os_Stat p s := (s, match fst s !! p with Some _ => IoOk tt | None => IoNotExist end);
    os_ReadFile p s := (s, match fst s !! p with Some b => IoOk b | None => IoNotExist end);
    os_Rename p q s :=
      match snd s with
      | true :: script => ((fst s, script), Some (go "device or resource busy"))
      | _ => match fst s !! p with
             | Some b => ((<[q := b]> (delete p (fst s)), tail (snd s)), None)
             | None => (s, Some (go "no such file or directory"))
             end
      end;
    os_MkdirAll _ s := (s, None);
    os_WriteFile p b s := ((<[p := b]> (fst s), snd s), None) |}.
  - intros p s s' r [= <- <-]. by destruct (fst s !! p).
  - intros p s s' r [= <- <-]. by destruct (fst s !! p).
  - intros p q [m [|[] script]] s' e; cbn; [destruct (m !! p) eqn:E..|destruct (m !! p) eqn:E]; intros [= <- <-]; cbn; eauto.
  - by intros p s s' e [= <- <-].
  - intros p b s s' e [= <- <-]. done.
Defined.

(** Two pods whose old identifiers collide; the pins are those of [a-b-c]. *)
Definition ex_allocs : list ipamAllocation :=
  [mkIpamAllocation (go "a-x") (go "b-c"); mkIpamAllocation (go "a-b-x") (go "c")].
Definition ex_prog : gostring * gostring := (BPF_PROGRAMS_PIN_PATH_DIRECTORY, TC_INGRESS_PROG).
Definition ex_fs (script : list bool) : @fs memfs :=
  ({[cniIpamStatePath := go "{}"; pin_path ex_prog (go "a-b-c") := go "program 7"]}, script).
Definition ex_run : @fs memfs * outcome unit := @migrateLegacyPins memfs listed_order (fun _ => Some ex_allocs) (ex_fs [true]).

Lemma ex_k8s : Forall k8s_alloc ex_allocs.
Proof.
  repeat constructor; intros c Hc; repeat (apply elem_of_cons in Hc as [->|Hc]; [apply (bool_decide_unpack _); vm_compute; exact I|]);
    by apply not_elem_of_nil in Hc.
Qed.

Lemma ex_inherits : inherits ex_allocs (go "a-b-c") (go "a-b@c").
Proof.
  exists (mkIpamAllocation (go "a-b-x") (go "c")). split; [by right; left|]. split; [done|]. split; [reflexivity|]. split; [reflexivity|].
  intros q [->|[->|Hq]%elem_of_cons]%elem_of_cons _ _; [reflexivity..|]. by apply not_elem_of_nil in Hq.
Qed.

(** The first rename fails and the call reports it; the next start moves the pin. *)
Definition ex_run2 : @fs memfs * outcome unit := @migrateLegacyPins memfs listed_order (fun _ => Some ex_allocs) (fst ex_run).

Lemma legacy_migration_witness :
  snd ex_run = Err (go "legacy pin migration incomplete") /\ snd ex_run2 = Ret tt /\
  files (fst ex_run2) !! pin_path ex_prog (go "a-b@c") = Some (go "program 7").
Proof.
  split; [vm_compute; reflexivity|]. split; [vm_compute; reflexivity|].
  destruct (@legacy_migration memfs listed_order (fun _ => Some ex_allocs) ex_allocs (go "{}") (ex_fs [true]) (fst ex_run) (snd ex_run))
    as (_ & _ & _ & _ & Hretry & _); [vm_compute; reflexivity..|exact ex_k8s|apply surjective_pairing|].
  destruct (Hretry (fst ex_run2)) with (L := go "a-b-c") (N := go "a-b@c") (k := ex_prog) as [_ Hd]; [|exact ex_inherits|left|].
  { rewrite (surjective_pairing (migrateLegacyPins _ _)). reflexivity. }
  etransitivity; [exact Hd|]. vm_compute. reflexivity.
Defined.
