(* ===== verification/Cloud.v ===== *)
(** [pkg/aws/cloud.go], [pkg/aws/cloud_config.go] and [pkg/aws/services/ec2_metadata.go]: the
    AWS session the policy events are published with, and the name of the cluster it finds.

    The SDK's calls are the class [AwsSdk] over a state of the outside world; a client is the
    region of its configuration.  A Go pointer in an answer is an [option]. *)
From S2P Require Import Prelude ApiTypes Effects.

Definition DEFAULT_CLUSTER_NAME : gostring := go "k8s-cluster".
Definition resourceID : gostring := go "resource-id".
Definition resourceKey : gostring := go "key".
Definition clusterNameTags : list gostring := [go "aws:eks:cluster-name"].

Record CloudConfig := mkCloudConfig {
  cloud_Region : gostring; cloud_AccountID : gostring; cloud_ClusterName : gostring
}.

(** [StringVar] declares a flag and stores its default, here the empty string, in the
    variable.  The flags a set declares are listed, in order. *)
Definition BindFlags (cfg : CloudConfig) (fs : list gostring) : CloudConfig * list gostring :=
  (mkCloudConfig [] [] (cloud_ClusterName cfg), fs ++ [go "aws-region"; go "aws-account-id"]).

Record Filter := mkFilter { filter_Name : gostring; filter_Values : list gostring }.

Class AwsSdk (W : Type) := {
  (** The region of the default configuration. *)
  config_LoadDefaultConfig : ST W gostring;
  imds_GetRegion : ST W gostring;
  (** The instance id of the document. *)
  imds_GetInstanceIdentityDocument : ST W gostring;
  (** The values of the tags found, by a client of a region. *)
  ec2_DescribeTags : gostring -> list Filter -> ST W (list (option gostring))
}.

Section cloud.
Context {W : Type} `{!AwsSdk W}.

(** [errors.Wrap]. *)
Definition wrapped {A} (m : ST W A) (text : gostring) : ST W A :=
  r ← attempt m;
  match r with Err e => fail (text ++ go ": " ++ e) | r => lift r end.

Definition metadata_Region : ST W gostring := imds_GetRegion.
Definition metadata_GetInstanceIdentityDocument : ST W gostring := imds_GetInstanceIdentityDocument.

Definition getClusterTag (tagKey region instanceID : gostring) : ST W gostring :=
  results ← wrapped (ec2_DescribeTags region [mkFilter resourceID [instanceID]; mkFilter resourceKey [tagKey]])
              (go "GetClusterTag: Unable to obtain EC2 instance tags");
  match results with
  | [] => fail (go "GetClusterTag: No tag matching key: " ++ tagKey)
  | value :: _ => lift (deref value)
  end.

(** The loop over the tags, until one has a value; an error leaves the name empty. *)
Fixpoint tryTags (tags : list gostring) (region instanceID clusterName : gostring) : ST W gostring :=
  match tags with
  | [] => mret clusterName
  | tag :: tags' =>
      r ← attempt (getClusterTag tag region instanceID);
      match r with
      | Ret name => if decide (name = []) then tryTags tags' region instanceID name else mret name
      | _ => tryTags tags' region instanceID []
      end
  end.

Definition getClusterName (region instanceID : gostring) : ST W gostring :=
  name ← tryTags clusterNameTags region instanceID [];
  mret (if decide (name = []) then DEFAULT_CLUSTER_NAME else name).

(** [defaultCloud]: the configuration, and the region of the CloudWatch client. *)
Record defaultCloud := mkDefaultCloud { cloud_cfg : CloudConfig; cloudWatchlogs : gostring }.
Definition AccountID (c : defaultCloud) : gostring := cloud_AccountID (cloud_cfg c).
Definition Region (c : defaultCloud) : gostring := cloud_Region (cloud_cfg c).
Definition ClusterName (c : defaultCloud) : gostring := cloud_ClusterName (cloud_cfg c).

Definition NewCloud (cfg : CloudConfig) : ST W defaultCloud :=
  awsRegion ← wrapped config_LoadDefaultConfig (go "failed to load AWS config");
  region ← (if decide (cloud_Region cfg = []) then
              wrapped metadata_Region
                (go "failed to introspect region from EC2Metadata, specify --aws-region instead if EC2Metadata is unavailable")
            else mret (cloud_Region cfg));
  let awsRegion := if decide (region = []) then awsRegion else region in
  instanceID ← wrapped metadata_GetInstanceIdentityDocument (go "failed to get instanceIdentityDocument from EC2Metadata");
  clusterName ← getClusterName awsRegion instanceID;
  mret (mkDefaultCloud (mkCloudConfig region (cloud_AccountID cfg) clusterName) awsRegion).

(** ** The name of the cluster *)

(** What an answer to the tag query says. *)
Definition cluster_of (answer : outcome (list (option gostring))) : gostring :=
  match answer with
  | Ret (Some name :: _) => if decide (name = []) then DEFAULT_CLUSTER_NAME else name
  | _ => DEFAULT_CLUSTER_NAME
  end.

Definition tag_query (instanceID : gostring) : list Filter :=
  [mkFilter (go "resource-id") [instanceID]; mkFilter (go "key") [go "aws:eks:cluster-name"]].

Lemma wrapped_Ret {A} (m : ST W A) text s s' a : wrapped m text s = (s', Ret a) -> m s = (s', Ret a).
Proof. unfold wrapped, mbind, ST_bind, attempt. destruct (m s) as [s1 [x|e|w]]; [|done..]. by intros [= <- <-]. Qed.

(** One query, and no error comes out of it. *)
Lemma getClusterName_result region instanceID s :
  let q := ec2_DescribeTags region (tag_query instanceID) s in
  getClusterName region instanceID s =
  (fst q, match snd q with
          | Panic w => Panic w
          | Ret (None :: _) => Panic (go "nil pointer dereference")
          | r => Ret (cluster_of r)
          end).
Proof.
  cbv zeta. unfold getClusterName. cbn [tryTags clusterNameTags]. unfold getClusterTag, wrapped, attempt, mbind, ST_bind.
  change [mkFilter resourceID [instanceID]; mkFilter resourceKey [go "aws:eks:cluster-name"]] with (tag_query instanceID).
  destruct (ec2_DescribeTags region (tag_query instanceID) s) as [s' [[|[v|] l]|e|w]]; cbn; try done.
  destruct (decide (v = [])) as [->|Hv]; [done|]. cbn. by rewrite decide_False.
Qed.

(** A session knows the cluster by the tag of its own instance, asked for in the region of the
    metadata service. *)
Lemma NewCloud_session s s' c : NewCloud (mkCloudConfig [] [] []) s = (s', Ret c) ->
  exists s0 s1 s2 s3 r0 region instanceID answer,
    config_LoadDefaultConfig s = (s0, Ret r0) /\
    imds_GetRegion s0 = (s1, Ret region) /\ imds_GetInstanceIdentityDocument s1 = (s2, Ret instanceID) /\
    ec2_DescribeTags (cloudWatchlogs c) (tag_query instanceID) s2 = (s3, answer) /\ s3 = s' /\
    cloudWatchlogs c = (if decide (region = []) then r0 else region) /\
    Region c = region /\ AccountID c = [] /\ ClusterName c = cluster_of answer.
Proof.
  unfold NewCloud. intros H. apply bind_returns in H as (s0 & r0 & H0 & H). apply wrapped_Ret in H0.
  apply bind_returns in H as (s1 & region & H1 & H). cbn [cloud_Region decide] in H1. rewrite decide_True in H1 by done. apply wrapped_Ret in H1.
  apply bind_returns in H as (s2 & id & H2 & H). apply wrapped_Ret in H2. apply bind_returns in H as (s3 & name & H3 & H).
  rewrite getClusterName_result in H3. injection H as <- <-. cbn [cloudWatchlogs].
  destruct (ec2_DescribeTags _ _ s2) as [s4 answer] eqn:E. injection H3 as -> H3. cbn in H3.
  exists s0, s1, s2, s3, r0, region, id, answer. unfold ClusterName, Region, AccountID. cbn. split_and!; try done.
  destruct answer as [[|[v|] l]|e|w]; by simplify_eq H3.
Qed.
End cloud.
