(* ===== verification/Events.v ===== *)
(** [pkg/ebpf/events/events.go]: the consumer of the classifiers' ring buffer.  Each record is
    decoded, counted when it reports a drop, and, when CloudWatch logging is on, published.

    CloudWatch Logs, the clock and the identifier generator are the class [CloudWatch]; every
    call may fail.  The records of the ring buffer are a list, in the order the channel
    delivers them.  The calls of [PutLogEvents] are recorded in [put_calls], each
    with the answer of CloudWatch: an event was received when that is no error.  The counters are
    [float64] in the code and exact as long as they stay below 2^53.  Local log lines are left
    out. *)
From S2P Require Import Prelude NetIP Utils Datapath Effects Cloud.

Definition VerdictDeny : Z := 0.
Definition ACCEPT : Z := 1.
Definition EXPIRED_DELETED : Z := 2.
Definition EKS_CW_PATH : gostring := go "/aws/eks/".
Definition NON_EKS_CW_PATH : gostring := go "/aws/".

Record ringBufferDataV4_t := mkRbV4 {
  rb4_SourceIP : Z; rb4_SourcePort : Z; rb4_DestIP : Z; rb4_DestPort : Z; rb4_Protocol : Z;
  rb4_Verdict : Z; rb4_PacketSz : Z; rb4_IsEgress : Z; rb4_Tier : Z
}.
Record ringBufferDataV6_t := mkRbV6 {
  rb6_SourceIP : list byte; rb6_SourcePort : Z; rb6_DestIP : list byte; rb6_DestPort : Z; rb6_Protocol : Z;
  rb6_Verdict : Z; rb6_PacketSz : Z; rb6_IsEgress : Z; rb6_Tier : Z
}.

(** [binary.Read] of a struct: its fields one after the other, without padding; a record that
    is too short is an error, bytes past the end are not looked at. *)
Fixpoint split_fields (widths : list nat) (bs : gostring) : list gostring :=
  match widths with [] => [] | w :: ws => take w bs :: split_fields ws (drop w bs) end.
Definition binary_Read (widths : list nat) (record : gostring) : option (list gostring) :=
  if decide (length record < sum_list widths)%nat then None else Some (split_fields widths record).

Definition readV4 (record : gostring) : option ringBufferDataV4_t :=
  match binary_Read [4; 4; 4; 4; 4; 4; 4; 1; 1]%nat record with
  | Some [sip; sport; dip; dport; proto; verdict; sz; egress; tier] =>
      Some (mkRbV4 (le_combine sip) (le_combine sport) (le_combine dip) (le_combine dport) (le_combine proto)
              (le_combine verdict) (le_combine sz) (le_combine egress) (le_combine tier))
  | _ => None
  end.
Definition readV6 (record : gostring) : option ringBufferDataV6_t :=
  match binary_Read [16; 4; 16; 4; 4; 4; 4; 1; 1]%nat record with
  | Some [sip; sport; dip; dport; proto; verdict; sz; egress; tier] =>
      Some (mkRbV6 sip (le_combine sport) dip (le_combine dport) (le_combine proto)
              (le_combine verdict) (le_combine sz) (le_combine egress) (le_combine tier))
  | _ => None
  end.

Definition getVerdict (verdict : Z) : gostring :=
  if verdict =? ACCEPT then go "ACCEPT"
  else if verdict =? EXPIRED_DELETED then go "EXPIRED/DELETED"
  else go "DENY".

Definition getTier (tier : Z) : gostring :=
  if tier =? ADMIN_TIER then go "ADMIN"
  else if tier =? NETWORK_POLICY_TIER then go "NETWORK_POLICY"
  else if tier =? BASELINE_TIER then go "BASELINE"
  else if tier =? DEFAULT_TIER then go "DEFAULT"
  else go "ERROR".

(** The message of a flow; the two families differ in how an address prints. *)
Definition flowMessage (nodeName sip dip : gostring) (sport dport protocol verdict tier : Z) : gostring :=
  go "Node: " ++ nodeName ++ go ";" ++ go "SIP: " ++ sip ++ go ";" ++ go "SPORT: " ++ Itoa sport ++ go ";" ++
  go "DIP: " ++ dip ++ go ";" ++ go "DPORT: " ++ Itoa dport ++ go ";" ++ go "PROTOCOL: " ++ GetProtocol protocol ++ go ";" ++
  go "PolicyVerdict: " ++ getVerdict verdict ++ go ";" ++ go "Tier: " ++ getTier tier.

(** What the loop keeps of a record. *)
Record flowEvent := mkFlowEvent { message : gostring; isDenyVerdict : bool; ev_direction : gostring; PacketSz : Z }.

Definition decodeRecord (enableIPv6 : bool) (nodeName record : gostring) : option flowEvent :=
  if enableIPv6 then
    rb ← readV6 record;
    Some (mkFlowEvent (flowMessage nodeName (IP_String (rb6_SourceIP rb)) (IP_String (rb6_DestIP rb)) (rb6_SourcePort rb) (rb6_DestPort rb)
                         (rb6_Protocol rb) (rb6_Verdict rb) (rb6_Tier rb))
            (rb6_Verdict rb =? VerdictDeny) (if rb6_IsEgress rb =? 0 then go "ingress" else go "egress") (rb6_PacketSz rb))
  else
    rb ← readV4 record;
    Some (mkFlowEvent (flowMessage nodeName (ConvByteArrayToIP (rb4_SourceIP rb)) (ConvByteArrayToIP (rb4_DestIP rb)) (rb4_SourcePort rb) (rb4_DestPort rb)
                         (rb4_Protocol rb) (rb4_Verdict rb) (rb4_Tier rb))
            (rb4_Verdict rb =? VerdictDeny) (if rb4_IsEgress rb =? 0 then go "ingress" else go "egress") (rb4_PacketSz rb)).

(** ** CloudWatch *)
Record PutLogEventsInput := mkPutLogEventsInput {
  LogEvents : list (gostring * Z); LogGroupName : gostring; LogStreamName : gostring; SequenceToken : option gostring
}.

(** An error of [CreateLogGroup]: [errors.As(err, &resourceExists)] tells the first kind. *)
Inductive cw_error := ResourceAlreadyExists | OtherError (e : gostring).

Class CloudWatch := {
  cw : Type;
  (** The log groups of the account. *)
  log_groups : cw -> gset gostring;
  (** The calls of [pkg/aws]. *)
  aws_sdk :: AwsSdk cw;
  DescribeLogGroups : cw -> cw * outcome (list gostring);
  CreateLogGroup : gostring -> cw -> cw * option cw_error;
  CreateLogStream : gostring -> gostring -> cw -> cw * option gostring;
  (** The next sequence token, when the response has one. *)
  PutLogEvents : PutLogEventsInput -> cw -> cw * outcome (option gostring);
  uuid_New : cw -> cw * gostring;
  time_Now : cw -> cw * Z;
  describe_law : forall s s' l, DescribeLogGroups s = (s', Ret l) -> forall n, n ∈ l -> n ∈ log_groups s';
  create_group_law : forall n s s' e, CreateLogGroup n s = (s', e) ->
    match e with None | Some ResourceAlreadyExists => n ∈ log_groups s' | Some (OtherError _) => True end
}.

Section events.
Context `{!CloudWatch}.

Record eventsState := mkEventsState {
  dropCountTotal : gmap gostring Z;
  dropBytesTotal : gmap gostring Z;
  logGroupName : gostring;
  logStreamName : gostring;
  sequenceToken : gostring;
  put_calls : list (PutLogEventsInput * outcome (option gostring));
  cw_state : cw
}.
Definition counter (m : gmap gostring Z) (label : gostring) : Z := default 0 (m !! label).

Definition cwCall {A} (f : cw -> cw * A) : ST eventsState A := fun s =>
  let '(c, a) := f (cw_state s) in
  (mkEventsState (dropCountTotal s) (dropBytesTotal s) (logGroupName s) (logStreamName s) (sequenceToken s) (put_calls s) c, Ret a).
Definition addDrop (label : gostring) (n : Z) : ST eventsState unit := modify (fun s =>
    mkEventsState (<[label := counter (dropCountTotal s) label + 1]> (dropCountTotal s))
    (<[label := counter (dropBytesTotal s) label + n]> (dropBytesTotal s))
    (logGroupName s) (logStreamName s) (sequenceToken s) (put_calls s) (cw_state s)).
Definition set_logGroupName (n : gostring) : ST eventsState unit := modify (fun s =>
    mkEventsState (dropCountTotal s) (dropBytesTotal s) n (logStreamName s) (sequenceToken s) (put_calls s) (cw_state s)).
Definition set_logStreamName (n : gostring) : ST eventsState unit := modify (fun s =>
    mkEventsState (dropCountTotal s) (dropBytesTotal s) (logGroupName s) n (sequenceToken s) (put_calls s) (cw_state s)).
Definition set_sequenceToken (t : gostring) : ST eventsState unit := modify (fun s =>
    mkEventsState (dropCountTotal s) (dropBytesTotal s) (logGroupName s) (logStreamName s) t (put_calls s) (cw_state s)).
Definition putLogEvents (input : PutLogEventsInput) : ST eventsState (outcome (option gostring)) :=
  resp ← cwCall (PutLogEvents input);
  modify (fun s => mkEventsState (dropCountTotal s) (dropBytesTotal s) (logGroupName s) (logStreamName s) (sequenceToken s)
    (put_calls s ++ [(input, resp)]) (cw_state s));;
  mret resp.

Definition ensureLogGroupExists (name : gostring) : ST eventsState unit :=
  resp ← cwCall DescribeLogGroups;
  groups ← lift resp;
  if decide (name ∈ groups) then mret tt else
  e ← cwCall (CreateLogGroup name);
  match e with
  | None | Some ResourceAlreadyExists => mret tt
  | Some (OtherError e) => fail e
  end.

Definition createLogStream : ST eventsState (option gostring) :=
  id ← cwCall uuid_New;
  let name := go "aws-network-policy-agent-audit-" ++ id in
  s ← get;
  err ← cwCall (CreateLogStream (logGroupName s) name);
  set_logStreamName name;;
  mret err.

Definition setupCW : ST eventsState unit :=
  let '(awsCloudConfig, _) := BindFlags (mkCloudConfig [] [] []) [] in
  session ← cwCall (NewCloud awsCloudConfig);
  cloud ← lift session;
  let clusterName := ClusterName cloud in
  let customlogGroupName :=
    if decide (clusterName = DEFAULT_CLUSTER_NAME) then NON_EKS_CW_PATH ++ clusterName ++ go "/cluster"
    else EKS_CW_PATH ++ clusterName ++ go "/cluster" in
  ensureLogGroupExists customlogGroupName;;
  set_logGroupName customlogGroupName.

(** The input is built before the log stream is created: it holds the stream name and the
    token of that moment. *)
Definition publishDataToCloudwatch (logQueue : list (gostring * Z)) (message : gostring) : ST eventsState bool :=
  now ← cwCall time_Now;
  let logQueue := logQueue ++ [(message, now)] in
  if decide (0 < length logQueue)%nat then
    s ← get;
    let input := mkPutLogEventsInput logQueue (logGroupName s) (logStreamName s) None in
    input ← (if decide (sequenceToken s = []) then
             err ← createLogStream;
             match err with
             | Some e => lift (Panic e)
             | None => mret input
             end
           else mret (mkPutLogEventsInput logQueue (logGroupName s) (logStreamName s) (Some (sequenceToken s))));
    resp ← putLogEvents input;
    match resp with
    | Ret (Some next) => set_sequenceToken next;; mret false
    | _ => mret false
    end
  else mret true.

(** One record: the result is [done]. *)
Definition captureRecord (nodeName : gostring) (enableCloudWatchLogs enableIPv6 : bool) (logLevel record : gostring) : ST eventsState bool :=
  match decodeRecord enableIPv6 nodeName record with
  | None => mret false
  | Some ev =>
      (if isDenyVerdict ev then addDrop (ev_direction ev) (PacketSz ev) else mret tt);;
      if enableCloudWatchLogs && (isDenyVerdict ev || bool_decide (logLevel = go "debug"))
      then publishDataToCloudwatch [] (message ev)
      else mret false
  end.

Fixpoint capturePolicyEvents (nodeName : gostring) (enableCloudWatchLogs enableIPv6 : bool) (logLevel : gostring)
  (ringbufferdata : list gostring) : ST eventsState unit :=
  match ringbufferdata with
  | [] => mret tt
  | record :: rest =>
      done ← captureRecord nodeName enableCloudWatchLogs enableIPv6 logLevel record;
      if (done : bool) then mret tt else capturePolicyEvents nodeName enableCloudWatchLogs enableIPv6 logLevel rest
  end.

(** Returns the channel the event loop then runs on. *)
Definition ConfigurePolicyEventsLogging (InitRingBuffer : Z -> outcome (list gostring)) (enableCloudWatchLogs : bool) (mapFD : Z) :
  ST eventsState (list gostring) :=
  if mapFD <=? 0 then fail (go "Invalid Ringbuffer FD: " ++ Itoa mapFD) else
  eventChan ← lift (InitRingBuffer mapFD);
  (if enableCloudWatchLogs then setupCW else mret tt);;
  mret eventChan.
End events.
