(* ===== verification/EventsFacts.v ===== *)
(** The events the classifier emits, from the ring buffer to the counters and to CloudWatch. *)
From S2P Require Import Prelude NetIP ApiTypes Utils UtilsFacts Datapath DatapathFacts Effects Cloud Events.

(** ** Decoding *)

(** [struct data_t] as the program writes it: the fields, little-endian, and two bytes of
    padding. *)
Definition data_t_parts (e : data_t) : list gostring :=
  [le_split 4 (ev_src_ip e); le_split 4 (ev_src_port e); le_split 4 (ev_dest_ip e); le_split 4 (ev_dest_port e);
   le_split 4 (ev_protocol e); le_split 4 (ev_verdict e); le_split 4 (ev_packet_sz e); le_split 1 (ev_is_egress e); le_split 1 (ev_tier e)].
Definition data_t_bytes (e : data_t) (pad : gostring) : gostring := concat (data_t_parts e) ++ pad.

Record data_t_ok (e : data_t) : Prop := {
  ok_src_ip : 0 <= ev_src_ip e < 2 ^ 32;
  ok_src_port : 0 <= ev_src_port e < 2 ^ 32;
  ok_dest_ip : 0 <= ev_dest_ip e < 2 ^ 32;
  ok_dest_port : 0 <= ev_dest_port e < 2 ^ 32;
  ok_protocol : 0 <= ev_protocol e < 2 ^ 32;
  ok_verdict : 0 <= ev_verdict e < 2 ^ 32;
  ok_packet_sz : 0 <= ev_packet_sz e < 2 ^ 32;
  ok_is_egress : 0 <= ev_is_egress e < 2 ^ 8;
  ok_tier : 0 <= ev_tier e < 2 ^ 8
}.

Lemma split_fields_concat (parts : list gostring) rest : split_fields (length <$> parts) (concat parts ++ rest) = parts.
Proof.
  induction parts as [|p ps IH]; [done|]. cbn [fmap list_fmap split_fields concat]. rewrite <-app_assoc.
  by rewrite take_app_length, drop_app_length, IH.
Qed.

Lemma binary_Read_concat (parts : list gostring) rest : binary_Read (length <$> parts) (concat parts ++ rest) = Some parts.
Proof.
  unfold binary_Read. rewrite split_fields_concat, decide_False; [done|].
  rewrite length_app. assert (length (concat parts) = sum_list (length <$> parts)) as ->; [|lia].
  induction parts as [|p ps IH]; [done|]. cbn. by rewrite length_app, IH.
Qed.

Definition rb_of (e : data_t) : ringBufferDataV4_t :=
  mkRbV4 (ev_src_ip e) (ev_src_port e) (ev_dest_ip e) (ev_dest_port e) (ev_protocol e) (ev_verdict e) (ev_packet_sz e) (ev_is_egress e) (ev_tier e).

Lemma readV4_bytes e pad : data_t_ok e -> readV4 (data_t_bytes e pad) = Some (rb_of e).
Proof.
  intros []. unfold readV4, data_t_bytes.
  replace [4; 4; 4; 4; 4; 4; 4; 1; 1]%nat with (length (A:=byte) <$> data_t_parts e)
    by (unfold data_t_parts; cbn [fmap list_fmap]; by rewrite !length_le_split).
  rewrite binary_Read_concat. unfold data_t_parts. rewrite !le_combine_split, !Z.mod_small by lia. done.
Qed.

(** ** What the classifier emits *)

(** The pod states and the actions of the cluster rules the agent writes. *)
Definition decisive (s : dp_state) : Prop :=
  (forall k v, ingress_pod_state_map s !! k = Some v -> v = POLICIES_APPLIED \/ v = DEFAULT_ALLOW \/ v = DEFAULT_DENY) /\
  (forall k v, cp_ingress_map s !! k = Some v -> Forall (fun e => pv_Priority e mod 10 <= ACTION_PASS) (read_BPFL4PriorityVals v)).

Section classifier.
Context `{L : !LPM}.

Lemma cp_step_action proto port r v : 0 <= baseline_tier_action r <= ACTION_PASS -> pv_Priority v mod 10 <= ACTION_PASS ->
  0 <= baseline_tier_action (cp_step proto port r v) <= ACTION_PASS.
Proof.
  intros Hr Hv. pose proof (Z.mod_pos_bound (pv_Priority v) 10 eq_refl).
  unfold cp_step. destruct (cp_entry_match _ _ _); [|done].
  destruct ((_ <? admin_tier_priority r) || _); destruct ((ADMIN_TIER_PRIORITY_LIMIT <? _) && _); cbn; unfold ACTION_PASS in *; lia.
Qed.

Lemma cluster_action s ip proto port : decisive s ->
  0 <= baseline_tier_action (evaluateClusterPolicyByLookUp (cp_ingress_map s) ip proto port) <= ACTION_PASS.
Proof.
  intros [_ Hc]. unfold evaluateClusterPolicyByLookUp.
  destruct (bpf_map_lookup_lpm (cp_ingress_map s) ip) as [v|] eqn:E; [|by cbn].
  apply lookup_lpm_Some in E as (k & Hk & _). specialize (Hc k v Hk).
  assert (forall r, 0 <= baseline_tier_action r <= ACTION_PASS ->
    0 <= baseline_tier_action (foldl (cp_step proto port) r (read_BPFL4PriorityVals v)) <= ACTION_PASS) as H; [|by apply H].
  induction Hc as [|x l Hx _ IH]; intros r Hr; cbn [foldl]; [done|]. apply IH. by apply cp_step_action.
Qed.

Lemma np_loop_action vals proto port : np_loop vals proto port = ACTION_ALLOW \/ np_loop vals proto port = ACTION_DENY.
Proof. induction vals as [|v l IH]; cbn [np_loop]; [by right|]. repeat case_match; auto. Qed.

Lemma decideFlow_tier s ip proto port pst : decisive s ->
  pst = POLICIES_APPLIED \/ pst = DEFAULT_ALLOW \/ pst = DEFAULT_DENY ->
  exists ret t, decideFlow (ingress_map s) (cp_ingress_map s) ip proto port pst = (ret, Some t) /\ 0 <= t < 2 ^ 8.
Proof.
  intros Hd Hp. pose proof (cluster_action s ip proto port Hd) as Hb. unfold decideFlow.
  set (r := evaluateClusterPolicyByLookUp _ _ _ _) in *. set (v := evaluateNamespacePolicyByLookUp _ _ _ _ _).
  assert (v = ACTION_ALLOW \/ v = ACTION_DENY \/ (v = ACTION_PASS /\ pst <> POLICIES_APPLIED)) as Hv.
  { unfold v, evaluateNamespacePolicyByLookUp. destruct (bpf_map_lookup_lpm _ _); [destruct (np_loop_action (read_BPFTrieVals l) proto port); auto|].
    destruct (Z.eqb_spec pst POLICIES_APPLIED); cbn; auto. }
  unfold POLICIES_APPLIED, DEFAULT_ALLOW, DEFAULT_DENY, ACTION_ALLOW, ACTION_DENY, ACTION_PASS in *. clearbody v.
  assert (baseline_tier_action r = 0 \/ baseline_tier_action r = 1 \/ baseline_tier_action r = 2) as Ha by lia.
  repeat match goal with
       | |- context [?a =? ?b] => destruct (Z.eqb_spec a b)
       | |- context [?a <=? ?b] => destruct (Z.leb_spec a b)
       end;
    first [ eexists _, _; split; [reflexivity|unfold ADMIN_TIER, NETWORK_POLICY_TIER, BASELINE_TIER, DEFAULT_TIER; lia] | exfalso; lia ].
Qed.
End classifier.

(** ** The consumer *)
Section consumer.
Context `{CW : !CloudWatch}.

(** Some call of [CreateLogStream] failed with [e]. *)
Definition stream_failed (e : gostring) : Prop := exists group name c c', CreateLogStream group name c = (c', Some e).

(** A call of [PutLogEvents] and its answer. *)
Abbreviation put_call := (PutLogEventsInput * outcome (option gostring))%type.
Definition put_message (c : put_call) : list gostring := fst <$> LogEvents c.1.
Definition answered (c : put_call) : Prop := exists s s', PutLogEvents c.1 s = (s', c.2).
Definition accepted (c : put_call) : Prop := match c.2 with Ret _ => True | _ => False end.
#[global] Instance accepted_dec c : Decision (accepted c).
Proof. unfold accepted. destruct c.2; apply _. Defined.

(** The messages CloudWatch received. *)
Definition received (calls : list put_call) : list gostring := concat (put_message <$> filter accepted calls).

(** A log stream that was created. *)
Definition new_stream (name : gostring) : Prop := exists id, name = go "aws-network-policy-agent-audit-" ++ id.
Definition next_token (token : gostring) (answer : outcome (option gostring)) : gostring :=
  match answer with Ret (Some next) => next | _ => token end.

(** The stream and the token of each call, from those current before the first to those after
    the last.  Without a token a stream is created, but the call goes to the one before it. *)
Inductive puts : gostring -> gostring -> list put_call -> gostring -> gostring -> Prop :=
  | puts_nil stream token : puts stream token [] stream token
  | puts_cons stream token c calls stream1 stream' token' :
  LogStreamName c.1 = stream ->
  SequenceToken c.1 = (if decide (token = []) then None else Some token) ->
  (if decide (token = []) then new_stream stream1 else stream1 = stream) ->
  puts stream1 (next_token token c.2) calls stream' token' -> puts stream token (c :: calls) stream' token'.

Lemma puts_app s1 t1 l1 s2 t2 l2 s3 t3 : puts s1 t1 l1 s2 t2 -> puts s2 t2 l2 s3 t3 -> puts s1 t1 (l1 ++ l2) s3 t3.
Proof. induction 1; [done|]. intros. by eapply puts_cons; eauto. Qed.

Lemma received_flows calls flows : put_message <$> calls = (fun m => [m]) <$> flows ->
  received calls `sublist_of` flows /\ (Forall accepted calls -> received calls = flows).
Proof.
  unfold received. revert flows. induction calls as [|c calls IH]; intros [|m flows] Hm; cbn in Hm; [done|done|done|].
  injection Hm as Hc Hm. destruct (IH flows Hm) as [Hs He]. rewrite filter_cons. case_decide as Ha; cbn.
  - rewrite Hc. split; [by constructor|]. intros [_ Hall]%Forall_cons. cbn. by rewrite He.
  - split; [by constructor|]. by intros [? _]%Forall_cons.
Qed.

Definition same_counters (s s' : eventsState) : Prop :=
  dropCountTotal s' = dropCountTotal s /\ dropBytesTotal s' = dropBytesTotal s /\ logGroupName s' = logGroupName s.

Local Ltac proj_state := cbn [cw_state sequenceToken logGroupName logStreamName put_calls dropCountTotal dropBytesTotal] in *.

Lemma publish_spec msg s s' r : publishDataToCloudwatch [] msg s = (s', r) -> same_counters s s' /\
  match r with
  | Ret done => done = false /\ exists c, put_calls s' = put_calls s ++ [c] /\ put_message c = [msg] /\
      (LogGroupName c.1 = logGroupName s /\ answered c) /\
      puts (logStreamName s) (sequenceToken s) [c] (logStreamName s') (sequenceToken s')
  | Panic e => stream_failed e /\ put_calls s' = put_calls s
  | Err _ => False
  end.
Proof.
  unfold publishDataToCloudwatch, createLogStream, putLogEvents, cwCall, set_logStreamName, set_sequenceToken. unfold_st.
  destruct (time_Now (cw_state s)) as [c1 now]. cbn [app length]. proj_state.
  rewrite decide_True by lia. case_decide as Ht; proj_state.
  - destruct (uuid_New c1) as [c2 id]. proj_state.
    match goal with |- context [CreateLogStream ?a ?b ?c] => destruct (CreateLogStream a b c) as [c3 [e|]] eqn:E end; proj_state.
    { intros [= <- <-]. split; [done|]. split; [|done]. by do 4 eexists. }
    match goal with |- context [PutLogEvents ?a ?b] => destruct (PutLogEvents a b) as [c4 answer] eqn:Ep end.
    intros H. assert (s' = mkEventsState (dropCountTotal s) (dropBytesTotal s) (logGroupName s) (go "aws-network-policy-agent-audit-" ++ id)
      (next_token (sequenceToken s) answer) (put_calls s ++ [(mkPutLogEventsInput [(msg, now)] (logGroupName s) (logStreamName s) None, answer)]) c4 /\ r = Ret false) as [-> ->]
      by (destruct answer as [[next|]|e|w]; by injection H as <- <-).
    split; [done|]. split; [done|]. eexists. split; [reflexivity|]. split; [done|]. split; [split; [done|by eexists _, _]|]. proj_state.
    eapply puts_cons; [done|by rewrite decide_True|rewrite decide_True by done; by eexists|apply puts_nil].
  - match goal with |- context [PutLogEvents ?a ?b] => destruct (PutLogEvents a b) as [c4 answer] eqn:Ep end.
    intros H. assert (s' = mkEventsState (dropCountTotal s) (dropBytesTotal s) (logGroupName s) (logStreamName s)
      (next_token (sequenceToken s) answer) (put_calls s ++ [(mkPutLogEventsInput [(msg, now)] (logGroupName s) (logStreamName s) (Some (sequenceToken s)), answer)]) c4 /\ r = Ret false) as [-> ->]
      by (destruct answer as [[next|]|e|w]; by injection H as <- <-).
    split; [done|]. split; [done|]. eexists. split; [reflexivity|]. split; [done|]. split; [split; [done|by eexists _, _]|]. proj_state.
    eapply puts_cons; [done|by rewrite decide_False|by rewrite decide_False|apply puts_nil].
Qed.

Section loop.
Context (nodeName : gostring) (enableCloudWatchLogs enableIPv6 : bool) (logLevel : gostring).

Definition decoded (records : list gostring) : list flowEvent := omap (decodeRecord enableIPv6 nodeName) records.
Definition drops_of (label : gostring) (evs : list flowEvent) : list flowEvent :=
  filter (fun e => isDenyVerdict e = true /\ ev_direction e = label) evs.
Definition sum_Z (l : list Z) : Z := foldr Z.add 0 l.
(** Denied flows always, the others at debug level. *)
Definition to_publish (evs : list flowEvent) : list flowEvent :=
  filter (fun e => enableCloudWatchLogs = true /\ (isDenyVerdict e = true \/ logLevel = go "debug")) evs.

(** What a loop over [evs] leaves behind. *)
Record captured (evs : list flowEvent) (s s' : eventsState) : Prop := {
  cap_count : forall label, counter (dropCountTotal s') label = counter (dropCountTotal s) label + Z.of_nat (length (drops_of label evs));
  cap_bytes : forall label, counter (dropBytesTotal s') label = counter (dropBytesTotal s) label + sum_Z (PacketSz <$> drops_of label evs);
  cap_put : exists calls, put_calls s' = put_calls s ++ calls /\
  put_message <$> calls = (fun e => [message e]) <$> to_publish evs /\ Forall (fun c => LogGroupName c.1 = logGroupName s /\ answered c) calls /\
  puts (logStreamName s) (sequenceToken s) calls (logStreamName s') (sequenceToken s');
  cap_group : logGroupName s' = logGroupName s
}.

Lemma sum_Z_app l1 l2 : sum_Z (l1 ++ l2) = sum_Z l1 + sum_Z l2.
Proof. induction l1 as [|x l1 IH]; [done|]. cbn. fold (sum_Z (l1 ++ l2)). fold (sum_Z l1). lia. Qed.

Lemma captured_nil s : captured [] s s.
Proof. split; [intros; cbn; lia|intros; cbn; lia|exists []; rewrite app_nil_r; split_and!; [done..|constructor]|done]. Qed.

Lemma captured_app e1 e2 s s1 s2 : captured e1 s s1 -> captured e2 s1 s2 -> captured (e1 ++ e2) s s2.
Proof.
  intros [C1 B1 (i1 & P1 & M1 & G1 & S1) N1] [C2 B2 (i2 & P2 & M2 & G2 & S2) N2]. split; unfold drops_of, to_publish in *.
  - intros label. rewrite filter_app, length_app, C2, C1. lia.
  - intros label. rewrite filter_app, fmap_app, sum_Z_app, B2, B1. lia.
  - exists (i1 ++ i2). rewrite P2, P1, filter_app, !fmap_app, M1, M2, <-app_assoc. split_and!; [done|done| |by eapply puts_app].
    apply Forall_app. split; [done|]. by rewrite <-N1.
  - congruence.
Qed.

Lemma captureRecord_spec record s s' r :
  captureRecord nodeName enableCloudWatchLogs enableIPv6 logLevel record s = (s', r) ->
  match r with
  | Ret done => done = false /\ captured (decoded [record]) s s'
  | Panic e => stream_failed e /\ enableCloudWatchLogs = true
  | Err _ => False
  end.
Proof.
  unfold captureRecord, decoded. cbn [omap list_omap]. destruct (decodeRecord enableIPv6 nodeName record) as [ev|]; cbn.
  2: { intros [= <- <-]. split; [done|apply captured_nil]. }
  set (s1 := fst ((if isDenyVerdict ev then addDrop (ev_direction ev) (PacketSz ev) else mret tt) s)).
  assert (forall s2 inputs, same_counters s1 s2 -> put_calls s2 = put_calls s ++ inputs ->
    put_message <$> inputs = (fun e => [message e]) <$> to_publish [ev] -> Forall (fun c => LogGroupName c.1 = logGroupName s /\ answered c) inputs ->
    puts (logStreamName s) (sequenceToken s) inputs (logStreamName s2) (sequenceToken s2) ->
    captured [ev] s s2) as Hcap.
  { intros s2 inputs (Hc & Hb & Hg) Hp Hm Hf Hs. unfold s1 in *. split; [| |by exists inputs|].
    - intros label. rewrite Hc. unfold drops_of. rewrite filter_cons, filter_nil. destruct (isDenyVerdict ev) eqn:Ed; cbn.
      + unfold counter. destruct (decide (ev_direction ev = label)) as [<-|Hne].
        * rewrite decide_True by done. by rewrite lookup_insert_eq.
        * rewrite decide_False by naive_solver. rewrite lookup_insert_ne by done. cbn. lia.
      + rewrite decide_False by naive_solver. cbn. lia.
    - intros label. rewrite Hb. unfold drops_of. rewrite filter_cons, filter_nil. destruct (isDenyVerdict ev) eqn:Ed; cbn.
      + unfold counter. destruct (decide (ev_direction ev = label)) as [<-|Hne].
        * rewrite decide_True by done. rewrite lookup_insert_eq. cbn. lia.
        * rewrite decide_False by naive_solver. rewrite lookup_insert_ne by done. cbn. lia.
      + rewrite decide_False by naive_solver. cbn. lia.
    - rewrite Hg. by destruct (isDenyVerdict ev). }
  assert (put_calls s1 = put_calls s /\ logGroupName s1 = logGroupName s /\ logStreamName s1 = logStreamName s /\ sequenceToken s1 = sequenceToken s /\
    (if isDenyVerdict ev then addDrop (ev_direction ev) (PacketSz ev) else mret tt) s = (s1, Ret tt)) as (Hput & Hgrp & Hstr & Htok & Hrun)
    by (unfold s1; by destruct (isDenyVerdict ev)).
  unfold mbind, ST_bind. rewrite Hrun.
  assert ((enableCloudWatchLogs && (isDenyVerdict ev || bool_decide (logLevel = go "debug"))) = true <->
      enableCloudWatchLogs = true /\ (isDenyVerdict ev = true \/ logLevel = go "debug")) as Hdec.
  { rewrite andb_true_iff, orb_true_iff, bool_decide_eq_true. done. }
  unfold to_publish in Hcap. rewrite filter_cons, filter_nil in Hcap.
  destruct (enableCloudWatchLogs && (isDenyVerdict ev || _)) eqn:Eb.
  - intros H. apply publish_spec in H as [Hsame H]. destruct r as [dn|e|e].
    + destruct H as (-> & input & Hpc & Hmsg & [Hg Ha] & Hs). rewrite Hstr, Htok in Hs.
      split; [done|]. apply (Hcap _ [input]); [done|by rewrite Hpc, Hput| | |done].
      * rewrite decide_True by (by apply Hdec). cbn. by rewrite Hmsg.
      * constructor; [split; [congruence|done]|constructor].
    + done.
    + destruct H as [H _]. split; [done|]. by apply andb_true_iff in Eb as [? _].
  - intros [= <- <-]. split; [done|]. apply (Hcap _ []); [done|by rewrite Hput, app_nil_r| |constructor|rewrite Hstr, Htok; constructor].
    rewrite decide_False; [done|]. intros Hd. apply Hdec in Hd. congruence.
Qed.

Lemma capture_spec records s s' r :
  capturePolicyEvents nodeName enableCloudWatchLogs enableIPv6 logLevel records s = (s', r) ->
  match r with
  | Ret _ => captured (decoded records) s s'
  | Panic e => stream_failed e /\ enableCloudWatchLogs = true
  | Err _ => False
  end.
Proof.
  revert s. induction records as [|rec records IH]; intros s; cbn [capturePolicyEvents].
  { intros [= <- <-]. apply captured_nil. }
  unfold mbind, ST_bind. destruct (captureRecord _ _ _ _ rec s) as [s1 r1] eqn:E. apply captureRecord_spec in E.
  destruct r1 as [dn|e|e]; [|done|by intros [= <- <-]]. destruct E as [-> E]. intros H. apply IH in H.
  destruct r as [u|e|e]; [|done..]. change (rec :: records) with ([rec] ++ records).
  unfold decoded. rewrite omap_app. by eapply captured_app.
Qed.
End loop.
End consumer.

(** C36: Which flows are put to CloudWatch, and which it receives.  Whatever CloudWatch answers, on
    IPv4 or IPv6: if the event loop returns, it called [PutLogEvents] once for each record that
    decodes and is denied or, at debug level, any, in order, with that flow's message alone, in
    the configured log group and in the log stream that was current before the call, with the
    token of the last answer that had one; a record that does not decode stops nothing.
    CloudWatch receives the flows whose call it answered without an error, which is all of them
    when it never fails; a flow whose call fails is not put again.  The loop does not return an
    error, and it panics only when creating a log stream fails. *)
Theorem capture_publishes `{!CloudWatch} nodeName cwl v6 logLevel records st st' r
    (Hrun : capturePolicyEvents nodeName cwl v6 logLevel records st = (st', r)) :
  (r = Ret tt -> exists calls, put_calls st' = put_calls st ++ calls /\
     let flows := message <$> to_publish cwl logLevel (decoded nodeName v6 records) in
     put_message <$> calls = (fun m => [m]) <$> flows /\
     Forall (fun c => LogGroupName c.1 = logGroupName st /\ answered c) calls /\
     puts (logStreamName st) (sequenceToken st) calls (logStreamName st') (sequenceToken st') /\
     received calls `sublist_of` flows /\ (Forall accepted calls -> received calls = flows)) /\
  (forall e, r <> Err e) /\
  (forall e, r = Panic e -> cwl = true /\ stream_failed e).
Proof.
  apply capture_spec in Hrun. destruct r as [[]|e|e].
  - split; [|done]. intros _. destruct Hrun as [_ _ (calls & Hp & Hm & Hc & Hs) _]. exists calls. split; [done|]. intros flows.
    assert (put_message <$> calls = (fun m => [m]) <$> flows) as Hm' by (unfold flows; by rewrite Hm, <-list_fmap_compose).
    split; [done|]. split; [done|]. split; [done|]. by apply received_flows.
  - done.
  - destruct Hrun. split; [done|]. split; [done|]. by intros e' [= <-].
Qed.

(** The log group flows go to.  When [setupCW] returns nil, it asked the metadata service
    for the region and for the identity of this instance, and EC2, in that region, for the
    instance's [aws:eks:cluster-name] tag.  The account has the log group that the state now
    names: the EKS group of the cluster the tag names; and the group of a self-managed cluster
    when the query fails, finds no tag or an empty one. *)
Theorem setupCW_group `{!CloudWatch} st st' (Hrun : setupCW st = (st', Ret tt)) :
  logGroupName st' ∈ log_groups (cw_state st') /\
  exists s0 s1 s2 s3 r0 region instanceID answer,
    imds_GetRegion s0 = (s1, Ret region) /\ imds_GetInstanceIdentityDocument s1 = (s2, Ret instanceID) /\
    ec2_DescribeTags (if decide (region = []) then r0 else region) (tag_query instanceID) s2 = (s3, answer) /\
    config_LoadDefaultConfig (cw_state st) = (s0, Ret r0) /\
    logGroupName st' =
      match answer with
      | Ret (Some name :: _) =>
          if decide (name = [] \/ name = DEFAULT_CLUSTER_NAME) then go "/aws/k8s-cluster/cluster" else go "/aws/eks/" ++ name ++ go "/cluster"
      | _ => go "/aws/k8s-cluster/cluster"
      end.
Proof.
  unfold setupCW, BindFlags in Hrun. apply bind_returns in Hrun as (t1 & session & H1 & Hrun). apply bind_returns in Hrun as (t2 & cloud & H2 & Hrun).
  injection H2 as <- ->. unfold cwCall in H1. destruct (NewCloud _ (cw_state st)) as [c1 r1] eqn:Ec. injection H1 as <- ->.
  apply NewCloud_session in Ec as (s0 & s1 & s2 & s3 & r0 & region & id & answer & Hc & Hr & Hi & Hq & -> & Hcw & _ & _ & Hname). rewrite Hcw in Hq.
  set (name := if decide (ClusterName cloud = _) then _ else _) in Hrun.
  assert (logGroupName st' = name /\ name ∈ log_groups (cw_state st')) as [-> Hin].
  { apply bind_returns in Hrun as (t3 & [] & He & Hs). injection Hs as <-. cbn [logGroupName cw_state]. split; [done|].
    unfold ensureLogGroupExists in He. apply bind_returns in He as (t4 & resp & Hd & He). unfold cwCall in Hd. cbn [cw_state] in Hd.
    destruct (DescribeLogGroups c1) as [c2 rd] eqn:Ed. injection Hd as <- <-. apply bind_returns in He as (t5 & groups & Hg & He). injection Hg as <- ->.
    case_decide as Hd; [injection He as <-; by eapply describe_law|].
    apply bind_returns in He as (t6 & e & Hcr & He). unfold cwCall in Hcr. cbn [cw_state] in Hcr. destruct (CreateLogGroup name c2) as [c3 e'] eqn:Ecr.
    injection Hcr as <- <-. apply create_group_law in Ecr. destruct e' as [[|e']|]; [|done|]; injection He as <-; done. }
  split; [done|]. exists s0, s1, s2, c1, r0, region, id, answer. split_and!; [done..|]. unfold name. rewrite Hname. unfold cluster_of.
  destruct answer as [[|[v|] l]|e|w]; [done| |done..]. destruct (decide (v = [])) as [->|Hv]; [done|].
  destruct (decide (v = DEFAULT_CLUSTER_NAME)) as [->|Hd]; [by rewrite decide_True by auto|]. rewrite decide_False by tauto. done.
Qed.

(** The first flow goes to the wrong log stream.  While there is no sequence token, each
    publication creates a new log stream but puts its events to the stream that was current
    before: the input copies the stream's name before the stream is created.  From the initial
    state, the first event is put to the stream with the empty name. *)
Theorem publish_stale_stream `{!CloudWatch} msg st st' b
    (Htoken : sequenceToken st = []) (Hrun : publishDataToCloudwatch [] msg st = (st', Ret b)) :
  new_stream (logStreamName st') /\
  exists c, put_calls st' = put_calls st ++ [c] /\ put_message c = [msg] /\ LogStreamName c.1 = logStreamName st.
Proof.
  apply publish_spec in Hrun as [_ (_ & c & Hp & Hm & _ & Hs)]. inversion Hs as [|? ? ? ? ? ? ? Hname _ Hnew Hnil]; subst.
  rewrite decide_True in Hnew by done. inversion Hnil; subst. split; [congruence|]. by exists c.
Qed.

(** ** Examples *)

(** A CloudWatch that accepts everything and returns a token. *)
Definition demo_cw : CloudWatch.
Proof.
  refine {| cw := gset gostring; log_groups := fun s => s;
    aws_sdk := {| config_LoadDefaultConfig s := (s, Ret []); imds_GetRegion s := (s, Ret (go "us-west-2"));
      imds_GetInstanceIdentityDocument s := (s, Ret (go "i-0a1"));
      ec2_DescribeTags _ _ s := (s, Ret [Some (go "prod")]) |};
    DescribeLogGroups s := (s, Ret (elements s));
    CreateLogGroup n s := ({[n]} ∪ s, None);
    CreateLogStream _ _ s := (s, None);
    PutLogEvents _ s := (s, Ret (Some (go "token")));
    uuid_New s := (s, go "7f3a");
    time_Now s := (s, 1700000000000) |}.
  - intros s s' l [= <- <-] n Hn. by apply elem_of_elements.
  - intros n s s' e [= <- <-]. set_solver.
Defined.

Definition demo_events : @eventsState demo_cw := mkEventsState ∅ ∅ [] [] [] [] ∅.

(** A dropped packet. *)
Definition ex_records : list gostring := [data_t_bytes (mkData 167772161 40000 167772162 443 6 0 60 0 DEFAULT_TIER) [x00; x00]].
Definition ex_consumer : @eventsState demo_cw * outcome unit :=
  @capturePolicyEvents demo_cw (go "node-1") true false (go "info") ex_records demo_events.

Definition ex_message : gostring :=
  go "Node: node-1;SIP: 1.0.0.10;SPORT: 40000;DIP: 2.0.0.10;DPORT: 443;PROTOCOL: TCP;PolicyVerdict: DENY;Tier: DEFAULT".
Lemma capture_publishes_witness : exists calls, put_calls (fst ex_consumer) = calls /\ received calls = [ex_message].
Proof.
  destruct (@capture_publishes demo_cw (go "node-1") true false (go "info") ex_records demo_events (fst ex_consumer) (snd ex_consumer)
    (surjective_pairing _)) as [H _].
  assert (snd ex_consumer = Ret tt) as Hr by (vm_compute; reflexivity).
  destruct (H Hr) as (calls & Hp & _ & Ha & _ & _ & Hrec). exists calls. split; [exact Hp|]. rewrite Hrec; [vm_compute; reflexivity|].
  eapply Forall_impl; [exact Ha|]. intros c [_ (s & s' & Hc)]. unfold accepted. cbn in Hc. by injection Hc as _ <-.
Defined.

Lemma setupCW_group_witness :
  let st' := fst (@setupCW demo_cw demo_events) in
  logGroupName st' = go "/aws/eks/prod/cluster" /\ go "/aws/eks/prod/cluster" ∈ log_groups (cw_state st').
Proof.
  intros st'. destruct (@setupCW_group demo_cw demo_events st') as [H _].
  { unfold st'. rewrite (surjective_pairing (setupCW demo_events)). reflexivity. }
  assert (logGroupName st' = go "/aws/eks/prod/cluster") as Hn by (vm_compute; reflexivity). split; [exact Hn|]. rewrite <-Hn. exact H.
Defined.

Lemma publish_stale_stream_witness :
  let st' := fst (@publishDataToCloudwatch demo_cw [] (go "flow") demo_events) in
  new_stream (logStreamName st') /\ exists c, put_calls st' = [c] /\ LogStreamName c.1 = [].
Proof.
  intros st'. destruct (@publish_stale_stream demo_cw (go "flow") demo_events st' false)
    as (Hs & c & Hp & _ & Hn); [reflexivity|reflexivity|]. split; [exact Hs|]. by exists c.
Defined.
