(* ===== verification/DropMetrics.v ===== *)
(** The drop metrics of a node: the frames its classifiers drop, on all interfaces and in both
    directions, through the ring buffer to the counters of the events component.

    The bytes of an event are the class [EventCodec]: the struct the classifiers of a family
    write, and that the consumer reads it back. *)
From S2P Require Import Prelude NetIP ApiTypes Utils UtilsFacts Datapath DatapathFacts BpfInterface Classifiers Frames ClassifierFacts Effects Cloud Events EventsFacts.

(** * Events as bytes *)
Record event_ok `{F : !Family} (addr_ok : addr -> Prop) (e : event) : Prop := {
  eo_src : addr_ok (e_src e);
  eo_dst : addr_ok (e_dst e);
  eo_src_port : 0 <= e_src_port e < 2 ^ 32;
  eo_dst_port : 0 <= e_dst_port e < 2 ^ 32;
  eo_protocol : 0 <= e_protocol e < 2 ^ 32;
  eo_verdict : 0 <= e_verdict e < 2 ^ 32;
  eo_size : 0 <= e_packet_sz e < 2 ^ 32;
  eo_egress : 0 <= e_is_egress e < 2 ^ 8;
  eo_tier : 0 <= e_tier e < 2 ^ 8
}.

(** What the consumer counts of an event. *)
Definition counted `{F : !Family} (e : event) (fe : flowEvent) : Prop :=
  isDenyVerdict fe = (e_verdict e =? VerdictDeny) /\
  ev_direction fe = (if e_is_egress e =? 0 then go "ingress" else go "egress") /\ PacketSz fe = e_packet_sz e.

Class EventCodec (F : Family) := {
  codec_v6 : bool;
  addr_ok : addr -> Prop;
  event_bytes : event -> gostring -> gostring;
  codec_size : 0 <= event_size;
  parse_headers_ok : forall data h, parse data = Some h ->
    addr_ok (h_src h) /\ addr_ok (h_dst h) /\ 0 <= h_protocol h < 2 ^ 8 /\
    0 <= h_src_port h < 2 ^ 16 /\ 0 <= h_dst_port h < 2 ^ 16;
  decode_bytes : forall node e pad, event_ok addr_ok e ->
    exists fe, decodeRecord codec_v6 node (event_bytes e pad) = Some fe /\ counted e fe
}.

(** The fields after the addresses. *)
Definition event_tail {F : Family} (e : event) : list gostring :=
  [le_split 4 (e_dst_port e); le_split 4 (e_protocol e); le_split 4 (e_verdict e); le_split 4 (e_packet_sz e);
   le_split 1 (e_is_egress e); le_split 1 (e_tier e)].

Lemma load_bound len off data : 0 <= load len off data < 2 ^ (8 * Z.of_nat len).
Proof.
  unfold load. pose proof (le_combine_bound (take len (drop off data))) as [H1 H2]. split; [done|].
  eapply Z.lt_le_trans; [exact H2|]. apply Z.pow_le_mono_r; [done|]. rewrite length_take. lia.
Qed.

Lemma l4_ports_bounds protocol l4 sport dport : l4_ports protocol l4 = Some (sport, dport) -> 0 <= sport < 2 ^ 16 /\ 0 <= dport < 2 ^ 16.
Proof.
  unfold l4_ports. destruct (l4_header_size protocol); [case_match; [done|]|]; intros [= <- <-]; [|lia].
  split; apply ntohs_bound, load_port.
Qed.

Definition v4_event_bytes (e : event (F := IPv4)) (pad : gostring) : gostring :=
  data_t_bytes (mkData (e_src e) (e_src_port e) (e_dst e) (e_dst_port e) (e_protocol e) (e_verdict e) (e_packet_sz e) (e_is_egress e) (e_tier e)) pad.

#[global] Instance IPv4_codec : EventCodec IPv4.
Proof.
  refine {| codec_v6 := false; addr_ok := fun a : @addr IPv4 => 0 <= a < 2 ^ 32; event_bytes := v4_event_bytes |}; [done|..].
  - intros data h. cbn [parse IPv4]. unfold parse_v4. destruct (network_header _ _ _ data) as [ip|]; [|done]. cbn [mbind option_bind].
    destruct (l4_ports _ _) as [[sp dp]|] eqn:E; [|done]. intros [= <-]. apply l4_ports_bounds in E as [Hsp Hdp].
    exact (conj (load_bound 4 12 ip) (conj (load_bound 4 16 ip) (conj (load_bound 1 9 ip) (conj Hsp Hdp)))).
  - intros node e pad []. unfold decodeRecord, v4_event_bytes. rewrite readV4_bytes by (split; done). by eexists.
Defined.

Definition v6_event_bytes (e : event (F := IPv6)) (pad : gostring) : gostring :=
  concat ([e_src e; le_split 4 (e_src_port e); e_dst e] ++ event_tail e) ++ pad.

#[global] Instance IPv6_codec : EventCodec IPv6.
Proof.
  refine {| codec_v6 := true; addr_ok := fun a : @addr IPv6 => length a = 16%nat; event_bytes := v6_event_bytes |}; [done|..].
  - intros data h Hp. pose proof (parse_src_len (F := IPv6) data h Hp) as Hs. pose proof (parse_dst_len (F := IPv6) data h Hp) as Hd. revert Hp.
    cbn [parse IPv6]. unfold parse_v6. destruct (network_header _ _ _ data) as [ip|]; [|done]. cbn [mbind option_bind].
    destruct (icmpv6 ip); [done|]. destruct (l4_ports _ _) as [[sp dp]|] eqn:E; [|done]. intros [= <-]. apply l4_ports_bounds in E as [Hsp Hdp].
    exact (conj Hs (conj Hd (conj (load_bound 1 6 ip) (conj Hsp Hdp)))).
  - intros node e pad []. unfold decodeRecord, readV6, v6_event_bytes.
    replace [16; 4; 16; 4; 4; 4; 4; 1; 1]%nat with (length (A := byte) <$> ([e_src e; le_split 4 (e_src_port e); e_dst e] ++ event_tail e)).
    2:{ unfold event_tail. cbn [fmap list_fmap app]. rewrite !length_le_split. by repeat f_equal. }
    rewrite binary_Read_concat. unfold event_tail. cbn [app]. rewrite !le_combine_split, !Z.mod_small by lia. by eexists.
Defined.

(** * What a run of the node emits *)
Section emitted.
Context `{F : !Family, L : !LPM, EC : !EventCodec F}.

(** The pod states and the actions of the cluster rules the agent writes. *)
Definition hook_decisive (hk : hook) : Prop := decisive (mkDp (hook_rules hk) (hook_cp_rules hk) (hook_states hk) ∅ []).

(** The ring buffer takes one more event. *)
Definition has_room (n : nat) : bool := ringbuf_fits event_size n.
Definition kept (n : nat) (evs : list event) : list event := if has_room n then evs else [].

Lemma report_kept e t : ring (report e t) = ring t ++ kept (length (ring t)) [e].
Proof. unfold report, bpf_ringbuf_output, kept, has_room. cbn. case_match; [done|by rewrite app_nil_r]. Qed.

(** A dropped frame outputs one event that says so; an accepted one none or one.  The event is in
    the ring buffer if there was room. *)
Lemma handle_event d hk skb now t ret t' : hook_decisive hk -> handle d hk skb now t = (ret, t') ->
  exists evs, ring t' = ring t ++ kept (length (ring t)) evs /\
    ((exists h tier, parse (skb_data skb) = Some h /\ evs = [event_of_headers d h (skb_size skb) (match ret with BPF_OK => 1 | BPF_DROP => 0 end) tier] /\
       0 <= tier < 2 ^ 8) \/ (ret = BPF_OK /\ evs = [])).
Proof.
  intros Hd. unfold handle.
  assert (ring t = ring t ++ kept (length (ring t)) []) as Hnone by (unfold kept; case_match; by rewrite app_nil_r).
  destruct (parse (skb_data skb)) as [h|] eqn:Eh; [|intros [= <- <-]; exists []; split; [done|by right]].
  unfold handle_headers.
  assert (forall val pst, pst = POLICIES_APPLIED \/ pst = DEFAULT_ALLOW \/ pst = DEFAULT_DENY ->
    exists r t1 tier, evaluateFlow_on d hk h (skb_if skb) (skb_size skb) val now pst t = (r, t1) /\ 0 <= tier < 2 ^ 8 /\
      ring t1 = ring t ++ kept (length (ring t)) [event_of_headers d h (skb_size skb) (match r with BPF_OK => 1 | BPF_DROP => 0 end) tier]) as Hev.
  { intros val pst Hp. unfold evaluateFlow_on.
    destruct (decideFlow_tier _ (trie_bytes (remote d h)) (h_protocol h) (h_dst_port h) pst Hd Hp) as (r & tier & E & Ht). cbn in E. rewrite E.
    eexists _, _, tier. split; [done|]. split; [done|]. rewrite report_kept. by destruct r. }
  assert (exists evs, ring (report (event_of_headers d h (skb_size skb) 0 ERROR_TIER) t) = ring t ++ kept (length (ring t)) evs /\
    ((exists h0 tier, Some h = Some h0 /\ evs = [event_of_headers d h0 (skb_size skb) 0 tier] /\ 0 <= tier < 2 ^ 8) \/ (BPF_DROP = BPF_OK /\ evs = []))) as Herr.
  { eexists. split; [apply report_kept|]. left. exists h, ERROR_TIER. split_and!; done. }
  destruct (hook_states hk !! 0) as [pst|] eqn:Hp; [|by intros [= <- <-]]. destruct (hook_states hk !! 1) as [cst|]; [|by intros [= <- <-]].
  destruct (Hev (GET_CT_VAL pst cst) pst (proj1 Hd 0 pst Hp)) as (r & t1 & tier & -> & Ht & Hr).
  assert (forall r0 t0, ring t0 = ring t1 -> r0 = r ->
    exists evs, ring t0 = ring t ++ kept (length (ring t)) evs /\
    ((exists h0 tier, Some h = Some h0 /\ evs = [event_of_headers d h0 (skb_size skb) (match r0 with BPF_OK => 1 | BPF_DROP => 0 end) tier] /\ 0 <= tier < 2 ^ 8) \/
     (r0 = BPF_OK /\ evs = []))) as Hone by (intros r0 t0 H ->; rewrite H; eexists; split; [exact Hr|left; eauto]).
  destruct (conntrack t !! flow_key d h (skb_if skb)) as [v|]; [destruct (_ =? _)|destruct (conntrack t !! reverse_flow_key d h (skb_if skb))].
  2: destruct r.
  all: intros [= <- <-]; first [exact (Hone _ t1 eq_refl eq_refl)|exact (Hone _ (forget _ t1) eq_refl eq_refl)|exists []; split; [exact Hnone|by right]].
Qed.

(** ** A node and its consumer

    The agent reads the ring buffer while things happen on the node. *)
Inductive step :=
  | Happens (o : op)
  | Reads (k : nat).

Definition read (k : nat) (n : datapath) : datapath :=
  mkDatapath (hooks n) (mkTables (conntrack (shared n)) (drop k (ring (shared n)))).

(** The events that were read and the node afterwards. *)
Fixpoint play (ss : list step) (n : datapath) : list event * datapath :=
  match ss with
  | [] => ([], n)
  | Happens o :: ss' => play ss' (exec n o)
  | Reads k :: ss' => let '(evs, n') := play ss' (read k n) in (take k (ring (shared n)) ++ evs, n')
  end.
(** With those that are left for the next read. *)
Definition delivered (ss : list step) (n : datapath) : list event := (play ss n).1 ++ ring (shared (play ss n).2).

(** The frames of a direction that a run drops, and those of them that found room for their event. *)
Definition dropped_by (d : Direction) (s : step) (n : datapath) : list sk_buff :=
  match s with
  | Happens (Frame d' skb now) => if decide (d' = d /\ verdict d' skb now n = BPF_DROP) then [skb] else []
  | _ => []
  end.
Definition after (s : step) (n : datapath) : datapath := match s with Happens o => exec n o | Reads k => read k n end.
Fixpoint drops (d : Direction) (ss : list step) (n : datapath) : list sk_buff :=
  match ss with [] => [] | s :: ss' => dropped_by d s n ++ drops d ss' (after s n) end.
Fixpoint reported (d : Direction) (ss : list step) (n : datapath) : list sk_buff :=
  match ss with
  | [] => []
  | s :: ss' => (if has_room (length (ring (shared n))) then dropped_by d s n else []) ++ reported d ss' (after s n)
  end.

(** The reader keeps up: no frame finds the ring buffer full. *)
Fixpoint keeps_up (ss : list step) (n : datapath) : Prop :=
  match ss with
  | [] => True
  | s :: ss' => (match s with Happens (Frame _ _ _) => has_room (length (ring (shared n))) = true | _ => True end) /\ keeps_up ss' (after s n)
  end.

Lemma reported_drops d ss n : reported d ss n `sublist_of` drops d ss n /\ (keeps_up ss n -> reported d ss n = drops d ss n).
Proof.
  revert n. induction ss as [|s ss IH]; intros n; [done|]. cbn [reported drops keeps_up]. destruct (IH (after s n)) as [Hs He]. split.
  - apply sublist_app; [|done]. case_match; [done|apply sublist_nil_l].
  - intros [Hr Hk]. rewrite He by done. f_equal. destruct s as [[d' skb now| |]|k]; cbn in *; [by rewrite Hr|by case_match..].
Qed.

Definition step_ok (s : step) : Prop :=
  match s with
  | Happens (Frame _ skb _) => 0 <= skb_size skb < 2 ^ 32
  | Happens (Program _ _ hk) => hook_decisive hk
  | _ => True
  end.
Definition node_decisive (n : datapath) : Prop := forall i d, hook_decisive (hooks n i d).

Lemma after_decisive n s : node_decisive n -> step_ok s -> node_decisive (after s n).
Proof. intros Hn Ho i d. destruct s as [[]|k]; cbn in *; [apply Hn| |apply Hn..]. case_decide; [done|apply Hn]. Qed.

(** The events of a direction that report a drop. *)
Definition deny_in (d : Direction) (evs : list event) : list event :=
  filter (fun e => e_verdict e = 0 /\ e_is_egress e = by_dir 0 1 d) evs.

Definition binary_dir (e : event) : Prop := e_is_egress e = 0 \/ e_is_egress e = 1.

(** What one frame adds to the ring buffer. *)
Lemma frame_events n d' skb now : node_decisive n -> 0 <= skb_size skb < 2 ^ 32 ->
  exists evs, ring (shared (exec n (Frame d' skb now))) = ring (shared n) ++ evs /\ Forall (event_ok addr_ok) evs /\ Forall binary_dir evs /\
    forall d, e_packet_sz <$> deny_in d evs =
      skb_size <$> (if has_room (length (ring (shared n))) then dropped_by d (Happens (Frame d' skb now)) n else []).
Proof.
  intros Hn Hsz. destruct (handle d' (hooks n (skb_if skb) d') skb now (shared n)) as [ret t'] eqn:E.
  destruct (handle_event _ _ _ _ _ _ _ (Hn _ _) E) as (evs & Hr & Hevs). cbn [exec shared]. unfold dropped_by, verdict. rewrite E. cbn [fst snd].
  eexists. split; [exact Hr|]. unfold kept. destruct (has_room _); [|split; [constructor|]; split; [constructor|done]].
  destruct Hevs as [(h & tier & Hp & -> & Ht)|[-> ->]].
  2:{ split; [constructor|]. split; [constructor|]. intros d. by rewrite decide_False by naive_solver. }
  destruct (parse_headers_ok _ _ Hp) as (? & ? & ? & ? & ?). split; [|split].
  - constructor; [|constructor]. split; cbn; try done; try lia; [by destruct ret|by destruct d'].
  - constructor; [|constructor]. destruct d'; [by left|by right].
  - intros d. unfold deny_in. rewrite filter_cons, filter_nil. cbn. destruct ret; cbn; [by rewrite !decide_False by naive_solver|].
    destruct (decide (d' = d)) as [->|Hne]; [by rewrite !decide_True|]. rewrite !decide_False; [done|naive_solver|]. intros [_ H']. by destruct d', d.
Qed.

(** The events that are delivered: those in the ring buffer at the start, and one for each frame
    that is reported. *)
Lemma delivered_events ss n : node_decisive n -> Forall step_ok ss ->
  exists evs, delivered ss n = ring (shared n) ++ evs /\ Forall (event_ok addr_ok) evs /\ Forall binary_dir evs /\
    forall d, e_packet_sz <$> deny_in d evs = skb_size <$> reported d ss n.
Proof.
  revert n. induction ss as [|s ss IH]; intros n Hn Hss; [exists []; by rewrite app_nil_r|].
  apply Forall_cons in Hss as [Hs Hss]. destruct (IH (after s n) (after_decisive n s Hn Hs) Hss) as (evs2 & Hr2 & Hok2 & Hb2 & Hd2).
  assert (exists evs, delivered (s :: ss) n = ring (shared n) ++ evs ++ evs2 /\ Forall (event_ok addr_ok) evs /\ Forall binary_dir evs /\
    forall d, e_packet_sz <$> deny_in d evs = skb_size <$> (if has_room (length (ring (shared n))) then dropped_by d s n else []))
    as (evs & -> & Hok & Hb & Hd).
  { destruct s as [[d' skb now|i d' hk|k]|k]; cbn [after step_ok] in *.
    - destruct (frame_events n d' skb now Hn Hs) as (evs & Hr & ? & ? & ?). exists evs. split_and!; [|done..].
      unfold delivered in *. cbn [play]. by rewrite Hr2, Hr, app_assoc.
    - exists []. split_and!; [exact Hr2|constructor|constructor|]. intros d. by case_match.
    - exists []. split_and!; [exact Hr2|constructor|constructor|]. intros d. by case_match.
    - exists []. split_and!; [|constructor|constructor|intros d; by case_match]. unfold delivered in *. cbn [play].
      destruct (play ss (read k n)) as [evs n'] eqn:E. cbn [fst snd] in *. rewrite <-app_assoc, Hr2. cbn [read shared ring].
      by rewrite app_assoc, take_drop. }
  exists (evs ++ evs2). split; [done|]. split; [by apply Forall_app|]. split; [by apply Forall_app|].
  intros d. cbn [reported]. unfold deny_in in *. by rewrite filter_app, !fmap_app, Hd, Hd2.
Qed.

(** The records the consumer reads, decoded. *)
Lemma decoded_events nodeName pad evs : Forall (event_ok addr_ok) evs ->
  Forall2 counted evs (decoded nodeName codec_v6 ((fun e => event_bytes e pad) <$> evs)).
Proof.
  unfold decoded. induction 1 as [|e evs He _ IH]; [constructor|]. cbn [fmap list_fmap omap list_omap].
  destruct (decode_bytes nodeName e pad He) as (fe & -> & Hc). by constructor.
Qed.

Definition label (d : Direction) : gostring := by_dir (go "ingress") (go "egress") d.

Lemma drops_counted d evs fes : Forall binary_dir evs -> Forall2 counted evs fes ->
  PacketSz <$> drops_of (label d) fes = e_packet_sz <$> deny_in d evs.
Proof.
  intros Hd Hc. induction Hc as [|e fe evs fes (H1 & H2 & H3) Hc IH]; [done|]. apply Forall_cons in Hd as [He Hd]. specialize (IH Hd).
  unfold drops_of, deny_in in *. rewrite !filter_cons.
  assert ((isDenyVerdict fe = true /\ ev_direction fe = label d) <-> (e_verdict e = 0 /\ e_is_egress e = by_dir 0 1 d)) as Hiff.
  { rewrite H1, H2, Z.eqb_eq. destruct He as [-> | ->], d; cbn; split; intros [? ?]; (split; [done|]); done. }
  destruct (decide (e_verdict e = 0 /\ e_is_egress e = by_dir 0 1 d)) as [Hx|Hx].
  - rewrite decide_True by (by apply Hiff). cbn. by rewrite H3, IH.
  - rewrite decide_False by (by rewrite Hiff). done.
Qed.

(** The frames that cross a hook. *)
Fixpoint frames (ss : list step) : nat :=
  match ss with
  | [] => 0
  | Happens (Frame _ _ _) :: ss' => S (frames ss')
  | _ :: ss' => frames ss'
  end.

Lemma ring_grows n d skb now : (length (ring (shared (exec n (Frame d skb now)))) <= S (length (ring (shared n))))%nat.
Proof.
  cbn [exec shared]. unfold handle. destruct (parse (skb_data skb)) as [h|]; [|cbn; lia].
  assert (forall e t, (length (ring (report e t)) <= S (length (ring t)))%nat) as Hr.
  { intros e t. unfold report, bpf_ringbuf_output. cbn. case_match; rewrite ?length_app; cbn; lia. }
  assert (forall val pst r t', evaluateFlow_on d (hooks n (skb_if skb) d) h (skb_if skb) (skb_size skb) val now pst (shared n) = (r, t') ->
    (length (ring t') <= S (length (ring (shared n))))%nat) as He.
  { intros val pst r t'. unfold evaluateFlow_on. destruct (decideFlow _ _ _ _ _ _) as [r0 [tier|]]; intros [= <- <-]; [|destruct r0; cbn; lia].
    etrans; [apply Hr|]. destruct r0; cbn; lia. }
  unfold handle_headers. repeat case_match; cbn [snd]; try apply Hr; try (cbn; lia); try (by eapply He).
  all: first [match goal with H : evaluateFlow_on _ _ _ _ _ _ _ _ _ = (_, ?t) |- (length (ring (forget _ ?t)) <= _)%nat => exact (He _ _ _ _ H) end
             |apply (He _ _ _ _ (surjective_pairing _))].
Qed.

(** Fewer frames than the ring buffer holds need no reader. *)
Lemma few_frames ss n : Z.of_nat (length (ring (shared n)) + frames ss) * record_len event_size <= RINGBUF_SIZE - 1 -> keeps_up ss n.
Proof.
  assert (0 <= record_len event_size) as Hpos by (pose proof codec_size; apply Z.mul_nonneg_nonneg; [apply Z.div_pos; lia|lia]).
  revert n. induction ss as [|s ss IH]; intros n Hf; [done|]. cbn [keeps_up].
  destruct s as [[d skb now| |]|k]; cbn [after frames] in *; (split; [|apply IH; etrans; [|exact Hf]; apply Z.mul_le_mono_nonneg_r; [done|]]); try done.
  - unfold has_room, ringbuf_fits. apply Z.leb_le. etrans; [|exact Hf]. apply Z.mul_le_mono_nonneg_r; [done|lia].
  - pose proof (ring_grows n d skb now). lia.
  - cbn [read shared ring]. rewrite length_drop. lia.
Qed.

(** C35: The drop metrics of a node count the dropped frames whose events fit the ring buffer.
    From an empty ring buffer, let anything happen on the node: frames cross the hooks of its
    interfaces in both directions, the agent rewrites the maps behind a hook (with known pod
    states and actions), connections expire, and the agent reads any number of events at any
    time.  Hand the bytes of the events that are read, with those left at the end, to the
    consumer, of IPv4 or IPv6, whatever their padding and with or without CloudWatch: if the
    loop returns, the drop counter of each direction has grown by the number of frames dropped
    in that direction while there was room for an event, and its byte counter by their sizes;
    without CloudWatch it always returns.  A drop that finds the ring buffer full is not
    counted, since the classifier ignores that its output failed.  No drop is lost while the
    reader keeps up, and none by as many frames as the 512 KiB hold events. *)
Theorem node_drop_metrics `{CW : !CloudWatch} ss n nodeName cwl logLevel pad st st' r
    (Hnode : node_decisive n) (Hempty : ring (shared n) = []) (Hsteps : Forall step_ok ss)
    (Hconsumer : capturePolicyEvents nodeName cwl codec_v6 logLevel ((fun e => event_bytes e pad) <$> delivered ss n) st = (st', r)) :
  (cwl = false -> r = Ret tt) /\
  (r = Ret tt -> forall d,
     counter (dropCountTotal st') (label d) = counter (dropCountTotal st) (label d) + Z.of_nat (length (reported d ss n)) /\
     counter (dropBytesTotal st') (label d) = counter (dropBytesTotal st) (label d) + sum_Z (skb_size <$> reported d ss n)) /\
  (forall d, reported d ss n `sublist_of` drops d ss n) /\
  (keeps_up ss n \/ Z.of_nat (frames ss) * record_len event_size <= RINGBUF_SIZE - 1 -> forall d, reported d ss n = drops d ss n).
Proof.
  destruct (delivered_events ss n Hnode Hsteps) as (evs & He & Hok & Hbit & Hsz). rewrite Hempty in He. cbn [app] in He. rewrite He in Hconsumer.
  apply capture_spec in Hconsumer. split; [|split; [|split]].
  - intros ->. destruct r as [[]|e|e]; [done|done|]. by destruct Hconsumer as [_ ?].
  - intros -> d. pose proof (drops_counted d _ _ Hbit (decoded_events nodeName pad evs Hok)) as Hd. destruct Hconsumer as [Hc Hb _ _].
    rewrite Hc, Hb, <-(length_fmap PacketSz), Hd, Hsz, length_fmap. done.
  - intros d. apply reported_drops.
  - intros Hk d. apply reported_drops. destruct Hk as [Hk|Hk]; [done|]. apply few_frames. by rewrite Hempty.
Qed.
End emitted.

(** A pod that denies by default: a frame of 60 bytes is dropped when it enters and one of 90 when
    it leaves; a third passes once the agent opened the pod's egress.  The agent reads once in between. *)
Definition deny_hook : hook := mkHook ∅ ∅ {[0 := DEFAULT_DENY; 1 := DEFAULT_ALLOW]}.
Definition deny_node : datapath (F := IPv4) := mkDatapath (F := IPv4) (fun _ _ => deny_hook) (mkTables (F := IPv4) ∅ []).
Definition deny_steps : list (step (F := IPv4)) :=
  [Happens (F := IPv4) (Frame (F := IPv4) ingress (mkSkb ex_frame 7 60) 5); Reads (F := IPv4) 1;
   Happens (F := IPv4) (Frame (F := IPv4) egress (mkSkb ex_frame 7 90) 6);
   Happens (F := IPv4) (Program (F := IPv4) 7 egress (ex_hook ∅)); Happens (F := IPv4) (Frame (F := IPv4) egress (mkSkb ex_frame 7 30) 8)].
Definition deny_consumer : @eventsState demo_cw * outcome unit :=
  @capturePolicyEvents demo_cw (go "node-1") true false (go "info")
    ((fun e => v4_event_bytes e [x00; x00]) <$> delivered (L := lpm_scan) deny_steps deny_node) demo_events.

Lemma states_decisive rules p : p = DEFAULT_ALLOW \/ p = DEFAULT_DENY -> hook_decisive (mkHook rules ∅ {[0 := p; 1 := DEFAULT_ALLOW]}).
Proof.
  intros Hp. split; [|intros k v Hk; cbn in Hk; by rewrite lookup_empty in Hk].
  intros k v. cbn. rewrite lookup_insert_Some, lookup_singleton_Some. naive_solver.
Qed.

Lemma node_drop_metrics_witness :
  snd deny_consumer = Ret tt /\
  counter (dropCountTotal (fst deny_consumer)) (go "ingress") = 1 /\ counter (dropBytesTotal (fst deny_consumer)) (go "ingress") = 60 /\
  counter (dropCountTotal (fst deny_consumer)) (go "egress") = 1 /\ counter (dropBytesTotal (fst deny_consumer)) (go "egress") = 90.
Proof.
  assert (snd deny_consumer = Ret tt) as Hr by (vm_compute; reflexivity). split; [exact Hr|].
  destruct (node_drop_metrics (F := IPv4) (L := lpm_scan) (CW := demo_cw) deny_steps deny_node (go "node-1") true (go "info") [x00; x00]
    demo_events (fst deny_consumer) (snd deny_consumer)) as (_ & H & _).
  - intros i d. apply states_decisive. by right.
  - reflexivity.
  - constructor; [cbn; lia|]. constructor; [done|]. constructor; [cbn; lia|]. constructor; [apply states_decisive; by left|]. constructor; [cbn; lia|constructor].
  - apply surjective_pairing.
  - destruct (H Hr ingress) as [H1 H2], (H Hr egress) as [H3 H4].
    split; [etransitivity; [exact H1|]|split; [etransitivity; [exact H2|]|split; [etransitivity; [exact H3|]|etransitivity; [exact H4|]]]]; vm_compute; reflexivity.
Defined.
