(* ===== verification/Logger.v ===== *)
(** [pkg/logger], [pkg/version] and the loggers [main] sets up.

    zap is the class [Zap]: a core writes the entries of its level and above to its writer,
    [AddCaller] annotates an entry with the function that called zap and [AddCallerSkip] with
    one further up the stack.  A stack lists the callers, innermost first. *)
From S2P Require Import Prelude NetIP ApiTypes Utils Datapath Effects Cloud Events EventsFacts.

Definition DEFAULT_LOG_LEVEL : gostring := go "info".
Definition DEFAULT_LOG_LOCATION : gostring := go "/var/log/aws-routed-eni/network-policy-agent.log".
Definition DEFAULT_LOG_FILE_MAX_SIZE : Z := 200.
Definition DEFAULT_LOG_FILE_MAX_BACKUPS : Z := 8.

(** The values of [zapcore.Level]. *)
Inductive Level := DebugLevel | InfoLevel | WarnLevel | ErrorLevel | PanicLevel | FatalLevel.
Definition level_value (l : Level) : Z :=
  match l with DebugLevel => -1 | InfoLevel => 0 | WarnLevel => 1 | ErrorLevel => 2 | PanicLevel => 4 | FatalLevel => 5 end.

Record Configuration := mkConfiguration {
  cfg_LogLevel : gostring; cfg_LogLocation : gostring; cfg_LogFileMaxSize : Z; cfg_LogFileMaxBackups : Z
}.

Definition getZapLevel (inputLogLevel : gostring) : Level :=
  let lvl := to_lower inputLogLevel in
  if decide (lvl = go "debug") then DebugLevel
  else if decide (lvl = go "info") then InfoLevel
  else if decide (lvl = go "warn") then WarnLevel
  else if decide (lvl = go "error") then ErrorLevel
  else if decide (lvl = go "fatal") then FatalLevel
  else DebugLevel.

(** Where entries go: a standard stream, or a file lumberjack rotates. *)
Inductive WriteSyncer :=
| Stderr
| Stdout
| Lumberjack (Filename : gostring) (MaxSize MaxBackups MaxAge : Z) (Compress : bool).
#[global] Instance WriteSyncer_eq_dec : EqDecision WriteSyncer.
Proof. solve_decision. Defined.

Definition getLogWriter (logFilePath : gostring) (logFileMaxSize logFileMaxBackups : Z) : WriteSyncer :=
  Lumberjack logFilePath logFileMaxSize logFileMaxBackups 30 true.

Definition getLogFilePath (logFilePath : gostring) (logFileMaxSize logFileMaxBackups : Z) : WriteSyncer :=
  if decide (logFilePath = []) then Stderr
  else if decide (to_lower logFilePath <> go "stdout") then getLogWriter logFilePath logFileMaxSize logFileMaxBackups
  else Stdout.

Record Core := mkCore { core_writer : WriteSyncer; core_level : Level }.
Definition buildZapCore (c : Configuration) : Core :=
  mkCore (getLogFilePath (cfg_LogLocation c) (cfg_LogFileMaxSize c) (cfg_LogFileMaxBackups c)) (getZapLevel (cfg_LogLevel c)).

(** [zap.Logger]: the core, the frames skipped for the caller, and the fields added. *)
Record zapLogger := mkZapLogger { z_core : Core; z_callerSkip : nat; z_fields : list (gostring * gostring) }.

Definition newZapLogger (c : Configuration) : zapLogger := mkZapLogger (buildZapCore c) 2 [].
Definition newZapLoggerForControllerRuntime (c : Configuration) : zapLogger := mkZapLogger (buildZapCore c) 0 [].

Record entry := mkEntry { entry_level : Level; entry_text : gostring; entry_caller : option gostring; entry_fields : list (gostring * gostring) }.

Class Zap := {
  sinks : Type;
  written : sinks -> WriteSyncer -> list entry;
  zap_Sprintf : gostring -> list gostring -> gostring;
  zap_Write : Core -> entry -> sinks -> sinks;
  zap_write_law : forall c e s w,
    written (zap_Write c e s) w =
    written s w ++ (if decide (w = core_writer c /\ level_value (core_level c) <= level_value (entry_level e)) then [e] else []);
  zap_Caller : nat -> list gostring -> option gostring;
  zap_caller_law : forall skip stack, zap_Caller skip stack = stack !! skip
}.

(** How a call to a logger ends. *)
Inductive logged := Returns | Panics | Exits.

Section logger.
Context `{ZP : !Zap}.

(** An entry, from zap's method of a level: the last two end the caller or the process. *)
Definition zap_log (l : zapLogger) (lvl : Level) (text : gostring) (stack : list gostring) (s : sinks) : sinks * logged :=
  (zap_Write (z_core l) (mkEntry lvl text (zap_Caller (z_callerSkip l) stack) (z_fields l)) s,
    match lvl with PanicLevel => Panics | FatalLevel => Exits | _ => Returns end).

(** The methods of [structuredLogger]; each is a frame between its caller and zap. *)
Definition logMethod (name : string) (lvl : Level) (l : zapLogger) (msg : gostring) (stack : list gostring) : sinks -> sinks * logged :=
  zap_log l lvl msg ((go "structuredLogger." ++ go name) :: stack).
Definition Debug := logMethod "Debug" DebugLevel.
Definition Info := logMethod "Info" InfoLevel.
Definition Warn := logMethod "Warn" WarnLevel.
Definition Error := logMethod "Error" ErrorLevel.

Definition logMethodf (name : string) (lvl : Level) (l : zapLogger) (format : gostring) (args : list gostring) (stack : list gostring) :
    sinks -> sinks * logged :=
  zap_log l lvl (zap_Sprintf format args) ((go "structuredLogger." ++ go name) :: stack).
Definition Debugf := logMethodf "Debugf" DebugLevel.
Definition Infof := logMethodf "Infof" InfoLevel.
Definition Warnf := logMethodf "Warnf" WarnLevel.
Definition Errorf := logMethodf "Errorf" ErrorLevel.
Definition Fatalf := logMethodf "Fatalf" FatalLevel.
Definition Panicf := logMethodf "Panicf" PanicLevel.

(** The fields of a map, in the order of its iteration. *)
Definition WithFields `{!MapOrder} (fields : gmap gostring gostring) (l : zapLogger) : zapLogger :=
  mkZapLogger (z_core l) (z_callerSkip l) (z_fields l ++ go_range (go "fields") (map_to_list fields)).

(** The package variable [log], with what was written. *)
Record logState := mkLogState { log : option zapLogger; log_sinks : sinks }.

Definition New (logLevel logLocation : gostring) (logFileMaxSize logFileMaxBackups : Z) (s : logState) : logState * zapLogger :=
  let l := newZapLogger (mkConfiguration logLevel logLocation logFileMaxSize logFileMaxBackups) in
  (mkLogState (Some l) (log_sinks s), l).

Definition Get (stack : list gostring) (s : logState) : logState * zapLogger :=
  match log s with
  | Some l => (s, l)
  | None =>
      let '(s, l) := New DEFAULT_LOG_LEVEL DEFAULT_LOG_LOCATION DEFAULT_LOG_FILE_MAX_SIZE DEFAULT_LOG_FILE_MAX_BACKUPS s in
      (mkLogState (log s) (fst (Warn l (go "Logger was not initialized explicitly, using default logger.") (go "logger.Get" :: stack) (log_sinks s))), l)
  end.

Definition GetControllerRuntimeLogger : zapLogger :=
  newZapLoggerForControllerRuntime
    (mkConfiguration DEFAULT_LOG_LEVEL DEFAULT_LOG_LOCATION DEFAULT_LOG_FILE_MAX_SIZE DEFAULT_LOG_FILE_MAX_BACKUPS).

(** [version.String]. *)
Definition version_String (GitVersion BuildDate EbpfSDKVersion : gostring) : gostring :=
  GitVersion ++ go " (built: " ++ BuildDate ++ go ", ebpf-sdk: " ++ EbpfSDKVersion ++ go ")".

(** The loggers of [main], once the flags are parsed, and its first line. *)
Definition mainLoggers (version logLevel logFile : gostring) (maxSize maxBackups : Z) (s : logState) : logState * zapLogger :=
  let '(s, _) := New (go "info") [] DEFAULT_LOG_FILE_MAX_SIZE DEFAULT_LOG_FILE_MAX_BACKUPS s in
  let '(s, l) := New logLevel logFile maxSize maxBackups s in
  let '(out, _) := Infof l (go "Starting network policy agent: %s, log level: %s") [version; logLevel]
                     [go "main.main"; go "runtime.main"; go "runtime.goexit"] (log_sinks s) in
  (mkLogState (log s) out, GetControllerRuntimeLogger).

(** ** Properties *)

Lemma getLogFilePath_cases file size backups :
  getLogFilePath file size backups =
  if decide (file = []) then Stderr else if decide (to_lower file = go "stdout") then Stdout else Lumberjack file size backups 30 true.
Proof.
  unfold getLogFilePath, getLogWriter. destruct (decide (file = [])); [done|].
  destruct (decide (to_lower file = go "stdout")) as [->|]; [by rewrite decide_False by (intros Hne; by apply Hne)|by rewrite decide_True].
Qed.

(** Where a line goes.  After [main] has set up logging, every component that asks for the
    logger gets the one the flags configure, and asking changes nothing.  What it then logs at
    a level is appended, with the logger's fields, to the configured file, standard output or
    (no file) standard error if the level is at least the configured one, and to nothing else;
    unknown level names, like [debug], let everything through. *)
Theorem logger_configured version level file size backups s stack lvl text :
  let s1 := fst (mainLoggers version level file size backups s) in
  let '(s2, l) := Get stack s1 in
  s2 = s1 /\
  let out := fst (logMethod "Info" lvl l text stack (log_sinks s1)) in
  let target := if decide (file = []) then Stderr
                else if decide (to_lower file = go "stdout") then Stdout
                else Lumberjack file size backups 30 true in
  forall w, exists line, entry_level line = lvl /\ entry_text line = text /\ entry_fields line = [] /\
    written out w = written (log_sinks s1) w ++
      (if decide (w = target /\ level_value (getZapLevel level) <= level_value lvl) then [line] else []).
Proof.
  cbn. split; [done|]. intros w. rewrite zap_write_law. cbn. rewrite getLogFilePath_cases. refine (ex_intro _ (mkEntry _ _ _ _) _). by split_and!.
Qed.

(** The caller a line names is one frame too far up.  Every method of the logger is one
    frame between its caller and zap, and the logger skips two: a line written by a function
    carries the name of the function that called it. *)
Theorem caller_off_by_one version level file size backups s stack name lvl text logging caller rest
    (Hstack : stack = logging :: caller :: rest) :
  let s1 := fst (mainLoggers version level file size backups s) in
  let l := snd (Get stack s1) in
  level_value (getZapLevel level) <= level_value lvl ->
  exists before line, written (fst (logMethod name lvl l text stack (log_sinks s1))) (core_writer (z_core l)) = before ++ [line] /\
    entry_caller line = Some caller.
Proof.
  cbn. intros Hl. rewrite zap_write_law. cbn. rewrite decide_True by done. eexists _, _. split; [done|]. cbn.
  rewrite zap_caller_law, Hstack. done.
Qed.

(** The controller-runtime logger is not configured by the flags. *)
Lemma controller_runtime_logger_fixed version level file size backups s :
  snd (mainLoggers version level file size backups s) =
  mkZapLogger (mkCore (Lumberjack DEFAULT_LOG_LOCATION 200 8 30 true) InfoLevel) 0 [].
Proof. reflexivity. Qed.
End logger.

(** The level that means debug to the logger and not to the consumer of the flow events: the
    logger ignores case, and takes unknown names for debug; the consumer compares texts. *)
Lemma debug_levels_disagree (e : flowEvent) : isDenyVerdict e = false ->
  getZapLevel (go "debug") = DebugLevel /\ getZapLevel (go "DEBUG") = DebugLevel /\
  to_publish true (go "debug") [e] = [e] /\ to_publish true (go "DEBUG") [e] = [].
Proof.
  intros He. split_and!; [vm_compute; reflexivity..| |]; unfold to_publish; rewrite filter_cons, filter_nil.
  - rewrite decide_True by auto. done.
  - rewrite decide_False; [done|]. rewrite He. intros [_ [H|H]]; [done|]. vm_compute in H. done.
Qed.

(** A zap that keeps its lines. *)
Definition demo_zap : Zap.
Proof.
  refine {| sinks := list (WriteSyncer * entry); written s w := snd <$> filter (fun p => p.1 = w) s;
    zap_Sprintf f args := f ++ mjoin args;
    zap_Write c e s := if decide (level_value (core_level c) <= level_value (entry_level e)) then s ++ [(core_writer c, e)] else s;
    zap_Caller skip stack := stack !! skip |}; [|done].
  intros c e s w. destruct (decide (level_value (core_level c) <= _)) as [Hl|Hl].
  - rewrite filter_app, fmap_app, filter_cons, filter_nil. cbn [fst]. f_equal.
    destruct (decide (core_writer c = w)) as [<-|Hw]; [by rewrite decide_True|by rewrite decide_False by naive_solver].
  - rewrite decide_False by tauto. by rewrite app_nil_r.
Defined.

(** A reconciler's line carries the name of the controller that called it. *)
Lemma caller_off_by_one_witness :
  let stack := [go "PolicyEndpointsReconciler.Reconcile"; go "Controller.reconcileHandler"] in
  let s1 := fst (mainLoggers (ZP := demo_zap) (go "v1") (go "info") [] 200 8 (mkLogState (ZP := demo_zap) None [])) in
  let l := snd (Get (ZP := demo_zap) stack s1) in
  exists before line, written (fst (logMethod (ZP := demo_zap) "Info" InfoLevel l (go "done") stack (log_sinks s1))) Stderr = before ++ [line] /\
    entry_caller line = Some (go "Controller.reconcileHandler").
Proof.
  exact (caller_off_by_one (ZP := demo_zap) (go "v1") (go "info") [] 200 8 (mkLogState (ZP := demo_zap) None [])
    [go "PolicyEndpointsReconciler.Reconcile"; go "Controller.reconcileHandler"] "Info" InfoLevel (go "done")
    (go "PolicyEndpointsReconciler.Reconcile") (go "Controller.reconcileHandler") [] eq_refl (Z.le_refl 0)).
Defined.
