(* ===== verification/Recovery.v ===== *)
(** [pkg/ebpf/bpf_client.go]: what the client does when the agent starts: compare the installed
    probe binaries with the packaged ones ([checkAndUpdateBPFBinaries]) and take over the
    programs and maps the previous agent left pinned, or collect what is needed to attach new
    ones ([recoverBPFState]).

    The SDK's recovery calls are the class [RecoverySDK]; the file system is that of
    [LegacyPins]. *)
From S2P Require Import Prelude ApiTypes Utils FwRules MemMap Effects BpfInterface BpfClient LegacyPins.

Definition EVENTS_BINARY : gostring := go "v4events.bpf.o".
Definition EVENTS_V6_BINARY : gostring := go "v6events.bpf.o".
Definition TC_INGRESS_BINARY : gostring := go "tc.v4ingress.bpf.o".
Definition TC_EGRESS_BINARY : gostring := go "tc.v4egress.bpf.o".
Definition TC_V6_INGRESS_BINARY : gostring := go "tc.v6ingress.bpf.o".
Definition TC_V6_EGRESS_BINARY : gostring := go "tc.v6egress.bpf.o".
Definition EKS_CLI_BINARY : gostring := go "aws-eks-na-cli".
Definition EKS_V6_CLI_BINARY : gostring := go "aws-eks-na-cli-v6".
Definition CONNTRACK_MAP_PIN_PATH : gostring := go "/sys/fs/bpf/globals/aws/maps/global_aws_conntrack_map".
Definition POLICY_EVENTS_MAP_PIN_PATH : gostring := go "/sys/fs/bpf/globals/aws/maps/global_policy_events".

(** What is recovered of pinned state.  The pins are files below [/sys/fs/bpf]: the calls that
    walk them are given the files they find, by path, so that a pin the migration has renamed
    is found under its new name.  The maps of the programs are open afterwards, are new, and
    belong to one program and name each; a program that is found has a descriptor, and is
    pinned where the agent pins its programs. *)
Class RecoverySDK `{BpfSDK} := {
  RecoverGlobalMaps : gmap gostring gostring -> kext * gmap Z kmap -> (kext * gmap Z kmap) * outcome (gmap gostring Z);
  RecoverAllBpfProgramsAndMaps : gmap gostring gostring -> kext * gmap Z kmap ->
    (kext * gmap Z kmap) * (gmap gostring BpfData * option gostring);
  GetAllBpfProgramsAndMaps : gmap gostring gostring -> kext * gmap Z kmap -> (kext * gmap Z kmap) * outcome (gmap gostring BpfData);
  GetAllAttachedProgIds : kext -> kext * (gmap gostring Z * gmap gostring Z);
  CleanupQdiscs : bool -> bool -> kext -> kext * option gostring;
  global_law : forall P x ms x' ms' r, RecoverGlobalMaps P (x, ms) = ((x', ms'), r) -> ms' = ms;
  getall_law : forall P x ms x' ms' r, GetAllBpfProgramsAndMaps P (x, ms) = ((x', ms'), r) -> ms' = ms /\ forall w, r <> Panic w;
  recover_law : forall P x ms x' ms' progs e,
    RecoverAllBpfProgramsAndMaps P (x, ms) = ((x', ms'), (progs, e)) ->
    ms ⊆ ms' /\ (ms !! 0 = None -> ms' !! 0 = None) /\
    (forall pin p, progs !! pin = Some p -> ProgFD p <> 0 /\
       exists id d, ("/"%byte ∉ id) /\ pin = GetBPFPinPathFromPodIdentifier id (dir_name d)) /\
    forall pin p d name fd, progs !! pin = Some p -> name ∈ pod_maps d -> Maps p !! name = Some fd ->
      is_Some (ms' !! fd) /\
      forall pin' p' d' name', progs !! pin' = Some p' -> name' ∈ pod_maps d' -> Maps p' !! name' = Some fd ->
        pin' = pin /\ name' = name
}.

(** ** Comparing binaries *)
Record probeUpdates := mkProbeUpdates { updateIngressProbe : bool; updateEgressProbe : bool; updateEventsProbe : bool }.

Section binaries.
Context `{!FileSystem}.

(** [os.ReadFile] with its error logged: the slice is nil then. *)
Definition readOrNil (path : gostring) : ST fs (option gostring) := fun s =>
  let '(s, r) := os_ReadFile path s in (s, Ret (match r with IoOk b => Some b | _ => None end)).

(** [cmp.Equal] of two slices: a nil slice differs from an empty one. *)
Definition sameBinary (a b : option gostring) : bool := bool_decide (a = b).

(** The loop; it stops at a changed events binary. *)
Fixpoint compareBinaries (hostBinaryPath : gostring) (bpfBinaries : list gostring) (u : probeUpdates) : ST fs probeUpdates :=
  match bpfBinaries with
  | [] => mret u
  | bpfProbe :: rest =>
      if decide (bpfProbe = EKS_CLI_BINARY \/ bpfProbe = EKS_V6_CLI_BINARY) then compareBinaries hostBinaryPath rest u else
      currentProbe ← readOrNil bpfProbe;
      existingProbe ← readOrNil (hostBinaryPath ++ bpfProbe);
      if sameBinary currentProbe existingProbe then compareBinaries hostBinaryPath rest u else
      if decide (bpfProbe = EVENTS_BINARY \/ bpfProbe = EVENTS_V6_BINARY) then mret (mkProbeUpdates true true true) else
      let u := if decide (bpfProbe = TC_INGRESS_BINARY \/ bpfProbe = TC_V6_INGRESS_BINARY)
             then mkProbeUpdates true (updateEgressProbe u) (updateEventsProbe u) else u in
      let u := if decide (bpfProbe = TC_EGRESS_BINARY \/ bpfProbe = TC_V6_EGRESS_BINARY)
             then mkProbeUpdates (updateIngressProbe u) true (updateEventsProbe u) else u in
      compareBinaries hostBinaryPath rest u
  end.

Definition checkAndUpdateBPFBinaries (bpfBinaries : list gostring) (hostBinaryPath : gostring) : ST fs probeUpdates :=
  compareBinaries hostBinaryPath bpfBinaries (mkProbeUpdates false false false).
End binaries.

(** ** Recovery *)
Section recovery.
Context `{!BpfMapSDK, !BpfSDK, !RecoverySDK, !MapOrder, !FileSystem} (json_Unmarshal : gostring -> option (list ipamAllocation)).

(** A call that changes the kernel. *)
Definition recover_call {A} (f : kext * gmap Z kmap -> (kext * gmap Z kmap) * A) : ST bpfClient A := fun s =>
  let '((x, ms), a) := f (kernel_ext s, kmaps s) in (set_kernel x ms s, Ret a).
Definition ext_call {A} (f : kext -> kext * A) : ST bpfClient A := fun s =>
  let '(x, a) := f (kernel_ext s) in (set_kernel x (kmaps s) s, Ret a).

(** The shadow of one rule map of a recovered program. *)
Definition recoverShadow (kind : PolicyKind) (d : Direction) (podIdentifier : gostring) (bpfEntry : BpfData) : ST bpfClient unit :=
  match Maps bpfEntry !! rule_map kind d with
  | None => mret tt
  | Some fd =>
      s ← get;
      match inMemoryMap s !! (kind, d, podIdentifier) with
      | Some _ => mret tt
      | None =>
          inMemMap ← attempt (with_kmap fd NewInMemoryBpfMap);
          match inMemMap with
          | Ret m => modify (set_inMemory (insert (kind, d, podIdentifier) (mkShadowMap fd (contents m))))
          | _ => mret tt
          end
      end
  end.

(** One direction of a recovered program. *)
Definition recoverHook (d : Direction) (podIdentifier : gostring) (bpfEntry : BpfData) (peBPFContext : BPFContext) : ST bpfClient BPFContext :=
  recoverShadow NamespacePolicy d podIdentifier bpfEntry;;
  recoverShadow ClusterPolicy d podIdentifier bpfEntry;;
  mret (set_pgmInfo d bpfEntry peBPFContext).

Definition recoverProgram (u : probeUpdates) (entry : gostring * BpfData) : ST bpfClient unit :=
  let '(pinPath, bpfEntry) := entry in
  parsed ← lift (GetPodIdentifierFromBPFPinPath pinPath);
  let '(podIdentifier, direction) := parsed in
  s ← get;
  let peBPFContext := default zeroContext (policyEndpointeBPFContext s !! podIdentifier) in
  peBPFContext ←
  (if bool_decide (direction = go "ingress") && negb (updateIngressProbe u) then recoverHook ingress podIdentifier bpfEntry peBPFContext
    else if bool_decide (direction = go "egress") && negb (updateEgressProbe u) then recoverHook egress podIdentifier bpfEntry peBPFContext
    else mret peBPFContext);
  modify (set_context (insert podIdentifier peBPFContext)).

(** Taking over the pinned programs. *)
Definition recoverPrograms (P : gmap gostring gostring) (u : probeUpdates) : ST bpfClient unit :=
  if negb (updateIngressProbe u) || negb (updateEgressProbe u) then
    state ← recover_call (RecoverAllBpfProgramsAndMaps P);
    for_each (recoverProgram u) (go_range (go "bpfState") (map_to_list (fst state)))
  else mret tt.

(** [progIdToPinPath]: when two pins name one program, the one visited last wins. *)
Definition progIdToPinPath (bpfState : gmap gostring BpfData) : gmap Z gostring :=
  foldl (fun m pe => if 0 <? ProgID (snd pe) then <[ProgID (snd pe) := fst pe]> m else m) ∅
  (go_range (go "bpfState progIds") (map_to_list bpfState)).

(** The interfaces of a direction whose program is replaced, with the pin of the old one. *)
Definition pinPathsToReattach (update : bool) (pins : gmap Z gostring) (interfaceToProgIds : gmap gostring Z) : gmap gostring gostring :=
  if update then omap (fun progId => pins !! progId) interfaceToProgIds else ∅.

(** What is needed to attach new programs; the filters are removed. *)
Definition collectReattach (P : gmap gostring gostring) (u : probeUpdates) : ST bpfClient (Direction -> gmap gostring gostring) :=
  if updateIngressProbe u || updateEgressProbe u then
    r ← recover_call (GetAllBpfProgramsAndMaps P);
    bpfState ← lift r;
    let pins := progIdToPinPath bpfState in
    attached ← ext_call GetAllAttachedProgIds;
    _ ← ext_call (CleanupQdiscs (updateIngressProbe u) (updateEgressProbe u));
    mret (fun d => by_dir (pinPathsToReattach (updateIngressProbe u) pins (fst attached))
                   (pinPathsToReattach (updateEgressProbe u) pins (snd attached)) d)
  else mret (fun _ => ∅).

(** The global maps found: conntrack and events. *)
Record globalState := mkGlobalState {
  isConntrackMapPresent : bool; isPolicyEventsMapPresent : bool; eventsMapFD : Z; globalMaps : gmap gostring Z
}.
Definition noGlobals : globalState := mkGlobalState false false 0 ∅.

Definition findGlobals (recoveredGlobalMaps : gmap gostring Z) : globalState :=
  mkGlobalState (bool_decide (is_Some (recoveredGlobalMaps !! CONNTRACK_MAP_PIN_PATH)))
  (bool_decide (is_Some (recoveredGlobalMaps !! POLICY_EVENTS_MAP_PIN_PATH)))
  (default 0 (recoveredGlobalMaps !! POLICY_EVENTS_MAP_PIN_PATH))
  (match recoveredGlobalMaps !! CONNTRACK_MAP_PIN_PATH with Some m => {[CONNTRACK_MAP_PIN_PATH := m]} | None => ∅ end).

(** The kernel state, from the pins [P].  The result comes with the error; a failure to recover the global maps is
    returned as nil, and nothing else is recovered then. *)
Definition recoverKernelState (P : gmap gostring gostring) (u : probeUpdates) :
  ST bpfClient (globalState * (Direction -> gmap gostring gostring) * option gostring) :=
  g ← (if negb (updateEventsProbe u) then
       r ← recover_call (RecoverGlobalMaps P);
       mret (match r with Ret maps => Some (findGlobals maps) | _ => None end)
     else mret (Some noGlobals));
  match g with
  | None => mret (noGlobals, fun _ => ∅, None)
  | Some g =>
      recoverPrograms P u;;
      pins ← attempt (collectReattach P u);
      match pins with
      | Ret pins => mret (g, pins, None)
      | Err e => mret (g, fun _ => ∅, Some e)
      | Panic e => lift (Panic e)
      end
  end.

(** A migration that fails is logged.  The kernel state is recovered from the pins it leaves. *)
Definition recoverBPFState (u : probeUpdates) :
  ST (bpfClient * fs) (globalState * (Direction -> gmap gostring gostring) * option gostring) :=
  _ ← attempt (zoom snd (fun f w => (fst w, f)) (migrateLegacyPins json_Unmarshal));
  w ← get;
  zoom fst (fun c w => (c, snd w)) (recoverKernelState (files (snd w)) u).
End recovery.
