(* ===== verification/RecoveryFacts.v ===== *)
(** What a restarted agent knows: after recovery the client satisfies its invariants, has the
    programs the previous agent pinned, and its shadow maps equal the kernel maps. *)
From S2P Require Import Prelude ApiTypes Utils UtilsFacts FwRules MemMap Effects BpfInterface BpfClient BpfClientFacts BpfClientTables DemoKernel LegacyPins LegacyPinsFacts Recovery.

Definition updates (u : probeUpdates) (d : Direction) : bool := by_dir (updateIngressProbe u) (updateEgressProbe u) d.

(** ** Binaries *)
Section binaries.
Context `{FS : !FileSystem}.

(** The packaged and the installed probe differ; a missing file differs from an empty one. *)
Definition changed (m : gmap gostring gostring) (hostBinaryPath probe : gostring) : bool :=
  negb (bool_decide (m !! probe = m !! (hostBinaryPath ++ probe))).

Lemma readOrNil_reliable p s : reliable -> exists s', readOrNil p s = (s', Ret (files s !! p)) /\ files s' = files s.
Proof.
  intros (_ & Hr & _). specialize (Hr p s). unfold readOrNil. destruct (os_ReadFile p s) as [s' r] eqn:E.
  destruct (read_law _ _ _ _ E) as [Hf Hc]. exists s'. split; [|done]. destruct r as [b| |e]; [by rewrite Hc|by rewrite Hc|done].
Qed.

(** One probe that is no CLI. *)
Lemma compareBinaries_cons host p rest u s : reliable -> p <> EKS_CLI_BINARY -> p <> EKS_V6_CLI_BINARY ->
  exists s', files s' = files s /\
  compareBinaries host (p :: rest) u s =
    if changed (files s) host p then
      if decide (p = EVENTS_BINARY \/ p = EVENTS_V6_BINARY) then (s', Ret (mkProbeUpdates true true true)) else
      let u := if decide (p = TC_INGRESS_BINARY \/ p = TC_V6_INGRESS_BINARY) then mkProbeUpdates true (updateEgressProbe u) (updateEventsProbe u) else u in
      let u := if decide (p = TC_EGRESS_BINARY \/ p = TC_V6_EGRESS_BINARY) then mkProbeUpdates (updateIngressProbe u) true (updateEventsProbe u) else u in
      compareBinaries host rest u s'
    else compareBinaries host rest u s'.
Proof.
  intros Hrel H1 H2. cbn [compareBinaries]. rewrite decide_False by tauto. unfold mbind, ST_bind.
  destruct (readOrNil_reliable p s Hrel) as (s1 & -> & Hf1). destruct (readOrNil_reliable (host ++ p) s1 Hrel) as (s2 & -> & Hf2).
  exists s2. split; [congruence|]. rewrite Hf1. unfold sameBinary, changed.
  case_bool_decide; cbn [negb]; [done|]. case_decide; done.
Qed.

Lemma compare_all ev ing eg cli host s : reliable ->
  ev = EVENTS_BINARY \/ ev = EVENTS_V6_BINARY -> ing = TC_INGRESS_BINARY \/ ing = TC_V6_INGRESS_BINARY ->
  eg = TC_EGRESS_BINARY \/ eg = TC_V6_EGRESS_BINARY -> cli = EKS_CLI_BINARY \/ cli = EKS_V6_CLI_BINARY ->
  let ch := changed (files s) host in
  exists s', compareBinaries host [ev; ing; eg; cli] (mkProbeUpdates false false false) s =
  (s', Ret (mkProbeUpdates (ch ev || ch ing) (ch ev || ch eg) (ch ev))) /\ files s' = files s.
Proof.
  intros Hrel Hev Hing Heg Hcli ch.
  destruct (compareBinaries_cons host ev [ing; eg; cli] (mkProbeUpdates false false false) s Hrel) as (s1 & Hf1 & ->);
    [destruct Hev as [->| ->]; done..|].
  fold (ch ev). destruct (ch ev).
  { exists s1. rewrite decide_True by done. done. }
  destruct (compareBinaries_cons host ing [eg; cli] (mkProbeUpdates false false false) s1 Hrel) as (s2 & Hf2 & ->);
    [destruct Hing as [->| ->]; done..|].
  cbv zeta. rewrite Hf1 in *. fold (ch ing). rewrite (decide_False (P := ing = EVENTS_BINARY \/ _)) by (destruct Hing as [->| ->]; intros [?|?]; done).
  rewrite (decide_True (P := ing = TC_INGRESS_BINARY \/ _)) by done.
  rewrite (decide_False (P := ing = TC_EGRESS_BINARY \/ _)) by (destruct Hing as [->| ->]; intros [?|?]; done).
  assert (forall u, exists s', files s' = files s /\ compareBinaries host [eg; cli] u s2 =
    (s', Ret (mkProbeUpdates (updateIngressProbe u) (ch eg || updateEgressProbe u) (updateEventsProbe u)))) as Hlast.
  { intros u. destruct (compareBinaries_cons host eg [cli] u s2 Hrel) as (s3 & Hf3 & ->); [destruct Heg as [->| ->]; done..|].
    cbv zeta. rewrite Hf2 in *. fold (ch eg). exists s3. split; [done|].
    rewrite (decide_False (P := eg = EVENTS_BINARY \/ _)) by (destruct Heg as [->| ->]; intros [?|?]; done).
    rewrite (decide_False (P := eg = TC_INGRESS_BINARY \/ _)) by (destruct Heg as [->| ->]; intros [?|?]; done).
    rewrite (decide_True (P := eg = TC_EGRESS_BINARY \/ _)) by done.
    destruct (ch eg); cbn [compareBinaries]; rewrite decide_True by done; by destruct u. }
  destruct (ch ing); edestruct Hlast as (s3 & Hf3 & ->); exists s3; (split; [|done]); cbn; by rewrite orb_false_r.
Qed.

(** Which probes are replaced at start.  If no read fails: the events probe is replaced exactly
    when the packaged one differs from the installed one; the ingress and egress probes when
    they differ or the events probe does, since they refer to its maps; the CLI never causes
    an update; and comparing changes no file. *)
Theorem binaries_compared (v6 : bool) host s s' r
  (Hrel : reliable)
  (Hrun : checkAndUpdateBPFBinaries
     (if v6 then [EVENTS_V6_BINARY; TC_V6_INGRESS_BINARY; TC_V6_EGRESS_BINARY; EKS_V6_CLI_BINARY]
      else [EVENTS_BINARY; TC_INGRESS_BINARY; TC_EGRESS_BINARY; EKS_CLI_BINARY]) host s = (s', r)) :
  let ch p4 p6 := changed (files s) host (if v6 then p6 else p4) in
  let events := ch EVENTS_BINARY EVENTS_V6_BINARY in
  r = Ret (mkProbeUpdates (events || ch TC_INGRESS_BINARY TC_V6_INGRESS_BINARY) (events || ch TC_EGRESS_BINARY TC_V6_EGRESS_BINARY) events) /\
  files s' = files s.
Proof.
  assert (forall p4 p6 : gostring, (if v6 then p6 else p4) = p4 \/ (if v6 then p6 else p4) = p6) as Hv by (intros; destruct v6; auto).
  destruct (compare_all (if v6 then EVENTS_V6_BINARY else EVENTS_BINARY) (if v6 then TC_V6_INGRESS_BINARY else TC_INGRESS_BINARY)
    (if v6 then TC_V6_EGRESS_BINARY else TC_EGRESS_BINARY) (if v6 then EKS_V6_CLI_BINARY else EKS_CLI_BINARY) host s Hrel (Hv _ _) (Hv _ _) (Hv _ _) (Hv _ _))
    as (s1 & Hc & Hf).
  unfold checkAndUpdateBPFBinaries in Hrun. intros ch events. unfold events, ch.
  destruct v6; rewrite Hc in Hrun; injection Hrun as <- <-; done.
Qed.
End binaries.

(** ** Programs *)
Section recovery.
Context `{SDK : !BpfMapSDK, CL : !BpfSDK, RS : !RecoverySDK, MO : !MapOrder}.
Implicit Types s : bpfClient.

Definition pin (id : gostring) (d : Direction) : gostring := GetBPFPinPathFromPodIdentifier id (dir_name d).

Lemma pin_parse id d : ("/"%byte ∉ id) -> GetPodIdentifierFromBPFPinPath (pin id d) = Ret (id, dir_name d).
Proof. intros H. apply pinpath_read; [done|]. destruct d; [by left|by right]. Qed.

Lemma dir_name_inj d d' : dir_name d = dir_name d' -> d = d'.
Proof. destruct d, d'; done. Qed.

Lemma pin_inj id d id' d' : ("/"%byte ∉ id) -> ("/"%byte ∉ id') -> pin id d = pin id' d' -> id = id' /\ d = d'.
Proof.
  intros H H' E. apply (f_equal GetPodIdentifierFromBPFPinPath) in E. rewrite !pin_parse in E by done.
  injection E as -> E. split; [done|]. by apply dir_name_inj.
Qed.

(** Reading a kernel map does not panic, as long as the map has no empty key. *)
Definition sdk_reads : Prop := forall (k : kmap) w, kcontents k !! ([] : gostring) = None -> snd (NewInMemoryBpfMap k) <> Panic w.

(** The parts of the client recovery leaves alone. *)
Definition keeps_tables s s' : Prop :=
  podToProgMap s' = podToProgMap s /\ progToPodsMap s' = progToPodsMap s /\ deletedPods s' = deletedPods s.

Lemma keeps_tables_trans s1 s2 s3 : keeps_tables s1 s2 -> keeps_tables s2 s3 -> keeps_tables s1 s3.
Proof. unfold keeps_tables. intros (? & ? & ?) (? & ? & ?). split_and!; congruence. Qed.

Lemma recoverShadow_spec kind d id p s : sdk_reads -> (forall fd c, map_contents s fd = Some c -> c !! ([] : gostring) = None) ->
  exists s', recoverShadow kind d id p s = (s', Ret tt) /\ policyEndpointeBPFContext s' = policyEndpointeBPFContext s /\
  keeps_tables s s' /\ (forall fd, map_contents s' fd = map_contents s fd) /\
  (forall key sh, inMemoryMap s' !! key = Some sh -> inMemoryMap s !! key = Some sh \/
     (key = (kind, d, id) /\ Maps p !! rule_map kind d = Some (sh_fd sh) /\ map_contents s (sh_fd sh) = Some (sh_contents sh))).
Proof.
  intros Hread Hkeys. unfold recoverShadow. destruct (Maps p !! rule_map kind d) as [fd|] eqn:Em.
  2: { exists s. split_and!; [done|done|done|done|auto]. }
  unfold mbind, ST_bind, get. destruct (inMemoryMap s !! (kind, d, id)) as [sh0|] eqn:Esh.
  { exists s. split_and!; [done|done|done|done|auto]. }
  unfold attempt, with_kmap. destruct (kmaps s !! fd) as [k|] eqn:Ek.
  2: { exists s. split_and!; [done|done|done|done|auto]. }
  pose proof (NewInMemoryBpfMap_frame k) as Hfr.
  assert (map_contents s fd = Some (kcontents k)) as Hmc by (unfold map_contents; by rewrite Ek).
  assert (forall fd', map_contents (write_kmap fd (fst (NewInMemoryBpfMap k)) s) fd' = map_contents s fd') as Hw.
  { intros fd'. rewrite map_contents_write. case_decide as E; [subst; by rewrite Hfr|done]. }
  pose proof (Hread k) as Hr. destruct (NewInMemoryBpfMap k) as [k' [m|e|w]] eqn:En; cbn [fst snd] in *.
  - exists (set_inMemory (insert (kind, d, id) (mkShadowMap fd (contents m))) (write_kmap fd k' s)).
    apply NewInMemoryBpfMap_spec in En as [_ Hc]. split_and!; [done|done|done|exact Hw|].
    intros key sh. cbn [inMemoryMap set_inMemory]. rewrite lookup_insert_Some. intros [[<- <-]|[_ Hsh]]; [right|by left].
    split_and!; [done|done|]. cbn [sh_fd sh_contents]. by rewrite Hmc, Hc.
  - exists (write_kmap fd k' s). split_and!; [done|done|done|exact Hw|auto].
  - exfalso. apply (Hr w); [by apply (Hkeys fd)|done].
Qed.

(** What holds while the programs are taken over one by one. *)
Record taken (u : probeUpdates) (ms : gmap Z kmap) (vis : list (gostring * BpfData)) s0 s : Prop := {
  tk_tables : keeps_tables s0 s;
  tk_maps : forall fd, map_contents s fd = kcontents <$> ms !! fd;
  tk_done : forall id d p, ("/"%byte ∉ id) -> (pin id d, p) ∈ vis -> updates u d = false ->
  exists c, policyEndpointeBPFContext s !! id = Some c /\ pgmInfo d c = p;
  tk_from : forall id d c, policyEndpointeBPFContext s !! id = Some c ->
  pgmInfo d c = zeroBpfData \/ (updates u d = false /\ ("/"%byte ∉ id) /\ (pin id d, pgmInfo d c) ∈ vis);
  tk_shadow : forall kind d id sh, inMemoryMap s !! (kind, d, id) = Some sh ->
  updates u d = false /\ ("/"%byte ∉ id) /\ exists p, (pin id d, p) ∈ vis /\
  Maps p !! rule_map kind d = Some (sh_fd sh) /\ map_contents s (sh_fd sh) = Some (sh_contents sh)
}.

(** One program: its direction is taken over, or the context is stored as it was. *)
Lemma recoverProgram_hook u id d p s : ("/"%byte ∉ id) ->
  recoverProgram u (pin id d, p) s =
  (c ← (if updates u d then mret (default zeroContext (policyEndpointeBPFContext s !! id))
        else recoverHook d id p (default zeroContext (policyEndpointeBPFContext s !! id)));
    modify (set_context (insert id c))) s.
Proof.
  intros Hid. unfold recoverProgram. cbn [fst snd]. unfold mbind at 1, ST_bind at 1, lift. rewrite pin_parse by done.
  unfold mbind at 1, ST_bind at 1, get. destruct d; cbn [updates by_dir].
  - rewrite bool_decide_eq_true_2 by done. cbn [andb]. destruct (updateIngressProbe u); [|done].
    rewrite bool_decide_eq_false_2 by done. done.
  - rewrite bool_decide_eq_false_2 by done. cbn [andb]. rewrite bool_decide_eq_true_2 by done. by destruct (updateEgressProbe u).
Qed.

(** Storing a context that has the program, over a state that differs in the shadows. *)
Lemma taken_store u ms vis s0 s id d p s1 c1 : ("/"%byte ∉ id) -> (pin id d ∉ vis.*1) -> taken u ms vis s0 s ->
  let c0 := default zeroContext (policyEndpointeBPFContext s !! id) in
  policyEndpointeBPFContext s1 = policyEndpointeBPFContext s -> keeps_tables s s1 ->
  (forall fd, map_contents s1 fd = map_contents s fd) ->
  (forall d', pgmInfo d' c1 = if decide (d' = d /\ updates u d = false) then p else pgmInfo d' c0) ->
  (forall kind d' i sh, inMemoryMap s1 !! (kind, d', i) = Some sh -> inMemoryMap s !! (kind, d', i) = Some sh \/
    (d' = d /\ i = id /\ updates u d = false /\ Maps p !! rule_map kind d = Some (sh_fd sh) /\ map_contents s (sh_fd sh) = Some (sh_contents sh))) ->
  taken u ms (vis ++ [(pin id d, p)]) s0 (set_context (insert id c1) s1).
Proof.
  intros Hid Hnew Ht c0.
  assert (forall d', pgmInfo d' c0 = zeroBpfData \/ (updates u d' = false /\ ("/"%byte ∉ id) /\ (pin id d', pgmInfo d' c0) ∈ vis)) as Hc0.
  { intros d'. unfold c0. destruct (policyEndpointeBPFContext s !! id) as [c|] eqn:Ec; [by apply (tk_from _ _ _ _ _ Ht)|by left; destruct d']. }
  assert (forall d' p', (pin id d', p') ∈ vis -> updates u d' = false -> pgmInfo d' c0 = p') as Hc1.
  { intros d' p' Hv Hu. destruct (tk_done _ _ _ _ _ Ht id d' p' Hid Hv Hu) as (c & Hc & <-). unfold c0. by rewrite Hc. }
  intros Hctx Htab Hm Hpg Hsh. split.
  - eapply keeps_tables_trans; [apply Ht|]. exact Htab.
  - intros fd. change (map_contents (set_context _ ?t)) with (map_contents t). rewrite Hm. apply Ht.
  - intros i d' p' Hi Hin Hu. cbn [policyEndpointeBPFContext set_context]. rewrite Hctx.
    apply elem_of_app in Hin as [Hin|Hin%list_elem_of_singleton].
    + destruct (decide (i = id)) as [->|Hne].
      * rewrite lookup_insert_eq. eexists. split; [done|]. rewrite Hpg. rewrite decide_False; [by apply Hc1|].
        intros [-> _]. apply Hnew. apply list_elem_of_fmap. by exists (pin id d, p').
      * rewrite lookup_insert_ne by done. by apply (tk_done _ _ _ _ _ Ht).
    + apply pair_equal_spec in Hin as [Hpin ->]. apply pin_inj in Hpin as [-> ->]; [|done..]. rewrite lookup_insert_eq. eexists. split; [done|].
      rewrite Hpg. by rewrite decide_True.
  - intros i d' c. cbn [policyEndpointeBPFContext set_context]. rewrite Hctx, lookup_insert_Some. intros [[<- <-]|[_ Hc]].
    + rewrite Hpg. destruct (decide (d' = d /\ updates u d = false)) as [[-> Hu]|_]; [right; split_and!; [done|done|set_solver]|].
      destruct (Hc0 d') as [?|(? & ? & ?)]; [by left|right; split_and!; [done|done|set_solver]].
    + destruct (tk_from _ _ _ _ _ Ht i d' c Hc) as [?|(? & ? & ?)]; [by left|right; split_and!; [done|done|set_solver]].
  - intros kind d' i sh H. change (map_contents (set_context _ ?t)) with (map_contents t). rewrite Hm.
    apply Hsh in H as [H|(-> & -> & Hu & Hmap & Hcs)].
    + destruct (tk_shadow _ _ _ _ _ Ht kind d' i sh H) as (? & ? & p' & ? & ? & ?). split_and!; [done|done|]. exists p'. set_solver.
    + split_and!; [done|done|]. exists p. set_solver.
Qed.

Lemma taken_step u ms vis s0 s id d p : sdk_reads -> (forall fd k, ms !! fd = Some k -> kcontents k !! ([] : gostring) = None) ->
  ("/"%byte ∉ id) -> (pin id d ∉ vis.*1) -> taken u ms vis s0 s ->
  exists s', recoverProgram u (pin id d, p) s = (s', Ret tt) /\ taken u ms (vis ++ [(pin id d, p)]) s0 s'.
Proof.
  intros Hread Hkeys Hid Hnew Ht. rewrite recoverProgram_hook by done.
  set (c0 := default zeroContext (policyEndpointeBPFContext s !! id)).
  pose proof (fun s1 c1 => taken_store u ms vis s0 s id d p s1 c1 Hid Hnew Ht) as Hstore. cbv zeta in Hstore. fold c0 in Hstore.
  destruct (updates u d) eqn:Eu.
  - eexists. split; [reflexivity|]. apply Hstore; [done|by repeat split|done| |auto].
    intros d'. rewrite decide_False; [done|]. by intros [_ ?].
  - assert (forall fd c, map_contents s fd = Some c -> c !! ([] : gostring) = None) as Hk.
    { intros fd c Hc. rewrite (tk_maps _ _ _ _ _ Ht) in Hc. apply fmap_Some in Hc as (k & Hk & ->). by apply (Hkeys fd). }
    destruct (recoverShadow_spec NamespacePolicy d id p s Hread Hk) as (s1 & H1 & C1 & T1 & M1 & S1).
    destruct (recoverShadow_spec ClusterPolicy d id p s1 Hread) as (s2 & H2 & C2 & T2 & M2 & S2); [intros fd c; rewrite M1; apply Hk|].
    exists (set_context (insert id (set_pgmInfo d p c0)) s2). split.
    + unfold recoverHook, mbind, ST_bind. rewrite H1, H2. done.
    + apply Hstore; [congruence|by eapply keeps_tables_trans|intros; by rewrite M2, M1| |].
      * intros d'. destruct d, d'; cbn; try (by rewrite decide_True); by rewrite decide_False by (by intros [? _]).
      * intros kind d' i sh H. apply S2 in H as [H|([= -> -> ->] & ? & ?)]; [|right; rewrite M1 in *; done].
        apply S1 in H as [H|([= -> -> ->] & ? & ?)]; [by left|by right].
Qed.

Lemma taken_loop u ms l vis s0 s : sdk_reads -> (forall fd k, ms !! fd = Some k -> kcontents k !! ([] : gostring) = None) ->
  (forall e, e ∈ l -> exists id d, ("/"%byte ∉ id) /\ fst e = pin id d) -> NoDup (vis ++ l).*1 -> taken u ms vis s0 s ->
  exists s', for_each (recoverProgram u) l s = (s', Ret tt) /\ taken u ms (vis ++ l) s0 s'.
Proof.
  intros Hread Hkeys. revert vis s. induction l as [|[pp p] l IH]; intros vis s Hpins Hnd Ht; unfold for_each; cbn [fold_each].
  { exists s. by rewrite app_nil_r. }
  destruct (Hpins (pp, p) ltac:(left)) as (id & d & Hid & E). cbn [fst] in E. subst pp.
  rewrite fmap_app in Hnd. cbn [fmap list_fmap fst] in Hnd.
  destruct (taken_step u ms vis s0 s id d p Hread Hkeys Hid) as (s1 & H1 & Ht1); [|done|].
  { apply NoDup_app in Hnd as (_ & Hnd & _). intros Hin. by apply (Hnd _ Hin); left. }
  destruct (IH (vis ++ [(pin id d, p)]) s1) as (s2 & H2 & Ht2).
  - intros e He. apply Hpins. by right.
  - rewrite <-app_assoc. by rewrite fmap_app.
  - done.
  - exists s2. unfold mbind, ST_bind. rewrite H1. split; [exact H2|]. by rewrite <-app_assoc in Ht2.
Qed.

(** A client that has just been made. *)
Record fresh s : Prop := {
  fresh_contexts : policyEndpointeBPFContext s = ∅;
  fresh_shadows : inMemoryMap s = ∅;
  fresh_pods : podToProgMap s = ∅;
  fresh_progs : progToPodsMap s = ∅;
  fresh_zero : kmaps s !! 0 = None
}.

Lemma no_contexts_inv s : policyEndpointeBPFContext s = ∅ -> inMemoryMap s = ∅ -> kmaps s !! 0 = None -> client_inv s.
Proof.
  intros Hc Hm Hz. assert (forall id d n, slot s id d n = None) as Hs by (intros; unfold slot; by rewrite Hc, lookup_empty).
  split; [done|intros ????; by rewrite Hs|intros ???????; by rewrite Hs|]. intros kind d id sh. by rewrite Hm, lookup_empty.
Qed.

Lemma no_pods_tables s : podToProgMap s = ∅ -> progToPodsMap s = ∅ -> tables_ok s.
Proof.
  intros Hp Hs. split.
  - intros d pod fd. rewrite Hp, Hs, lookup_empty. split; [done|]. intros (set & Hset & _). by rewrite lookup_empty in Hset.
  - intros pod. by rewrite Hp, !lookup_empty.
  - intros d nn fd _. by rewrite Hp, lookup_empty.
Qed.

(** The program of a hook, the zero value if it has none. *)
Definition hook_program s (id : gostring) (d : Direction) : BpfData := pgmInfo d (default zeroContext (policyEndpointeBPFContext s !! id)).

Lemma slot_hook s id d n fd : slot s id d n = Some fd -> exists c, policyEndpointeBPFContext s !! id = Some c /\
  ProgFD (pgmInfo d c) <> 0 /\ Maps (pgmInfo d c) !! n = Some fd.
Proof.
  unfold slot. destruct (policyEndpointeBPFContext s !! id) as [c|]; [|done]. cbn.
  destruct (Z.eqb_spec (ProgFD (pgmInfo d c)) 0); [done|]. eauto.
Qed.

(** All programs taken over. *)
(** The hooks have the pinned programs of the directions that are kept, and no others. *)
Record programs_from (u : probeUpdates) (progs : gmap gostring BpfData) s : Prop := {
  pf_hook : forall id d, ("/"%byte ∉ id) -> hook_program s id d = if updates u d then zeroBpfData else default zeroBpfData (progs !! pin id d);
  pf_id : forall id d, ProgFD (hook_program s id d) <> 0 -> "/"%byte ∉ id
}.

(** Recovery from the pins [P]. *)
Section pins.
Context (P : gmap gostring gostring).

Lemma taken_all u x ms x' ms' progs e vis s0 s : RecoverAllBpfProgramsAndMaps P (x, ms) = ((x', ms'), (progs, e)) ->
  ms !! 0 = None -> vis ≡ₚ map_to_list progs -> taken u ms' vis s0 s ->
  client_inv s /\ programs_from u progs s.
Proof.
  intros Hcall Hz Hvis Ht. destruct (recover_law _ _ _ _ _ _ _ Hcall) as (_ & Hz' & Hpins & Hmaps).
  assert (forall pp p, (pp, p) ∈ vis <-> progs !! pp = Some p) as Hv by (intros; rewrite Hvis; apply elem_of_map_to_list).
  assert (forall id d n fd, slot s id d n = Some fd -> ("/"%byte ∉ id) /\ exists p, progs !! pin id d = Some p /\ Maps p !! n = Some fd) as Hslot.
  { intros id d n fd Hs. apply slot_hook in Hs as (c & Hc & Hfd & Hn).
    destruct (tk_from _ _ _ _ _ Ht id d c Hc) as [Hzero|(_ & Hid & Hin)]; [by rewrite Hzero in Hfd|]. split; [done|]. eexists. split; [by apply Hv|done]. }
  assert (forall fd, is_Some (kmaps s !! fd) <-> is_Some (ms' !! fd)) as Hopen.
  { intros fd. pose proof (tk_maps _ _ _ _ _ Ht fd) as H. unfold map_contents in H. destruct (kmaps s !! fd), (ms' !! fd); cbn in H; try done; split; eauto; by intros [? ?]. }
  split; [split|].
  - apply eq_None_not_Some. rewrite Hopen, Hz' by done. by intros [? ?].
  - intros id d n fd Hn Hs. destruct (Hslot id d n fd Hs) as (_ & p & Hp & Hm). apply Hopen. by apply (Hmaps (pin id d) p d n fd).
  - intros id d n id' d' n' fd Hn Hn' Hs Hs'.
    destruct (Hslot id d n fd Hs) as (Hid & p & Hp & Hm), (Hslot id' d' n' fd Hs') as (Hid' & p' & Hp' & Hm').
    destruct (Hmaps (pin id d) p d n fd Hp Hn Hm) as [_ Hu]. destruct (Hu (pin id' d') p' d' n' Hp' Hn' Hm') as [Hpin ->].
    apply pin_inj in Hpin as [-> ->]; done.
  - intros kind d id sh Hsh. destruct (tk_shadow _ _ _ _ _ Ht kind d id sh Hsh) as (Hu & Hid & p & Hin & Hm & Hc). split; [|done].
    destruct (tk_done _ _ _ _ _ Ht id d p Hid Hin Hu) as (c & Hctx & Hp). unfold slot. rewrite Hctx. cbn. rewrite Hp.
    apply Hv in Hin. destruct (Hpins _ _ Hin) as [Hfd _]. destruct (Z.eqb_spec (ProgFD p) 0); done.
  - split; [|intros id d; unfold hook_program; destruct (policyEndpointeBPFContext s !! id) as [c|] eqn:Ec; [|by destruct d];
      cbn; by destruct (tk_from _ _ _ _ _ Ht id d c Ec) as [-> |(_ & ? & _)]].
    intros id d Hid. unfold hook_program. destruct (updates u d) eqn:Eu.
    + destruct (policyEndpointeBPFContext s !! id) as [c|] eqn:Ec; [|by destruct d]. cbn.
      destruct (tk_from _ _ _ _ _ Ht id d c Ec) as [?|(? & _)]; [done|congruence].
    + destruct (progs !! pin id d) as [p|] eqn:Ep.
      * destruct (tk_done _ _ _ _ _ Ht id d p Hid) as (c & -> & <-); [by apply Hv|done|done].
      * destruct (policyEndpointeBPFContext s !! id) as [c|] eqn:Ec; [|by destruct d]. cbn.
        destruct (tk_from _ _ _ _ _ Ht id d c Ec) as [?|(_ & _ & Hin)]; [done|]. apply Hv in Hin. congruence.
Qed.

Lemma recoverPrograms_spec u s : sdk_reads -> fresh s ->
  (forall x x' ms' r, RecoverAllBpfProgramsAndMaps P (x, kmaps s) = ((x', ms'), r) -> forall fd k, ms' !! fd = Some k -> kcontents k !! ([] : gostring) = None) ->
  updates u ingress = false \/ updates u egress = false ->
  exists s', recoverPrograms P u s = (s', Ret tt) /\ keeps_tables s s' /\ client_inv s' /\
  exists x' ms' progs e, RecoverAllBpfProgramsAndMaps P (kernel_ext s, kmaps s) = ((x', ms'), (progs, e)) /\
    (forall fd, map_contents s' fd = kcontents <$> ms' !! fd) /\
    programs_from u progs s'.
Proof.
  intros Hread Hf Hkeys Hu. unfold recoverPrograms.
  assert (negb (updateIngressProbe u) || negb (updateEgressProbe u) = true) as ->.
  { apply orb_true_iff. rewrite !negb_true_iff. exact Hu. }
  unfold mbind, ST_bind, recover_call. destruct (RecoverAllBpfProgramsAndMaps P (kernel_ext s, kmaps s)) as [[x' ms'] [progs e]] eqn:E.
  cbn [fst]. set (l := go_range _ _). assert (l ≡ₚ map_to_list progs) as Hl by apply go_range_perm.
  destruct (recover_law _ _ _ _ _ _ _ E) as (_ & _ & Hpins & _).
  destruct (taken_loop u ms' l [] s (set_kernel x' ms' s) Hread) as (s' & Hrun & Ht).
  - by eapply Hkeys.
  - intros [pp p] Hin. rewrite Hl in Hin. apply elem_of_map_to_list in Hin. by apply Hpins in Hin as [_ ?].
  - rewrite Hl. apply NoDup_fst_map_to_list.
  - split; [by repeat split|done|intros ???? Hin; by apply not_elem_of_nil in Hin| |].
    + intros id d c. cbn. by rewrite (fresh_contexts s Hf), lookup_empty.
    + intros kind d id sh. cbn. by rewrite (fresh_shadows s Hf), lookup_empty.
  - cbn [app] in Ht. destruct (taken_all u _ _ _ _ _ _ l s s' E (fresh_zero s Hf) Hl Ht) as [Hinv Hhook].
    exists s'. split; [done|]. split; [apply Ht|]. split; [done|]. exists x', ms', progs, e. split; [done|]. split; [apply Ht|done].
Qed.

Lemma collectReattach_frame u s : exists s' r, collectReattach P u s = (s', r) /\ keeps_tables s s' /\ (forall w, r <> Panic w) /\
  policyEndpointeBPFContext s' = policyEndpointeBPFContext s /\ inMemoryMap s' = inMemoryMap s /\ kmaps s' = kmaps s.
Proof.
  unfold collectReattach. destruct (_ || _); [|by eexists _, _].
  unfold mbind, ST_bind, recover_call, ext_call, lift.
  destruct (GetAllBpfProgramsAndMaps P (kernel_ext s, kmaps s)) as [[x1 ms1] r] eqn:E; destruct (getall_law _ _ _ _ _ _ E) as [-> Hr].
  destruct r as [st|e|w]; [|by eexists _, _|by destruct (Hr w)]. cbn [kernel_ext set_kernel kmaps].
  destruct (GetAllAttachedProgIds x1) as [x2 att]. cbn [kernel_ext set_kernel kmaps].
  destruct (CleanupQdiscs _ _ x2) as [x3 ce]. by eexists _, _.
Qed.

(** What recovery makes of a new client. *)
Definition took_over (u : probeUpdates) c c' : Prop :=
  (exists x x' ms' progs e, RecoverAllBpfProgramsAndMaps P (x, kmaps c) = ((x', ms'), (progs, e)) /\
    (forall fd, map_contents c' fd = kcontents <$> ms' !! fd) /\
    programs_from u progs c') \/
  (((updates u ingress = true /\ updates u egress = true) \/ exists x x' ms' res, RecoverGlobalMaps P (x, kmaps c) = ((x', ms'), res) /\ forall m, res <> Ret m) /\
    policyEndpointeBPFContext c' = ∅ /\ kmaps c' = kmaps c).

Lemma fresh_kernel x s : fresh s -> fresh (set_kernel x (kmaps s) s).
Proof. by intros []. Qed.

(** The programs and then the data for new ones. *)
Lemma recover_collect u s (g : globalState) : sdk_reads -> fresh s ->
  (forall x x' ms' res, RecoverAllBpfProgramsAndMaps P (x, kmaps s) = ((x', ms'), res) ->
    forall fd k, ms' !! fd = Some k -> kcontents k !! ([] : gostring) = None) ->
  exists s' res, (recoverPrograms P u;;
    pins ← attempt (collectReattach P u);
    match pins with
    | Ret pins => mret (g, pins, None)
    | Err e => mret (g, fun _ => ∅, Some e)
    | Panic e => lift (Panic e)
    end) s = (s', Ret res) /\ client_inv s' /\ tables_ok s' /\ took_over u s s'.
Proof.
  intros Hreads Hf Hkeys. unfold mbind, ST_bind.
  assert (exists s1, recoverPrograms P u s = (s1, Ret tt) /\ keeps_tables s s1 /\ client_inv s1 /\ took_over u s s1) as (s1 & -> & Ht1 & Hi1 & Ho1).
  { destruct (updates u ingress && updates u egress) eqn:Eu.
    - apply andb_true_iff in Eu as [E1 E2]. exists s. unfold recoverPrograms. cbn in E1, E2. rewrite E1, E2. split; [done|].
      split; [by repeat split|]. split; [apply no_contexts_inv; apply Hf|]. right. split; [by left|]. split; [apply Hf|done].
    - destruct (recoverPrograms_spec u s Hreads Hf Hkeys) as (s1 & ? & ? & ? & x' & ms' & progs & e & ? & ? & ?).
      { apply andb_false_iff in Eu. done. }
      exists s1. split_and!; [done..|]. left. by exists (kernel_ext s), x', ms', progs, e. }
  unfold attempt. destruct (collectReattach_frame u s1) as (s2 & rc & -> & Ht2 & Hp & Hc & Hm & Hk).
  assert (client_inv s2 /\ tables_ok s2 /\ took_over u s s2) as H2.
  { split; [by eapply client_inv_ext|]. destruct (keeps_tables_trans _ _ _ Ht1 Ht2) as (P' & Q & _). split.
    - apply no_pods_tables; [rewrite P'; apply Hf|rewrite Q; apply Hf].
    - destruct Ho1 as [(x & x' & ms' & progs & e & H1 & H3 & H4)|(H1 & H3 & H4)].
      + left. exists x, x', ms', progs, e. split; [done|]. split; [unfold map_contents in *; by rewrite Hk|].
        destruct H4 as [P1 P2]. split; intros id d; unfold hook_program in *; rewrite Hc; [apply P1|apply P2].
      + right. split; [done|]. by rewrite Hc, Hk. }
  destruct rc as [pins|e|w]; [by eexists _, _|by eexists _, _|by destruct (Hp w)].
Qed.

Section run.
Context (u : probeUpdates) (c : bpfClient) (Hreads : sdk_reads) (Hfresh : fresh c).
Context (Hkeys : forall x x' ms' res, RecoverAllBpfProgramsAndMaps P (x, kmaps c) = ((x', ms'), res) ->
     forall fd k, ms' !! fd = Some k -> kcontents k !! ([] : gostring) = None).

Lemma recoverKernelState_run : exists s' res,
  recoverKernelState P u c = (s', Ret res) /\ client_inv s' /\ tables_ok s' /\ took_over u c s'.
Proof.
  unfold recoverKernelState. destruct (updateEventsProbe u); cbn [negb].
  - destruct (recover_collect u c noGlobals Hreads Hfresh Hkeys) as (s' & res & Hr & H). exists s', res. split; [exact Hr|exact H].
  - unfold mbind at 1, ST_bind at 1, mbind at 1, ST_bind at 1, recover_call.
    destruct (RecoverGlobalMaps P (kernel_ext c, kmaps c)) as [[x1 ms1] rg] eqn:Eg. pose proof (global_law _ _ _ _ _ _ Eg) as ->. cbn [mret ST_ret].
    destruct rg as [maps|e|e].
    + apply (recover_collect u (set_kernel x1 (kmaps c) c) (findGlobals maps) Hreads (fresh_kernel x1 c Hfresh) Hkeys).
    + exists (set_kernel x1 (kmaps c) c), (noGlobals, fun _ => ∅, None). split; [done|].
      split; [apply no_contexts_inv; apply Hfresh|]. split; [apply no_pods_tables; apply Hfresh|]. right.
      split; [right; by eexists _, _, _, _|]. split; [apply Hfresh|done].
    + exists (set_kernel x1 (kmaps c) c), (noGlobals, fun _ => ∅, None). split; [done|].
      split; [apply no_contexts_inv; apply Hfresh|]. split; [apply no_pods_tables; apply Hfresh|]. right.
      split; [right; by eexists _, _, _, _|]. split; [apply Hfresh|done].
Qed.
End run.
End pins.

Context `{FS : !FileSystem} (json_Unmarshal : gostring -> option (list ipamAllocation)).

(** The pins the migration leaves. *)
Definition migrated (f : fs) : gmap gostring gostring := files (fst (migrateLegacyPins json_Unmarshal f)).

(** Recovery returns whatever the file system does, with what the kernel finds under the pins
    that are there after the migration. *)
Lemma recovery_run u c f : sdk_reads -> fresh c ->
  (forall x x' ms' res, RecoverAllBpfProgramsAndMaps (migrated f) (x, kmaps c) = ((x', ms'), res) ->
     forall fd k, ms' !! fd = Some k -> kcontents k !! ([] : gostring) = None) ->
  exists c' f' res,
  recoverBPFState json_Unmarshal u (c, f) = ((c', f'), Ret res) /\ files f' = migrated f /\
  recoverKernelState (migrated f) u c = (c', Ret res) /\
  client_inv c' /\ tables_ok c' /\ took_over (migrated f) u c c'.
Proof.
  intros Hreads Hfresh Hkeys. destruct (recoverKernelState_run _ u c Hreads Hfresh Hkeys) as (c' & res & Hk & Hrest).
  revert Hk Hrest. unfold migrated. unfold recoverBPFState, mbind, ST_bind, attempt, zoom, get. cbn [fst snd].
  pose proof (migrate_no_panic json_Unmarshal f) as Hmig. destruct (migrateLegacyPins json_Unmarshal f) as [f1 rm]. cbn [fst snd] in *.
  intros Hk Hrest. exists c', f1, res. destruct rm as [u1|e|w]; [..|by destruct (Hmig w)]; cbn [fst snd]; by rewrite Hk.
Qed.

(** The file system afterwards is the migrated one. *)
Lemma recovery_files u c f c' f' r : recoverBPFState json_Unmarshal u (c, f) = ((c', f'), r) -> files f' = migrated f.
Proof.
  unfold migrated, recoverBPFState, mbind, ST_bind, attempt, zoom, get. cbn [fst snd].
  pose proof (migrate_no_panic json_Unmarshal f) as Hmig. destruct (migrateLegacyPins json_Unmarshal f) as [f1 rm]. cbn [fst snd] in *.
  destruct rm as [u1|e|w]; [..|by destruct (Hmig w)]; cbn [fst snd]; destruct (recoverKernelState (files f1) u c) as [c1 r1]; by intros [= <- <- <-].
Qed.

(** C31: A restarted agent takes the pinned state over.  From a new client, if the SDK's reads do
    not panic and no recovered map has an empty key: recovery returns, whatever calls fail, from the
    pins as the migration of legacy names leaves them; the client satisfies its invariants, so every shadow map it has equals the kernel map of
    its hook; and the pod tables are empty.  Unless the global maps could not be recovered or
    both probes are to be replaced, every hook whose probe is kept has the program that was
    pinned for it, every hook whose probe is replaced has none, and no kernel map has changed:
    the rules the previous agent wrote stay in force. *)
Theorem recovery_takes_over u c f c' f' r
  (Hreads : sdk_reads) (Hfresh : fresh c)
  (Hkeys : forall x x' ms' res, RecoverAllBpfProgramsAndMaps (files f') (x, kmaps c) = ((x', ms'), res) ->
     forall fd k, ms' !! fd = Some k -> kcontents k !! ([] : gostring) = None)
  (Hrun : recoverBPFState json_Unmarshal u (c, f) = ((c', f'), r)) :
  (exists g pins err, r = Ret (g, pins, err)) /\ client_inv c' /\ tables_ok c' /\
  took_over (files f') u c c'.
Proof.
  rewrite (recovery_files _ _ _ _ _ _ Hrun) in *.
  destruct (recovery_run u c f Hreads Hfresh Hkeys) as (c1 & f1 & [[g pins] err] & Hr & _ & _ & Hrest).
  rewrite Hrun in Hr. injection Hr as <- <- ->. split; [by eexists _, _, _|done].
Qed.
End recovery.

(** ** Examples *)

(** A file system on which no call fails. *)
Definition plainfs : FileSystem.
Proof.
  refine {| fs := gmap gostring gostring; files := fun s => s;
    os_Stat p s := (s, match s !! p with Some _ => IoOk tt | None => IoNotExist end);
    os_ReadFile p s := (s, match s !! p with Some b => IoOk b | None => IoNotExist end);
    os_Rename p q s := match s !! p with
                       | Some b => (<[q := b]> (delete p s), None)
                       | None => (s, Some (go "no such file or directory"))
                       end;
    os_MkdirAll _ s := (s, None);
    os_WriteFile p b s := (<[p := b]> s, None) |}.
  - intros p s s' r [= <- <-]. by destruct (s !! p).
  - intros p s s' r [= <- <-]. by destruct (s !! p).
  - intros p q s s' e. destruct (s !! p) eqn:E; intros [= <- <-]; eauto.
  - by intros p s s' e [= <- <-].
  - intros p b s s' e [= <- <-]. done.
Defined.

Lemma plainfs_reliable : @reliable plainfs.
Proof.
  split_and!; [intros p s; cbn; by destruct (_ !! p)|intros p s; cbn; by destruct (_ !! p)| |done|done].
  intros p q s [b Hb]. cbn in *. by rewrite Hb.
Qed.

(** The ingress probe was upgraded. *)
Definition host_dir : gostring := go "/host/opt/cni/bin/".
Definition upgraded_fs : @fs plainfs :=
  {[EVENTS_BINARY := go "e1"; host_dir ++ EVENTS_BINARY := go "e1"; TC_INGRESS_BINARY := go "i2"; host_dir ++ TC_INGRESS_BINARY := go "i1";
    TC_EGRESS_BINARY := go "g1"; host_dir ++ TC_EGRESS_BINARY := go "g1"]}.

Lemma binaries_compared_witness :
  snd (@checkAndUpdateBPFBinaries plainfs [EVENTS_BINARY; TC_INGRESS_BINARY; TC_EGRESS_BINARY; EKS_CLI_BINARY] host_dir upgraded_fs) =
  Ret (mkProbeUpdates true false false).
Proof.
  destruct (@binaries_compared plainfs false host_dir upgraded_fs
    (fst (@checkAndUpdateBPFBinaries plainfs [EVENTS_BINARY; TC_INGRESS_BINARY; TC_EGRESS_BINARY; EKS_CLI_BINARY] host_dir upgraded_fs))
    (snd (@checkAndUpdateBPFBinaries plainfs [EVENTS_BINARY; TC_INGRESS_BINARY; TC_EGRESS_BINARY; EKS_CLI_BINARY] host_dir upgraded_fs))
    plainfs_reliable) as [H _]; [apply surjective_pairing|].
  rewrite H. vm_compute. reflexivity.
Defined.

(** A kernel with one pinned program, whose rule map has an entry; it is found where it is pinned. *)
Definition pinned_id : gostring := go "web@default".
Definition pinned_rule : gmap gostring gostring := {[go "key" := go "rule"]}.
Definition demo_recover (P : gmap gostring gostring) (k : list (option gostring) * gmap Z (gmap gostring gostring)) :
    (list (option gostring) * gmap Z (gmap gostring gostring)) * (gmap gostring BpfData * option gostring) :=
  if decide (P !! pin pinned_id ingress = None) then (k, (∅, None)) else
  let n := fresh_fd (snd k) in
  ((fst k, <[n + 1 := pinned_rule]> (<[n + 2 := ∅]> (<[n + 3 := ∅]> (snd k)))),
   ({[pin pinned_id ingress := demo_data ingress n]}, None)).

Program Definition demo_recovery : @RecoverySDK reliable_sdk demo_sdk := {|
  RecoverGlobalMaps := fun P k => (k, Ret (if decide (P !! CONNTRACK_MAP_PIN_PATH = None) then ∅ else {[CONNTRACK_MAP_PIN_PATH := 90]}));
  RecoverAllBpfProgramsAndMaps := demo_recover;
  GetAllBpfProgramsAndMaps := fun _ k => (k, Ret ∅);
  GetAllAttachedProgIds := fun x => (x, (∅, ∅));
  CleanupQdiscs := fun _ _ x => (x, None)
|}.
Next Obligation. by intros P x ms x' ms' r [= <- <- <-]. Qed.
Next Obligation. by intros P x ms x' ms' r [= <- <- <-]. Qed.
Next Obligation.
  intros P x ms x' ms' progs e. unfold demo_recover. case_decide.
  { intros [= <- <- <- <-]. split; [done|]. split; [done|]. split; intros *; by rewrite lookup_empty. }
  cbn [fst snd]. intros [= <- <- <- <-].
  set (n := fresh_fd ms). assert (forall i, 0 <= i -> ms !! (n + i) = None) as Hnone by (intros; by apply fresh_fd_none).
  pose proof (fresh_fd_pos ms) as Hpos. fold n in Hpos. split; [|split; [|split]].
  - do 3 (etrans; [|apply insert_subseteq; rewrite ?lookup_insert_ne by lia; apply Hnone; lia]). done.
  - intros Hz. by rewrite !lookup_insert_ne by (change (fresh_fd ms) with n; lia).
  - intros pp p Hp. apply lookup_singleton_Some in Hp as [<- <-]. split; [change (ProgFD (demo_data ingress (fresh_fd ms))) with n; lia|]. exists pinned_id, ingress.
    split; [apply (bool_decide_unpack _); vm_compute; exact I|done].
  - intros pp p d name fd Hp Hn Hfd. apply lookup_singleton_Some in Hp as [<- <-].
    pose proof (demo_data_maps ingress n name fd Hfd) as Hc. split.
    + rewrite !lookup_insert_is_Some'. destruct Hc as [[-> _]|[[-> _]|[-> _]]]; auto.
    + intros pp' p' d' name' Hp' Hn' Hfd'. apply lookup_singleton_Some in Hp' as [<- <-]. split; [done|].
      pose proof (demo_data_maps ingress n name' fd Hfd') as Hc'.
      destruct Hc as [[? ->]|[[? ->]|[? ->]]], Hc' as [[? ->]|[[? ->]|[? ->]]]; done || lia.
Qed.

Lemma reliable_reads : @sdk_reads reliable_sdk.
Proof.
  intros k w Hk. unfold NewInMemoryBpfMap, loadFromKernel. cbn.
  assert (forall keys (m : @InMemoryBpfMap reliable_sdk), ([] : gostring) ∉ keys -> forall w, snd (@load_loop reliable_sdk keys m) <> Panic w) as Hl.
  { induction keys as [|key keys IH]; intros m Hin w'; cbn [load_loop]; [done|]. apply not_elem_of_cons in Hin as [Hne Hin].
    destruct key as [|b key]; [done|]. cbn.
    match goal with |- context [match ?o with Some v => Ret v | None => _ end] => destruct o end; [by apply IH|done]. }
  assert (([] : gostring) ∉ (map_to_list k).*1) as Hnil.
  { intros Hin. apply list_elem_of_fmap in Hin as ([key v] & Hkey & Hin). cbn in Hkey. subst key.
    apply (elem_of_map_to_list (k : gmap gostring gostring)) in Hin. cbn in Hk. unfold id in Hk. congruence. }
  specialize (Hl _ (@mkInMemoryBpfMap reliable_sdk k ∅) Hnil).
  destruct (@load_loop reliable_sdk _ _) as [m [u|e|w']]; cbn; [done|done|]. intros [= ->]. by apply (Hl w).
Qed.

(** The pin still has its legacy name, and the checkpoint of the CNI knows the pod. *)
Definition legacy_pin : gostring := BPF_PROGRAMS_PIN_PATH_DIRECTORY ++ go "web-default_" ++ TC_INGRESS_PROG.
Definition legacy_node : @fs plainfs := {[cniIpamStatePath := go "{}"; legacy_pin := go "program 7"]}.
Definition legacy_json (_ : gostring) : option (list ipamAllocation) := Some [mkIpamAllocation (go "web-1") (go "default")].

(** After a restart the client has the program, and the rule is still there. *)
Definition restarted : @bpfClient reliable_sdk demo_sdk * @fs plainfs :=
  fst (@recoverBPFState reliable_sdk demo_sdk demo_recovery listed_order plainfs legacy_json (mkProbeUpdates false false false)
    (demo_client (go "standard") [], legacy_node)).

Lemma recovery_takes_over_witness :
  client_inv (fst restarted) /\ tables_ok (fst restarted) /\ ProgFD (hook_program (fst restarted) pinned_id ingress) = 1.
Proof.
  pose proof (@recovery_takes_over reliable_sdk demo_sdk demo_recovery listed_order plainfs legacy_json (mkProbeUpdates false false false)
    (demo_client (go "standard") []) legacy_node (fst restarted) (snd restarted)
    (snd (@recoverBPFState reliable_sdk demo_sdk demo_recovery listed_order plainfs legacy_json (mkProbeUpdates false false false)
      (demo_client (go "standard") [], legacy_node)))) as H.
  destruct H as (_ & Hinv & Htab & Hov).
  - exact reliable_reads.
  - split; reflexivity.
  - intros x x' ms' res Hcall fd k. cbn in Hcall. unfold demo_recover in Hcall. case_decide; [by injection Hcall as <- <- <-|]. cbn [fst snd kmaps demo_client] in Hcall. injection Hcall as <- <- <-.
    rewrite !lookup_insert_Some, lookup_empty. intros Hk. decompose [or and] Hk; subst; done.
  - rewrite <-surjective_pairing. apply surjective_pairing.
  - split; [exact Hinv|]. split; [exact Htab|]. vm_compute. reflexivity.
Defined.
