(* ===== verification/Install.v ===== *)
(** [pkg/utils/cp/cp.go]: the agent copies its probe binaries and its command line tool to the
    host.  Each file is written under a temporary name and renamed over the target.

    What is used of the file system beyond [FileSystem] is the class [HostFiles]; a file handle
    is the path it was opened with.  That a file is replaced as a whole, that a start which
    installed its binaries finds nothing to update at the next start, and what is in place
    after a failure are proved here. *)
From S2P Require Import Prelude Utils Effects BpfInterface BpfClient LegacyPins LegacyPinsFacts Recovery RecoveryFacts.

Record fileMode := mkFileMode { IsRegular : bool; perm : Z }.

Class HostFiles `{!FileSystem} := {
  os_Stat_Mode : gostring -> fs -> fs * outcome fileMode;
  os_Open : gostring -> fs -> fs * option gostring;
  os_Create : gostring -> fs -> fs * option gostring;
  (** [io.Copy(destination, source)]. *)
  io_Copy : gostring -> gostring -> fs -> fs * option gostring;
  os_Chmod : gostring -> Z -> fs -> fs * option gostring;
  statmode_law : forall p s s' r, os_Stat_Mode p s = (s', r) -> files s' = files s /\ forall w, r <> Panic w;
  open_law : forall p s s' e, os_Open p s = (s', e) -> files s' = files s;
  (** Creates the file or truncates it. *)
  create_file_law : forall p s s' e, os_Create p s = (s', e) ->
    files s' = match e with None => <[p := []]> (files s) | Some _ => files s end;
  (** A copy that fails may have written a part. *)
  copy_law : forall dst src s s' e, io_Copy dst src s = (s', e) ->
    match e with
    | None => exists b, files s !! src = Some b /\ files s' = <[dst := b]> (files s)
    | Some _ => files s' = files s \/ exists b, files s' = <[dst := b]> (files s)
    end;
  chmod_law : forall p m s s' e, os_Chmod p m s = (s', e) -> files s' = files s
}.

Section install.
Context `{FS : !FileSystem, HF : !HostFiles}.

(** A call that only has an error. *)
Definition os_err (f : fs -> fs * option gostring) : ST fs unit := fun s =>
  let '(s, e) := f s in (s, match e with None => Ret tt | Some e => Err e end).

Definition cp (src dst : gostring) : ST fs unit :=
  sourceFileStat ← (fun s => os_Stat_Mode src s);
  if negb (IsRegular sourceFileStat) then fail (src ++ go " is not a regular file") else
  os_err (os_Open src);;
  os_err (os_Create dst);;
  os_err (io_Copy dst src).

(** An error with a prefix. *)
Definition wrap_err {A} (prefix : gostring) (m : ST fs A) : ST fs A := fun s =>
  let '(s, r) := m s in (s, match r with Err e => Err (prefix ++ e) | r => r end).

Definition CopyFile (src dst : gostring) : ST fs unit :=
  let dstTmp := dst ++ go ".tmp" in
  wrap_err (go "failed to copy file: ") (cp src dstTmp);;
  wrap_err (go "failed to rename file: ") (os_err (os_Rename dstTmp dst));;
  si ← wrap_err (go "failed to stat file: ") (fun s => os_Stat_Mode src s);
  wrap_err (go "failed to chmod file: ") (os_err (os_Chmod dst (perm si))).

(** The path a binary is installed at: the command line tool has one name for both families. *)
Definition installTarget (hostCNIBinPath plugin : gostring) : gostring :=
  hostCNIBinPath ++ (if decide (plugin = EKS_V6_CLI_BINARY) then EKS_CLI_BINARY else plugin).

(** A copy that fails is logged; nil is returned in any case. *)
Definition InstallBPFBinaries (pluginBins : list gostring) (hostCNIBinPath : gostring) : ST fs unit :=
  for_each (fun plugin => _ ← attempt (CopyFile plugin (installTarget hostCNIBinPath plugin)); mret tt) pluginBins.

(** ** One file

    [replaced m m' src dst done_]: of the files only the target and its temporary file may
    differ; the target is what it was or a whole copy, and a copy when [done_]. *)
Definition tmp_of (dst : gostring) : gostring := dst ++ go ".tmp".
Record replaced (m m' : gmap gostring gostring) (src dst : gostring) (done_ : bool) : Prop := {
  rp_others : forall p, p <> dst -> p <> tmp_of dst -> m' !! p = m !! p;
  rp_whole : m' !! dst = m !! dst \/ (is_Some (m !! src) /\ m' !! dst = m !! src);
  rp_done : done_ = true -> is_Some (m !! src) /\ m' !! dst = m !! src /\ m' !! tmp_of dst = None
}.

Lemma tmp_ne dst : tmp_of dst <> dst.
Proof. intros H. apply (f_equal length) in H. unfold tmp_of in H. rewrite length_app in H. cbn in H. lia. Qed.

(** The copy to the temporary file. *)
Lemma cp_spec src dst s s' r : src <> dst -> cp src dst s = (s', r) ->
  (forall p, p <> dst -> files s' !! p = files s !! p) /\ (forall w, r <> Panic w) /\
  (r = Ret tt -> is_Some (files s !! src) /\ files s' !! dst = files s !! src).
Proof.
  intros Hne. unfold cp, os_err, mbind, ST_bind, fail. destruct (os_Stat_Mode src s) as [s1 [st|e|w]] eqn:Es;
    destruct (statmode_law _ _ _ _ Es) as [H1 Hp]; [|intros [= <- <-]; by rewrite H1|by destruct (Hp w)].
  destruct (negb (IsRegular st)); [intros [= <- <-]; by rewrite H1|].
  destruct (os_Open src s1) as [s2 [e|]] eqn:Eo; pose proof (open_law _ _ _ _ Eo) as H2; [intros [= <- <-]; by rewrite H2, H1|].
  destruct (os_Create dst s2) as [s3 [e|]] eqn:Ec; pose proof (create_file_law _ _ _ _ Ec) as H3; [intros [= <- <-]; by rewrite H3, H2, H1|].
  assert (files s3 = <[dst := []]> (files s)) as H3' by (by rewrite H3, H2, H1).
  destruct (io_Copy dst src s3) as [s4 [e|]] eqn:Ey; pose proof (copy_law _ _ _ _ _ Ey) as H4; intros [= <- <-].
  - split; [|done]. intros p Hp'. destruct H4 as [->|[b ->]]; rewrite H3', ?lookup_insert_ne by done; done.
  - destruct H4 as (b & Hb & ->). rewrite H3' in Hb |- *. rewrite lookup_insert_ne in Hb by done.
    split; [intros p Hp'; by rewrite !lookup_insert_ne by done|]. split; [done|]. intros _. by rewrite lookup_insert_eq, Hb.
Qed.

Lemma CopyFile_replaces src dst s : src <> tmp_of dst ->
  let '(s', r) := CopyFile src dst s in
  (r = Ret tt \/ exists e, r = Err e) /\ replaced (files s) (files s') src dst (bool_decide (r = Ret tt)).
Proof.
  intros Hsrc. unfold CopyFile, mbind, ST_bind, wrap_err, os_err. fold (tmp_of dst). cbv zeta.
  destruct (cp src (tmp_of dst) s) as [s1 r1] eqn:E1. destruct (cp_spec _ _ _ _ _ Hsrc E1) as (Ho & Hp & Hd).
  pose proof (tmp_ne dst) as Ht.
  destruct r1 as [[]|e|w]; [|split; [eauto|]; split; [auto|left; apply Ho; congruence|done]|by destruct (Hp w)].
  destruct (Hd eq_refl) as [Hs Hc]. destruct (os_Rename (tmp_of dst) dst s1) as [s2 e2] eqn:E2. pose proof (rename_law _ _ _ _ _ E2) as H2.
  destruct e2 as [e|]; [split; [eauto|]; rewrite H2; split; [auto|left; apply Ho; congruence|done]|].
  destruct H2 as (b & Hb & H2).
  assert (forall done_, replaced (files s) (files s2) src dst done_) as Hrep.
  { intros done_. rewrite H2. split; [|right|intros _]; rewrite ?lookup_insert_eq; [|by rewrite <-Hc, Hb in *|].
    - intros p Hp1 Hp2. rewrite lookup_insert_ne, lookup_delete_ne by congruence. by apply Ho.
    - split; [done|]. split; [congruence|]. by rewrite lookup_insert_ne, lookup_delete_eq by congruence. }
  destruct (os_Stat_Mode src s2) as [s3 [si|e|w]] eqn:E3; destruct (statmode_law _ _ _ _ E3) as [H3 Hp3];
    [|split; [eauto|]; by rewrite H3|by destruct (Hp3 w)].
  destruct (os_Chmod dst (perm si) s3) as [s4 [e|]] eqn:E4; rewrite (chmod_law _ _ _ _ _ E4), H3; split; eauto.
Qed.

(** ** All binaries *)

(** The targets are different files, and no target or temporary file is a source. *)
Definition separate (host : gostring) (bins : list gostring) : Prop :=
  NoDup (installTarget host <$> bins) /\
  Forall (fun p => Forall (fun q => p <> installTarget host q /\ p <> tmp_of (installTarget host q) /\
                                 installTarget host p <> tmp_of (installTarget host q)) bins) bins.
#[local] Instance separate_dec host bins : Decision (separate host bins) := _.

(** A file that exists can be copied. *)
Definition copies_succeed : Prop := forall src dst s, src <> tmp_of dst -> is_Some (files s !! src) -> snd (CopyFile src dst s) = Ret tt.

(** [p] is neither a target nor a temporary file. *)
Definition untouched (host : gostring) (bins : list gostring) (p : gostring) : Prop :=
  forall q, q ∈ bins -> p <> installTarget host q /\ p <> tmp_of (installTarget host q).

Lemma separate_cons host a bins : separate host (a :: bins) ->
  separate host bins /\ a <> tmp_of (installTarget host a) /\ (forall q, q ∈ bins -> q <> a) /\
  (forall q, q ∈ bins -> q <> installTarget host a /\ q <> tmp_of (installTarget host a)) /\
  (forall q, q ∈ bins -> installTarget host q <> installTarget host a /\ installTarget host q <> tmp_of (installTarget host a)) /\
  untouched host bins (installTarget host a).
Proof.
  unfold separate, untouched. rewrite fmap_cons, NoDup_cons, !Forall_forall. intros [[Hn Hnd] Hall].
  assert (forall q, q ∈ bins -> installTarget host q <> installTarget host a) as Hd.
  { intros q Hq Heq. apply Hn. rewrite <-Heq. by apply list_elem_of_fmap_2. }
  assert (forall p q, p ∈ a :: bins -> q ∈ a :: bins -> p <> installTarget host q /\ p <> tmp_of (installTarget host q) /\
    installTarget host p <> tmp_of (installTarget host q)) as Hs.
  { intros p q Hp Hq. specialize (Hall p Hp). rewrite Forall_forall in Hall. by apply Hall. }
  split_and!; [done|..]; repeat setoid_rewrite Forall_forall; try (intros; eapply Hs; set_solver).
  - intros q Hq ->. by apply (Hd a Hq).
  - intros q Hq. split; eapply Hs; set_solver.
  - intros q Hq. split; [by apply Hd|eapply Hs; set_solver].
  - intros q Hq. split; [intros Heq; by apply (Hd q Hq)|eapply Hs; set_solver].
Qed.

Lemma install_cons host a bins s : InstallBPFBinaries (a :: bins) host s =
  let '(s1, r) := CopyFile a (installTarget host a) s in
  match r with Panic w => (s1, Panic w) | _ => InstallBPFBinaries bins host s1 end.
Proof.
  unfold InstallBPFBinaries, for_each. cbn [fold_each]. unfold mbind, ST_bind, attempt.
  by destruct (CopyFile _ _ s) as [s1 [[]|e|w]].
Qed.

(** Every source is at its target as a whole, or the target is what it was. *)
Lemma install_run host bins s : separate host bins ->
  exists s', InstallBPFBinaries bins host s = (s', Ret tt) /\
  (forall p, untouched host bins p -> files s' !! p = files s !! p) /\
  (forall q, q ∈ bins -> files s' !! installTarget host q = files s !! installTarget host q \/
    (is_Some (files s !! q) /\ files s' !! installTarget host q = files s !! q)) /\
  (copies_succeed -> forall q, q ∈ bins -> is_Some (files s !! q) -> files s' !! installTarget host q = files s !! q).
Proof.
  revert s. induction bins as [|a bins IH]; intros s Hsep.
  { exists s. split_and!; [done|done|by intros q ?%not_elem_of_nil|by intros _ q ?%not_elem_of_nil]. }
  destruct (separate_cons host a bins Hsep) as (Hsep' & Htmp & Hna & Hsrc & Htgt & Hun).
  pose proof (CopyFile_replaces a (installTarget host a) s Htmp) as Hc.
  rewrite install_cons.
  destruct (CopyFile a (installTarget host a) s) as [s1 r1] eqn:E1. destruct Hc as [Hr Hrep].
  destruct (IH s1 Hsep') as (s2 & Hrun & Hf & Hw & Hd).
  assert (files s2 !! installTarget host a = files s1 !! installTarget host a) as Ha by (by apply Hf).
  exists s2. split; [by destruct Hr as [->|[e ->]]|]. split_and!.
  - intros p Hp. rewrite Hf by (intros q Hq; apply Hp; by right). apply (rp_others _ _ _ _ _ Hrep); apply Hp; by left.
  - intros q [->|Hq]%elem_of_cons; [rewrite Ha; apply Hrep|]. destruct (Hsrc q Hq), (Htgt q Hq).
    rewrite <-!(rp_others _ _ _ _ _ Hrep) by done. by apply Hw.
  - intros Hok q [->|Hq]%elem_of_cons His.
    + rewrite Ha. apply Hrep. specialize (Hok a (installTarget host a) s Htmp His). rewrite E1 in Hok. cbn in Hok. by rewrite Hok.
    + destruct (Hsrc q Hq). rewrite <-(rp_others _ _ _ _ _ Hrep) in His |- * by done. by apply Hd.
Qed.
End install.

Definition hostBinaryPath : gostring := go "/host/opt/cni/bin/".

(** The files [NewBpfClient] installs: events, ingress, egress and the command line tool. *)
Definition bpfBinaries (enableIPv6 : bool) : list gostring :=
  if enableIPv6 then [EVENTS_V6_BINARY; TC_V6_INGRESS_BINARY; TC_V6_EGRESS_BINARY; EKS_V6_CLI_BINARY]
  else [EVENTS_BINARY; TC_INGRESS_BINARY; TC_EGRESS_BINARY; EKS_CLI_BINARY].

Lemma binaries_separate enableIPv6 : separate hostBinaryPath (bpfBinaries enableIPv6).
Proof. apply (bool_decide_unpack _). by destruct enableIPv6; vm_compute. Qed.

Section next_start.
Context `{FS : !FileSystem, HF : !HostFiles}.

(** Nothing of a binary has to be updated when the installed file is the packaged one. *)
Lemma no_updates enableIPv6 s : reliable ->
  (forall p, p ∈ bpfBinaries enableIPv6 -> p <> EKS_CLI_BINARY -> p <> EKS_V6_CLI_BINARY ->
     files s !! (hostBinaryPath ++ p) = files s !! p) ->
  snd (checkAndUpdateBPFBinaries (bpfBinaries enableIPv6) hostBinaryPath s) = Ret (mkProbeUpdates false false false).
Proof.
  intros Hrel Hsame. unfold checkAndUpdateBPFBinaries.
  assert (forall p, p ∈ take 3 (bpfBinaries enableIPv6) -> changed (files s) hostBinaryPath p = false) as Hch.
  { intros p Hp. unfold changed. rewrite Hsame, bool_decide_eq_true_2; [done|done|by eapply elem_of_take in Hp as (? & ? & _); eapply list_elem_of_lookup_2|..];
      destruct enableIPv6; cbn in Hp; set_unfold in Hp; naive_solver. }
  destruct enableIPv6; cbn [bpfBinaries take] in *;
    match goal with |- snd (compareBinaries _ [?ev; ?ing; ?eg; ?cli] _ _) = _ =>
      destruct (compare_all ev ing eg cli hostBinaryPath s Hrel) as (s' & -> & _); auto;
      cbn [snd]; by rewrite !Hch by set_solver
    end.
Qed.

Lemma probe_target host p : p <> EKS_V6_CLI_BINARY -> installTarget host p = host ++ p.
Proof. intros H. unfold installTarget. by rewrite decide_False. Qed.

(** C33: installing the binaries returns nil whatever fails; each installed file is then what it was or a
    whole copy of its packaged file, and the packaged files are as they were.  When the copies
    succeed, the next start finds no binary to update, and the host's command line tool is the
    one of the agent's address family. *)
Theorem install_settles (enableIPv6 : bool) s s' r
  (Hrun : InstallBPFBinaries (bpfBinaries enableIPv6) hostBinaryPath s = (s', r)) :
  let bins := bpfBinaries enableIPv6 in
  r = Ret tt /\
  (forall p, p ∈ bins -> files s' !! p = files s !! p) /\
  (forall p, p ∈ bins -> files s' !! installTarget hostBinaryPath p = files s !! installTarget hostBinaryPath p \/
    (is_Some (files s !! p) /\ files s' !! installTarget hostBinaryPath p = files s !! p)) /\
  (reliable -> copies_succeed -> (forall p, p ∈ bins -> is_Some (files s !! p)) ->
    snd (checkAndUpdateBPFBinaries bins hostBinaryPath s') = Ret (mkProbeUpdates false false false) /\
    files s' !! (hostBinaryPath ++ EKS_CLI_BINARY) = files s !! (if enableIPv6 then EKS_V6_CLI_BINARY else EKS_CLI_BINARY)).
Proof.
  intros bins. destruct (install_run hostBinaryPath bins s (binaries_separate _)) as (s1 & Hrun1 & Hf & Hw & Hd).
  subst bins. rewrite Hrun in Hrun1. injection Hrun1 as <- ->. set (bins := bpfBinaries enableIPv6) in *.
  assert (forall p, p ∈ bins -> files s' !! p = files s !! p) as Hsrc.
  { intros p Hp. apply Hf. intros q Hq. destruct (binaries_separate enableIPv6) as [_ Hall].
    rewrite Forall_forall in Hall. specialize (Hall p Hp). rewrite Forall_forall in Hall. by destruct (Hall q Hq) as (? & ? & _). }
  split_and!; [done|done|done|]. intros Hrel Hok Hall. split.
  - apply no_updates; [done|]. intros p Hp Hcli Hcli6. rewrite <-(probe_target hostBinaryPath p Hcli6), (Hsrc p Hp). auto.
  - destruct enableIPv6; [apply (Hd Hok EKS_V6_CLI_BINARY)|apply (Hd Hok EKS_CLI_BINARY)]; try apply Hall; subst bins; cbn; set_solver.
Qed.
End next_start.

(** ** A host *)
Definition plain_stat (p : gostring) (s : gmap gostring gostring) : gmap gostring gostring * outcome fileMode :=
  (s, match s !! p with Some _ => Ret (mkFileMode true 493) | None => Err (go "no such file or directory") end).
Definition plain_open (p : gostring) (s : gmap gostring gostring) : gmap gostring gostring * option gostring :=
  (s, match s !! p with Some _ => None | None => Some (go "no such file or directory") end).
Definition plain_copy (dst src : gostring) (s : gmap gostring gostring) : gmap gostring gostring * option gostring :=
  match s !! src with Some b => (<[dst := b]> s, None) | None => (s, Some (go "bad file descriptor")) end.

Program Definition plain_host : @HostFiles plainfs := {|
  os_Stat_Mode := plain_stat;
  os_Open := plain_open;
  os_Create := fun p (s : gmap gostring gostring) => (<[p := []]> s, None);
  io_Copy := plain_copy;
  os_Chmod := fun _ _ s => (s, None)
|}.
Next Obligation. intros p s s' r [= <- <-]. split; [done|]. intros w. by case_match. Qed.
Next Obligation. by intros p s s' e [= <- <-]. Qed.
Next Obligation. by intros p s s' e [= <- <-]. Qed.
Next Obligation.
  intros dst src s s' e. cbn in *. unfold plain_copy. destruct (s !! src) as [b|] eqn:E; intros H; injection H as <- <-; [by exists b|by left].
Qed.
Next Obligation. by intros p m s s' e [= <- <-]. Qed.

Lemma plain_copies : @copies_succeed plainfs plain_host.
Proof.
  intros src dst s Hne [b Hb]. cbn in Hb. unfold CopyFile, cp, mbind, ST_bind, wrap_err, os_err. fold (tmp_of dst). cbn. unfold plain_open, plain_copy. rewrite Hb. cbn. rewrite Hb.
  cbn. rewrite lookup_insert_ne, Hb by done. cbn. rewrite lookup_insert_eq. cbn.
  destruct (decide (src = dst)) as [->|Hd]; [by rewrite lookup_insert_eq|].
  by rewrite lookup_insert_ne, lookup_delete_ne, !lookup_insert_ne, Hb by congruence.
Qed.

(** A host with an old ingress probe, before and after the installation. *)
Definition old_host : @fs plainfs := <[EKS_CLI_BINARY := go "cli"]> upgraded_fs.
Definition new_host : @fs plainfs := fst (@InstallBPFBinaries plainfs plain_host (bpfBinaries false) hostBinaryPath old_host).

Lemma install_settles_witness :
  snd (@checkAndUpdateBPFBinaries plainfs (bpfBinaries false) hostBinaryPath old_host) = Ret (mkProbeUpdates true false false) /\
  snd (@checkAndUpdateBPFBinaries plainfs (bpfBinaries false) hostBinaryPath new_host) = Ret (mkProbeUpdates false false false) /\
  @files plainfs new_host !! (hostBinaryPath ++ EKS_CLI_BINARY) = Some (go "cli").
Proof.
  split; [vm_compute; reflexivity|].
  destruct (@install_settles plainfs plain_host false old_host new_host
    (snd (@InstallBPFBinaries plainfs plain_host (bpfBinaries false) hostBinaryPath old_host))) as (_ & _ & _ & H); [apply surjective_pairing|].
  destruct (H plainfs_reliable plain_copies) as [H1 H2]; [|split; [exact H1|rewrite H2; vm_compute; reflexivity]].
  intros p Hp. cbn [bpfBinaries] in Hp. set_unfold in Hp.
  destruct Hp as [->|[->|[->|[->|[]]]]]; apply (bool_decide_unpack _); vm_compute; exact I.
Defined.
