(* ===== verification/ClientStart.v ===== *)
(** [pkg/ebpf/bpf_client.go]: [NewBpfClient], which puts the client together when the agent
    starts.  It compares and installs the probe binaries, takes over or replaces what the
    previous agent left in the kernel, finds or loads the global maps, and starts the event
    loop, the conntrack collector and the sweep of deleted pods.

    The call is one sequence over the client with its kernel, the file system and the events
    component.  What the started goroutines work on is in the result; each is modelled in its
    own file.  The two SDK calls that are only made here are the class [StartSDK]. *)
From S2P Require Import Prelude ApiTypes Utils FwRules MemMap Effects BpfInterface BpfClient LegacyPins Recovery Install Conntrack Events.

Definition AWS_CONNTRACK_MAP : gostring := go "aws_conntrack_map".
Definition AWS_EVENTS_MAP : gostring := go "policy_events".
Definition IPv4_HOST_MASK : gostring := go "/32".
Definition IPv6_HOST_MASK : gostring := go "/128".
Definition IPAM_JSON_PATH : gostring := go "/var/run/aws-node/ipam.json".

(** Loading the events binary opens its maps and leaves the open ones alone. *)
Class StartSDK `{RecoverySDK} := {
  IncreaseRlimit : kext -> kext * option gostring;
  (** [FilePath], [CustomPinPath] and [CustomMapSize]; the global maps by name. *)
  LoadBpfFileWithCustomData : gostring -> gostring -> gmap gostring Z -> kext * gmap Z kmap ->
    (kext * gmap Z kmap) * outcome (gmap gostring Z);
  load_global_law : forall file pin sizes x ms x' ms' r,
    LoadBpfFileWithCustomData file pin sizes (x, ms) = ((x', ms'), r) ->
    ms ⊆ ms' /\ (ms !! 0 = None -> ms' !! 0 = None) /\ forall w, r <> Panic w
}.

(** Go's [int64]. *)
Definition i64 (z : Z) : Z := (z + 2 ^ 63) mod 2 ^ 64 - 2 ^ 63.

(** What [NewBpfClient] starts besides the client's tables. *)
Record startedClient := mkStartedClient {
  (** The conntrack collector: its map, its state, the period it runs with. *)
  conntrackMap : Z;
  collector : conntrackClient;
  halfDuration : Z;
  (** The channel the event loop reads, when logging is on. *)
  eventChannel : option (list gostring)
}.

Record startConfig := mkStartConfig {
  cfg_nodeIP : gostring;
  enablePolicyEventLogs : bool;
  cfg_enableCloudWatchLogs : bool;
  cfg_enableIPv6 : bool;
  conntrackTTL : Z;
  conntrackTableSize : Z;
  cfg_networkPolicyMode : gostring;
  cfg_isMultiNICEnabled : bool
}.

Section start.
Context `{SDK : !BpfMapSDK, CL : !BpfSDK, RS : !RecoverySDK, ST' : !StartSDK, MO : !MapOrder, FS : !FileSystem, HF : !HostFiles, CW : !CloudWatch}.
(** [json.Unmarshal] of the CNI's checkpoint, for the migration and for the interface counts,
    and the SDK's ring buffer reader. *)
Context (json_Unmarshal : gostring -> option (list ipamAllocation)).
Context (checkpoint_Unmarshal : gostring -> option (list (gostring * gostring * Z))).
Context (InitRingBuffer : Z -> outcome (list gostring)).

Record world := mkWorld { w_client : bpfClient; w_fs : fs; w_events : eventsState }.
Definition on_bpf {A} (m : ST bpfClient A) : ST world A := zoom w_client (fun c w => mkWorld c (w_fs w) (w_events w)) m.
Definition on_fs {A} (m : ST fs A) : ST world A := zoom w_fs (fun f w => mkWorld (w_client w) f (w_events w)) m.
Definition on_bpf_fs {A} (m : ST (bpfClient * fs) A) : ST world A :=
  zoom (fun w => (w_client w, w_fs w)) (fun cf w => mkWorld (fst cf) (snd cf) (w_events w)) m.
Definition on_events {A} (m : ST eventsState A) : ST world A :=
  zoom w_events (fun e w => mkWorld (w_client w) (w_fs w) e) m.

Definition loadIPAMDataFromFile (filePath : gostring) : ST world unit :=
  data ← on_fs (fun f => let '(f, r) := os_ReadFile filePath f in (f, Ret r));
  match data with
  | IoOk data =>
      match checkpoint_Unmarshal data with
      | Some allocations => on_bpf (loadIPAMData allocations)
      | None => fail (go "failed to parse ipam.json")
      end
  | IoNotExist => fail (go "failed to read ipam.json file: file does not exist")
  | IoErr e => fail (go "failed to read ipam.json file: " ++ e)
  end.

(** The names by address family: events, ingress, egress and the host mask. *)
Definition eventsBinary (enableIPv6 : bool) : gostring := if enableIPv6 then EVENTS_V6_BINARY else EVENTS_BINARY.
Definition ingressBinary (enableIPv6 : bool) : gostring := if enableIPv6 then TC_V6_INGRESS_BINARY else TC_INGRESS_BINARY.
Definition egressBinary (enableIPv6 : bool) : gostring := if enableIPv6 then TC_V6_EGRESS_BINARY else TC_EGRESS_BINARY.
Definition hostMask_of (enableIPv6 : bool) : gostring := if enableIPv6 then IPv6_HOST_MASK else IPv4_HOST_MASK.

(** The client with empty tables, in a kernel. *)
Definition emptyClient (cfg : startConfig) (x : kext) (ms : gmap Z kmap) : bpfClient :=
  mkBpfClient ∅ ∅ ∅ ∅ ∅ ∅ ms x (cfg_networkPolicyMode cfg) (cfg_isMultiNICEnabled cfg)
    (NewFirewallRuleProcessor (cfg_nodeIP cfg) (hostMask_of (cfg_enableIPv6 cfg)) (cfg_enableIPv6 cfg))
    (by_dir (ingressBinary (cfg_enableIPv6 cfg)) (egressBinary (cfg_enableIPv6 cfg))) (fun _ => ∅).

(** The global maps by name, when the events binary is loaded: it changed, or a map is missing. *)
Definition loadGlobalMaps (cfg : startConfig) (u : probeUpdates) (g : globalState) : ST world (gmap gostring Z) :=
  if updateEventsProbe u || (negb (isConntrackMapPresent g) || negb (isPolicyEventsMapPresent g)) then
    r ← on_bpf (recover_call (LoadBpfFileWithCustomData (eventsBinary (cfg_enableIPv6 cfg)) (go "global")
                              {[AWS_CONNTRACK_MAP := conntrackTableSize cfg]}));
    lift r
  else mret ∅.

(** The conntrack map: the recovered one wins over the loaded one.  [None] is the early return
    of a conntrack map that was found but not stored. *)
Definition chooseConntrackMap (g : globalState) (globalMapInfo : gmap gostring Z) : option Z :=
  if isConntrackMapPresent g then globalMaps g !! CONNTRACK_MAP_PIN_PATH
  else Some (default 0 (globalMapInfo !! AWS_CONNTRACK_MAP)).

(** What is started once the maps are known. *)
Definition startRoutines (cfg : startConfig) (conntrackMap eventBufferFD : Z) : ST world startedClient :=
  eventChannel ← (if enablePolicyEventLogs cfg then
                  c ← on_events (ConfigurePolicyEventsLogging InitRingBuffer (cfg_enableCloudWatchLogs cfg) eventBufferFD);
                  mret (Some c)
                else mret None);
  (if cfg_isMultiNICEnabled cfg then loadIPAMDataFromFile IPAM_JSON_PATH else mret tt);;
  mret (mkStartedClient conntrackMap (NewConntrackClient (cfg_enableIPv6 cfg))
    (Z.quot (i64 (conntrackTTL cfg * 1000000000)) 2) eventChannel).

(** The part after recovery.  [Ret None] is [return nil, nil]. *)
Definition finishStart (cfg : startConfig) (u : probeUpdates) (g : globalState) (recoverErr : option gostring) :
  ST world (option startedClient) :=
  globalMapInfo ← loadGlobalMaps cfg u g;
  let eventBufferFD := default (eventsMapFD g) (globalMapInfo !! AWS_EVENTS_MAP) in
  match chooseConntrackMap g globalMapInfo with
  | None => match recoverErr with Some e => fail e | None => mret None end
  | Some conntrackMap => started ← startRoutines cfg conntrackMap eventBufferFD; mret (Some started)
  end.

Definition startBpfClient (cfg : startConfig) : ST world (option startedClient) :=
  let bins := bpfBinaries (cfg_enableIPv6 cfg) in
  _ ← on_bpf (ext_call IncreaseRlimit);
  u ← on_fs (checkAndUpdateBPFBinaries bins hostBinaryPath);
  _ ← on_fs (attempt (InstallBPFBinaries bins hostBinaryPath));
  recovered ← on_bpf_fs (recoverBPFState json_Unmarshal u);
  let '(g, pinPaths, recoverErr) := recovered in
  on_bpf (modify (set_pinPaths pinPaths));;
  finishStart cfg u g recoverErr.

Definition NewBpfClient (cfg : startConfig) (x : kext) (ms : gmap Z kmap) (f : fs) (e : eventsState) :
  world * outcome (option startedClient) :=
  startBpfClient cfg (mkWorld (emptyClient cfg x ms) f e).

(** ** The calls on a running client

    Every call of the interface, and the sweep that runs every [deletedPodsMinAge / 2]. *)
Inductive client_call :=
  | CallAttach (pod : NamespacedName) (podIdentifier : gostring) (numInterfaces : Z) (podConfirmedLive : bool)
  | CallDelete (now : Z) (pod : NamespacedName) (podIdentifier : gostring)
  | CallRules (kind : PolicyKind) (podIdentifier : gostring) (ing egr : list EbpfFirewallRules)
  | CallPodState (podIdentifier : gostring) (key state : Z) (updateIngress updateEgress : bool)
  | CallSeed (podIdentifier : gostring) (key state : Z)
  | CallReAttach
  | SweepDeletedPods (now : Z).

Definition exec_call (c : client_call) (s : bpfClient) : bpfClient :=
  match c with
  | CallAttach pod podId n live => fst (bpf_AttacheBPFProbes pod podId n live s)
  | CallDelete now pod podId => fst (bpf_DeleteBPFProbes now pod podId s)
  | CallRules kind podId ing egr => fst (updateRuleMaps kind podId ing egr s)
  | CallPodState podId key state uI uE => fst (bpf_UpdatePodStateEbpfMaps podId key state uI uE s)
  | CallSeed podId key state => fst (bpf_CreatePodStateEbpfEntryIfNotExists podId key state s)
  | CallReAttach => fst (bpf_ReAttachEbpfProbes s)
  | SweepDeletedPods now => fst (cleanupDeletedPodsIfNeeded now s)
  end.
End start.
