(* ===== verification/ClientStartFacts.v ===== *)
(** What the client promises from its start on: [NewBpfClient] returns a client or an error,
    never neither; the conntrack collector works on the map the classifiers use; and every
    state the client reaches is well formed. *)
From S2P Require Import Prelude ApiTypes Utils FwRules MemMap Effects BpfInterface BpfClient BpfClientFacts BpfClientTables DemoKernel LegacyPins LegacyPinsFacts Recovery RecoveryFacts Install Conntrack Events EventsFacts ClientStart.

(** ** Well-formed clients *)
Section wf.
Context `{SDK : !BpfMapSDK, CL : !BpfSDK, MO : !MapOrder}.
Implicit Types s : bpfClient.

(** The programs, shadow maps and kernel maps fit together, and so do the pod tables. *)
Definition client_wf s : Prop := client_inv s /\ tables_ok s.

(** Two states with the same programs and pod tables. *)
Definition same_tables s s' : Prop :=
  podToProgMap s' = podToProgMap s /\ progToPodsMap s' = progToPodsMap s /\
  policyEndpointeBPFContext s' = policyEndpointeBPFContext s.

Lemma same_tables_ok s s' : same_tables s s' -> tables_ok s -> tables_ok s'.
Proof.
  intros (P & Q & C) [H1 H2 H3]. split; [by rewrite P, Q|by rewrite P|]. rewrite P. intros d nn fd. unfold prog. rewrite C. apply H3.
Qed.

Lemma wf_attach pod n live s : valid_name pod -> client_wf s ->
  client_wf (fst (bpf_AttacheBPFProbes pod (pod_id pod) n live s)).
Proof.
  intros Hv [Hi Ht]. split.
  - apply (attach_others s pod (pod_id pod) n live s (others_as_refl s (pod_id pod) Hi)).
  - pose proof (attach_tables_gen pod n live s Ht Hv) as H. destruct (bpf_AttacheBPFProbes _ _ _ _ s). apply H.
Qed.

Lemma wf_delete now pod s : valid_name pod -> client_wf s -> client_wf (fst (bpf_DeleteBPFProbes now pod (pod_id pod) s)).
Proof.
  intros Hv [Hi Ht]. unfold bpf_DeleteBPFProbes, mbind, ST_bind, get, modify. cbv beta iota zeta.
  change (set_deletedPods _ _) with (forgotten pod now s).
  destruct (forgotten_keeps pod now s) as (K1 & K2 & K3).
  assert (client_inv (forgotten pod now s)) as Hi' by (by apply (client_inv_ext s)).
  assert (client_wf (forgotten pod now s)) as Hwf by (split; [done|by apply forgotten_ok]).
  destruct (isProgFdShared s (Name pod) (Namespace pod)) as [[]|e|w] eqn:Es; [exact Hwf| |exact Hwf..].
  destruct (deleteBPFProbes_run (pod_id pod) (forgotten pod now s)) as [x ->].
  split; [by apply dropIdentifier_inv|by apply drop_ok].
Qed.

Lemma wf_rules kind id ing egr s : client_wf s -> client_wf (fst (updateRuleMaps kind id ing egr s)).
Proof.
  intros [Hi Ht]. destruct (updateRuleMaps kind id ing egr s) as [s' r] eqn:E.
  destruct (updateRuleMaps_spec _ _ _ _ _ _ _ Hi E) as (Hi' & (im & x & ms & ->) & _). split; [done|]. by apply (same_tables_ok s).
Qed.

(** The pod-state writes, and any other change of kernel maps. *)
Lemma wf_only_kernel s s' : only_kernel s s' -> client_inv s' -> client_wf s -> client_wf s'.
Proof. intros (x & ms & ->) Hi [_ Ht]. split; [done|]. by apply (same_tables_ok s). Qed.

Lemma wf_pod_state id key state uI uE s : client_wf s -> client_wf (fst (bpf_UpdatePodStateEbpfMaps id key state uI uE s)).
Proof.
  intros Hwf. destruct (bpf_UpdatePodStateEbpfMaps id key state uI uE s) as [s' r] eqn:E.
  apply (podStateMaps_spec _ _ (fun k v m => <[k := v]> m)) in E as (Hi & Hk & _); [|exact create_update_law|apply Hwf].
  by eapply wf_only_kernel.
Qed.

Lemma wf_seed id key state s : client_wf s -> client_wf (fst (bpf_CreatePodStateEbpfEntryIfNotExists id key state s)).
Proof.
  intros Hwf. destruct (bpf_CreatePodStateEbpfEntryIfNotExists id key state s) as [s' r] eqn:E.
  apply (podStateMaps_spec _ _ (fun k v m => match m !! k with Some _ => m | None => <[k := v]> m end))
    in E as (Hi & Hk & _); [|exact create_law|apply Hwf].
  by eapply wf_only_kernel.
Qed.

Lemma wf_attachProbe d veth id : preserves client_wf (attachBPFProbe d veth id).
Proof.
  intros s [Hi Ht]. split; [apply (attachBPFProbe_others s id d veth s (others_as_refl s id Hi))|].
  destruct (attachBPFProbe d veth id s) as [s' r] eqn:E. eapply tables_grow; [done|]. by eapply attachBPFProbe_grows.
Qed.

Lemma wf_reattach : preserves client_wf bpf_ReAttachEbpfProbes.
Proof.
  assert (forall d st ip, preserves client_wf (reattach d st ip)) as Hr.
  { intros d st [iface pinPath]. unfold reattach. apply preserves_bind; [auto with agent|]. intros pid.
    apply preserves_bind; [apply preserves_attempt, wf_attachProbe|]. intros _.
    do 2 (apply preserves_bind; [apply preserves_attempt; intros s; apply wf_pod_state|]; intros _). auto with agent. }
  unfold bpf_ReAttachEbpfProbes. apply preserves_bind; [by intros s|]. intros s.
  apply preserves_bind; [|intros []]; by apply preserves_for_each.
Qed.
End wf.

(** ** The start *)
Section start.
Context `{SDK : !BpfMapSDK, CL : !BpfSDK, RS : !RecoverySDK, ST' : !StartSDK, MO : !MapOrder, FS : !FileSystem, HF : !HostFiles, CW : !CloudWatch}.
Context (json_Unmarshal : gostring -> option (list ipamAllocation)).
Context (checkpoint_Unmarshal : gostring -> option (list (gostring * gostring * Z))).
Context (InitRingBuffer : Z -> outcome (list gostring)).
Implicit Types s : bpfClient.

Lemma compare_total host bins u (f : fs) : exists f' u', compareBinaries host bins u f = (f', Ret u').
Proof.
  revert u f. induction bins as [|p bins IH]; intros u f; cbn [compareBinaries]; [by eexists _, _|].
  case_decide; [apply IH|]. unfold mbind, ST_bind, readOrNil. destruct (os_ReadFile p f) as [f1 r1].
  destruct (os_ReadFile (host ++ p) f1) as [f2 r2]. repeat case_match; try apply IH; by eexists _, _.
Qed.

(** The conntrack map that recovery finds among the pins [P]: none when the events probe is
    replaced or the global maps cannot be read. *)
Definition recovered_conntrack (P : gmap gostring gostring) (u : probeUpdates) (k : kext * gmap Z kmap) : option Z :=
  if updateEventsProbe u then None else
  match snd (RecoverGlobalMaps P k) with Ret maps => maps !! CONNTRACK_MAP_PIN_PATH | _ => None end.

Lemma recover_found P u c c' g pins err : recoverKernelState P u c = (c', Ret (g, pins, err)) ->
  globalMaps g !! CONNTRACK_MAP_PIN_PATH = recovered_conntrack P u (kernel_ext c, kmaps c) /\
  isConntrackMapPresent g = bool_decide (is_Some (globalMaps g !! CONNTRACK_MAP_PIN_PATH)).
Proof.
  unfold recoverKernelState, recovered_conntrack. intros (s1 & g1 & Hg & Hrest)%bind_returns.
  assert (default noGlobals g1 = g) as <-.
  { destruct g1 as [g1|]; [|by injection Hrest].
    apply bind_returns in Hrest as (s2 & [] & _ & Hrest). apply bind_returns in Hrest as (s3 & r & _ & Hrest).
    destruct r; [injection Hrest; by intros _ _ ->|injection Hrest; by intros _ _ ->|done]. }
  clear Hrest. destruct (updateEventsProbe u); cbn [negb] in Hg; [by injection Hg as _ <-|].
  apply bind_returns in Hg as (s2 & r & Hcall & Hr). unfold recover_call in Hcall.
  destruct (RecoverGlobalMaps P (kernel_ext c, kmaps c)) as [[x' ms'] r']. injection Hcall as <- <-.
  injection Hr as _ <-. destruct r' as [maps|e|w]; cbn [snd findGlobals default globalMaps isConntrackMapPresent]; [|done..].
  change (Datatypes.id (findGlobals maps)) with (findGlobals maps). cbn [findGlobals globalMaps isConntrackMapPresent].
  destruct (maps !! CONNTRACK_MAP_PIN_PATH) as [fd|]; by rewrite ?lookup_singleton_eq, ?lookup_empty.
Qed.

Lemma emptyClient_fresh cfg x ms : ms !! 0 = None -> fresh (emptyClient cfg x ms).
Proof. by intros. Qed.

Section run.
Context (cfg : startConfig) (x : kext) (ms : gmap Z kmap) (f : fs) (e : eventsState).
Context (Hreads : sdk_reads) (Hzero : ms !! 0 = None).
Context (Hkeys : forall P x x' ms' res, RecoverAllBpfProgramsAndMaps P (x, ms) = ((x', ms'), res) ->
     forall fd k, ms' !! fd = Some k -> kcontents k !! ([] : gostring) = None).

Abbreviation start := (NewBpfClient json_Unmarshal checkpoint_Unmarshal InitRingBuffer cfg x ms f e).
Abbreviation finish := (finishStart checkpoint_Unmarshal InitRingBuffer cfg).

(** Everything up to recovery returns. *)
Lemma start_recovers : exists f1 u x1 c f2 g pins err,
  checkAndUpdateBPFBinaries (bpfBinaries (cfg_enableIPv6 cfg)) hostBinaryPath f = (f1, Ret u) /\
  recoverKernelState (files f2) u (emptyClient cfg x1 ms) = (c, Ret (g, pins, err)) /\
  client_wf c /\ took_over (files f2) u (emptyClient cfg x1 ms) c /\
  x1 = fst (IncreaseRlimit x) /\ start = finish u g err (mkWorld (set_pinPaths pins c) f2 e).
Proof.
  unfold NewBpfClient, startBpfClient. cbv zeta. unfold mbind at 1, ST_bind at 1, on_bpf at 1, zoom at 1, ext_call. cbn [w_client w_fs w_events].
  change (kernel_ext (emptyClient cfg x ms)) with x. destruct (IncreaseRlimit x) as [x1 e1]. unfold mbind at 1, ST_bind at 1, on_fs at 1, zoom at 1. cbn [w_client w_fs w_events].
  destruct (compare_total hostBinaryPath (bpfBinaries (cfg_enableIPv6 cfg)) (mkProbeUpdates false false false) f) as (f1 & u & Hu).
  unfold checkAndUpdateBPFBinaries. rewrite Hu. unfold mbind at 1, ST_bind at 1, on_fs at 1, zoom at 1, attempt. cbn [w_client w_fs w_events].
  destruct (install_run hostBinaryPath (bpfBinaries (cfg_enableIPv6 cfg)) f1 (binaries_separate _)) as (f2 & -> & _).
  unfold mbind at 1, ST_bind at 1, on_bpf_fs, zoom at 1. cbn [w_client w_fs w_events].
  change (set_kernel x1 (kmaps (emptyClient cfg x ms)) (emptyClient cfg x ms)) with (emptyClient cfg x1 ms).
  destruct (recovery_run json_Unmarshal u (emptyClient cfg x1 ms) f2 Hreads (emptyClient_fresh cfg x1 ms Hzero) (Hkeys _))
    as (c & f3 & [[g pins] err] & -> & Hf3 & Hk & Hi & Ht & Ho). rewrite <-Hf3 in Hk, Ho.
  exists f1, u, x1, c, f3, g, pins, err. by split_and!.
Qed.

Lemma finish_result u g err w w' r :
  (isConntrackMapPresent g = true -> is_Some (globalMaps g !! CONNTRACK_MAP_PIN_PATH)) -> finish u g err w = (w', r) ->
  r <> Ret None /\ forall st, r = Ret (Some st) ->
    exists w1 info, loadGlobalMaps cfg u g w = (w1, Ret info) /\ chooseConntrackMap g info = Some (conntrackMap st) /\
    collector st = NewConntrackClient (cfg_enableIPv6 cfg) /\ (is_Some (eventChannel st) <-> enablePolicyEventLogs cfg = true).
Proof.
  intros Hstored. unfold finishStart, mbind at 1, ST_bind at 1. destruct (loadGlobalMaps cfg u g w) as [w1 [info|e1|w1']] eqn:El;
    [|by intros [= <- <-]..].
  assert (is_Some (chooseConntrackMap g info)) as [m Hm].
  { unfold chooseConntrackMap. destruct (isConntrackMapPresent g); [by apply Hstored|done]. }
  rewrite Hm. unfold mbind, ST_bind. destruct (startRoutines _ _ _ _ _ _) as [w2 [st|e2|w2']] eqn:Es; intros [= <- <-]; [|done..].
  split; [done|]. intros st' [= <-]. exists w1, info. split; [done|].
  apply bind_returns in Es as (w3 & ch & Hch & Es). apply bind_returns in Es as (w4 & [] & _ & Es). injection Es as _ <-. cbn.
  split; [done|]. split; [done|]. destruct (enablePolicyEventLogs cfg).
  - apply bind_returns in Hch as (? & ? & _ & [= _ <-]). by split.
  - injection Hch as _ <-. split; [by intros [? ?]|done].
Qed.
End run.

(** A start that goes wrong leaves a well-formed client too. *)
Lemma preserves_on_bpf (P : bpfClient -> Prop) {A} (m : ST bpfClient A) :
  preserves P m -> preserves (fun w => P (w_client w)) (on_bpf m).
Proof. intros Hm w Hw. unfold on_bpf, zoom. specialize (Hm _ Hw). by destruct (m (w_client w)). Qed.
Lemma preserves_on_fs (P : bpfClient -> Prop) {A} (m : ST fs A) : preserves (fun w => P (w_client w)) (on_fs m).
Proof. by apply preserves_zoom. Qed.
Lemma preserves_on_events (P : bpfClient -> Prop) {A} (m : ST eventsState A) : preserves (fun w => P (w_client w)) (on_events m).
Proof. by apply preserves_zoom. Qed.

Lemma wf_load_global file pn sizes : preserves client_wf (recover_call (LoadBpfFileWithCustomData file pn sizes)).
Proof.
  intros s [Hi Ht]. unfold recover_call. destruct (LoadBpfFileWithCustomData file pn sizes (kernel_ext s, kmaps s)) as [[x' ms'] r] eqn:E.
  destruct (load_global_law _ _ _ _ _ _ _ _ E) as (Hsub & Hz & _). split; [by apply (others_as_load s x' ms' [])|by apply (same_tables_ok s)].
Qed.

Lemma wf_loadIPAMData l : preserves client_wf (loadIPAMData l).
Proof.
  apply preserves_for_each. intros [[n ns] k]. repeat case_match; auto with agent.
  apply preserves_modify. intros s [Hi Ht]. split; [by apply (client_inv_ext s)|by apply (same_tables_ok s)].
Qed.

Lemma wf_finish cfg u g err : preserves (fun w => client_wf (w_client w)) (finishStart checkpoint_Unmarshal InitRingBuffer cfg u g err).
Proof.
  unfold finishStart. apply preserves_bind.
  - unfold loadGlobalMaps. case_match; [|auto with agent]. apply preserves_bind; [apply preserves_on_bpf, wf_load_global|auto with agent].
  - intros info. case_match; [|case_match; auto with agent]. apply preserves_bind; [|auto with agent].
    unfold startRoutines. apply preserves_bind; [|intros ch; apply preserves_bind; [|auto with agent]].
    + case_match; [|auto with agent]. apply preserves_bind; [apply preserves_on_events|auto with agent].
    + case_match; [|auto with agent]. unfold loadIPAMDataFromFile. apply preserves_bind; [apply preserves_on_fs|].
      intros data. repeat case_match; auto with agent. apply preserves_on_bpf, wf_loadIPAMData.
Qed.

(** The kernel an agent finds: descriptor 0 is not a map, and no map it recovers has an empty key. *)
Definition kernel_ok (ms : gmap Z kmap) : Prop :=
  ms !! 0 = None /\
  forall P x x' ms' res, RecoverAllBpfProgramsAndMaps P (x, ms) = ((x', ms'), res) ->
    forall fd k, ms' !! fd = Some k -> kcontents k !! ([] : gostring) = None.

Abbreviation NewClient := (NewBpfClient json_Unmarshal checkpoint_Unmarshal InitRingBuffer).

Lemma start_wf cfg x ms f e : sdk_reads -> kernel_ok ms -> client_wf (w_client (fst (NewClient cfg x ms f e))).
Proof.
  intros Hreads [Hz Hk]. destruct (start_recovers cfg x ms f e Hreads Hz Hk) as (f1 & u & x1 & c & f2 & g & pins & err & _ & _ & [Hi Ht] & _ & _ & ->).
  apply wf_finish. split; [by apply (client_inv_ext c)|by apply (same_tables_ok c)].
Qed.

(** After recovery the start only reads files. *)
Lemma finish_files m cfg u g err : preserves (fun w => files (w_fs w) = m) (finishStart checkpoint_Unmarshal InitRingBuffer cfg u g err).
Proof.
  assert (forall p, preserves (fun w : world => files (w_fs w) = m) (on_fs (fun f => let '(f, r) := os_ReadFile p f in (f, Ret r)))) as Hread.
  { intros p w Hw. unfold on_fs, zoom. destruct (os_ReadFile p (w_fs w)) as [f r] eqn:E. cbn. by rewrite (proj1 (read_law _ _ _ _ E)). }
  unfold finishStart, loadGlobalMaps, startRoutines, loadIPAMDataFromFile. preserve; try apply Hread; by apply preserves_zoom.
Qed.

(** Which conntrack map the collector gets, from what recovery reports. *)
Lemma start_conntrack cfg u g err P k w w' st :
  globalMaps g !! CONNTRACK_MAP_PIN_PATH = recovered_conntrack P u k ->
  isConntrackMapPresent g = bool_decide (is_Some (globalMaps g !! CONNTRACK_MAP_PIN_PATH)) ->
  finishStart checkpoint_Unmarshal InitRingBuffer cfg u g err w = (w', Ret (Some st)) ->
  match recovered_conntrack P u k with
  | Some fd => conntrackMap st = fd
  | None => exists x' ms' info, LoadBpfFileWithCustomData (eventsBinary (cfg_enableIPv6 cfg)) (go "global")
      {[AWS_CONNTRACK_MAP := conntrackTableSize cfg]} (kernel_ext (w_client w), kmaps (w_client w)) = ((x', ms'), Ret info) /\
      conntrackMap st = default 0 (info !! AWS_CONNTRACK_MAP)
  end.
Proof.
  intros Hfound Hpresent Hrun. apply finish_result in Hrun as [_ Hst]; [|intros Hp; rewrite Hpresent in Hp; by apply bool_decide_eq_true in Hp].
  destruct (Hst st eq_refl) as (w1 & info & Hload & Hch & _). unfold chooseConntrackMap in Hch. rewrite Hfound in *.
  destruct (recovered_conntrack P u k) as [fd|]; rewrite Hpresent in Hch; [rewrite bool_decide_eq_true_2 in Hch by done; congruence|].
  rewrite bool_decide_eq_false_2 in Hch, Hpresent by (by intros []). injection Hch as Hch.
  unfold loadGlobalMaps in Hload. rewrite Hpresent in Hload. cbn [negb orb] in Hload. rewrite orb_true_r in Hload.
  apply bind_returns in Hload as (w2 & rl & Hcall & Hlift). injection Hlift as _ ->. unfold on_bpf, zoom, recover_call in Hcall.
  destruct (LoadBpfFileWithCustomData _ _ _ _) as [[x' ms'] r']. injection Hcall as _ ->. by exists x', ms', info.
Qed.

(** C32: [NewBpfClient] returns a client or an error, never neither, and leaves a well-formed client
    behind in every case.  With a client, the event loop runs exactly when logging is on, and
    the conntrack collector works on the map the classifiers share.  Which one that is: when
    the packaged events binary is the installed one, and the global maps can be recovered and
    have one at the path of the conntrack map, it is that one, whatever the loaded binary
    brings; in every other case the events binary is loaded into the kernel that recovery left,
    with the configured table size, and it is the conntrack map of that. *)
Theorem start_ready cfg x ms f e w r
  (Hreads : sdk_reads) (Hkernel : kernel_ok ms) (Hrun : NewClient cfg x ms f e = (w, r)) :
  r <> Ret None /\ client_wf (w_client w) /\
  forall st, r = Ret (Some st) ->
    collector st = NewConntrackClient (cfg_enableIPv6 cfg) /\
    (is_Some (eventChannel st) <-> enablePolicyEventLogs cfg = true) /\
    exists f1 u, checkAndUpdateBPFBinaries (bpfBinaries (cfg_enableIPv6 cfg)) hostBinaryPath f = (f1, Ret u) /\
    match recovered_conntrack (files (w_fs w)) u (fst (IncreaseRlimit x), ms) with
    | Some fd => conntrackMap st = fd
    | None => exists c res k' info, recoverKernelState (files (w_fs w)) u (emptyClient cfg (fst (IncreaseRlimit x)) ms) = (c, Ret res) /\
        LoadBpfFileWithCustomData (eventsBinary (cfg_enableIPv6 cfg)) (go "global")
          {[AWS_CONNTRACK_MAP := conntrackTableSize cfg]} (kernel_ext c, kmaps c) = (k', Ret info) /\
        conntrackMap st = default 0 (info !! AWS_CONNTRACK_MAP)
    end.
Proof.
  pose proof (start_wf cfg x ms f e Hreads Hkernel) as Hwf. rewrite Hrun in Hwf. destruct Hkernel as [Hz Hk].
  destruct (start_recovers cfg x ms f e Hreads Hz Hk) as (f1 & u & x1 & c & f2 & g & pins & err & Hu & Hrec & _ & _ & -> & Heq).
  rewrite Hrun in Heq. symmetry in Heq. pose proof (finish_files (files f2) cfg u g err (mkWorld (set_pinPaths pins c) f2 e) eq_refl) as Hfiles. rewrite Heq in Hfiles.
  destruct (recover_found _ u _ c g pins err Hrec) as [Hfound Hpresent].
  pose proof Heq as Heq'. apply finish_result in Heq' as [Hnn Hst]; [|intros Hp; rewrite Hpresent in Hp; by apply bool_decide_eq_true in Hp].
  split; [done|]. split; [done|]. intros st ->. destruct (Hst st eq_refl) as (w1 & info & _ & _ & Hcol & Hev).
  split; [done|]. split; [done|]. exists f1, u. split; [done|]. cbn [fst] in Hfiles. rewrite Hfiles.
  pose proof (start_conntrack cfg u g err _ _ _ _ st Hfound Hpresent Heq) as Hct. change (kernel_ext (emptyClient cfg ?y ms)) with y in Hct.
  change (kmaps (emptyClient cfg ?y ms)) with ms in Hct. destruct (recovered_conntrack _ _ _); [done|].
  destruct Hct as (x' & ms' & info' & Hl & Hm). by exists c, (g, pins, err), (x', ms'), info'.
Qed.

(** The calls the controllers and the RPC server make: for a pod, with its identifier. *)
Definition valid_call (c : client_call) : Prop :=
  match c with
  | CallAttach pod podId _ _ | CallDelete _ pod podId => valid_name pod /\ podId = pod_id pod
  | _ => True
  end.

(** The states of a client that was started and then called any number of times. *)
Inductive reachable : bpfClient -> Prop :=
  | reach_start cfg x ms f e w st :
  kernel_ok ms -> NewClient cfg x ms f e = (w, Ret (Some st)) -> reachable (w_client w)
  | reach_call c s : valid_call c -> reachable s -> reachable (exec_call c s).

(** C7: every state a client reaches is well formed: descriptor 0 is never a map, every program's maps
    are open and belong to it alone, every shadow map equals the kernel map it shadows, the
    two pod tables are inverse to each other, both directions list the same pods, and a listed
    pod's program is the one of its identifier.  This holds from the start on, after any
    sequence of calls, whichever of them fail. *)
Theorem reachable_wf s (Hreads : sdk_reads) (Hs : reachable s) : client_wf s.
Proof.
  induction Hs as [cfg x ms f e w st Hk Hrun|c s Hc _ IH].
  - pose proof (start_wf cfg x ms f e Hreads Hk) as H. by rewrite Hrun in H.
  - destruct c; cbn in Hc |- *.
    + destruct Hc as [Hv ->]. by apply wf_attach.
    + destruct Hc as [Hv ->]. by apply wf_delete.
    + by apply wf_rules.
    + by apply wf_pod_state.
    + by apply wf_seed.
    + by apply wf_reattach.
    + destruct IH as [Hi Ht]. split; [by apply (client_inv_ext s)|by apply (same_tables_ok s)].
Qed.
End start.

(** ** A start *)
Program Definition demo_start : @StartSDK reliable_sdk demo_sdk demo_recovery := {|
  IncreaseRlimit := fun x => (x, None);
  LoadBpfFileWithCustomData := fun _ _ _ k =>
    let n := fresh_fd (snd k) in
    ((fst k, <[n := (∅ : gmap gostring gostring)]> (<[n + 1 := (∅ : gmap gostring gostring)]> (snd k))),
     Ret {[AWS_CONNTRACK_MAP := n; AWS_EVENTS_MAP := n + 1]})
|}.
Next Obligation.
  intros file pn sizes x ms x' ms' r. cbn [fst snd]. intros [= <- <- <-]. set (n := fresh_fd ms). pose proof (fresh_fd_pos ms : 0 < n) as Hpos.
  assert (forall i, 0 <= i -> ms !! (n + i) = None) as Hnone by (intros; by apply fresh_fd_none).
  pose proof (Hnone 0 ltac:(lia)) as H0. rewrite Z.add_0_r in H0. split; [|split; [|done]].
  - etrans; [|apply insert_subseteq; rewrite lookup_insert_ne by lia; exact H0]. apply insert_subseteq. apply Hnone. lia.
  - intros Hz. by rewrite !lookup_insert_ne by (change (fresh_fd ms) with n; lia).
Qed.

(** The agent after an upgrade of its ingress probe, with and without a pinned conntrack map. *)
Definition demo_config : startConfig := mkStartConfig (go "10.1.0.1") true false false 300 524288 (go "standard") false.
Definition demo_host (pinned : bool) : @fs plainfs := if pinned then <[CONNTRACK_MAP_PIN_PATH := []]> old_host else old_host.
Definition start_run (pinned : bool) :=
  @NewBpfClient reliable_sdk demo_sdk demo_recovery demo_start listed_order plainfs plain_host demo_cw
    (fun _ => None) (fun _ => None) (fun _ => Ret []) demo_config [] ∅ (demo_host pinned) demo_events.
Definition started_client (pinned : bool) : startedClient :=
  match snd (start_run pinned) with Ret (Some st) => st | _ => mkStartedClient 0 (NewConntrackClient true) 0 None end.
Definition demo_run := start_run false.
Definition demo_started : startedClient := started_client false.

Lemma demo_kernel_ok : @kernel_ok reliable_sdk demo_sdk demo_recovery ∅.
Proof.
  split; [done|]. intros P x x' ms' res Hcall fd k. cbn in Hcall. unfold demo_recover in Hcall.
  case_decide; [by injection Hcall as <- <- <-|]. cbn [fst snd] in Hcall. injection Hcall as <- <- <-.
  rewrite !lookup_insert_Some, lookup_empty. intros Hk. decompose [or and] Hk; subst; done.
Qed.

Lemma start_ready_witness :
  (forall pinned, snd (start_run pinned) = Ret (Some (started_client pinned)) /\ client_wf (w_client (fst (start_run pinned))) /\
     is_Some (eventChannel (started_client pinned))) /\
  conntrackMap (started_client true) = 90 /\ conntrackMap (started_client false) = 1.
Proof.
  assert (forall pinned, snd (start_run pinned) = Ret (Some (started_client pinned))) as Hr by (intros []; vm_compute; reflexivity).
  pose proof (fun pinned => @start_ready reliable_sdk demo_sdk demo_recovery demo_start listed_order plainfs plain_host demo_cw
    (fun _ => None) (fun _ => None) (fun _ => Ret []) demo_config [] ∅ (demo_host pinned) demo_events (fst (start_run pinned)) (snd (start_run pinned))
    reliable_reads demo_kernel_ok (surjective_pairing _)) as H.
  split; [intros pinned; split; [apply Hr|]; destruct (H pinned) as (_ & Hwf & Hst); split; [exact Hwf|by apply (Hst _ (Hr pinned))]|].
  split; [|vm_compute; reflexivity].
  destruct (H true) as (_ & _ & Hst). destruct (Hst _ (Hr true)) as (_ & _ & f1 & u & Hu & Hct).
  assert (u = mkProbeUpdates true false false) as ->; [|exact Hct].
  assert (Ret u = Ret (mkProbeUpdates true false false)) as Heq; [|by injection Heq].
  transitivity (snd (@checkAndUpdateBPFBinaries plainfs (bpfBinaries (cfg_enableIPv6 demo_config)) hostBinaryPath (demo_host true))); [by rewrite Hu|].
  vm_compute. reflexivity.
Defined.

(** A pod is added and deleted again. *)
Definition demo_calls : @bpfClient reliable_sdk demo_sdk :=
  @exec_call reliable_sdk demo_sdk listed_order (CallDelete 9 (demo_pod "web-1") (pod_id (demo_pod "web-1")))
    (@exec_call reliable_sdk demo_sdk listed_order (CallAttach (demo_pod "web-1") (pod_id (demo_pod "web-1")) 1 true) (w_client (fst demo_run))).

Lemma reachable_wf_witness : client_wf demo_calls /\ deletedPods demo_calls !! pod_key (demo_pod "web-1") = Some 9.
Proof.
  split; [|vm_compute; reflexivity].
  apply (@reachable_wf reliable_sdk demo_sdk demo_recovery demo_start listed_order plainfs plain_host demo_cw
    (fun _ => None) (fun _ => None) (fun _ => Ret []) demo_calls reliable_reads).
  apply reach_call; [by split; [vm_compute; set_solver|]|]. apply reach_call; [by split; [vm_compute; set_solver|]|].
  apply reach_start with demo_config [] ∅ old_host demo_events demo_started; [exact demo_kernel_ok|].
  transitivity (fst demo_run, snd demo_run); [apply surjective_pairing|]. f_equal.
Defined.
