(* ===== verification/Reattach.v ===== *)
(** The restart after an upgrade: [ReAttachEbpfProbes] puts a new program on every interface
    whose old one was found at the start, and sets the pods behind it to the default state of
    the enforcing mode.

    The filters traffic control holds are the class [TcFilters].  That an upgrade reaches every
    interface is proved for a kernel in which loads, attachments and map writes succeed; the
    code logs the ones that fail and goes on. *)
From S2P Require Import Prelude ApiTypes Utils UtilsFacts FwRules Datapath MemMap Effects BpfInterface BpfClient BpfClientFacts BpfClientTables DemoKernel LegacyPins Recovery RecoveryFacts.

(** The program on an interface.  A call changes the filter of its interface and direction. *)
Class TcFilters `{BpfSDK} := {
  filter_on : kext -> Direction -> gostring -> option Z;
  tc_attach_law : forall d v fd x x' e, TCAttach d v fd x = (x', e) ->
    (e = None -> filter_on x' d v = Some fd) /\
    forall d' v', (d', v') <> (d, v) -> filter_on x' d' v' = filter_on x d' v';
  tc_load_law : forall file id x ms x' ms' r, LoadBpfFile file id (x, ms) = ((x', ms'), r) ->
    forall d v, filter_on x' d v = filter_on x d v
}.

Section reattach.
Context `{SDK : !BpfMapSDK, CL : !BpfSDK, TC : !TcFilters, MO : !MapOrder}.
Implicit Types s : bpfClient.

Definition filter_of s (d : Direction) (iface : gostring) : option Z := filter_on (kernel_ext s) d iface.

(** A kernel in which the new probes can be loaded, attached and used. *)
Record upgrade_works (binary : Direction -> gostring) : Prop := {
  uw_load : forall d id k, exists k' progs p, LoadBpfFile (binary d) id k = (k', Ret progs) /\
  progs !! pin id d = Some p /\ ProgFD p <> 0 /\ is_Some (Maps p !! pod_state_map d);
  uw_attach : forall d v fd x, filter_on x d v = None -> snd (TCAttach d v fd x) = None;
  uw_write : forall (k : kmap) key v, snd (CreateUpdateMapEntry k key v) = None
}.

(** Every program the client has, has its pod-state map. *)
Definition states_open s : Prop := forall id d, prog s id d <> 0 -> is_Some (slot s id d (pod_state_map d)).

(** ** Attaching one interface *)
Record attached_to s s' (d : Direction) (iface id : gostring) : Prop := {
  at_inv : client_inv s';
  at_open : states_open s';
  at_probe : probeBinary s' = probeBinary s;
  at_filter : filter_of s' d iface = Some (prog s' id d);
  at_prog : prog s' id d <> 0;
  at_others : forall d' v, (d', v) <> (d, iface) -> filter_of s' d' v = filter_of s d' v;
  at_kept : forall id' d', prog s id' d' <> 0 -> prog s' id' d' = prog s id' d' /\
  forall n, n ∈ pod_maps d' -> slot_contents s' id' d' n = slot_contents s id' d' n
}.

Lemma prog_context s id d : ProgFD (pgmInfo d (default zeroContext (policyEndpointeBPFContext s !! id))) = prog s id d.
Proof. unfold prog. destruct (policyEndpointeBPFContext s !! id); [done|]. by destruct d. Qed.

(** The filter, on an interface that has none. *)
Lemma attachFilter_works d iface fd s : upgrade_works (probeBinary s) -> filter_of s d iface = None ->
  exists x, attachFilter d iface fd s = (set_kernel x (kmaps s) s, Ret tt) /\ filter_on x d iface = Some fd /\
    forall d' v, (d', v) <> (d, iface) -> filter_on x d' v = filter_of s d' v.
Proof.
  intros Hw Hn. unfold attachFilter, mbind, ST_bind, attempt, sdk_call.
  pose proof (uw_attach _ Hw d iface fd (kernel_ext s) Hn) as He. destruct (TCAttach d iface fd (kernel_ext s)) as [x e] eqn:E.
  cbn in He. subst e. cbn. exists x. destruct (tc_attach_law _ _ _ _ _ _ E) as [H1 H2]. auto.
Qed.

(** The program of the direction is there, or is loaded. *)
Lemma ensureProgram_works d id s : client_inv s -> states_open s -> upgrade_works (probeBinary s) ->
  exists s', ensureProgram d id s = (s', Ret (prog s' id d)) /\ prog s' id d <> 0 /\
  client_inv s' /\ states_open s' /\ probeBinary s' = probeBinary s /\ (forall d' v, filter_of s' d' v = filter_of s d' v) /\
  forall id' d', prog s id' d' <> 0 -> prog s' id' d' = prog s id' d' /\
    forall n, n ∈ pod_maps d' -> slot_contents s' id' d' n = slot_contents s id' d' n.
Proof.
  intros Hi Ho Hw. pose proof (ensureProgram_others s id d s (others_as_refl s id Hi)) as (Hi' & _ & _).
  destruct (ensureProgram d id s) as [s' r] eqn:E. pose proof (ensureProgram_grows _ _ _ _ _ E) as [Hg Hr].
  revert E. unfold ensureProgram, mbind, ST_bind, get. rewrite prog_context.
  destruct (Z.eqb_spec (prog s id d) 0) as [E0|E0]; cbn [negb].
  2:{ intros [= <- <-]. exists s. by split_and!. }
  unfold loadBPFProgram, mbind, ST_bind. destruct (uw_load _ Hw d id (kernel_ext s, kmaps s)) as ([x' ms'] & progs & p & El & Hp & Hfd & Hst).
  cbv zeta. rewrite El. change (GetBPFPinPathFromPodIdentifier id (dir_name d)) with (pin id d). rewrite Hp. destruct (Z.eqb_spec (ProgFD p) 0) as [|_]; [done|].
  rewrite decide_False by (intros Hm; rewrite Hm, lookup_empty in Hst; by destruct Hst).
  unfold mret, ST_ret, modify. rewrite Hp. cbn [default]. intros [= <- <-].
  set (s' := set_context _ _) in *. exists s'. destruct (Hr _ eq_refl) as [Hpr Hne]. destruct (load_law _ _ _ _ _ _ _ El) as (Hsub & _ & _).
  assert (forall id' d' n, slot s' id' d' n = if decide (id' = id /\ d' = d) then Maps p !! n else slot s id' d' n) as Hslot.
  { intros id' d' n. unfold s'. rewrite slot_set_context. case_decide; [|done]. by destruct (Z.eqb_spec (ProgFD p) 0). }
  assert (forall id' d', prog s id' d' <> 0 -> prog s' id' d' = prog s id' d' /\ ~ (id' = id /\ d' = d)) as Hkeep.
  { intros id' d' H. split; [by apply Hg|]. intros [-> ->]. done. }
  split_and!; [by rewrite Hpr|by rewrite Hpr|done| |done|by intros; apply (tc_load_law _ _ _ _ _ _ _ El)|].
  - intros id' d' Hpr'. rewrite Hslot. case_decide as Hd; [by destruct Hd as [-> ->]|]. apply Ho. intros Hz. apply Hpr'.
    unfold prog, s' in Hz, Hpr' |- *. cbn [policyEndpointeBPFContext set_context set_kernel] in *. destruct (decide (id' = id)) as [->|Hne'].
    + rewrite lookup_insert_eq in Hpr' |- *.
      assert (d' <> d) by naive_solver. fold (prog s id d') in Hz. rewrite <-(prog_context s id d') in Hz. destruct d, d'; cbn in *; done.
    + by rewrite lookup_insert_ne.
  - intros id' d' Hold. destruct (Hkeep id' d' Hold) as [-> Hd]. split; [done|]. intros n Hn. unfold slot_contents. rewrite Hslot, decide_False by done.
    destruct (slot s id' d' n) as [fd|] eqn:Es; [|done]. cbn. f_equal.
    change (map_contents s' fd) with (map_contents (set_kernel x' ms' s) fd). apply map_contents_mono; [done|]. by eapply inv_open.
Qed.

Lemma attach_works d iface id s : client_inv s -> states_open s -> upgrade_works (probeBinary s) -> filter_of s d iface = None ->
  exists s', attachBPFProbe d iface id s = (s', Ret (prog s' id d)) /\ attached_to s s' d iface id.
Proof.
  intros Hi Ho Hw Hn. destruct (ensureProgram_works d id s Hi Ho Hw) as (s1 & E1 & Hne & Hi1 & Ho1 & Hb1 & Hf1 & Hk1).
  destruct (attachFilter_works d iface (prog s1 id d) s1) as (x & E2 & Hx & Hx'); [by rewrite Hb1|by rewrite Hf1|].
  exists (set_kernel x (kmaps s1) s1). unfold attachBPFProbe, mbind, ST_bind. rewrite E1, E2. split; [done|].
  split; [by apply (client_inv_ext s1)|exact Ho1|done|exact Hx|exact Hne| |exact Hk1].
  intros d' v Hd. unfold filter_of at 1. cbn [kernel_ext set_kernel]. by rewrite Hx', Hf1.
Qed.

(** ** The pod states of one hook *)
Definition set_state (d : Direction) (id : gostring) (key st : Z) : ST bpfClient unit :=
  bpf_UpdatePodStateEbpfMaps id key st (by_dir true false d) (by_dir false true d).

(** A write on the hook: the map is open, so it succeeds. *)
Lemma podStateHook_works what key st d id c s : client_inv s -> states_open s -> upgrade_works (probeBinary s) ->
  policyEndpointeBPFContext s !! id = Some c -> prog s id d <> 0 ->
  exists fd k, podStateHook what CreateUpdateMapEntry c key st true d s = (write_kmap fd k s, Ret None).
Proof.
  intros Hi Ho Hw Hc Hp. unfold podStateHook, mbind, ST_bind, attempt.
  assert (ProgFD (pgmInfo d c) <> 0) as Hfd by (unfold prog in Hp; by rewrite Hc in Hp). destruct (Z.eqb_spec (ProgFD (pgmInfo d c)) 0) as [|_]; [done|]. cbn [negb orb].
  destruct (Ho id d Hp) as [fd Hfd']. destruct (inv_open s Hi id d _ fd (pod_state_map_in d) Hfd') as [k Hk].
  assert (map_fd (pgmInfo d c) (pod_state_map d) = fd) as ->.
  { unfold slot in Hfd'. rewrite Hc in Hfd'. cbn in Hfd'. destruct (Z.eqb_spec (ProgFD (pgmInfo d c)) 0); [done|]. unfold map_fd. by rewrite Hfd'. }
  unfold with_kmap, as_error. rewrite Hk. rewrite (uw_write _ Hw). by eexists _, _.
Qed.

Lemma set_state_works d id key st s : client_inv s -> states_open s -> upgrade_works (probeBinary s) -> prog s id d <> 0 ->
  exists fd k, set_state d id key st s = (write_kmap fd k s, Ret tt).
Proof.
  intros Hi Ho Hw Hp. unfold set_state, bpf_UpdatePodStateEbpfMaps, podStateMaps, mbind, ST_bind, get.
  destruct (policyEndpointeBPFContext s !! id) as [c|] eqn:Hc; [|unfold prog in Hp; by rewrite Hc in Hp].
  destruct (podStateHook_works (go " pod state map write: ") key st d id c s) as (fd & k & E); [done..|].
  exists fd, k. destruct d; cbn [by_dir].
  - rewrite E. done.
  - unfold podStateHook at 1. cbn [negb orb]. unfold mret, ST_ret. by rewrite E.
Qed.

(** The state of one hook changes, under one key. *)
Record state_set s s' (d : Direction) (id : gostring) (st : Z) (keys : list Z) : Prop := {
  ss_inv : client_inv s';
  ss_context : policyEndpointeBPFContext s' = policyEndpointeBPFContext s;
  ss_kernel : kernel_ext s' = kernel_ext s;
  ss_probe : probeBinary s' = probeBinary s;
  ss_new : forall key, key ∈ keys -> pod_states (client_view s') id d (u32 key) = Some (u8 st);
  ss_states : forall id' d' k, pod_states (client_view s') id' d' k = pod_states (client_view s) id' d' k \/
  (id' = id /\ d' = d /\ pod_states (client_view s') id' d' k = Some (u8 st))
}.

Lemma set_state_spec d id key st s : client_inv s -> states_open s -> upgrade_works (probeBinary s) -> prog s id d <> 0 ->
  exists s', set_state d id key st s = (s', Ret tt) /\ state_set s s' d id st [key].
Proof.
  intros Hi Ho Hw Hp. destruct (set_state_works d id key st s Hi Ho Hw Hp) as (fd & k & E). exists (write_kmap fd k s). split; [done|].
  destruct (pod_state_law (BpfClientSpec := bpfClient_spec 0) s id key st _ _ _ Hi E) as (_ & Hs & _).
  destruct (write_frame (BpfClientSpec := bpfClient_spec 0) (set_state d id key st) s id) as (Hi' & _ & _ & _ & Hf); [left; by eexists _, _, _, _|done|].
  rewrite E in Hi', Hf. cbn [fst bc_inv bpfClient_spec bc_view] in *.
  assert (hooked (client_view s) id d = true) as Hh.
  { cbn. unfold hook_on, prog in *. destruct (policyEndpointeBPFContext s !! id); [|done]. by apply negb_true_iff, Z.eqb_neq. }
  split; [done|done|done|done| |].
  - intros key' ->%list_elem_of_singleton. rewrite Hs, Hh, bool_decide_eq_true_2 by done. by destruct d.
  - intros id' d' k'. destruct (decide (id' = id)) as [->|Hne]; [|left; by apply (Hf id' Hne d')]. rewrite Hs.
    destruct d, d'; cbn [by_dir]; rewrite ?andb_false_r; cbn [andb]; auto; case_match; auto.
Qed.

Lemma state_set_trans s1 s2 s3 d id st ks ks' :
  state_set s1 s2 d id st ks -> state_set s2 s3 d id st ks' -> state_set s1 s3 d id st (ks ++ ks').
Proof.
  intros [? C1 K1 B1 N1 S1] [? C2 K2 B2 N2 S2]. split; [done|congruence..| |].
  - intros key [Hk|Hk]%elem_of_app; [|by apply N2]. destruct (S2 id d (u32 key)) as [-> |(_ & _ & ->)]; [by apply N1|done].
  - intros id' d' k. destruct (S2 id' d' k) as [-> |?]; auto.
Qed.

(** ** One interface *)

(** The interface has the program of the identifier, which is in the state under both keys. *)
Record up s (d : Direction) (iface id : gostring) (st : Z) : Prop := {
  up_filter : filter_of s d iface = Some (prog s id d);
  up_prog : prog s id d <> 0;
  up_state : forall key, key ∈ [POD_STATE_MAP_KEY; CLUSTER_POLICY_POD_STATE_MAP_KEY] ->
  pod_states (client_view s) id d (u32 key) = Some (u8 st)
}.

(** What the loops need of a state, and what a turn leaves alone. *)
Definition ready s : Prop := client_inv s /\ states_open s /\ upgrade_works (probeBinary s).
Record turn s s' (d : Direction) (iface id : gostring) (st : Z) : Prop := {
  tn_ready : ready s';
  tn_up : up s' d iface id st;
  tn_filters : forall d' v, (d', v) <> (d, iface) -> filter_of s' d' v = filter_of s d' v;
  tn_ups : forall d' v id', (d', v) <> (d, iface) -> up s d' v id' st -> up s' d' v id' st
}.

Lemma reattach_turn d iface id st s : ready s -> ("/"%byte ∉ id) -> filter_of s d iface = None ->
  exists s', reattach d st (iface, pin id d) s = (s', Ret tt) /\ turn s s' d iface id st.
Proof.
  intros (Hi & Ho & Hw) Hid Hn. destruct (attach_works d iface id s Hi Ho Hw Hn) as (s1 & E1 & [Hi1 Ho1 Hb1 Hf1 Hp1 Hx1 Hk1]).
  destruct (set_state_spec d id POD_STATE_MAP_KEY st s1) as (s2 & E2 & S2); [done|done|by rewrite Hb1|done|].
  assert (forall id' d', prog s2 id' d' = prog s1 id' d') as Hp2 by (intros; unfold prog; by rewrite (ss_context _ _ _ _ _ _ S2)).
  assert (states_open s2) as Ho2.
  { intros id' d'. rewrite Hp2. intros H. apply Ho1 in H. unfold slot in *. by rewrite (ss_context _ _ _ _ _ _ S2). }
  destruct (set_state_spec d id CLUSTER_POLICY_POD_STATE_MAP_KEY st s2) as (s3 & E3 & S3);
    [apply S2|done|by rewrite (ss_probe _ _ _ _ _ _ S2), Hb1|by rewrite Hp2|].
  exists s3. pose proof (state_set_trans _ _ _ _ _ _ _ _ S2 S3) as S. split.
  { unfold reattach, mbind, ST_bind, lift, attempt. rewrite (pin_parse id d Hid). cbn [fst]. rewrite E1. fold (set_state d id POD_STATE_MAP_KEY st).
    rewrite E2. fold (set_state d id CLUSTER_POLICY_POD_STATE_MAP_KEY st). by rewrite E3. }
  assert (forall id' d', prog s3 id' d' = prog s1 id' d') as Hp3 by (intros; unfold prog; by rewrite (ss_context _ _ _ _ _ _ S)).
  assert (forall d' v, filter_of s3 d' v = filter_of s1 d' v) as Hf3 by (intros; unfold filter_of; by rewrite (ss_kernel _ _ _ _ _ _ S)).
  split; [split; [apply S|split]| |by intros; rewrite Hf3; apply Hx1|].
  - intros id' d'. rewrite Hp3. intros H. apply Ho1 in H. unfold slot in *. by rewrite (ss_context _ _ _ _ _ _ S).
  - by rewrite (ss_probe _ _ _ _ _ _ S), Hb1.
  - split; [by rewrite Hf3, Hp3|by rewrite Hp3|]. intros key Hk. apply (ss_new _ _ _ _ _ _ S). by rewrite elem_of_app, !list_elem_of_singleton; set_unfold in Hk; naive_solver.
  - intros d' v id' Hne [Uf Up Us]. destruct (Hk1 id' d' Up) as [Hpr Hc]. split.
    + by rewrite Hf3, Hp3, Hx1, Hpr.
    + by rewrite Hp3, Hpr.
    + intros key Hk. destruct (ss_states _ _ _ _ _ _ S id' d' (u32 key)) as [-> |(_ & _ & ->)]; [|done].
      rewrite pod_state_read, Hc by apply pod_state_map_in. rewrite <-pod_state_read. by apply Us.
Qed.

(** ** All interfaces of a direction *)
Lemma reattach_loop d st l s : ready s -> NoDup l.*1 ->
  (forall iface pp, (iface, pp) ∈ l -> filter_of s d iface = None /\ exists id, ("/"%byte ∉ id) /\ pp = pin id d) ->
  exists s', for_each (reattach d st) l s = (s', Ret tt) /\ ready s' /\
  (forall iface id, (iface, pin id d) ∈ l -> ("/"%byte ∉ id) -> up s' d iface id st) /\
  (forall d' v, (d' <> d \/ v ∉ l.*1) -> filter_of s' d' v = filter_of s d' v) /\
  (forall d' v id, (d' <> d \/ v ∉ l.*1) -> up s d' v id st -> up s' d' v id st).
Proof.
  revert s. induction l as [|[iface pp] l IH]; intros s Hr Hnd Hl; unfold for_each; cbn [fold_each].
  { exists s. split_and!; [done|done|by intros ?? ?%not_elem_of_nil|done|done]. }
  apply NoDup_cons in Hnd as [Hni Hnd]. destruct (Hl iface pp) as [Hn (id & Hid & ->)]; [left|].
  destruct (reattach_turn d iface id st s Hr Hid Hn) as (s1 & E1 & [Hr1 Hu1 Hf1 Hups1]).
  assert (forall v, v ∈ l.*1 -> v <> iface) as Hne by (by intros v Hv ->).
  destruct (IH s1 Hr1 Hnd) as (s2 & E2 & Hr2 & Hu2 & Hf2 & Hups2).
  { intros v pp Hv. destruct (Hl v pp) as [Hv0 Hp]; [by right|]. split; [|done]. rewrite Hf1; [done|].
    intros [= ->]. by apply (Hne iface); [apply (list_elem_of_fmap_2 fst _ _ Hv)|]. }
  exists s2. unfold mbind, ST_bind. rewrite E1. split; [exact E2|]. split; [done|]. split_and!.
  - intros v id' [Heq|Hv]%elem_of_cons Hid'; [|by apply Hu2]. apply pair_equal_spec in Heq as [-> Hpin]. apply pin_inj in Hpin as [-> _]; [|done..]. apply Hups2; [by right|done].
  - intros d' v Hd. rewrite Hf2 by (destruct Hd as [?|Hv]; [by left|right; set_solver]). apply Hf1.
    intros [= -> ->]. destruct Hd as [?|Hv]; [done|]. apply Hv. left.
  - intros d' v id' Hd Hu. apply Hups2; [destruct Hd as [?|Hv]; [by left|right; set_solver]|]. apply Hups1; [|done].
    intros [= -> ->]. destruct Hd as [?|Hv]; [done|]. apply Hv. left.
Qed.

(** The interfaces found at the start: each with the pin of a program, in a direction whose
    filters were removed. *)
Definition collected s : Prop := forall d iface pp, interfaceNametoPinPath s d !! iface = Some pp ->
  filter_of s d iface = None /\ exists id, ("/"%byte ∉ id) /\ pp = pin id d.

(** [ReAttachEbpfProbes] reaches every interface.  When the new probes can be loaded, attached and used,
    it returns nil, and every interface that was found with a program of an
    identifier then has the identifier's new program in that direction, whose pod states under
    both keys are the default of the enforcing mode: deny in strict mode, allow otherwise.
    That includes identifiers with several interfaces, and both directions.  The other filters
    stay. *)
Lemma reattach_works s s' r
  (Hinv : client_inv s) (Hopen : states_open s) (Hworks : upgrade_works (probeBinary s)) (Hcol : collected s)
  (Hrun : bpf_ReAttachEbpfProbes s = (s', r)) :
  r = Ret tt /\ client_inv s' /\
  (forall d iface, interfaceNametoPinPath s d !! iface = None -> filter_of s' d iface = filter_of s d iface) /\
  forall d iface id, ("/"%byte ∉ id) -> interfaceNametoPinPath s d !! iface = Some (pin id d) ->
    filter_of s' d iface = Some (prog s' id d) /\ prog s' id d <> 0 /\
    forall key, key = POD_STATE_MAP_KEY \/ key = CLUSTER_POLICY_POD_STATE_MAP_KEY ->
      pod_states (client_view s') id d key = Some (if IsStrictMode (networkPolicyMode s) then DEFAULT_DENY else DEFAULT_ALLOW).
Proof.
  revert Hrun. unfold bpf_ReAttachEbpfProbes, mbind at 1, ST_bind at 1, get. set (st := if IsStrictMode _ then _ else _).
  set (l d := go_range (by_dir (go "interfaceNametoIngressPinPath") (go "interfaceNametoEgressPinPath") d) (map_to_list (interfaceNametoPinPath s d))).
  assert (forall d, NoDup (l d).*1) as Hnd by (intros d; unfold l; rewrite go_range_perm; apply NoDup_fst_map_to_list).
  assert (forall d iface pp, (iface, pp) ∈ l d <-> interfaceNametoPinPath s d !! iface = Some pp) as Hin
    by (intros d iface pp; unfold l; by rewrite go_range_perm, elem_of_map_to_list).
  destruct (reattach_loop ingress st (l ingress) s) as (s1 & E1 & Hr1 & Hu1 & Hf1 & _); [done|done|by intros ?? ?%Hin; apply Hcol|].
  destruct (reattach_loop egress st (l egress) s1) as (s2 & E2 & Hr2 & Hu2 & Hf2 & Hk2); [done|done| |].
  { intros iface pp [Hn Hp]%Hin%Hcol. split; [rewrite Hf1; [done|by left]|done]. }
  unfold mbind, ST_bind. change (for_each _ (go_range _ (map_to_list (interfaceNametoPinPath s ingress)))) with (for_each (reattach ingress st) (l ingress)).
  rewrite E1. change (for_each _ (go_range _ (map_to_list (interfaceNametoPinPath s egress)))) with (for_each (reattach egress st) (l egress)).
  rewrite E2. intros [= <- <-]. split; [done|]. split; [apply Hr2|]. split.
  { intros d iface Hno. assert (iface ∉ (l d).*1) as Hni.
    { intros ([v pp] & -> & Hv)%list_elem_of_fmap. apply Hin in Hv. cbn in Hno. congruence. }
    destruct d; [rewrite Hf2, Hf1 by auto|rewrite Hf2, Hf1 by auto]; done. }
  intros d iface id Hid Hp%Hin.
  assert (up s2 d iface id st) as [Uf Up Us] by (destruct d; [apply Hk2; [by left|by apply Hu1]|by apply Hu2]).
  split; [done|]. split; [done|]. intros key Hk.
  assert (u8 st = st) as <- by (unfold st; by destruct (IsStrictMode _)).
  assert (u32 key = key) as <- by (destruct Hk as [-> | ->]; done). apply Us. destruct Hk as [-> | ->]; set_solver.
Qed.
End reattach.

(** ** A kernel with filters *)
#[local] Existing Instance reliable_sdk.

Program Definition filter_sdk : BpfSDK := {|
  kext := gmap (Direction * gostring) Z;
  LoadBpfFile := demo_load;
  TCAttach := fun d v fd (x : gmap (Direction * gostring) Z) =>
    match x !! (d, v) with Some _ => (x, Some (go "file exists")) | None => (<[(d, v) := fd]> x, None) end;
  TCDetach := fun d v (x : gmap (Direction * gostring) Z) => (delete (d, v) x, None);
  UnPinProg := fun _ x => (x, None);
  UnPinMap := fun _ x => (x, None);
  LinkByName := fun _ _ => None;
  CreateUpdateMapEntry := fun (m : gmap gostring gostring) k v => (<[k := v]> m, None);
  CreateMapEntry := demo_create
|}.
Next Obligation. intros s k v s' e Hw. injection Hw as <- <-. reflexivity. Qed.
Next Obligation. intros s k v s' e Hw. injection Hw as <- <-. reflexivity. Qed.
Next Obligation. exact demo_load_law. Qed.

Program Definition filter_tc : @TcFilters reliable_sdk filter_sdk := {|
  filter_on := fun (x : gmap (Direction * gostring) Z) d v => x !! (d, v)
|}.
Next Obligation.
  intros d v fd x x' e. cbn. destruct ((x : gmap (Direction * gostring) Z) !! (d, v)) eqn:E; intros H; injection H as <- <-; (split; [|done || idtac]).
  - done.
  - intros _. apply lookup_insert_eq.
  - intros d' v' Hne. by apply lookup_insert_ne.
Qed.
Next Obligation. by intros file id x ms x' ms' r [= <- <- <-] d v. Qed.

(** Two interfaces of one identifier and one of another, found with old ingress programs. *)
Definition upgraded_client : @bpfClient reliable_sdk filter_sdk :=
  @mkBpfClient reliable_sdk filter_sdk ∅ ∅ ∅ ∅ ∅ ∅ ∅ ∅ (go "strict") true
    (NewFirewallRuleProcessor (go "10.1.0.1") (go "/32") false) (by_dir ingress_binary egress_binary)
    (by_dir {[go "eni1" := pin (go "web@default") ingress; go "eni2" := pin (go "web@default") ingress; go "eni3" := pin (go "db@prod") ingress]} ∅).

Lemma filter_works : @upgrade_works reliable_sdk filter_sdk filter_tc (by_dir ingress_binary egress_binary).
Proof.
  split; [|by intros d v fd x H; cbn in *; rewrite H|done].
  intros d id [x ms]. eexists _, _, (demo_data d (fresh_fd ms)).
  assert ((if decide (by_dir ingress_binary egress_binary d = egress_binary) then egress else ingress) = d) as Hd by (by destruct d).
  split; [reflexivity|]. cbv zeta. rewrite Hd. split; [apply lookup_singleton_eq|]. pose proof (fresh_fd_pos ms).
  split; [change (fresh_fd ms <> 0); lia|]. destruct d; by eexists.
Qed.

Definition after_upgrade : @bpfClient reliable_sdk filter_sdk :=
  fst (@bpf_ReAttachEbpfProbes reliable_sdk filter_sdk reverse_order upgraded_client).

Example reattach_demo :
  filter_of (TC := filter_tc) after_upgrade ingress (go "eni2") = Some (prog after_upgrade (go "web@default") ingress) /\
  filter_of (TC := filter_tc) after_upgrade ingress (go "eni1") = filter_of (TC := filter_tc) after_upgrade ingress (go "eni2") /\
  pod_states (client_view after_upgrade) (go "web@default") ingress POD_STATE_MAP_KEY = Some DEFAULT_DENY.
Proof.
  destruct (@reattach_works reliable_sdk filter_sdk filter_tc reverse_order upgraded_client after_upgrade
    (snd (@bpf_ReAttachEbpfProbes reliable_sdk filter_sdk reverse_order upgraded_client))) as (_ & _ & _ & H).
  - split; done.
  - intros id d Hp. by destruct Hp.
  - exact filter_works.
  - intros d iface pp Hp. split; [done|]. destruct d; [|done]. cbn [by_dir interfaceNametoPinPath upgraded_client] in Hp.
    assert (pp = pin (go "web@default") ingress \/ pp = pin (go "db@prod") ingress) as [-> | ->]
      by (rewrite !lookup_insert_Some, lookup_singleton_Some in Hp; naive_solver);
      eexists; (split; [|reflexivity]); apply (bool_decide_unpack _); vm_compute; exact I.
  - apply surjective_pairing.
  - destruct (H ingress (go "eni2") (go "web@default")) as (H1 & _ & H3); [apply (bool_decide_unpack _); vm_compute; exact I|vm_compute; reflexivity|].
    split; [exact H1|]. split; [vm_compute; reflexivity|]. apply (H3 POD_STATE_MAP_KEY). by left.
Qed.
