(* ===== verification/Upgrade.v ===== *)
(** An upgrade of the agent, as [main] runs it: [NewBpfClient] takes over what the previous agent
    left on the node, and removes the filters of the probes that changed; [ReAttachEbpfProbes]
    then attaches the new programs.  [Recovery], [ClientStart] and [Reattach] are composed here.

    What the node reports of filters and pins is the class [TcView]; the class [TcNode] has the
    laws of the calls made at the start. *)
From S2P Require Import Prelude ApiTypes Utils UtilsFacts FwRules Datapath MemMap Effects BpfInterface BpfClient BpfClientFacts BpfClientTables DemoKernel LegacyPins Recovery RecoveryFacts Install Conntrack Cloud Events EventsFacts ClientStart ClientStartFacts Reattach.

(** The id of the program on an interface, and the ids of the programs that are pinned in a
    file system, by path. *)
Class TcView `{BpfSDK} := {
  attached_prog : kext -> Direction -> gostring -> option Z;
  pinned_progs : gmap gostring gostring -> kext -> gmap gostring Z
}.

Definition same_node `{CL : BpfSDK, TC : !TcFilters, TV : !TcView} (x x' : kext) : Prop :=
  (forall d v, filter_on x' d v = filter_on x d v) /\ attached_prog x' = attached_prog x /\ forall P, pinned_progs P x' = pinned_progs P x.

Class TcNode `{SDK : !BpfMapSDK, CL : !BpfSDK, RS : !RecoverySDK, ST' : !StartSDK, TC : !TcFilters, TV : !TcView} := {
  rlimit_node : forall x x' e, IncreaseRlimit x = (x', e) -> same_node x x';
  globals_node : forall P x ms x' ms' r, RecoverGlobalMaps P (x, ms) = ((x', ms'), r) -> same_node x x';
  (** The maps of a recovered program include its pod-state map. *)
  recover_node : forall P x ms x' ms' progs e, RecoverAllBpfProgramsAndMaps P (x, ms) = ((x', ms'), (progs, e)) ->
    same_node x x' /\ forall id d p, progs !! pin id d = Some p -> is_Some (Maps p !! pod_state_map d);
  getall_node : forall P x ms x' ms' r, GetAllBpfProgramsAndMaps P (x, ms) = ((x', ms'), r) ->
    same_node x x' /\ forall st, r = Ret st -> forall pp, ProgID <$> st !! pp = pinned_progs P x !! pp;
  attached_node : forall x x' i e, GetAllAttachedProgIds x = (x', (i, e)) ->
    same_node x x' /\ forall d v, by_dir i e d !! v = attached_prog x d v;
  cleanup_node : forall ui ue x x', CleanupQdiscs ui ue x = (x', None) ->
    forall d v, filter_on x' d v = if by_dir ui ue d then None else filter_on x d v;
  load_global_node : forall file pn sizes x ms x' ms' r,
    LoadBpfFileWithCustomData file pn sizes (x, ms) = ((x', ms'), r) -> forall d v, filter_on x' d v = filter_on x d v
}.

(** ** Programs by their id *)
Section ids.
Context `{MO : !MapOrder}.

Lemma pin_paths_fold (l : list (gostring * BpfData)) : (forall a b, a ∈ l -> b ∈ l -> ProgID a.2 = ProgID b.2 -> a.1 = b.1) ->
  forall pid pp, foldl (fun m pe => if 0 <? ProgID (snd pe) then <[ProgID (snd pe) := fst pe]> m else m) (∅ : gmap Z gostring) l !! pid = Some pp <->
  0 < pid /\ exists p, (pp, p) ∈ l /\ ProgID p = pid.
Proof.
  induction l as [|a l IH] using rev_ind; intros Hinj pid pp.
  { cbn. rewrite lookup_empty. split; [done|]. intros (_ & p & Hp & _). by apply not_elem_of_nil in Hp. }
  rewrite foldl_app. cbn [foldl]. specialize (IH ltac:(intros; apply Hinj; set_solver)).
  assert (forall p, (pp, p) ∈ l ++ [a] <-> (pp, p) ∈ l \/ (pp, p) = a) as Ha by (intros; rewrite elem_of_app, list_elem_of_singleton; done).
  setoid_rewrite Ha. destruct (Z.ltb_spec 0 (ProgID a.2)) as [Hpos|Hpos].
  - destruct (decide (ProgID a.2 = pid)) as [Hid|Hid].
    + subst pid. rewrite lookup_insert_eq. split.
      * intros [= <-]. split; [done|]. exists a.2. split; [right; by destruct a|done].
      * intros (_ & p & Hp & Heq). f_equal. apply (Hinj a (pp, p)); [set_solver|set_solver|done].
    + rewrite lookup_insert_ne, IH by done. split; intros (H0 & p & Hp & Heq); (split; [done|]); exists p; (split; [|done]); [by left|].
      destruct Hp as [Hp| <-]; [done|]. by cbn in Hid.
  - rewrite IH. split; intros (H0 & p & Hp & Heq); (split; [done|]); exists p; (split; [|done]); [by left|].
    destruct Hp as [Hp| <-]; [done|]. cbn in Hpos. lia.
Qed.

Lemma progIdToPinPath_spec st : (forall pp p pp' p', st !! pp = Some p -> st !! pp' = Some p' -> ProgID p = ProgID p' -> pp = pp') ->
  forall pid pp, progIdToPinPath st !! pid = Some pp <-> 0 < pid /\ ProgID <$> st !! pp = Some pid.
Proof.
  intros Hinj pid pp. unfold progIdToPinPath. rewrite pin_paths_fold.
  - setoid_rewrite go_range_perm. setoid_rewrite elem_of_map_to_list. rewrite fmap_Some. naive_solver.
  - intros [a p] [b q]. rewrite !go_range_perm, !elem_of_map_to_list. cbn. eauto.
Qed.
End ids.

Section upgrade.
Context `{SDK : !BpfMapSDK, CL : !BpfSDK, RS : !RecoverySDK, ST' : !StartSDK, TC : !TcFilters, TV : !TcView, TN : !TcNode}.
Context `{MO : !MapOrder, FS : !FileSystem, HF : !HostFiles, CW : !CloudWatch}.
Context (json_Unmarshal : gostring -> option (list ipamAllocation)).
Context (checkpoint_Unmarshal : gostring -> option (list (gostring * gostring * Z))).
Context (InitRingBuffer : Z -> outcome (list gostring)).
Implicit Types s : bpfClient.

(** The node as the previous agent left it, with the pins [P]: programs are pinned where it pins
    them, each once, and under the direction they are attached in. *)
Record node_ok (P : gmap gostring gostring) (x : kext) : Prop := {
  no_format : forall pp pid, pinned_progs P x !! pp = Some pid -> exists id d, ("/"%byte ∉ id) /\ pp = pin id d;
  no_once : forall pp pp' pid, pinned_progs P x !! pp = Some pid -> pinned_progs P x !! pp' = Some pid -> pp = pp';
  no_side : forall d v pid id d', attached_prog x d v = Some pid -> ("/"%byte ∉ id) -> pinned_progs P x !! pin id d' = Some pid -> d' = d
}.

(** The calls that are needed to find and remove the old filters succeed. *)
Record restart_works : Prop := {
  rw_global : forall P k, exists k' maps, RecoverGlobalMaps P k = (k', Ret maps);
  rw_getall : forall P k, exists k' st, GetAllBpfProgramsAndMaps P k = (k', Ret st);
  rw_cleanup : forall ui ue x, snd (CleanupQdiscs ui ue x) = None
}.

Lemma same_node_trans x1 x2 x3 : same_node x1 x2 -> same_node x2 x3 -> same_node x1 x3.
Proof. intros (F1 & A1 & P1) (F2 & A2 & P2). split; [intros; by rewrite F2|split; [congruence|intros; by rewrite P2]]. Qed.
Lemma same_node_ok P x x' : same_node x x' -> node_ok P x -> node_ok P x'.
Proof. intros (_ & A & Hp) [H1 H2 H3]. split; rewrite ?A, Hp; eauto. Qed.

(** What the start leaves alone in the client. *)
Definition settings s s' : Prop := probeBinary s' = probeBinary s /\ networkPolicyMode s' = networkPolicyMode s.

(** ** The interfaces that are collected *)
Definition to_reattach (P : gmap gostring gostring) (u : probeUpdates) (x : kext) (d : Direction) (v pp : gostring) : Prop :=
  updates u d = true /\ exists pid, attached_prog x d v = Some pid /\ 0 < pid /\ pinned_progs P x !! pp = Some pid.

Lemma collect_run P u s : restart_works -> node_ok P (kernel_ext s) ->
  exists s' pins, collectReattach P u s = (s', Ret pins) /\ settings s s' /\
    (forall d v, filter_of s' d v = if updates u d then None else filter_of s d v) /\
    forall d v pp, pins d !! v = Some pp <-> to_reattach P u (kernel_ext s) d v pp.
Proof.
  intros Hw Hok. unfold collectReattach. destruct (updateIngressProbe u || updateEgressProbe u) eqn:Eu.
  2:{ apply orb_false_iff in Eu as [E1 E2]. assert (forall d, updates u d = false) as Hu by (by intros []).
  exists s, (fun _ => ∅). split; [done|]. split; [done|]. unfold to_reattach. setoid_rewrite Hu. split; [done|].
  intros d v pp. rewrite lookup_empty. split; [done|]. by intros [? _]. }
  unfold mbind, ST_bind, recover_call, ext_call, lift. destruct (rw_getall Hw P (kernel_ext s, kmaps s)) as ([x1 ms1] & st & E1). rewrite E1.
  destruct (getall_node _ _ _ _ _ _ E1) as [S1 Hst]. specialize (Hst st eq_refl). cbn [kernel_ext set_kernel].
  destruct (GetAllAttachedProgIds x1) as [x2 [i e]] eqn:E2. destruct (attached_node _ _ _ _ E2) as [S2 Hatt]. cbn [kernel_ext set_kernel].
  destruct (CleanupQdiscs (updateIngressProbe u) (updateEgressProbe u) x2) as [x3 ce] eqn:E3.
  assert (ce = None) as -> by (pose proof (rw_cleanup Hw (updateIngressProbe u) (updateEgressProbe u) x2) as H; by rewrite E3 in H).
  eexists _, _. split; [done|]. split; [done|]. split.
  - intros d v. unfold filter_of. cbn [kernel_ext set_kernel]. rewrite (cleanup_node _ _ _ _ E3).
    change (by_dir (updateIngressProbe u) (updateEgressProbe u) d) with (updates u d). destruct (updates u d); [done|].
    rewrite (proj1 S2), (proj1 S1). done.
  - assert (forall pid pp, progIdToPinPath st !! pid = Some pp <-> 0 < pid /\ pinned_progs P (kernel_ext s) !! pp = Some pid) as Hpins.
    { intros pid pp. rewrite progIdToPinPath_spec, Hst; [done|]. intros a p b q Hp Hq Heq.
      apply (no_once _ _ Hok a b (ProgID p)); [by rewrite <-Hst, Hp|by rewrite <-Hst, Hq, Heq]. }
    intros d v pp. cbn [fst snd].
    assert ((by_dir (pinPathsToReattach (updateIngressProbe u) (progIdToPinPath st) i) (pinPathsToReattach (updateEgressProbe u) (progIdToPinPath st) e) d : gmap gostring gostring) =
      pinPathsToReattach (updates u d) (progIdToPinPath st) (by_dir i e d)) as -> by (by destruct d).
    unfold pinPathsToReattach, to_reattach. destruct (updates u d); [|rewrite lookup_empty; split; [done|by intros [? _]]].
    rewrite lookup_omap, Hatt, (proj1 (proj2 S1)). rewrite bind_Some. setoid_rewrite Hpins. naive_solver.
Qed.

(** ** Taking over keeps the filters *)
Lemma preserves_kext x b m {A} (f : ST bpfClient A) :
  (forall s, kernel_ext (fst (f s)) = kernel_ext s /\ settings s (fst (f s))) ->
  preserves (fun s => kernel_ext s = x /\ probeBinary s = b /\ networkPolicyMode s = m) f.
Proof. intros H s (H1 & H2 & H3). destruct (H s) as (K & P & N). by rewrite K, P, N. Qed.

Lemma recoverShadow_kext x b m kind d id p :
  preserves (fun s => kernel_ext s = x /\ probeBinary s = b /\ networkPolicyMode s = m) (recoverShadow kind d id p).
Proof.
  unfold recoverShadow. preserve; [by intros s| |by apply preserves_modify].
  apply preserves_kext. intros s. unfold with_kmap. case_match; [|done]. by case_match.
Qed.

Lemma recoverProgram_kext x b m u entry :
  preserves (fun s => kernel_ext s = x /\ probeBinary s = b /\ networkPolicyMode s = m) (recoverProgram u entry).
Proof.
  unfold recoverProgram, recoverHook. destruct entry as [pp p]. preserve; try apply recoverShadow_kext; by (intros s || apply preserves_modify).
Qed.

Lemma recoverPrograms_kext P u s s' : recoverPrograms P u s = (s', Ret tt) ->
  same_node (kernel_ext s) (kernel_ext s') /\ settings s s'.
Proof.
  unfold recoverPrograms. case_match; [|by intros [= <-]]. intros Hr. apply bind_returns in Hr as (s1 & [progs e] & H1 & H2).
  unfold recover_call in H1. destruct (RecoverAllBpfProgramsAndMaps P (kernel_ext s, kmaps s)) as [[x' ms'] res] eqn:E. injection H1 as <- ->.
  destruct (recover_node _ _ _ _ _ _ _ E) as [Hs _].
  pose proof (preserves_for_each _ _ (go_range (go "bpfState") (map_to_list progs)) (recoverProgram_kext x' (probeBinary s) (networkPolicyMode s) u)
    (set_kernel x' ms' s)) as Hp. cbn [fst] in H2. rewrite H2 in Hp. destruct Hp as (K & B & N); [done|]. cbn [fst] in *. by rewrite K.
Qed.

Lemma recover_run P u s s' g pins err : restart_works -> node_ok P (kernel_ext s) -> recoverKernelState P u s = (s', Ret (g, pins, err)) ->
  settings s s' /\
  (forall d v, filter_of s' d v = if updates u d then None else filter_of s d v) /\
  forall d v pp, pins d !! v = Some pp <-> to_reattach P u (kernel_ext s) d v pp.
Proof.
  intros Hw Hok. unfold recoverKernelState. intros Hr. apply bind_returns in Hr as (s1 & go & H1 & Hr).
  assert (exists g1, go = Some g1 /\ same_node (kernel_ext s) (kernel_ext s1) /\ settings s s1) as (g1 & -> & S1 & Q1).
  { destruct (updateEventsProbe u); cbn [negb] in H1; [injection H1 as <- <-; by eexists|].
    apply bind_returns in H1 as (s0 & r & H0 & H1). unfold recover_call in H0. destruct (rw_global Hw P (kernel_ext s, kmaps s)) as ([x' ms'] & maps & E).
    rewrite E in H0. injection H0 as <- <-. injection H1 as <- <-. eexists. split; [done|]. split; [by eapply globals_node|done]. }
  apply bind_returns in Hr as (s2 & [] & H2 & Hr). apply recoverPrograms_kext in H2 as [S2 Q2].
  pose proof (same_node_trans _ _ _ S1 S2) as Hs. destruct (collect_run P u s2 Hw (same_node_ok _ _ _ Hs Hok)) as (s3 & pins' & Ec & Q3 & Hf & Hp).
  apply bind_returns in Hr as (s4 & r & H3 & Hr). unfold attempt in H3. rewrite Ec in H3. injection H3 as <- <-. injection Hr as <- <- <- <-.
  split; [unfold settings in *; intuition congruence|]. split.
  - intros d v. rewrite Hf. destruct (updates u d); [done|]. apply Hs.
  - intros d v pp. rewrite Hp. unfold to_reattach. destruct Hs as (_ & -> & Hpin). by setoid_rewrite Hpin.
Qed.

Lemma took_over_open P u c c' : took_over P u c c' -> states_open c'.
Proof.
  intros [(x & x' & ms' & progs & e & E & _ & Hp)|(_ & Hc & _)] id d Hne.
  - destruct (recover_node _ _ _ _ _ _ _ E) as [_ Hst]. rewrite <-prog_context in Hne. fold (hook_program c' id d) in Hne.
    pose proof (pf_id _ _ _ Hp id d Hne) as Hid. pose proof (pf_hook _ _ _ Hp id d Hid) as Hh. unfold hook_program in Hh, Hne.
    unfold slot. destruct (policyEndpointeBPFContext c' !! id) as [ctx|]; [|by destruct d]. cbn [mbind option_bind default] in *. change (Datatypes.id ctx) with ctx in *.
    destruct (Z.eqb_spec (ProgFD (pgmInfo d ctx)) 0) as [|_]; [done|]. rewrite Hh in *. destruct (updates u d); [done|].
    destruct (progs !! pin id d) as [p|] eqn:Ep; [|done]. exact (Hst id d p Ep).
  - unfold prog in Hne. by rewrite Hc, lookup_empty in Hne.
Qed.

(** The rest of the start. *)
Definition prepared s0 s : Prop :=
  settings s0 s /\ interfaceNametoPinPath s = interfaceNametoPinPath s0 /\ policyEndpointeBPFContext s = policyEndpointeBPFContext s0 /\
  forall d v, filter_of s d v = filter_of s0 d v.

Lemma finish_prepared s0 cfg u g err :
  preserves (fun w => prepared s0 (w_client w)) (finishStart checkpoint_Unmarshal InitRingBuffer cfg u g err).
Proof.
  unfold finishStart, loadGlobalMaps, startRoutines, loadIPAMDataFromFile, loadIPAMData.
  assert (forall file pn sizes, preserves (prepared s0) (recover_call (LoadBpfFileWithCustomData file pn sizes))) as Hl.
  { intros file pn sizes s (H1 & H2 & H3 & H4). unfold recover_call. destruct (LoadBpfFileWithCustomData _ _ _ _) as [[x' ms'] r] eqn:E.
    split_and!; [done..|]. intros d v. rewrite <-H4. by apply (load_global_node _ _ _ _ _ _ _ _ E). }
  preserve; try (apply preserves_on_bpf; [apply Hl]); try apply preserves_on_events; try apply preserves_on_fs.
  all: apply preserves_on_bpf; try apply Hl; apply preserves_for_each; intros [[n ns] k]; repeat case_match; auto with agent; by apply preserves_modify.
Qed.

Abbreviation NewClient := (NewBpfClient json_Unmarshal checkpoint_Unmarshal InitRingBuffer).

(** C19: An upgrade leaves no interface behind.  On a node whose programs are pinned as the agent
    pins them once the legacy names are migrated, when the calls that find and remove the old
    filters succeed and the new probes can be loaded, attached and used: [NewBpfClient]
    followed by [ReAttachEbpfProbes] returns, and every interface on which the previous agent
    had a program of an identifier, in a direction whose probe changed, has the identifier's
    new program; in a direction whose probe did not change every interface keeps its program.
    The new program starts with the default of the enforcing mode as its policy state and,
    as the code seeds both keys with the same value, as its cluster policy state too: in
    strict mode that denies, although the RPC handler never seeds a cluster policy state with
    anything but allow, and a cluster policy has no default deny. *)
Theorem upgrade_complete cfg x ms f f1 e u w st s' r
  (Hreads : sdk_reads) (Hkernel : kernel_ok ms) (Hnode : node_ok (files (w_fs w)) x) (Hrestart : restart_works)
  (Hworks : upgrade_works (by_dir (ingressBinary (cfg_enableIPv6 cfg)) (egressBinary (cfg_enableIPv6 cfg))))
  (Hupdates : checkAndUpdateBPFBinaries (bpfBinaries (cfg_enableIPv6 cfg)) hostBinaryPath f = (f1, Ret u))
  (Hstart : NewClient cfg x ms f e = (w, Ret (Some st)))
  (Hreattach : bpf_ReAttachEbpfProbes (w_client w) = (s', r)) :
  r = Ret tt /\ client_inv s' /\
  forall d v,
    (updates u d = false -> filter_of s' d v = filter_on x d v) /\
    (updates u d = true -> forall id pid, ("/"%byte ∉ id) ->
      attached_prog x d v = Some pid -> 0 < pid -> pinned_progs (files (w_fs w)) x !! pin id d = Some pid ->
      filter_of s' d v = Some (prog s' id d) /\ prog s' id d <> 0 /\
      pod_states (client_view s') id d POD_STATE_MAP_KEY = Some (default_state (cfg_networkPolicyMode cfg)) /\
      pod_states (client_view s') id d CLUSTER_POLICY_POD_STATE_MAP_KEY = Some (default_state (cfg_networkPolicyMode cfg))).
Proof.
  pose proof (start_wf json_Unmarshal checkpoint_Unmarshal InitRingBuffer cfg x ms f e Hreads Hkernel) as [Hinv _]. rewrite Hstart in Hinv. cbn [fst] in Hinv.
  destruct Hkernel as [Hz Hkeys].
  destruct (start_recovers json_Unmarshal checkpoint_Unmarshal InitRingBuffer cfg x ms f e Hreads Hz Hkeys)
    as (f1' & u' & x1 & c & f2 & g & pins & err & Hu & Hrec & _ & Hto & -> & Heq).
  rewrite Hupdates in Hu. injection Hu as <- <-. rewrite Hstart in Heq.
  pose proof (finish_files checkpoint_Unmarshal InitRingBuffer (files f2) cfg u g err (mkWorld (set_pinPaths pins c) f2 e) eq_refl) as Hfiles.
  rewrite <-Heq in Hfiles. cbn [fst] in Hfiles. rewrite Hfiles in *.
  destruct (IncreaseRlimit x) as [x1 er] eqn:Er. apply rlimit_node in Er. cbn [fst] in *. set (c0 := emptyClient cfg x1 ms) in *.
  apply recover_run in Hrec as (Hset & Hfil & Hpins); [|done|by apply (same_node_ok _ x)]. apply took_over_open in Hto.
  pose proof (finish_prepared (set_pinPaths pins c) cfg u g err (mkWorld (set_pinPaths pins c) f2 e)) as Hprep.
  rewrite <-Heq in Hprep. destruct Hprep as ([Hb Hm] & Hpp & Hctx & Hf); [done|]. cbn [fst set_pinPaths probeBinary networkPolicyMode interfaceNametoPinPath policyEndpointeBPFContext] in *.
  assert (forall d v, filter_of (w_client w) d v = if updates u d then None else filter_on x d v) as Hfilter.
  { intros d v. rewrite Hf. change (filter_of (set_pinPaths pins c) d v) with (filter_of c d v). rewrite Hfil. destruct (updates u d); [done|]. apply Er. }
  assert (forall d v pp, pins d !! v = Some pp <-> to_reattach (files f2) u x d v pp) as Hp.
  { intros d v pp. rewrite Hpins. unfold to_reattach. destruct Er as (_ & A & Q). cbn [kernel_ext emptyClient c0]. rewrite A. by setoid_rewrite Q. }
  destruct (reattach_works (w_client w) s' r) as (Hret & Hi & Hkeep & Hnew); [done| | | |done|].
  - intros id d. unfold prog, slot. rewrite Hctx. apply Hto.
  - rewrite Hb, (proj1 Hset). done.
  - intros d v pp. rewrite Hpp. intros (Hud & pid & Ha & Hpos & Hpin)%Hp. split; [by rewrite Hfilter, Hud|].
    destruct (no_format _ _ Hnode _ _ Hpin) as (id & d' & Hid & ->). exists id. split; [done|]. by rewrite (no_side _ _ Hnode d v pid id d').
  - split; [done|]. split; [done|]. intros d v. split.
    + intros Hud. rewrite Hkeep, Hfilter, Hud; [done|]. rewrite Hpp. apply eq_None_not_Some. intros [pp (? & _)%Hp]. congruence.
    + intros Hud id pid Hid Ha Hpos Hpin. destruct (Hnew d v id Hid) as (N1 & N2 & N3).
      { rewrite Hpp. apply Hp. split; [done|]. eauto. }
      rewrite Hm, (proj2 Hset) in N3. unfold default_state. auto 6.
Qed.
End upgrade.

(** ** A node that is upgraded

    Two interfaces with the ingress program 41 of one identifier and one with its egress
    program 42.  The programs are pinned under their legacy names, and are found only under
    the names of today. *)
Definition web_id : gostring := go "web@default".
Definition old_filters : gmap (Direction * gostring) Z :=
  {[(ingress, go "eni1") := 41; (ingress, go "eni2") := 41; (egress, go "eni1") := 42]}.
Definition old_pins : gmap gostring Z := {[pin web_id ingress := 41; pin web_id egress := 42]}.
Definition found_pins (P : gmap gostring gostring) : gmap gostring Z := filter (fun kv => is_Some (P !! kv.1)) old_pins.
Lemma found_pins_old P pp pid : found_pins P !! pp = Some pid -> old_pins !! pp = Some pid.
Proof. unfold found_pins. generalize old_pins. intros m. rewrite map_lookup_filter_Some. by intros [? _]. Qed.
Definition upgrade_fs : @fs plainfs :=
  <[IPAM_JSON_PATH := []]> (<[legacy_pin := []]> (<[BPF_PROGRAMS_PIN_PATH_DIRECTORY ++ go "web-default_" ++ TC_EGRESS_PROG := []]> old_host)).
Definition filters_of (d : Direction) (x : gmap (Direction * gostring) Z) : gmap gostring Z :=
  default ∅ (map_curry (M1 := gmap Direction) (M2 := gmap gostring) x !! d).

Lemma lookup_filters_of d x v : filters_of d x !! v = x !! (d, v).
Proof.
  unfold filters_of. rewrite <-(lookup_map_curry (M1 := gmap Direction) (M2 := gmap gostring) x d v).
  by destruct (map_curry x !! d : option (gmap gostring Z)).
Qed.

Program Definition node_recovery : @RecoverySDK reliable_sdk filter_sdk := {|
  RecoverGlobalMaps := fun _ k => (k, Ret {[CONNTRACK_MAP_PIN_PATH := 5; POLICY_EVENTS_MAP_PIN_PATH := 6]});
  RecoverAllBpfProgramsAndMaps := fun _ k => (k, (∅, None));
  GetAllBpfProgramsAndMaps := fun P k => (k, Ret ((fun pid => mkBpfData pid pid ∅) <$> found_pins P));
  GetAllAttachedProgIds := fun (x : gmap (Direction * gostring) Z) => (x, (filters_of ingress x, filters_of egress x));
  CleanupQdiscs := fun ui ue (x : gmap (Direction * gostring) Z) => (filter (fun kv => by_dir ui ue kv.1.1 = false) x, None)
|}.
Next Obligation. by intros P x ms x' ms' r [= <- <- <-]. Qed.
Next Obligation. by intros P x ms x' ms' r [= <- <- <-]. Qed.
Next Obligation. intros P x ms x' ms' progs e [= <- <- <- <-]. split; [done|]. split; [done|]. split; intros *; by rewrite lookup_empty. Qed.

Program Definition node_start : @StartSDK reliable_sdk filter_sdk node_recovery := {|
  IncreaseRlimit := fun x => (x, None);
  LoadBpfFileWithCustomData := fun _ _ _ k => (k, Ret ∅)
|}.
Next Obligation. by intros file pn sizes x ms x' ms' r [= <- <- <-]. Qed.

Definition node_view : @TcView reliable_sdk filter_sdk :=
  @Build_TcView reliable_sdk filter_sdk (fun (x : gmap (Direction * gostring) Z) d v => x !! (d, v)) (fun P _ => found_pins P).

Lemma node_laws : @TcNode reliable_sdk filter_sdk node_recovery node_start filter_tc node_view.
Proof.
  split.
  - by intros x x' e [= <- <-].
  - by intros P x ms x' ms' r [= <- <- <-].
  - intros P x ms x' ms' progs e [= <- <- <- <-]. split; [done|]. intros *. by rewrite lookup_empty.
  - intros P x ms x' ms' r [= <- <- <-]. split; [done|]. intros st Hst pp.
    apply (f_equal (fun o => match o with Ret a => a | _ => ∅ end)) in Hst. cbn beta iota in Hst. subst st. change (pinned_progs P x !! pp) with (found_pins P !! pp).
    rewrite lookup_fmap. by destruct (found_pins P !! pp).
  - intros x x' i e [= <- <- <-]. split; [done|]. by intros [] v; apply lookup_filters_of.
  - intros ui ue x x' [= <-] d v. cbn. rewrite map_lookup_filter. destruct ((x : gmap (Direction * gostring) Z) !! (d, v)); cbn; [|by case_match].
    destruct (by_dir ui ue d); [by rewrite option_guard_False|by rewrite option_guard_True].
  - by intros file pn sizes x ms x' ms' r [= <- <- <-].
Qed.

Definition strict_config : startConfig := mkStartConfig (go "10.1.0.1") false false false 300 524288 (go "strict") true.
Definition upgrade_run :=
  @NewBpfClient reliable_sdk filter_sdk node_recovery node_start listed_order plainfs plain_host demo_cw
    legacy_json (fun _ => Some []) (fun _ => Ret []) strict_config old_filters ∅ upgrade_fs demo_events.
Definition upgraded : @bpfClient reliable_sdk filter_sdk * outcome unit :=
  @bpf_ReAttachEbpfProbes reliable_sdk filter_sdk listed_order (w_client (fst upgrade_run)).
Definition upgrade_started : startedClient :=
  match snd upgrade_run with Ret (Some st) => st | _ => mkStartedClient 0 (NewConntrackClient true) 0 None end.

Lemma old_node_ok P : @node_ok reliable_sdk filter_sdk node_view P old_filters.
Proof.
  assert (forall pp pid, found_pins P !! pp = Some pid -> exists d, pp = pin web_id d /\ pid = by_dir 41 42 d) as Hpins.
  { intros pp pid Hp%found_pins_old. revert Hp. unfold old_pins. rewrite lookup_insert_Some, lookup_singleton_Some. intros [[<- <-]|[_ [<- <-]]]; [by exists ingress|by exists egress]. }
  assert ("/"%byte ∉ web_id) as Hid by (apply (bool_decide_unpack _); vm_compute; exact I).
  split.
  - intros pp pid (d & -> & _)%Hpins. eauto.
  - intros pp pp' pid (d & -> & Hp)%Hpins (d' & -> & Hp')%Hpins. subst pid. by destruct d, d'.
  - intros d v pid id d' Ha Hni (d0 & Hpp & ->)%Hpins. apply pin_inj in Hpp as [_ ->]; [|done..].
    assert (forall d v pid, old_filters !! (d, v) = Some pid -> pid = by_dir 41 42 d) as Hf.
    { intros d1 v1 pid1. unfold old_filters. rewrite !lookup_insert_Some, lookup_singleton_Some. naive_solver. }
    apply Hf in Ha. by destruct d0, d.
Qed.

Lemma node_restarts : @restart_works reliable_sdk filter_sdk node_recovery.
Proof.
  split.
  - intros P k. exists k. eexists. unfold RecoverGlobalMaps, node_recovery. reflexivity.
  - intros P k. exists k. eexists. unfold GetAllBpfProgramsAndMaps, node_recovery. reflexivity.
  - intros ui ue x. unfold CleanupQdiscs, node_recovery. reflexivity.
Qed.

Lemma upgrade_complete_witness :
  filter_of (TC := filter_tc) (fst upgraded) ingress (go "eni2") = Some (prog (fst upgraded) web_id ingress) /\
  filter_of (TC := filter_tc) (fst upgraded) egress (go "eni1") = Some 42 /\
  pod_states (client_view (fst upgraded)) web_id ingress POD_STATE_MAP_KEY = Some DEFAULT_DENY.
Proof.
  assert (snd upgrade_run = Ret (Some upgrade_started)) as Hr by (vm_compute; reflexivity).
  destruct (@upgrade_complete reliable_sdk filter_sdk node_recovery node_start filter_tc node_view node_laws listed_order plainfs plain_host demo_cw
    legacy_json (fun _ => Some []) (fun _ => Ret []) strict_config old_filters ∅ upgrade_fs
    (fst (@checkAndUpdateBPFBinaries plainfs (bpfBinaries false) hostBinaryPath upgrade_fs)) demo_events
    (mkProbeUpdates true false false) (fst upgrade_run) upgrade_started (fst upgraded) (snd upgraded)) as (_ & _ & H).
  - exact reliable_reads.
  - split; [done|]. intros P x x' ms' res Hc fd k. injection Hc as <- <- <-. by rewrite lookup_empty.
  - apply old_node_ok.
  - exact node_restarts.
  - exact filter_works.
  - assert (snd (@checkAndUpdateBPFBinaries plainfs (bpfBinaries false) hostBinaryPath upgrade_fs) =
      Ret (mkProbeUpdates true false false)) as Hu by (vm_compute; reflexivity). rewrite <-Hu. apply surjective_pairing.
  - rewrite <-Hr. apply surjective_pairing.
  - apply surjective_pairing.
  - destruct (H ingress (go "eni2")) as [_ Hi]. destruct (H egress (go "eni1")) as [He _].
    destruct (Hi eq_refl web_id 41) as (H1 & _ & H3); [apply (bool_decide_unpack _); vm_compute; exact I|reflexivity|done|vm_compute; reflexivity|].
    split; [exact H1|]. split; [exact (He eq_refl)|]. exact (proj1 H3).
Defined.
