(* ===== verification/Show.v ===== *)
(** [pkg/clihelper/show.go] and [cmd/cli], [cmd/cliv6]: the command line tool that prints the
    programs and maps of the agent.

    A command is a computation over what it has printed so far.  What it reads of the kernel is
    the class [MapInspect]: pure, since a command only reads.  The SDK writes a key or a value
    of the kernel map's size to the address it is given; [into] is such a write to a buffer of
    [n] bytes, and a write past its end is the outcome [overflow].  The loops over a map follow
    the kernel's key order and have fuel; [ShowFacts] proves that one turn per entry is enough. *)
From S2P Require Import Prelude NetIP Utils Effects BpfInterface BpfClient LegacyPins.

Definition BPF_MAP_TYPE_HASH : Z := 1.
Definition BPF_MAP_TYPE_LRU_HASH : Z := 9.
Definition BPF_MAP_TYPE_LPM_TRIE : Z := 11.

Record BpfProgInfo := mkBpfProgInfo { pi_Type : Z; pi_ID : Z; NrMapIDs : Z }.
Record BpfMapInfo := mkBpfMapInfo {
  mi_Type : Z; mi_Id : Z; KeySize : Z; ValueSize : Z; MaxEntries : Z; mi_Name : gostring
}.
(** A pinned program: its identifier and its maps with theirs. *)
Record pinnedProgram := mkPinnedProgram { pp_ProgID : Z; pp_Maps : gmap gostring Z }.

(** [IoNotExist] is [ENOENT]. *)
Class MapInspect := {
  GetPinnedPrograms : outcome (gmap gostring pinnedProgram);
  BpfGetAllProgramInfo : outcome (list BpfProgInfo);
  BpfGetAllMapInfo : outcome (list BpfMapInfo);
  GetMapFDFromID : Z -> outcome Z;
  GetBPFmapInfo : Z -> outcome BpfMapInfo;
  GetFirstMapEntryByID : Z -> io_res gostring;
  GetNextMapEntryByID : gostring -> Z -> io_res gostring;
  GetMapEntryByID : gostring -> Z -> io_res gostring;
  (** [unix.ClockGettime(CLOCK_MONOTONIC)]: an error, or seconds and nanoseconds. *)
  ClockGettime : gostring + Z * Z
}.

(** ** Text *)
Definition nl : gostring := [x0a].
Definition print (s : gostring) : ST gostring unit := modify (fun out => out ++ s).
(** [fmt.Println]: the operands with a space between each two. *)
Definition println (ops : list gostring) : ST gostring unit := print (join_with " "%byte ops ++ nl).

Fixpoint is_prefix_of (p s : gostring) : bool :=
  match p, s with
  | [], _ => true
  | x :: p', y :: s' => bool_decide (x = y) && is_prefix_of p' s'
  | _ :: _, [] => false
  end.
(** [strings.Contains]. *)
Fixpoint str_contains (s sub : gostring) : bool :=
  is_prefix_of sub s || match s with [] => false | _ :: s' => str_contains s' sub end.
(** [strings.TrimRight(s, "\x00")]. *)
Definition trim_zeros (s : gostring) : gostring :=
  reverse (snd (foldl (fun '(skip, acc) b => if (skip : bool) && bool_decide (b = x00) then (true, acc) else (false, acc ++ [b]))
    (true, []) (reverse s))).

(** ** [time.Duration] *)
Definition Millisecond : Z := 1000000.
Definition Second : Z := 1000000000.
Definition maxDuration : Z := 2 ^ 63 - 1.
Definition to_i64 (z : Z) : Z := (z + 2 ^ 63) mod 2 ^ 64 - 2 ^ 63.

(** [Duration.Round]. *)
Definition Round (d m : Z) : Z :=
  if m <=? 0 then d else
  let r := Z.rem d m in
  if d <? 0 then
    let r := - r in
    if 2 * r <? m then d + r else
    let d1 := to_i64 (d - m + r) in if d1 <? d then d1 else - 2 ^ 63
  else
    if 2 * r <? m then d - r else
    let d1 := to_i64 (d + m - r) in if d <? d1 then d1 else maxDuration.

(** [fmtFrac]: the fraction without trailing zeros, and the integer part. *)
Fixpoint fmtFrac_loop (prec : nat) (v : Z) (print : bool) (acc : gostring) : gostring * Z * bool :=
  match prec with
  | O => (acc, v, print)
  | S prec' =>
      let digit := v mod 10 in
      let print := print || negb (digit =? 0) in
      fmtFrac_loop prec' (v / 10) print (if print then digit_char digit :: acc else acc)
  end.
Definition fmtFrac (v : Z) (prec : nat) : gostring * Z :=
  let '(acc, v, print) := fmtFrac_loop prec v false [] in ((if print then "."%byte :: acc else acc), v).

(** [Duration.String]; [µ] is two bytes. *)
Definition Duration_String (d : Z) : gostring :=
  let u := Z.abs d in
  let body :=
    if u <? Second then
      if u =? 0 then go "0s" else
      let '(prec, unit_) := if u <? 1000 then (0%nat, go "ns") else if u <? Millisecond then (3%nat, [xc2; xb5] ++ go "s") else (6%nat, go "ms") in
      let '(frac, u) := fmtFrac u prec in Itoa u ++ frac ++ unit_
    else
      let '(frac, u) := fmtFrac u 9 in
      let seconds := Itoa (u mod 60) ++ frac ++ go "s" in
      let minutes := u / 60 in
      if 0 <? minutes then
        let minutesText := Itoa (minutes mod 60) ++ go "m" ++ seconds in
        let hours := minutes / 60 in
        if 0 <? hours then Itoa hours ++ go "h" ++ minutesText else minutesText
      else seconds in
  if d <? 0 then "-"%byte :: body else body.

Definition formatLastSeen (lastSeen now : Z) : gostring :=
  if lastSeen =? 0 then go "never" else
  if (now =? 0) || (now <? lastSeen) then go "0s ago" else
  Duration_String (Round (to_i64 (now - lastSeen)) Millisecond) ++ go " ago".

(** ** Buffers *)
Definition overflow : gostring := go "memory past the buffer is overwritten".
Definition into (n : nat) (bs : gostring) : outcome gostring :=
  if decide (length bs <= n)%nat then Ret (bs ++ replicate (n - length bs) x00) else Panic overflow.

(** [utils.BPFTrieKey], [utils.ConntrackKey] and the other structs in memory. *)
Record BPFTrieKey := mkBPFTrieKey { tk_PrefixLen : Z; tk_IP : Z }.
Definition read_BPFTrieKey (b : gostring) : BPFTrieKey := mkBPFTrieKey (of_le32 (take 4 b)) (of_le32 (take 4 (drop 4 b))).
Record BPFTrieKeyV6 := mkBPFTrieKeyV6 { tk6_PrefixLen : Z; tk6_IP : list byte }.
Definition ConvTrieV6ToByte (key : BPFTrieKeyV6) : gostring := le32 (tk6_PrefixLen key) ++ tk6_IP key.
Definition ConvByteToTrieV6 (keyByte : gostring) : BPFTrieKeyV6 :=
  let mem := take 20 (keyByte ++ replicate 20 x00) in mkBPFTrieKeyV6 (of_le32 (take 4 mem)) (take 16 (drop 4 mem)).
Definition read_ConntrackKey (b : gostring) : ConntrackKey :=
  let field off len := le_combine (take len (drop off b)) in
  mkConntrackKey (field 0 4)%nat (field 4 2)%nat (field 8 4)%nat (field 12 2)%nat (field 14 1)%nat (field 16 4)%nat (field 20 4)%nat.
Definition read_ConntrackVal (b : gostring) : ConntrackVal := mkConntrackVal (le_combine (take 8 b)) (le_combine (take 8 (drop 8 b))).

Section commands.
Context `{!MapInspect, !MapOrder}.

Definition KtimeGetNs : outcome Z :=
  match ClockGettime with inl e => Err e | inr (sec, nsec) => Ret (to_i64 (sec * 1000000000 + nsec) mod 2 ^ 64) end.

(** The text of a failed read. *)
Definition io_text {A} (r : io_res A) : gostring :=
  match r with IoOk _ => [] | IoNotExist => go "no such file or directory" | IoErr e => e end.

(** ** Programs and maps *)
Definition rule : gostring := go "========================================================================================".
Definition stars : gostring := go "*******************************".
Definition dashes : gostring := go "-------------------".

Definition Show : ST gostring unit :=
  bpfState ← lift GetPinnedPrograms;
  for_each (fun '(pinPath, bpfEntry) =>
    p ← lift (GetPodIdentifierFromBPFPinPath pinPath);
    println [go "PinPath: "; pinPath];;
    print (go "Pod Identifier : " ++ fst p ++ go "  Direction : " ++ snd p ++ go " " ++ nl);;
    println [go "Prog ID: "; Itoa (pp_ProgID bpfEntry)];;
    println [go "Associated Maps -> "];;
    for_each (fun '(k, v) => println [go "Map Name: "; k];; println [go "Map ID: "; Itoa v])
      (go_range (go "bpfMaps") (map_to_list (pp_Maps bpfEntry)));;
    println [rule]) (go_range (go "bpfState") (map_to_list bpfState)).

Definition ProgShow : ST gostring unit :=
  loadedPgms ← lift BpfGetAllProgramInfo;
  println [go "Programs currently loaded : "];;
  for_each (fun p =>
    println [go "Type : " ++ Itoa (pi_Type p) ++ go " ID : " ++ Itoa (pi_ID p) ++ go " Associated maps count : " ++ Itoa (NrMapIDs p)];;
    println [rule]) loadedPgms.

Definition MapShow : ST gostring unit :=
  loadedMaps ← lift BpfGetAllMapInfo;
  println [go "Maps currently loaded : "];;
  for_each (fun m =>
    println [go "Type : " ++ Itoa (mi_Type m) ++ go " ID : " ++ Itoa (mi_Id m)];;
    println [go "Keysize " ++ Itoa (KeySize m) ++ go " Valuesize " ++ Itoa (ValueSize m) ++ go " MaxEntries " ++ Itoa (MaxEntries m)];;
    println [rule]) loadedMaps.

(** ** Policy entries *)
Definition keyLine (key : BPFTrieKey) : gostring :=
  go "Key: " ++ IP_String (ConvIntToIPv4 (tk_IP key)) ++ go "/" ++ Itoa (tk_PrefixLen key) ++ nl.

(** The loop of [printPolicyEntry] over the 24 entries, for both types of value. *)
Definition printPolicyEntry {T} (protocol : T -> Z) (fields : T -> list (gostring * Z)) (key : BPFTrieKey) (entries : list T) : ST gostring unit :=
  print (keyLine key);;
  for_each (fun '(i, v) =>
    if protocol v =? 0 then mret tt else
    println [dashes];;
    print (go "Entry " ++ Itoa (Z.of_nat i) ++ go ":" ++ nl);;
    println [go "Protocol  -"; GetProtocol (protocol v)];;
    for_each (fun '(label, n) => println [label; Itoa n]) (fields v);;
    println [dashes]) (imap pair entries);;
  println [stars].

Definition printTrieVals : BPFTrieKey -> list BPFTrieVal -> ST gostring unit :=
  printPolicyEntry tv_Protocol (fun v => [(go "StartPort -", tv_StartPort v); (go "EndPort   -", tv_EndPort v)]).
Definition printPriorityVals : BPFTrieKey -> list BPFL4PriorityVal -> ST gostring unit :=
  printPolicyEntry pv_Protocol (fun v => [(go "Priority  -", pv_Priority v); (go "StartPort -", pv_StartPort v); (go "EndPort   -", pv_EndPort v)]).

(** [GetMapEntryByID(&key, &values, mapID)] into a buffer. *)
Definition getEntry (n : nat) (key : gostring) (mapID : Z) : ST gostring gostring :=
  match GetMapEntryByID key mapID with
  | IoOk v => lift (into n v)
  | r => fail (io_text r)
  end.

Definition dumpClusterPolicyEntry (key : gostring) (mapID : Z) : ST gostring unit :=
  v ← getEntry 384 key mapID;
  print (keyLine (read_BPFTrieKey key));;
  printPriorityVals (read_BPFTrieKey key) (read_BPFL4PriorityVals v).

Definition dumpNetworkPolicyEntry (key : gostring) (mapID : Z) : ST gostring unit :=
  v ← getEntry 288 key mapID;
  printTrieVals (read_BPFTrieKey key) (read_BPFTrieVals v).

(** ** Walking a map *)

(** [for { dump(key); err = GetNextMapEntryByID(&key, &next); ...; key = next }]. *)
Fixpoint walk_loop (fuel : nat) (n : nat) (mapID : Z) (dump : gostring -> ST gostring unit) (doneText failText : gostring) (key : gostring) : ST gostring unit :=
  match fuel with
  | O => lift (Panic (go "out of fuel"))
  | S fuel' =>
      dump key;;
      match GetNextMapEntryByID key mapID with
      | IoNotExist => println [doneText]
      | IoErr _ => println [failText]
      | IoOk next => next ← lift (into n next); walk_loop fuel' n mapID dump doneText failText next
      end
  end.

Definition doneReading : gostring := go "Done reading all entries".
Definition failedNext : gostring := go "Failed to get next entry Done searching".

(** The checks before a walk: the map exists and its type is supported. *)
Definition openMap (mapID : Z) : ST gostring BpfMapInfo :=
  if mapID <=? 0 then fail (go "Invalid mapID") else
  mapFD ← lift (match GetMapFDFromID mapID with Err e => Err (go "failed to get map FD: " ++ e) | r => r end);
  mapInfo ← lift (match GetBPFmapInfo mapFD with Err e => Err (go "failed to get map info: " ++ e) | r => r end);
  if decide (mi_Type mapInfo ∈ [BPF_MAP_TYPE_LPM_TRIE; BPF_MAP_TYPE_LRU_HASH; BPF_MAP_TYPE_HASH]) then mret mapInfo
  else fail (go "unsupported map type: " ++ Itoa (mi_Type mapInfo) ++ go " (expected LPM_TRIE, LRU_HASH, or HASH)").

(** The first key of a map into a buffer of [n] bytes. *)
Definition withFirstKey (n : nat) (mapID : Z) (emptyText : option gostring) (failText : gostring) (k : gostring -> ST gostring unit) : ST gostring unit :=
  match GetFirstMapEntryByID mapID with
  | IoOk key => key ← lift (into n key); k key
  | r => match emptyText, r with
         | Some t, IoNotExist => println [t]
         | _, _ => fail (failText ++ io_text r)
         end
  end.

Definition dumpNow : ST gostring Z :=
  match KtimeGetNs with
  | Ret now => mret now
  | Err e => print (go "unable to read monotonic clock, ages will show as 0s: " ++ e ++ nl);; mret 0
  | Panic w => lift (Panic w)
  end.

(** The lines of a conntrack entry, from the texts of its addresses. *)
Definition printConntrack (sip dip oip : gostring) (sport dport protocol ifindex : Z) (v : ConntrackVal) (now : Z) : ST gostring unit :=
  println [go "Conntrack Key : Source IP - " ++ sip ++ go " Source port - " ++ Itoa sport ++ go " Dest IP - " ++ dip ++
    go " Dest port - " ++ Itoa dport ++ go " Protocol - " ++ Itoa protocol ++ go " Owner IP - " ++ oip ++ go " Ifindex - " ++ Itoa ifindex];;
  println [go "Value : "];;
  println [go "Conntrack Val - "; Itoa (ct_Value v)];;
  print (go "Last Seen (ns) -  " ++ Itoa (LastSeen v) ++ go "  (" ++ formatLastSeen (LastSeen v) now ++ go ")" ++ nl);;
  println [stars].

(** An error of a read as the command returns it. *)
Definition entryErr {A} (prefix : gostring) (m : ST gostring A) : ST gostring A := fun out =>
  let '(out, r) := m out in (out, match r with Err e => Err (prefix ++ e) | r => r end).

Definition dumpConntrack (mapID now : Z) (key : gostring) : ST gostring unit :=
  v ← entryErr (go "Unable to get map entry: ") (getEntry 16 key mapID);
  let k := read_ConntrackKey key in
  printConntrack (IP_String (ConvIntToIPv4 (Source_ip k))) (IP_String (ConvIntToIPv4 (Dest_ip k))) (IP_String (ConvIntToIPv4 (Owner_ip k)))
    (Source_port k) (Dest_port k) (ct_Protocol k) (Ifindex k) (read_ConntrackVal v) now.

Definition dumpPodState (mapID : Z) (key : gostring) : ST gostring unit :=
  v ← entryErr (go "unable to get HASH entry for key=" ++ Itoa (of_le32 key) ++ go ": ") (getEntry 1 key mapID);
  println [go "Key : "; Itoa (of_le32 key)];;
  println [go "State - "; Itoa (byte.unsigned (default x00 (head v)))];;
  println [stars].

(** An entry of a rule map; a read that fails is printed and the walk goes on. *)
Definition dumpPolicy (mapID : Z) (mapNamePrefix key : gostring) : ST gostring unit :=
  let cluster := str_contains mapNamePrefix (go "cp_") in
  r ← attempt (entryErr (go "unable to get map entry: ") (if cluster then dumpClusterPolicyEntry key mapID else dumpNetworkPolicyEntry key mapID));
  match err_of r with
  | Some e => print ((if cluster then go "error reading ClusterNetworkPolicy entry: " else go "error reading NetworkPolicy entry: ") ++ e ++ nl)
  | None => mret tt
  end.

Definition emptyMap : gostring := go "No Entries found, Empty map".

Definition MapWalk (fuel : nat) (mapID : Z) (mapNamePrefix : gostring) : ST gostring unit :=
  mapInfo ← openMap mapID;
  if mi_Type mapInfo =? BPF_MAP_TYPE_LPM_TRIE then
    withFirstKey 8 mapID (Some emptyMap) (go "Unable to get First key: ")
      (walk_loop fuel 8 mapID (dumpPolicy mapID mapNamePrefix) doneReading failedNext)
  else if mi_Type mapInfo =? BPF_MAP_TYPE_LRU_HASH then
    now ← dumpNow;
    withFirstKey 24 mapID (Some emptyMap) (go "Unable to get First key: ")
      (walk_loop fuel 24 mapID (dumpConntrack mapID now) doneReading failedNext)
  else
    withFirstKey 4 mapID (Some (go "No entries found, empty HASH map (pod_state_map?)")) (go "unable to get first key (HASH): ")
      (walk_loop fuel 4 mapID (dumpPodState mapID) (go "Done reading all entries in BPF_MAP_TYPE_HASH") (go "Failed to get next entry, done searching")).

Definition MapWalkCP (fuel : nat) (mapID : Z) : ST gostring unit := MapWalk fuel mapID (go "cp_").

(** ** IPv6 *)
Definition dumpPolicyV6 (mapID : Z) (key : gostring) : ST gostring unit :=
  v ← entryErr (go "Unable to get map entry: ") (getEntry 288 key mapID);
  let v6key := ConvByteToTrieV6 key in
  println [go "Key : IP/Prefixlen - " ++ IP_String (tk6_IP v6key) ++ go "/" ++ Itoa (tk6_PrefixLen v6key) ++ go " "];;
  for_each (fun '(i, e) =>
    if tv_Protocol e =? 0 then mret tt else
    println [dashes];;
    println [go "Value Entry : "; Itoa (Z.of_nat i)];;
    println [go "Protocol - "; GetProtocol (tv_Protocol e)];;
    println [go "StartPort - "; Itoa (tv_StartPort e)];;
    println [go "Endport - "; Itoa (tv_EndPort e)];;
    println [dashes]) (imap pair (read_BPFTrieVals v));;
  println [stars].

Definition dumpConntrackV6 (mapID now : Z) (key : gostring) : ST gostring unit :=
  v ← entryErr (go "Unable to get map entry: ") (getEntry 16 key mapID);
  let k := ConvByteToConntrackV6 key in
  printConntrack (IP_String (Source_ip6 k)) (IP_String (Dest_ip6 k)) (IP_String (Owner_ip6 k))
    (Source_port6 k) (Dest_port6 k) (ct_Protocol6 k) (Ifindex6 k) (read_ConntrackVal v) now.

(** There is no branch for a hash map. *)
Definition MapWalkv6 (fuel : nat) (mapID : Z) : ST gostring unit :=
  mapInfo ← openMap mapID;
  print (go "Walking map: " ++ trim_zeros (mi_Name mapInfo) ++ go " (type=" ++ Itoa (mi_Type mapInfo) ++ go ", id=" ++ Itoa mapID ++ go ")" ++ nl);;
  if mi_Type mapInfo =? BPF_MAP_TYPE_LPM_TRIE then
    withFirstKey 20 mapID None (go "Unable to get First key: ")
      (walk_loop fuel 20 mapID (dumpPolicyV6 mapID) doneReading failedNext)
  else if mi_Type mapInfo =? BPF_MAP_TYPE_LRU_HASH then
    now ← dumpNow;
    withFirstKey 60 mapID None (go "Unable to get First key: ")
      (walk_loop fuel 60 mapID (dumpConntrackV6 mapID now) doneReading failedNext)
  else mret tt.

(** ** The commands

    The identifier is parsed with its error dropped; an error of the command is printed. *)
Definition runCmd (m : ST gostring unit) : ST gostring unit :=
  r ← attempt m;
  match err_of r with Some e => println [go "Failed to execute the cmd - "; e] | None => mret tt end.
Definition progCmd : ST gostring unit := runCmd ProgShow.
Definition mapCmd : ST gostring unit := runCmd MapShow.
Definition ebpfdataCmd : ST gostring unit := runCmd Show.
Definition mapWalkCmd (fuel : nat) (arg : gostring) : ST gostring unit := runCmd (MapWalk fuel (Atoi arg) []).
Definition mapWalkCPCmd (fuel : nat) (arg : gostring) : ST gostring unit := runCmd (MapWalkCP fuel (Atoi arg)).
Definition mapWalkv6Cmd (fuel : nat) (arg : gostring) : ST gostring unit := runCmd (MapWalkv6 fuel (Atoi arg)).
End commands.

Definition second10 : Z := 10 * Second.
Example formatLastSeen_cases :
  formatLastSeen (second10 - 400000000) second10 = go "400ms ago" /\
  formatLastSeen (second10 - 1400000000) second10 = go "1.4s ago" /\
  formatLastSeen second10 (second10 + 144000000000) = go "2m24s ago" /\
  formatLastSeen 0 second10 = go "never" /\ formatLastSeen second10 second10 = go "0s ago" /\
  formatLastSeen (second10 + 500000000) second10 = go "0s ago" /\ formatLastSeen second10 0 = go "0s ago" /\
  formatLastSeen 1 (3 * 3600 * Second + 1500001) = go "3h0m0.002s ago".
Proof. vm_compute. done. Qed.
