(* ===== verification/ShowFacts.v ===== *)
(** The command line tool shows the whole map.

    [render] is what a dump of a map should be: the text of each entry in the order of the
    kernel, where a rule that cannot be read takes one line and a connection or pod state that
    cannot be read ends the dump.  [walk_renders] proves that the loops of [MapWalk],
    [MapWalkCP] and [MapWalkv6], which ask the kernel for one key after the other through
    fixed buffers, return with that text; [rules_shown] that for the entries the agent writes
    the text is the CIDRs and ports of the rules; [MapWalkv6_limits] what the IPv6 walk does
    not show. *)
From S2P Require Import Prelude NetIP NetIPFacts ApiTypes Utils UtilsFacts FwRulesFacts NetworkPolicySem Effects BpfInterface BpfClient LegacyPins Show.

(** [emits m t r]: [m] appends [t] to the output and ends with [r]. *)
Definition emits {A} (m : ST gostring A) (t : gostring) (r : outcome A) : Prop := forall out, m out = (out ++ t, r).

Lemma emits_bind {A B} (m : ST gostring A) (f : A -> ST gostring B) t a t' r :
  emits m t (Ret a) -> emits (f a) t' r -> emits (m ≫= f) (t ++ t') r.
Proof. intros Hm Hf out. unfold mbind, ST_bind. by rewrite Hm, Hf, app_assoc. Qed.

Lemma emits_stop {A B} (m : ST gostring A) (f : A -> ST gostring B) t e :
  emits m t (Err e) -> emits (m ≫= f) t (Err e).
Proof. intros Hm out. unfold mbind, ST_bind. by rewrite Hm. Qed.

Lemma emits_panic {A B} (m : ST gostring A) (f : A -> ST gostring B) t w :
  emits m t (Panic w) -> emits (m ≫= f) t (Panic w).
Proof. intros Hm out. unfold mbind, ST_bind. by rewrite Hm. Qed.

Lemma emits_ret {A} (a : A) : emits (mret a) [] (Ret a).
Proof. intros out. by rewrite app_nil_r. Qed.

Lemma emits_lift {A} (r : outcome A) : emits (lift r) [] r.
Proof. intros out. by rewrite app_nil_r. Qed.

Lemma emits_fail {A} e : emits (@fail gostring A e) [] (Err e).
Proof. intros out. by rewrite app_nil_r. Qed.

Lemma emits_print t : emits (print t) t (Ret tt).
Proof. done. Qed.

Lemma emits_then {B} (m : ST gostring unit) (f : ST gostring B) t t' r :
  emits m t (Ret tt) -> emits f t' r -> emits (m ;; f) (t ++ t') r.
Proof. intros Hm Hf. exact (emits_bind m (fun _ => f) t tt t' r Hm Hf). Qed.

Lemma emits_silent {A B} (m : ST gostring A) (f : A -> ST gostring B) a t r :
  emits m [] (Ret a) -> emits (f a) t r -> emits (m ≫= f) t r.
Proof. exact (emits_bind m f [] a t r). Qed.

Lemma emits_eq {A} (m : ST gostring A) t t' r : emits m t r -> t = t' -> emits m t' r.
Proof. by intros ? <-. Qed.

Lemma emits_pair {A} (m : ST gostring A) t r (p : gostring * outcome A) : emits m t r -> p = (t, r) -> emits m p.1 p.2.
Proof. by intros ? ->. Qed.

Lemma emits_for_each {X} (body : X -> ST gostring unit) (f : X -> gostring) l :
  (forall x, x ∈ l -> emits (body x) (f x) (Ret tt)) -> emits (for_each body l) (concat (f <$> l)) (Ret tt).
Proof.
  unfold for_each. induction l as [|x l IH]; intros Hb; cbn [fold_each fmap list_fmap concat]; [apply emits_ret|].
  eapply emits_bind; [apply Hb; left|]. apply IH. intros y Hy. apply Hb. by right.
Qed.

(** * The reference dump *)
Definition line (ops : list gostring) : gostring := join_with " "%byte ops ++ nl.

(** One rule of a map value; an unused slot takes no text. *)
Definition slotText (no : gostring -> gostring) (protocol : Z) (fields : list (gostring * Z)) (protocolLabel : gostring) (i : nat) : gostring :=
  if protocol =? 0 then [] else
  line [dashes] ++ no (Itoa (Z.of_nat i)) ++ line [protocolLabel; GetProtocol protocol] ++
  concat ((fun '(label, n) => line [label; Itoa n]) <$> fields) ++ line [dashes].

Definition entryNo (i : gostring) : gostring := go "Entry " ++ i ++ go ":" ++ nl.
Definition trieSlot (i : nat) (v : BPFTrieVal) : gostring :=
  slotText entryNo (tv_Protocol v) [(go "StartPort -", tv_StartPort v); (go "EndPort   -", tv_EndPort v)] (go "Protocol  -") i.
Definition prioritySlot (i : nat) (v : BPFL4PriorityVal) : gostring :=
  slotText entryNo (pv_Protocol v)
    [(go "Priority  -", pv_Priority v); (go "StartPort -", pv_StartPort v); (go "EndPort   -", pv_EndPort v)] (go "Protocol  -") i.
Definition trieSlotV6 (i : nat) (v : BPFTrieVal) : gostring :=
  slotText (fun i => line [go "Value Entry : "; i]) (tv_Protocol v)
    [(go "StartPort - ", tv_StartPort v); (go "Endport - ", tv_EndPort v)] (go "Protocol - ") i.

Definition slots {A} (f : nat -> A -> gostring) (vals : list A) : gostring := concat (imap f vals) ++ line [stars].

Definition flowText (sip dip oip : gostring) (sport dport protocol ifindex : Z) (v : ConntrackVal) (now : Z) : gostring :=
  line [go "Conntrack Key : Source IP - " ++ sip ++ go " Source port - " ++ Itoa sport ++ go " Dest IP - " ++ dip ++
    go " Dest port - " ++ Itoa dport ++ go " Protocol - " ++ Itoa protocol ++ go " Owner IP - " ++ oip ++ go " Ifindex - " ++ Itoa ifindex] ++
  line [go "Value : "] ++ line [go "Conntrack Val - "; Itoa (ct_Value v)] ++
  (go "Last Seen (ns) -  " ++ Itoa (LastSeen v) ++ go "  (" ++ formatLastSeen (LastSeen v) now ++ go ")" ++ nl) ++ line [stars].

(** The maps the tool can show, and the command that shows each. *)
Inductive table := Rules | ClusterRules | Flows | PodStates | Rules6 | Flows6.

Definition tableType (t : table) : Z :=
  match t with
  | Rules | ClusterRules | Rules6 => BPF_MAP_TYPE_LPM_TRIE
  | Flows | Flows6 => BPF_MAP_TYPE_LRU_HASH
  | PodStates => BPF_MAP_TYPE_HASH
  end.
Definition keySize (t : table) : nat :=
  match t with Rules | ClusterRules => 8 | Flows => 24 | PodStates => 4 | Rules6 => 20 | Flows6 => 60 end%nat.
Definition valueSize (t : table) : nat :=
  match t with Rules | Rules6 => 288 | ClusterRules => 384 | Flows | Flows6 => 16 | PodStates => 1 end%nat.

(** The value in the buffer it is read to. *)
Definition padded (n : nat) (v : gostring) : gostring := v ++ replicate (n - length v) x00.

Definition valueText (t : table) (now : Z) (key v : gostring) : gostring :=
  match t with
  | Rules => keyLine (read_BPFTrieKey key) ++ slots trieSlot (read_BPFTrieVals v)
  | ClusterRules => keyLine (read_BPFTrieKey key) ++ keyLine (read_BPFTrieKey key) ++ slots prioritySlot (read_BPFL4PriorityVals v)
  | Flows =>
      let k := read_ConntrackKey key in
      flowText (IP_String (ConvIntToIPv4 (Source_ip k))) (IP_String (ConvIntToIPv4 (Dest_ip k))) (IP_String (ConvIntToIPv4 (Owner_ip k)))
        (Source_port k) (Dest_port k) (ct_Protocol k) (Ifindex k) (read_ConntrackVal v) now
  | PodStates =>
      line [go "Key : "; Itoa (of_le32 key)] ++ line [go "State - "; Itoa (byte.unsigned (default x00 (head v)))] ++ line [stars]
  | Rules6 =>
      line [go "Key : IP/Prefixlen - " ++ IP_String (tk6_IP (ConvByteToTrieV6 key)) ++ go "/" ++ Itoa (tk6_PrefixLen (ConvByteToTrieV6 key)) ++ go " "] ++
      slots trieSlotV6 (read_BPFTrieVals v)
  | Flows6 =>
      let k := ConvByteToConntrackV6 key in
      flowText (IP_String (Source_ip6 k)) (IP_String (Dest_ip6 k)) (IP_String (Owner_ip6 k))
        (Source_port6 k) (Dest_port6 k) (ct_Protocol6 k) (Ifindex6 k) (read_ConntrackVal v) now
  end.

(** An entry that is read, or the line or error of one that is not; a value larger than the
    struct it is read to is written past its end. *)
Definition entryText (t : table) (now : Z) (key : gostring) (r : io_res gostring) : gostring * outcome unit :=
  match r with
  | IoOk v => if decide (length v <= valueSize t)%nat then (valueText t now key (padded (valueSize t) v), Ret tt) else ([], Panic overflow)
  | r =>
      match t with
      | Rules => (go "error reading NetworkPolicy entry: unable to get map entry: " ++ io_text r ++ nl, Ret tt)
      | ClusterRules => (go "error reading ClusterNetworkPolicy entry: unable to get map entry: " ++ io_text r ++ nl, Ret tt)
      | PodStates => ([], Err (go "unable to get HASH entry for key=" ++ Itoa (of_le32 key) ++ go ": " ++ io_text r))
      | _ => ([], Err (go "Unable to get map entry: " ++ io_text r))
      end
  end.

(** The last line, from the answer of the kernel to the request for a key after the last. *)
Definition doneText (t : table) (last : io_res gostring) : gostring :=
  match t, last with
  | PodStates, IoErr _ => go "Failed to get next entry, done searching"
  | PodStates, _ => go "Done reading all entries in BPF_MAP_TYPE_HASH"
  | _, IoErr _ => failedNext
  | _, _ => doneReading
  end.

(** A part of a dump and, unless it ends the dump, the rest. *)
Definition followed (p q : gostring * outcome unit) : gostring * outcome unit :=
  match p with (txt, Ret _) => (txt ++ q.1, q.2) | stop => stop end.

Lemma emits_followed (m k : ST gostring unit) p q : emits m p.1 p.2 -> emits k q.1 q.2 -> emits (m ;; k) (followed p q).1 (followed p q).2.
Proof.
  destruct p as [txt [[]|e|w]]; intros Hm Hk; [by apply emits_then|by apply emits_stop|by apply emits_panic].
Qed.

Fixpoint render (t : table) (now : Z) (last : io_res gostring) (entries : list (gostring * io_res gostring)) : gostring * outcome unit :=
  match entries with
  | [] => (line [doneText t last], Ret tt)
  | (key, r) :: entries' => followed (entryText t now key r) (render t now last entries')
  end.

(** * The loops *)
Lemma emits_println ops : emits (println ops) (line ops) (Ret tt).
Proof. done. Qed.

Lemma emits_fields (l : list (gostring * Z)) :
  emits (for_each (fun '(label, n) => println [label; Itoa n]) l) (concat ((fun '(label, n) => line [label; Itoa n]) <$> l)) (Ret tt).
Proof. apply emits_for_each. by intros [label n] _. Qed.

Ltac emit := repeat apply emits_then; first [apply emits_println | apply emits_print | apply emits_fields | apply emits_ret].

Section walks.
Context `{!MapInspect, !MapOrder}.

Lemma emits_slots {A} (body : nat * A -> ST gostring unit) (f : nat -> A -> gostring) vals :
  (forall i v, emits (body (i, v)) (f i v) (Ret tt)) -> emits (for_each body (imap pair vals)) (concat (imap f vals)) (Ret tt).
Proof.
  intros Hb. eapply emits_eq; [apply (emits_for_each _ (uncurry f)); intros [i v] _; apply Hb|].
  by rewrite fmap_imap.
Qed.

Lemma printPolicyEntry_emits {T} (protocol : T -> Z) fields key (vals : list T) :
  emits (printPolicyEntry protocol fields key vals)
    (keyLine key ++ slots (fun i v => slotText entryNo (protocol v) (fields v) (go "Protocol  -") i) vals) (Ret tt).
Proof.
  apply emits_then; [apply emits_print|]. apply emits_then; [|apply emits_println]. apply emits_slots. intros i v. unfold slotText.
  destruct (protocol v =? 0); emit.
Qed.

Lemma dumpV6_slots_emit (vals : list BPFTrieVal) :
  emits (for_each (fun '(i, e) =>
      if tv_Protocol e =? 0 then mret tt else
      println [dashes];; println [go "Value Entry : "; Itoa (Z.of_nat i)];; println [go "Protocol - "; GetProtocol (tv_Protocol e)];;
      println [go "StartPort - "; Itoa (tv_StartPort e)];; println [go "Endport - "; Itoa (tv_EndPort e)];; println [dashes]) (imap pair vals);;
    println [stars]) (slots trieSlotV6 vals) (Ret tt).
Proof.
  apply emits_then; [|apply emits_println]. apply emits_slots. intros i v. unfold trieSlotV6, slotText.
  destruct (tv_Protocol v =? 0); [emit|]. cbn [fmap list_fmap concat]. rewrite app_nil_r, <-app_assoc. emit.
Qed.

Lemma printConntrack_emits sip dip oip sport dport protocol ifindex v now :
  emits (printConntrack sip dip oip sport dport protocol ifindex v now) (flowText sip dip oip sport dport protocol ifindex v now) (Ret tt).
Proof. emit. Qed.

Lemma emits_into n v : (length v <= n)%nat -> emits (lift (into n v)) [] (Ret (padded n v)).
Proof. intros Hn. unfold into. rewrite decide_True by done. apply emits_lift. Qed.

Lemma emits_entryErr {A} prefix (m : ST gostring A) t r :
  emits m t r -> emits (entryErr prefix m) t (match r with Err e => Err (prefix ++ e) | r => r end).
Proof. intros Hm out. unfold entryErr. by rewrite Hm. Qed.

Lemma emits_attempt {A} (m : ST gostring A) t r : (forall w, r <> Panic w) -> emits m t r -> emits (attempt m) t (Ret r).
Proof. intros Hr Hm out. unfold attempt. rewrite Hm. destruct r; [done..|]. by destruct (Hr why). Qed.

Lemma emits_attempt_panic {A} (m : ST gostring A) t w : emits m t (Panic w) -> emits (attempt m) t (Panic w).
Proof. intros Hm out. unfold attempt. by rewrite Hm. Qed.

(** A read of an entry, and what follows one that succeeds. *)
Definition readOf (n : nat) (r : io_res gostring) : outcome gostring :=
  match r with IoOk v => if decide (length v <= n)%nat then Ret (padded n v) else Panic overflow | r => Err (io_text r) end.

Lemma emits_getEntry n key mapID : emits (getEntry n key mapID) [] (readOf n (GetMapEntryByID key mapID)).
Proof.
  unfold getEntry, readOf. destruct (GetMapEntryByID key mapID) as [v| |e]; [|apply emits_fail..]. unfold into. case_decide; apply emits_lift.
Qed.

(** What a read becomes: the text of the value, nothing when it is too large, [t'] when it fails. *)
Definition readText (n : nat) (t : gostring -> gostring) (t' : gostring) (r : io_res gostring) : gostring :=
  match r with IoOk v => if decide (length v <= n)%nat then t (padded n v) else [] | _ => t' end.
Definition readEnd (n : nat) (e : outcome unit) (r : io_res gostring) : outcome unit :=
  match r with IoOk v => if decide (length v <= n)%nat then Ret tt else Panic overflow | _ => e end.

(** A dump that an unreadable entry ends, and one that goes on after a line about it. *)
Lemma emits_or_stop n r prefix (m : ST gostring gostring) (k : gostring -> ST gostring unit) t :
  emits m [] (readOf n r) -> (forall v, emits (k v) (t v) (Ret tt)) ->
  emits (entryErr prefix m ≫= k) (readText n t [] r) (readEnd n (Err (prefix ++ io_text r)) r).
Proof.
  intros Hm Hk. apply (emits_entryErr prefix) in Hm. destruct r as [v| |e]; [|by apply emits_stop..].
  cbn [readOf readText readEnd] in *. case_decide; [eapply emits_silent; [exact Hm|apply Hk]|by apply emits_panic].
Qed.

Lemma emits_or_note n r prefix note (m : ST gostring gostring) (k : gostring -> ST gostring unit) t :
  emits m [] (readOf n r) -> (forall v, emits (k v) (t v) (Ret tt)) ->
  emits (r ← attempt (entryErr prefix (m ≫= k)); match err_of r with Some e => print (note ++ e ++ nl) | None => mret tt end)
    (readText n t (note ++ prefix ++ io_text r ++ nl) r) (readEnd n (Ret tt) r).
Proof.
  intros Hm Hk. destruct r as [v| |e]; cbn [readOf readText readEnd] in *.
  - case_decide.
    + rewrite <-(app_nil_r (t _)). eapply (emits_bind _ _ _ (Ret tt)); [|apply emits_ret].
      apply emits_attempt; [done|]. apply (emits_entryErr prefix _ _ (Ret tt)). eapply emits_silent; [exact Hm|apply Hk].
    + apply emits_panic, emits_attempt_panic. by apply (emits_entryErr prefix _ _ (Panic _)), emits_panic.
  - rewrite (app_assoc prefix). eapply (emits_silent _ _ (Err _)); [|apply emits_print].
    apply emits_attempt; [done|]. by apply (emits_entryErr prefix _ _ (Err _)), emits_stop.
  - rewrite (app_assoc prefix). eapply (emits_silent _ _ (Err _)); [|apply emits_print].
    apply emits_attempt; [done|]. by apply (emits_entryErr prefix _ _ (Err _)), emits_stop.
Qed.

Definition dumpOf (t : table) (mapID now : Z) : gostring -> ST gostring unit :=
  match t with
  | Rules => dumpPolicy mapID []
  | ClusterRules => dumpPolicy mapID (go "cp_")
  | Flows => dumpConntrack mapID now
  | PodStates => dumpPodState mapID
  | Rules6 => dumpPolicyV6 mapID
  | Flows6 => dumpConntrackV6 mapID now
  end.

(** The answers of the kernel for a map with these entries: each key is followed by the next,
    and the key after the last is [last]. *)
Fixpoint chain (t : table) (mapID : Z) (last : io_res gostring) (entries : list (gostring * io_res gostring)) : Prop :=
  match entries with
  | [] => True
  | (key, r) :: entries' =>
      length key = keySize t /\ GetMapEntryByID key mapID = r /\
      GetNextMapEntryByID key mapID = match entries' with [] => last | (key', _) :: _ => IoOk key' end /\
      chain t mapID last entries'
  end.

(** The dump of an entry is its text. *)
Lemma dump_emits t mapID now key r :
  GetMapEntryByID key mapID = r ->
  emits (dumpOf t mapID now key) (entryText t now key r).1 (entryText t now key r).2.
Proof.
  intros <-. pose proof (emits_getEntry (valueSize t) key mapID) as Hread.
  set (r := GetMapEntryByID key mapID) in *. clearbody r. destruct t; cbn [dumpOf valueSize] in *.
  - eapply emits_pair; [apply (emits_or_note 288 r _ (go "error reading NetworkPolicy entry: ") _ _ (valueText Rules now key) Hread); intros v; apply printPolicyEntry_emits|destruct r; [cbn [readText readEnd entryText valueSize]; by case_decide|done..]].
  - eapply emits_pair; [apply (emits_or_note 384 r _ (go "error reading ClusterNetworkPolicy entry: ") _ _ (valueText ClusterRules now key) Hread); intros v|destruct r; [cbn [readText readEnd entryText valueSize]; by case_decide|done..]].
    cbn [valueText]. apply emits_then; [emit|apply printPolicyEntry_emits].
  - eapply emits_pair; [apply (emits_or_stop 16 r _ _ _ (valueText Flows now key) Hread); intros v; apply printConntrack_emits|destruct r; [cbn [readText readEnd entryText valueSize]; by case_decide|done..]].
  - eapply emits_pair; [apply (emits_or_stop 1 r _ _ _ (valueText PodStates now key) Hread); intros v; cbn [valueText]; emit|].
    destruct r; cbn [readText readEnd entryText valueSize]; [by case_decide|by rewrite <-?app_assoc..].
  - eapply emits_pair; [apply (emits_or_stop 288 r _ _ _ (valueText Rules6 now key) Hread); intros v; cbn [valueText]; apply emits_then; [emit|apply dumpV6_slots_emit]|destruct r; [cbn [readText readEnd entryText valueSize]; by case_decide|done..]].
  - eapply emits_pair; [apply (emits_or_stop 16 r _ _ _ (valueText Flows6 now key) Hread); intros v; apply printConntrack_emits|destruct r; [cbn [readText readEnd entryText valueSize]; by case_decide|done..]].
Qed.

Lemma padded_full n v : length v = n -> padded n v = v.
Proof. intros <-. unfold padded. by rewrite Nat.sub_diag, app_nil_r. Qed.

(** One turn per entry is enough. *)
Lemma walk_loop_emits t mapID now last key r entries fuel :
  chain t mapID last ((key, r) :: entries) -> (forall k, last <> IoOk k) -> (length entries < fuel)%nat ->
  let p := render t now last ((key, r) :: entries) in
  emits (walk_loop fuel (keySize t) mapID (dumpOf t mapID now) (doneText t IoNotExist) (doneText t (IoErr [])) key) p.1 p.2.
Proof.
  intros Hc Hlast. revert key r fuel Hc. induction entries as [|[key' r'] entries IH]; intros key r fuel Hc Hf.
  - destruct fuel as [|fuel]; [lia|]. destruct Hc as (_ & Hr & Hn & _). cbn [walk_loop render]. rewrite Hn.
    apply emits_followed; [by apply dump_emits|]. destruct last as [k| |e]; [by destruct (Hlast k)|apply emits_println|destruct t; apply emits_println].
  - destruct fuel as [|fuel]; [lia|]. destruct Hc as (_ & Hr & Hn & Hc). cbn [walk_loop]. cbn [length] in Hf. rewrite Hn.
    apply (emits_followed _ _ (entryText t now key r) (render t now last ((key', r') :: entries))); [by apply dump_emits|].
    pose proof Hc as (Hk & _). eapply emits_silent; [apply emits_into; lia|]. rewrite padded_full by done. apply IH; [done|lia].
Qed.

(** * The commands *)
Definition walkOf (t : table) (fuel : nat) (mapID : Z) : ST gostring unit :=
  match t with
  | ClusterRules => MapWalkCP fuel mapID
  | Rules6 | Flows6 => MapWalkv6 fuel mapID
  | _ => MapWalk fuel mapID []
  end.

Definition heading (t : table) (mapID : Z) (info : BpfMapInfo) : gostring :=
  match t with
  | Rules6 | Flows6 =>
      go "Walking map: " ++ trim_zeros (mi_Name info) ++ go " (type=" ++ Itoa (mi_Type info) ++ go ", id=" ++ Itoa mapID ++ go ")" ++ nl
  | _ => []
  end.

(** The clock the ages are measured against, and the warning if it cannot be read. *)
Definition clock (t : table) : gostring * Z :=
  match t, KtimeGetNs with
  | (Flows | Flows6), Ret now => ([], now)
  | (Flows | Flows6), Err e => (go "unable to read monotonic clock, ages will show as 0s: " ++ e ++ nl, 0)
  | _, _ => ([], 0)
  end.

(** The dump of a map.  That of an empty one is a line for IPv4 and an error for IPv6; a first
    key that cannot be read is an error. *)
Definition shown (t : table) (last : io_res gostring) (entries : list (gostring * io_res gostring)) : gostring * outcome unit :=
  match entries, last, t with
  | [], IoErr e, PodStates => ([], Err (go "unable to get first key (HASH): " ++ e))
  | [], IoErr e, _ => ([], Err (go "Unable to get First key: " ++ e))
  | [], _, (Rules6 | Flows6) => ([], Err (go "Unable to get First key: no such file or directory"))
  | [], _, PodStates => (line [go "No entries found, empty HASH map (pod_state_map?)"], Ret tt)
  | [], _, _ => (line [go "No Entries found, Empty map"], Ret tt)
  | _, _, _ => render t (clock t).2 last entries
  end.

Lemma openMap_emits t mapID fd info :
  0 < mapID -> GetMapFDFromID mapID = Ret fd -> GetBPFmapInfo fd = Ret info -> mi_Type info = tableType t ->
  emits (openMap mapID) [] (Ret info).
Proof.
  intros Hid Hfd Hinfo Ht. unfold openMap. rewrite (proj2 (Z.leb_gt _ _)) by lia. rewrite Hfd.
  eapply emits_silent; [apply emits_lift|]. rewrite Hinfo. eapply emits_silent; [apply emits_lift|].
  rewrite decide_True; [apply emits_ret|]. rewrite Ht. destruct t; vm_compute; set_solver.
Qed.

(** The entries of a map, as the kernel gives them: the first key, each next one, and the answer
    [last], that there is none or that it cannot be read, where a key is asked for and not given. *)
Record enumerates (t : table) (mapID : Z) (last : io_res gostring) (entries : list (gostring * io_res gostring)) : Prop := {
  enum_first : GetFirstMapEntryByID mapID = match entries with [] => last | (key, _) :: _ => IoOk key end;
  enum_chain : chain t mapID last entries;
  enum_last : forall k, last <> IoOk k
}.

Lemma withFirstKey_emits t mapID last entries fuel :
  enumerates t mapID last entries -> (length entries <= fuel)%nat ->
  emits (withFirstKey (keySize t) mapID
    (match t with Rules6 | Flows6 => None | PodStates => Some (go "No entries found, empty HASH map (pod_state_map?)") | _ => Some emptyMap end)
    (match t with PodStates => go "unable to get first key (HASH): " | _ => go "Unable to get First key: " end)
    (walk_loop fuel (keySize t) mapID (dumpOf t mapID (clock t).2) (doneText t IoNotExist) (doneText t (IoErr []))))
    (shown t last entries).1 (shown t last entries).2.
Proof.
  intros [Hfirst Hc Hlast] Hf. unfold withFirstKey. rewrite Hfirst. destruct entries as [|[key r] entries].
  - destruct last as [k| |e]; [by destruct (Hlast k)|destruct t; apply emits_println || apply emits_fail..].
  - pose proof Hc as (Hk & _). eapply emits_silent; [apply emits_into; lia|]. rewrite padded_full by done.
    assert (shown t last ((key, r) :: entries) = render t (clock t).2 last ((key, r) :: entries)) as -> by (by destruct last, t).
    by apply walk_loop_emits.
Qed.

Lemma dumpNow_emits t : t = Flows \/ t = Flows6 -> emits dumpNow (clock t).1 (Ret (clock t).2).
Proof.
  intros Ht. unfold dumpNow, clock, KtimeGetNs. destruct ClockGettime as [e|[sec nsec]]; [destruct Ht as [->| ->]; (eapply emits_eq; [eapply emits_then; [apply emits_print|apply emits_ret]|apply app_nil_r])|destruct Ht as [->| ->]; apply emits_ret].
Qed.

Lemma walk_emits t fuel mapID fd info last entries :
  0 < mapID -> GetMapFDFromID mapID = Ret fd -> GetBPFmapInfo fd = Ret info -> mi_Type info = tableType t ->
  enumerates t mapID last entries -> (length entries <= fuel)%nat ->
  emits (walkOf t fuel mapID) (heading t mapID info ++ (clock t).1 ++ (shown t last entries).1) (shown t last entries).2.
Proof.
  intros Hid Hfd Hinfo Htype Henum Hfuel.
  pose proof (openMap_emits t mapID fd info Hid Hfd Hinfo Htype) as Hopen.
  pose proof (withFirstKey_emits t mapID last entries fuel Henum Hfuel) as Hwalk.
  destruct t; unfold walkOf, MapWalkCP, MapWalk, MapWalkv6, heading; (eapply emits_silent; [exact Hopen|]); rewrite Htype.
  - exact Hwalk.
  - exact Hwalk.
  - eapply (emits_bind _ _ (clock Flows).1); [by apply (dumpNow_emits Flows); left|]. exact Hwalk.
  - exact Hwalk.
  - apply emits_then; [apply emits_print|]. exact Hwalk.
  - apply emits_then; [apply emits_print|]. eapply emits_bind; [by apply (dumpNow_emits Flows6); right|]. exact Hwalk.
Qed.
End walks.

(** * The rules the agent writes *)
Lemma Itoa_dec_nat n : (n <= 128)%nat -> Itoa (Z.of_nat n) = dec_nat n.
Proof. intros Hn. do 129 (destruct n as [|n]; [vm_compute; reflexivity|]). lia. Qed.

(** The CIDR of a map key. *)
Lemma net_text n : canonical n -> IP_String (net_ip n) ++ go "/" ++ Itoa (Z.of_nat (net_ones n)) = IPNet_String n.
Proof.
  intros Hn. destruct (canonical_mask n Hn) as (Hle & Hm & _). pose proof (canonical_ones_le n Hn).
  unfold IPNet_String. rewrite networkNumberAndMask_canonical by done. rewrite Hm at 1. rewrite simpleMaskLength_mask by done.
  by rewrite Itoa_dec_nat.
Qed.

Lemma keyLine_net n : net_ok false n -> keyLine (read_BPFTrieKey (ComputeTrieKey n false)) = go "Key: " ++ IPNet_String n ++ nl.
Proof.
  intros [Hc Hf]. pose proof (canonical_ones_le n Hc). rewrite ComputeTrieKey_spec by done. unfold keyLine, read_BPFTrieKey, ConvIntToIPv4. cbn [tk_IP tk_PrefixLen].
  rewrite take_app_length', drop_app_length' by (by rewrite length_le32). unfold in_family in Hf.
  rewrite (take_ge (net_ip n)) by lia. rewrite le32_of_le32, of_le32_le32, u32_small by lia.
  rewrite <-(net_text n Hc). by rewrite <-!app_assoc.
Qed.

Lemma keyLine_net6 n : net_ok true n ->
  IP_String (tk6_IP (ConvByteToTrieV6 (ComputeTrieKey n true))) ++ go "/" ++ Itoa (tk6_PrefixLen (ConvByteToTrieV6 (ComputeTrieKey n true))) = IPNet_String n.
Proof.
  intros [Hc Hf]. pose proof (canonical_ones_le n Hc). rewrite ComputeTrieKey_spec by done. unfold ConvByteToTrieV6. cbn [tk6_IP tk6_PrefixLen]. unfold in_family in Hf.
  rewrite take_app_length' by (rewrite length_app, length_le32; lia).
  rewrite take_app_length', drop_app_length' by (by rewrite length_le32).
  rewrite (take_ge (net_ip n)) by lia. rewrite of_le32_le32, u32_small by lia. by apply net_text.
Qed.

(** The rules of an address as the operator writes them; no ports means all traffic. *)
Definition protoName (p : Port) : gostring :=
  match Protocol p with
  | Some q => if decide (ptr_val q ∈ [ProtocolTCP; ProtocolUDP; ProtocolSCTP]) then ptr_val q else go "ANY PROTOCOL"
  | None => go "ANY PROTOCOL"
  end.
Definition portText (v6 : bool) (i : nat) (p : Port) : gostring :=
  let '(no, proto, startPort, endPort) :=
    if v6 then (go "Value Entry :  " ++ Itoa (Z.of_nat i), go "Protocol -  ", go "StartPort -  ", go "Endport -  ")
    else (go "Entry " ++ Itoa (Z.of_nat i) ++ go ":", go "Protocol  - ", go "StartPort - ", go "EndPort   - ") in
  dashes ++ nl ++ no ++ nl ++ proto ++ protoName p ++ nl ++
  startPort ++ Itoa (default 0 (Port_Port p)) ++ nl ++ endPort ++ Itoa (default 0 (EndPort p)) ++ nl ++ dashes ++ nl.
Definition anyPort : Port := mkPort None None None.
Definition slotPorts (l : list Port) : list Port := match l with [] => [anyPort] | _ => take 24 l end.
Definition ruleText (v6 : bool) (rule : IPNet * list Port) : gostring :=
  (if v6 then go "Key : IP/Prefixlen - " else go "Key: ") ++ IPNet_String rule.1 ++ (if v6 then go " " else []) ++ nl ++
  concat (imap (portText v6) (slotPorts rule.2)) ++ stars ++ nl.

Lemma proto_text p : port_ok p ->
  GetProtocol (deriveProtocolValue p false false) = protoName p /\ deriveProtocolValue p false false <> 0.
Proof.
  intros [_ _ Hp]. unfold deriveProtocolValue, protoName. destruct (Protocol p) as [q|]; [|by vm_compute].
  specialize (Hp q eq_refl). repeat case_decide; subst; try (vm_compute; done); try congruence; set_solver.
Qed.

Lemma slot_text (v6 : bool) i p : port_ok p -> (if v6 then trieSlotV6 else trieSlot) i (port_val p) = portText v6 i p.
Proof.
  intros Hp. rewrite port_val_ok by done. destruct (proto_text p Hp) as [Hn Hz].
  destruct v6; unfold trieSlotV6, trieSlot, slotText, portText, entryNo, line; cbn [tv_Protocol tv_StartPort tv_EndPort];
    rewrite (proj2 (Z.eqb_neq _ 0) Hz), Hn; cbn [join_with fmap list_fmap concat]; rewrite <-?app_assoc; done.
Qed.

(** The slots of a value are the ports it was computed from; what is left of it is not shown. *)
Lemma slots_concat (v6 : bool) ports k : Forall port_ok ports ->
  slots (if v6 then trieSlotV6 else trieSlot) ((port_val <$> ports) ++ replicate k zero_val) =
  concat (imap (portText v6) ports) ++ stars ++ nl.
Proof.
  intros Hp. unfold slots. f_equal. rewrite imap_app, concat_app, imap_fmap. rewrite <-(app_nil_r (concat (imap (portText v6) ports))). f_equal.
  - f_equal. apply imap_ext. intros i p Hi. apply slot_text. by eapply Forall_lookup_1.
  - apply concat_nil_Forall, Forall_lookup. intros i x Hx. rewrite list_lookup_imap in Hx.
    destruct (replicate k zero_val !! i) as [z|] eqn:E; [|done]. apply lookup_replicate in E as [-> _]. injection Hx as <-. by destruct v6.
Qed.

(** The entry the agent writes for a rule. *)
Definition written (v6 : bool) (rule : IPNet * list Port) : gostring * io_res gostring :=
  (ComputeTrieKey rule.1 v6, match ComputeTrieValue rule.2 false false with Ret v => IoOk v | Err e | Panic e => IoErr e end).
Lemma written_value v6 rule : written v6 rule = (ComputeTrieKey rule.1 v6, IoOk (trie_value rule.2)).
Proof. unfold written. by rewrite ComputeTrieValue_spec. Qed.
Definition rule_ok (v6 : bool) (rule : IPNet * list Port) : Prop := net_ok v6 rule.1 /\ Forall port_ok rule.2.

Lemma ports_read l :
  read_BPFTrieVals (trie_value l) =
  (port_val <$> slotPorts l) ++ replicate (24 - length (slotPorts l)) zero_val.
Proof.
  destruct l as [|p l]; [vm_compute; reflexivity|]. rewrite read_trie_value by done. unfold slotPorts.
  rewrite length_take. f_equal. f_equal. lia.
Qed.

Lemma written_text (v6 : bool) now rule : rule_ok v6 rule ->
  entryText (if v6 then Rules6 else Rules) now (written v6 rule).1 (written v6 rule).2 = (ruleText v6 rule, Ret tt).
Proof.
  destruct rule as [n l]. intros [Hn Hl]. cbn [fst snd] in *. rewrite written_value. unfold ruleText. cbn [fst snd].
  assert (Forall port_ok (slotPorts l)) as Hp.
  { unfold slotPorts. destruct l as [|p l]; [by repeat constructor|]. by apply Forall_take. }
  assert (valueText (if v6 then Rules6 else Rules) now (ComputeTrieKey n v6) (trie_value l) = ruleText v6 (n, l)) as Ht.
  { unfold ruleText. cbn [fst snd]. rewrite <-(slots_concat v6 _ (24 - length (slotPorts l))), <-ports_read by done.
    destruct v6; cbn [valueText]; [|rewrite keyLine_net by done; by rewrite <-!app_assoc].
    unfold line. cbn [join_with]. rewrite <-(keyLine_net6 n Hn). by rewrite <-!app_assoc. }
  assert (length (trie_value l) = valueSize (if v6 then Rules6 else Rules)) as Hlen by (rewrite length_trie_value; by destruct v6).
  unfold entryText. rewrite decide_True by lia. rewrite padded_full by done. by rewrite Ht.
Qed.

Lemma render_written (v6 : bool) now rules : Forall (rule_ok v6) rules ->
  render (if v6 then Rules6 else Rules) now IoNotExist (written v6 <$> rules) = (concat (ruleText v6 <$> rules) ++ doneReading ++ nl, Ret tt).
Proof.
  induction 1 as [|rule rules Hr _ IH]; [by destruct v6|]. cbn [fmap list_fmap concat].
  pose proof (written_text v6 now rule Hr) as Ht. destruct (written v6 rule) as [key r] eqn:E. cbn [render fst snd] in *.
  rewrite Ht. change (list_fmap _ _ (written v6) rules) with (written v6 <$> rules). rewrite IH. cbn [followed fst snd]. by rewrite <-app_assoc.
Qed.

(** * What a command shows *)

(** The maps no command walks, and the error for each. *)
Inductive refused `{!MapInspect} (mapID : Z) : gostring -> Prop :=
  | refused_id : mapID <= 0 -> refused mapID (go "Invalid mapID")
  | refused_fd e : 0 < mapID -> GetMapFDFromID mapID = Err e -> refused mapID (go "failed to get map FD: " ++ e)
  | refused_info fd e : 0 < mapID -> GetMapFDFromID mapID = Ret fd -> GetBPFmapInfo fd = Err e -> refused mapID (go "failed to get map info: " ++ e)
  | refused_type fd info : 0 < mapID -> GetMapFDFromID mapID = Ret fd -> GetBPFmapInfo fd = Ret info ->
      mi_Type info <> 1 -> mi_Type info <> 9 -> mi_Type info <> 11 ->
      refused mapID (go "unsupported map type: " ++ Itoa (mi_Type info) ++ go " (expected LPM_TRIE, LRU_HASH, or HASH)").

Lemma openMap_refused `{!MapInspect} mapID why : refused mapID why -> emits (openMap mapID) [] (Err why).
Proof.
  intros Hr. unfold openMap.
  destruct Hr as [Hid|e Hid Hfd|fd e Hid Hfd Hinfo|fd info Hid Hfd Hinfo H1 H9 H11];
    [rewrite (proj2 (Z.leb_le _ _)) by lia; apply emits_fail|rewrite (proj2 (Z.leb_gt _ _)) by lia; rewrite Hfd..].
  - apply emits_stop, emits_lift.
  - eapply emits_silent; [apply emits_lift|]. rewrite Hinfo. apply emits_stop, emits_lift.
  - eapply emits_silent; [apply emits_lift|]. rewrite Hinfo. eapply emits_silent; [apply emits_lift|].
    rewrite decide_False; [apply emits_fail|]. unfold BPF_MAP_TYPE_LPM_TRIE, BPF_MAP_TYPE_LRU_HASH, BPF_MAP_TYPE_HASH. set_solver.
Qed.

Section walked.
Context `{!MapInspect, !MapOrder}.

(** A first key that is larger than the struct it is read to. *)
Lemma walk_overflow t fuel mapID fd info key :
  0 < mapID -> GetMapFDFromID mapID = Ret fd -> GetBPFmapInfo fd = Ret info -> mi_Type info = tableType t ->
  GetFirstMapEntryByID mapID = IoOk key -> (keySize t < length key)%nat ->
  emits (walkOf t fuel mapID) (heading t mapID info ++ (clock t).1) (Panic overflow).
Proof.
  intros Hid Hfd Hinfo Htype Hfirst Hlen.
  pose proof (openMap_emits t mapID fd info Hid Hfd Hinfo Htype) as Hopen.
  assert (forall e f k, emits (withFirstKey (keySize t) mapID e f k) [] (Panic overflow)) as Hwalk.
  { intros e f k. unfold withFirstKey. rewrite Hfirst. apply emits_panic. unfold into. rewrite decide_False by lia. apply emits_lift. }
  destruct t; unfold walkOf, MapWalkCP, MapWalk, MapWalkv6, heading; (eapply emits_silent; [exact Hopen|]); rewrite Htype.
  - apply Hwalk.
  - apply Hwalk.
  - eapply (emits_eq _ ((clock Flows).1 ++ [])); [|by rewrite app_nil_r]. eapply emits_bind; [by apply (dumpNow_emits Flows); left|]. apply Hwalk.
  - apply Hwalk.
  - apply emits_then; [apply emits_print|]. apply Hwalk.
  - apply emits_then; [apply emits_print|]. eapply (emits_eq _ ((clock Flows6).1 ++ [])); [|by rewrite app_nil_r].
    eapply emits_bind; [by apply (dumpNow_emits Flows6); right|]. apply Hwalk.
Qed.

End walked.

Section shown.
Context `{!MapInspect, !MapOrder}.
Context (fuel : nat) (mapID fd : Z) (info : BpfMapInfo) (out : gostring).
Context (Hid : 0 < mapID) (Hfd : GetMapFDFromID mapID = Ret fd) (Hinfo : GetBPFmapInfo fd = Ret info).

(** C23: The tool reads back what the agent wrote.  For a rule map, of IPv4 or IPv6, whose entries are
    the keys and values the agent computes from CIDRs and ports: the walk prints, in the order
    of the kernel, each CIDR as the agent's own text of it and under it the numbered ports,
    protocol by name, first and last port; all traffic for a CIDR without ports, the first 24
    of more; nothing else. *)
Theorem rules_shown (v6 : bool) rules
  (Htype : mi_Type info = BPF_MAP_TYPE_LPM_TRIE) (Hok : Forall (rule_ok v6) rules) (Hne : rules <> [])
 
  (Henum : enumerates (if v6 then Rules6 else Rules) mapID IoNotExist (written v6 <$> rules)) (Hfuel : (length rules <= fuel)%nat) :
  (if v6 then MapWalkv6 fuel mapID else MapWalk fuel mapID []) out =
  (out ++ (if v6 then heading Rules6 mapID info else []) ++ concat (ruleText v6 <$> rules) ++ doneReading ++ nl, Ret tt).
Proof.
  assert (shown (if v6 then Rules6 else Rules) IoNotExist (written v6 <$> rules) = (concat (ruleText v6 <$> rules) ++ doneReading ++ nl, Ret tt)) as Hs.
  { rewrite <-(render_written v6 (clock (if v6 then Rules6 else Rules)).2 rules Hok). destruct rules as [|rule rules]; [done|]. by destruct v6. }
  pose proof (walk_emits (if v6 then Rules6 else Rules) fuel mapID fd info IoNotExist (written v6 <$> rules) Hid Hfd Hinfo) as Hw.
  rewrite Hs, length_fmap in Hw. specialize (Hw ltac:(by destruct v6) Henum Hfuel out). destruct v6; exact Hw.
Qed.

(** What the IPv6 walk does not show.  It accepts a hash map, the kind of the pod states, prints
    its heading and returns without an error, whatever the map holds; and it reads the entries
    of every rule map into the buffer of a namespaced policy, so that the first entry of a
    cluster policy map, whose values are a third larger, is written past its end. *)
Theorem MapWalkv6_limits (n : IPNet) (rules : list L4Rule) (v : gostring) (Hn : in_family true n) (Hv : ComputeTrieValueForCPE rules = Ret v) :
  (mi_Type info = BPF_MAP_TYPE_HASH -> MapWalkv6 fuel mapID out = (out ++ heading Rules6 mapID info, Ret tt)) /\
  (mi_Type info = BPF_MAP_TYPE_LPM_TRIE -> (0 < fuel)%nat -> GetFirstMapEntryByID mapID = IoOk (ComputeTrieKey n true) ->
    GetMapEntryByID (ComputeTrieKey n true) mapID = IoOk v ->
    MapWalkv6 fuel mapID out = (out ++ heading Rules6 mapID info, Panic overflow)).
Proof.
  assert (length (ComputeTrieKey n true) = 20%nat) as Hk.
  { rewrite ComputeTrieKey_spec, length_app, length_le32 by done. by rewrite Hn. }
  split.
  - intros Htype. assert (emits (MapWalkv6 fuel mapID) (heading Rules6 mapID info ++ []) (Ret tt)) as He; [|by rewrite app_nil_r in He].
    eapply emits_silent; [by apply (openMap_emits PodStates mapID fd)|]. apply emits_then; [apply emits_print|]. rewrite Htype. apply emits_ret.
  - intros Htype Hf Hfirst Hentry. destruct fuel as [|fuel']; [lia|].
    assert (emits (MapWalkv6 (S fuel') mapID) (heading Rules6 mapID info ++ []) (Panic overflow)) as He; [|by rewrite app_nil_r in He].
    eapply emits_silent; [by apply (openMap_emits Rules6 mapID fd)|]. apply emits_then; [apply emits_print|]. rewrite Htype.
    unfold withFirstKey. rewrite Hfirst. eapply emits_silent; [apply emits_into; lia|]. rewrite padded_full by done.
    do 2 apply emits_panic. apply (emits_entryErr _ _ _ (Panic overflow)). unfold getEntry. rewrite Hentry. unfold into.
    rewrite decide_False by (rewrite ComputeTrieValueForCPE_spec in Hv; injection Hv as <-; rewrite length_cp_value; vm_compute; lia). apply emits_lift.
Qed.
End shown.

(** * Examples *)

(** A kernel with one map, number 7, that holds these entries. *)
Fixpoint keyAfter (key : gostring) (entries : list (gostring * io_res gostring)) : io_res gostring :=
  match entries with
  | (k, _) :: (((k', _) :: _) as entries') => if decide (k = key) then IoOk k' else keyAfter key entries'
  | _ => IoNotExist
  end.
Definition listed (t : table) (now : Z) (entries : list (gostring * io_res gostring)) : MapInspect := {|
  GetPinnedPrograms := Ret ∅; BpfGetAllProgramInfo := Ret []; BpfGetAllMapInfo := Ret [];
  GetMapFDFromID id := Ret (id + 20);
  GetBPFmapInfo _ := Ret (mkBpfMapInfo (tableType t) 7 (Z.of_nat (keySize t)) (Z.of_nat (valueSize t)) 16384 (go "ingress_map" ++ [x00; x00]));
  GetFirstMapEntryByID _ := match entries with [] => IoNotExist | (k, _) :: _ => IoOk k end;
  GetNextMapEntryByID key _ := keyAfter key entries;
  GetMapEntryByID key _ := match list_find (fun e => e.1 = key) entries with Some (_, e) => e.2 | None => IoNotExist end;
  ClockGettime := inr (now / 1000000000, now mod 1000000000)
|}.

Definition web_rule : IPNet * list Port :=
  (mkIPNet [x0a; x00; x00; x00] (CIDRMask_loop 4 8), [mkPort (Some (mkProtocolPtr 1 ProtocolTCP)) (Some 80) (Some 90)]).
Definition office_rule : IPNet * list Port := (mkIPNet [xc0; xa8; x01; x00] (CIDRMask_loop 4 24), []).
Lemma shown_rules_ok : Forall (rule_ok false) [web_rule; office_rule].
Proof.
  repeat apply Forall_cons_2; [| |apply Forall_nil_2]; (split; [split; [split; [by left|]|done]|]).
  - exists 8%nat. split; [cbn; lia|by vm_compute].
  - repeat constructor; try (cbn; lia). intros q [= <-]. by vm_compute.
  - exists 24%nat. split; [cbn; lia|by vm_compute].
  - apply Forall_nil_2.
Qed.

Definition rules_map : MapInspect := listed Rules 0 (written false <$> [web_rule; office_rule]).
Lemma rules_map_enumerates : @enumerates rules_map Rules 7 IoNotExist (written false <$> [web_rule; office_rule]).
Proof. split; [by vm_compute| |done]. cbn [chain fmap list_fmap]. repeat split; vm_compute; lia. Qed.

Lemma rules_shown_witness :
  @MapWalk rules_map 2 7 [] [] =
  (concat [go "Key: 10.0.0.0/8"; nl; dashes; nl; go "Entry 0:"; nl; go "Protocol  - TCP"; nl; go "StartPort - 80"; nl; go "EndPort   - 90"; nl; dashes; nl; stars; nl;
     go "Key: 192.168.1.0/24"; nl; dashes; nl; go "Entry 0:"; nl; go "Protocol  - ANY PROTOCOL"; nl; go "StartPort - 0"; nl; go "EndPort   - 0"; nl; dashes; nl; stars; nl;
     go "Done reading all entries"; nl], Ret tt).
Proof.
  etrans; [apply (@rules_shown rules_map 2 7 27 _ [] ltac:(lia) eq_refl eq_refl false [web_rule; office_rule]); [done|exact shown_rules_ok|done|exact rules_map_enumerates|cbn; lia]|].
  vm_compute. reflexivity.
Defined.

(** Two connections, of which the second is evicted while the walk is at it; the same map with a
    number that is not positive. *)
Definition flow_key (port : Z) : gostring := [x0a; x00; x00; x05] ++ le_split 2 port ++ [x00; x00; x0a; x00; x00; x06] ++ le_split 2 80 ++ [x06; x00; x0a; x00; x00; x05] ++ le32 0.
Definition flow_entries : list (gostring * io_res gostring) :=
  [(flow_key 40000, IoOk (le_split 8 1 ++ le_split 8 8600000000)); (flow_key 40001, IoNotExist)].
Definition flows_map : MapInspect := listed Flows second10 flow_entries.


(** A cluster policy map of IPv6. *)
Definition v6_net_ex : IPNet := mkIPNet ([x20; x01; x0d; xb8] ++ replicate 12 x00) (CIDRMask_loop 16 32).
Definition cluster_map6 : MapInspect := listed Rules6 0 [(ComputeTrieKey v6_net_ex true, IoOk (replicate 384 x00))].
Lemma MapWalkv6_limits_witness :
  @MapWalkv6 cluster_map6 5 7 [] = (go "Walking map: ingress_map (type=11, id=7)" ++ nl, Panic overflow) /\
  @MapWalkv6 (listed PodStates 0 [([x00; x00; x00; x00], IoOk [x01])]) 5 7 [] = (go "Walking map: ingress_map (type=1, id=7)" ++ nl, Ret tt).
Proof.
  split.
  - destruct (@MapWalkv6_limits cluster_map6 5 7 27 _ [] ltac:(lia) eq_refl eq_refl v6_net_ex [] (replicate 384 x00) eq_refl eq_refl) as [_ H].
    rewrite H; [by vm_compute|done|lia|by vm_compute|by vm_compute].
  - destruct (@MapWalkv6_limits (listed PodStates 0 [([x00; x00; x00; x00], IoOk [x01])]) 5 7 27 _ [] ltac:(lia) eq_refl eq_refl v6_net_ex [] (replicate 384 x00) eq_refl eq_refl) as [H _].
    rewrite H; by vm_compute.
Defined.
