(* ===== verification/AgentMain.v ===== *)
(** [main.go], [pkg/config], [pkg/utils/imds], the readiness checks ([pkg/ebpf/healthcheck.go],
    [pkg/rpc/healthcheck.go]) and [rpc.RunRPCHandler]: how the agent starts.

    [main] is one sequence.  An error it exits with is an [Err], a [lo.Must] that panics a
    [Panic].  What it sets up is in the process state: the BPF client, the two reconcilers and
    the health status it serves; what the manager and the CNI can see of it is in the journal,
    in the order in which it happens.  The libraries it calls are the class [Runtime]; each is
    called at most once, so it is an answer, not a function of a state.  The goroutines of the
    profiler and of the gRPC server, and the exit of the second, are left out. *)
From S2P Require Import Prelude ApiTypes Utils FwRules MemMap Effects BpfInterface PolicyController BpfClient ClusterController RpcHandler LegacyPins Recovery Install Conntrack Events ClientStart.

(** ** Configuration *)
Record RuntimeConfig := mkRuntimeConfig {
  APIServer : gostring;
  KubeConfig : gostring;
  MetricsBindAddress : gostring;
  HealthProbeBindAddress : gostring;
  SyncPeriod : Z
}.
Record ControllerConfig := mkControllerConfig {
  LogLevel : gostring;
  LogFile : gostring;
  LogFileMaxSize : Z;
  LogFileMaxBackups : Z;
  MaxConcurrentReconciles : Z;
  EnablePolicyEventLogs : bool;
  EnableCloudWatchLogs : bool;
  EnableIPv6 : bool;
  EnableNetworkPolicy : bool;
  ConntrackCacheCleanupPeriod : Z;
  ConntrackCacheTableSize : Z;
  RuntimeConfig_ : RuntimeConfig;
  EnableProfiling : bool
}.

(** A flag that is declared, with its default, and one that the command line sets. *)
Inductive flagValue := FlagString (s : gostring) | FlagInt (z : Z) | FlagBool (b : bool).

Definition runtimeFlags : list (gostring * flagValue) :=
  [(go "kubeconfig", FlagString []); (go "metrics-bind-addr", FlagString (go ":8162"));
   (go "health-probe-bind-addr", FlagString (go ":8163"))].
Definition controllerFlags : list (gostring * flagValue) :=
  [(go "log-level", FlagString (go "debug"));
   (go "log-file", FlagString (go "/var/log/aws-routed-eni/network-policy-agent.log"));
   (go "log-file-max-size", FlagInt 200); (go "log-file-max-backups", FlagInt 8);
   (go "max-concurrent-reconciles", FlagInt 3);
   (go "enable-policy-event-logs", FlagBool false); (go "enable-cloudwatch-logs", FlagBool false);
   (go "enable-ipv6", FlagBool false); (go "enable-network-policy", FlagBool false); (go "enable-profiling", FlagBool false);
   (go "conntrack-cache-cleanup-period", FlagInt 300); (go "conntrack-cache-table-size", FlagInt (512 * 1024))] ++ runtimeFlags.

(** The variables the flags are bound to, after parsing. *)
Definition flagOf (m : gmap gostring flagValue) (name : gostring) : option flagValue :=
  match m !! name with
  | Some v => Some v
  | None => snd <$> (snd <$> list_find (fun p => p.1 = name) controllerFlags)
  end.
Definition strFlag m name : gostring := match flagOf m name with Some (FlagString s) => s | _ => [] end.
Definition intFlag m name : Z := match flagOf m name with Some (FlagInt z) => z | _ => 0 end.
Definition boolFlag m name : bool := match flagOf m name with Some (FlagBool b) => b | _ => false end.

Definition bindFlags (m : gmap gostring flagValue) : ControllerConfig :=
  mkControllerConfig (strFlag m (go "log-level")) (strFlag m (go "log-file")) (intFlag m (go "log-file-max-size"))
    (intFlag m (go "log-file-max-backups")) (intFlag m (go "max-concurrent-reconciles"))
    (boolFlag m (go "enable-policy-event-logs")) (boolFlag m (go "enable-cloudwatch-logs")) (boolFlag m (go "enable-ipv6"))
    (boolFlag m (go "enable-network-policy")) (intFlag m (go "conntrack-cache-cleanup-period"))
    (intFlag m (go "conntrack-cache-table-size"))
    (mkRuntimeConfig [] (strFlag m (go "kubeconfig")) (strFlag m (go "metrics-bind-addr")) (strFlag m (go "health-probe-bind-addr")) 0)
    (boolFlag m (go "enable-profiling")).

Definition ValidControllerFlags (cfg : ControllerConfig) : outcome unit :=
  if (ConntrackCacheTableSize cfg <? 32 * 1024) || (1024 * 1024 <? ConntrackCacheTableSize cfg)
  then Err (go "Invalid conntrack cache table size, should be between 32K and 1024K") else Ret tt.

Record restConfig := mkRestConfig { rest_Host : gostring; QPS : Z; Burst : Z }.
Record ctrlOptions := mkCtrlOptions { opt_Metrics : gostring; opt_HealthProbe : gostring }.
Definition BuildRuntimeOptions (rtCfg : RuntimeConfig) : ctrlOptions :=
  mkCtrlOptions (MetricsBindAddress rtCfg) (HealthProbeBindAddress rtCfg).

(** ** What the agent calls *)
Inductive ServingStatus := UNKNOWN | SERVING | NOT_SERVING | SERVICE_UNKNOWN.

(** [pkg/rpcclient]: the options of a connection.  The service configuration is a JSON
    document; a duration is in milliseconds, the multiplier in tenths. *)
Record serviceConfig := mkServiceConfig {
  sc_service : gostring; waitForReady : bool; MaxAttempts : Z; InitialBackoff : Z; MaxBackoff : Z;
  BackoffMultiplier : Z; RetryableStatusCodes : list gostring
}.
Inductive DialOption := WithDefaultServiceConfig (c : serviceConfig) | WithInsecureCredentials.
Definition GetDefaultServiceRetryConfig : DialOption :=
  WithDefaultServiceConfig (mkServiceConfig (go "rpc.ConfigServerBackend") true 5 500 10000 11
    [go "UNAVAILABLE"; go "ABORTED"; go "UNKNOWN"]).
Definition GetInsecureConnectionType : DialOption := WithInsecureCredentials.

Class Runtime `{!FileSystem} := {
  (** [pflag]: the flags the command line sets. *)
  fs_Parse : list (gostring * flagValue) -> list gostring -> outcome (gmap gostring flagValue);
  InClusterConfig : outcome gostring;
  LoadKubeConfig : gostring -> outcome gostring;
  NewManager : restConfig -> ctrlOptions -> outcome unit;
  (** The EC2 metadata client. *)
  LoadDefaultConfig : outcome unit;
  imds_GetMetadata : gostring -> outcome gostring;
  io_ReadAll : gostring -> outcome gostring;
  (** ipamd. *)
  grpc_Dial : gostring -> list DialOption -> outcome unit;
  GetNetworkPolicyConfigs : outcome (gostring * bool);
  (** controller-runtime. *)
  Complete : gostring -> outcome unit;
  mgr_AddReadyzCheck : gostring -> outcome unit;
  mgr_AddHealthzCheck : gostring -> outcome unit;
  mgr_Start : outcome unit;
  (** gRPC and sockets. *)
  grpc_NewClient : gostring -> outcome unit;
  os_Remove : gostring -> fs -> fs * option gostring;
  net_Listen : gostring -> fs -> fs * option gostring
}.

(** The checks at a probe. *)
Class Probes := {
  unix_Statfs : gostring -> outcome (Z * Z);
  (** [Health.Check] on the socket, for a service. *)
  health_Check : gostring -> gostring -> outcome ServingStatus
}.

Definition LOCAL_IPAMD_ADDRESS : gostring := go "unix:///var/run/aws-node/ipamd.sock".
Definition npaSocketPath : gostring := go "/var/run/aws-node/npa.sock".
Definition grpcHealthServiceName : gostring := go "grpc.health.v1.np-agent".
Definition BPF_FS_ROOT : gostring := go "/sys/fs/bpf".
Definition BPF_FS_MAGIC : Z := 0xcafe4a11.
Definition ST_RDONLY : Z := 1.

(** ** Readiness *)
Section checks.
Context `{FS : !FileSystem, PR : !Probes}.

Fixpoint NewGlobalMapsReadinessCheck (paths : list gostring) : ST fs unit :=
  match paths with
  | [] => mret tt
  | p :: paths' =>
      r ← (fun s => let '(s, r) := os_Stat p s in (s, Ret r));
      match r with
      | IoOk _ => NewGlobalMapsReadinessCheck paths'
      | IoNotExist => fail (go "required BPF map pin missing: " ++ p ++ go ": file does not exist")
      | IoErr e => fail (go "required BPF map pin missing: " ++ p ++ go ": " ++ e)
      end
  end.

(** [%x]. *)
Fixpoint hex_digits (fuel : nat) (x : Z) : gostring :=
  match fuel with
  | O => []
  | S fuel' => (if x <? 16 then [] else hex_digits fuel' (x / 16)) ++ [NetIP.digit_char (x mod 16)]
  end.

Definition NewBpfFsReadinessCheck (root : gostring) : outcome unit :=
  st ← (match unix_Statfs root with Err e => Err (go "statfs " ++ root ++ go " failed: " ++ e) | r => r end);
  let '(typ, flags) := st in
  if negb (typ =? BPF_FS_MAGIC) then Err (root ++ go " is not a bpffs mount (fs magic 0x" ++ hex_digits 16 typ ++ go ")") else
  if negb (Z.land flags ST_RDONLY =? 0) then Err (go "bpf filesystem at " ++ root ++ go " is mounted read-only") else
  Ret tt.

Definition statusName (s : ServingStatus) : gostring :=
  match s with
  | UNKNOWN => go "UNKNOWN" | SERVING => go "SERVING" | NOT_SERVING => go "NOT_SERVING" | SERVICE_UNKNOWN => go "SERVICE_UNKNOWN"
  end.
(** [GRPCSocketHealthChecker.Check]. *)
Definition grpc_Check (socketPath : gostring) : outcome unit :=
  status ← (match health_Check socketPath grpcHealthServiceName with Err e => Err (go "grpc health check failed: " ++ e) | r => r end);
  match status with
  | SERVING => Ret tt
  | s => Err (go "grpc health check returned non-serving status: " ++ statusName s)
  end.
End checks.

(** ** The process *)
Inductive milestone :=
  | Profiling
  | ClientStarted
  | ProbesReattached
  | ControllerRegistered (name : gostring)
  | ReadyzRegistered (name : gostring)
  | HealthzRegistered (name : gostring)
  | Serving
  | ManagerStarted.

Section main.
Context `{SDK : !BpfMapSDK, CL : !BpfSDK, RS : !RecoverySDK, ST' : !StartSDK, MO : !MapOrder, FS : !FileSystem, HF : !HostFiles, CW : !CloudWatch, RT : !Runtime}.
Context (json_Unmarshal : gostring -> option (list ipamAllocation)).
Context (checkpoint_Unmarshal : gostring -> option (list (gostring * gostring * Z))).
Context (InitRingBuffer : Z -> outcome (list gostring)).

Record proc := mkProc {
  (** The kernel, until the client has it. *)
  p_kernel : kext * gmap Z kmap;
  p_fs : fs;
  p_events : eventsState;
  p_client : option bpfClient;
  p_policy : option PolicyEndpointsReconciler;
  p_cluster : option ClusterPolicyEndpointsReconciler;
  (** The health server's status by service. *)
  p_health : gmap gostring ServingStatus;
  journal : list milestone
}.
Definition note (m : milestone) (p : proc) : proc :=
  mkProc (p_kernel p) (p_fs p) (p_events p) (p_client p) (p_policy p) (p_cluster p) (p_health p) (journal p ++ [m]).
Definition set_client (c : bpfClient) (p : proc) : proc :=
  mkProc (p_kernel p) (p_fs p) (p_events p) (Some c) (p_policy p) (p_cluster p) (p_health p) (journal p).
Definition set_policy (r : PolicyEndpointsReconciler) (p : proc) : proc :=
  mkProc (p_kernel p) (p_fs p) (p_events p) (p_client p) (Some r) (p_cluster p) (p_health p) (journal p).
Definition set_cluster (r : ClusterPolicyEndpointsReconciler) (p : proc) : proc :=
  mkProc (p_kernel p) (p_fs p) (p_events p) (p_client p) (p_policy p) (Some r) (p_health p) (journal p).
Definition set_health (h : gmap gostring ServingStatus) (p : proc) : proc :=
  mkProc (p_kernel p) (p_fs p) (p_events p) (p_client p) (p_policy p) (p_cluster p) h (journal p).
Definition on_files {A} (m : ST fs A) : ST proc A :=
  zoom p_fs (fun f p => mkProc (p_kernel p) f (p_events p) (p_client p) (p_policy p) (p_cluster p) (p_health p) (journal p)) m.

(** [os.Exit(1)] with the message before it. *)
Definition orExit {A} (msg : gostring) (r : outcome A) : ST proc A :=
  lift (match r with Err e => Err (msg ++ e) | r => r end).
(** [lo.Must]: a panic with the error. *)
Definition must {A} (r : outcome A) : ST proc A := lift (match r with Err e => Panic e | r => r end).

Definition loadControllerConfig (args : list gostring) : outcome ControllerConfig :=
  m ← fs_Parse controllerFlags args; Ret (bindFlags m).

Definition BuildRestConfig (rtCfg : RuntimeConfig) : outcome restConfig :=
  host ← (if decide (KubeConfig rtCfg = []) then InClusterConfig else LoadKubeConfig (KubeConfig rtCfg));
  Ret (mkRestConfig host 20 100).

Definition GetMetaData (key : gostring) : outcome gostring :=
  _ ← (match LoadDefaultConfig with Err e => Err (go "failed to load AWS config: " ++ e) | r => r end);
  resp ← (match imds_GetMetadata key with
         | Err e => Err (go "get instance metadata: failed to retrieve " ++ key ++ go " - " ++ e) | r => r end);
  match io_ReadAll resp with Err e => Err (go "failed to read metadata content: " ++ e) | r => r end.

Definition Dial (target : gostring) (opts : list DialOption) : outcome unit := grpc_Dial target opts.

Definition getNetworkPolicyConfigsFromIpamd : outcome (gostring * bool) :=
  _ ← Dial LOCAL_IPAMD_ADDRESS [GetDefaultServiceRetryConfig; GetInsecureConnectionType];
  resp ← GetNetworkPolicyConfigs;
  if negb (IsValidNetworkPolicyEnforcingMode (fst resp)) then Err (go "Invalid Network Policy Mode") else Ret resp.

(** The new client takes the kernel, the files and the events component. *)
Definition newClient (cfg : startConfig) : ST proc unit := fun p =>
  let '(w, r) := NewBpfClient json_Unmarshal checkpoint_Unmarshal InitRingBuffer cfg (p_kernel p).1 (p_kernel p).2 (p_fs p) (p_events p) in
  let p := mkProc (p_kernel p) (w_fs w) (w_events w) (p_client p) (p_policy p) (p_cluster p) (p_health p) (journal p) in
  match r with
  | Ret (Some _) => (note ClientStarted (set_client (w_client w) p), Ret tt)
  | Ret None => (p, Panic (go "nil pointer dereference"))
  | Err e | Panic e => (p, Panic e)
  end.

Definition ReAttachEbpfProbes : ST proc unit := fun p =>
  match p_client p with
  | None => (p, Panic (go "nil pointer dereference"))
  | Some c => let '(c, r) := bpf_ReAttachEbpfProbes c in (note ProbesReattached (set_client c p), r)
  end.

Definition SetupWithManager (name : gostring) : ST proc unit :=
  orExit (go "unable to create controller " ++ name ++ go " ") (Complete name);; modify (note (ControllerRegistered name)).

Definition AddReadyzCheck (name msg : gostring) : ST proc unit :=
  orExit msg (mgr_AddReadyzCheck name);; modify (note (ReadyzRegistered name)).
Definition AddHealthzCheck (name msg : gostring) : ST proc unit :=
  orExit msg (mgr_AddHealthzCheck name);; modify (note (HealthzRegistered name)).

Definition startConfig_of (cfg : ControllerConfig) (nodeIP npMode : gostring) (isMultiNICEnabled : bool) : startConfig :=
  mkStartConfig nodeIP (EnablePolicyEventLogs cfg) (EnableCloudWatchLogs cfg) (EnableIPv6 cfg)
    (ConntrackCacheCleanupPeriod cfg) (ConntrackCacheTableSize cfg) npMode isMultiNICEnabled.

(** The branch of [main] with network policies enabled. *)
Definition startControllers (cfg : ControllerConfig) : ST proc unit :=
  nodeIP ← must (GetMetaData (if EnableIPv6 cfg then go "ipv6" else go "local-ipv4"));
  np ← must getNetworkPolicyConfigsFromIpamd;
  newClient (startConfig_of cfg nodeIP (fst np) (snd np));;
  ReAttachEbpfProbes;;
  modify (set_policy NewPolicyEndpointsReconciler);;
  SetupWithManager (go "PolicyEndpoints");;
  modify (set_cluster NewClusterPolicyEndpointsReconciler);;
  SetupWithManager (go "ClusterPolicyEndpoints");;
  AddReadyzCheck (go "bpf-maps") (go "unable to set up bpf-maps readiness check ");;
  AddReadyzCheck (go "bpf-fs") (go "unable to set up bpf-fs readiness check ").

Definition NewGRPCSocketHealthChecker (socketPath : gostring) : outcome unit :=
  match grpc_NewClient socketPath with Err e => Err (go "grpc NewClient for " ++ socketPath ++ go " failed: " ++ e) | r => r end.

(** A socket left by the previous agent is removed; that the removal fails is only logged. *)
Definition RunRPCHandler (socketPath : gostring) : ST proc unit :=
  r ← on_files (fun s => let '(s, r) := os_Stat socketPath s in (s, Ret r));
  (match r with
    | IoOk _ => on_files (fun s => let '(s, _) := os_Remove socketPath s in (s, Ret tt))
    | _ => mret tt
    end);;
  on_files (fun s => let '(s, e) := net_Listen socketPath s in
    (s, match e with Some e => Err (go "network policy agent: failed to listen on unix socket: " ++ e) | None => Ret tt end));;
  modify (fun p => note Serving (set_health (<[grpcHealthServiceName := SERVING]> (p_health p)) p)).

Definition main (args : list gostring) : ST proc unit :=
  cfg ← orExit (go "unable to load policy endpoint controller config ") (loadControllerConfig args);
  (if EnableProfiling cfg then modify (note Profiling) else mret tt);;
  restCFG ← orExit (go "unable to build REST config ") (BuildRestConfig (RuntimeConfig_ cfg));
  orExit (go "unable to create controller manager ") (NewManager restCFG (BuildRuntimeOptions (RuntimeConfig_ cfg)));;
  orExit (go "Controller flags validation failed ") (ValidControllerFlags cfg);;
  (if EnableNetworkPolicy cfg then startControllers cfg else mret tt);;
  orExit (go "unable to set up gRPC socket health checker ") (NewGRPCSocketHealthChecker npaSocketPath);;
  AddHealthzCheck (go "grpc-socket") (go "unable to set up gRPC socket health check ");;
  AddReadyzCheck (go "grpc-socket") (go "unable to set up grpc-socket readiness check ");;
  (r ← attempt (RunRPCHandler npaSocketPath); orExit (go "Failed to set up gRPC Handler ") r);;
  modify (note ManagerStarted);;
  orExit (go "problem running manager ") mgr_Start.
End main.
