(* ===== verification/AgentMainFacts.v ===== *)
(** The start of the agent: the order in which its parts come up, on every path, and what is in
    place when it takes the first request of the CNI; and what its readiness probe means. *)
From S2P Require Import Prelude ApiTypes Utils FwRules MemMap Effects BpfInterface PolicyController BpfClient BpfClientFacts BpfClientTables DemoKernel ClusterController RpcHandler LegacyPins LegacyPinsFacts Recovery RecoveryFacts Install Conntrack Events EventsFacts ClientStart ClientStartFacts AgentMain.

(** * The order of the start *)
Definition preamble (cfg : ControllerConfig) : list milestone := if EnableProfiling cfg then [Profiling] else [].
Definition controllersUp (cfg : ControllerConfig) : list milestone :=
  if EnableNetworkPolicy cfg then
    [ClientStarted; ProbesReattached; ControllerRegistered (go "PolicyEndpoints"); ControllerRegistered (go "ClusterPolicyEndpoints");
     ReadyzRegistered (go "bpf-maps"); ReadyzRegistered (go "bpf-fs")]
  else [].
Definition served : list milestone := [HealthzRegistered (go "grpc-socket"); ReadyzRegistered (go "grpc-socket"); Serving; ManagerStarted].
Definition milestones (cfg : ControllerConfig) : list milestone := preamble cfg ++ controllersUp cfg ++ served.

Section order.
Context `{SDK : !BpfMapSDK, CL : !BpfSDK, RS : !RecoverySDK, ST' : !StartSDK, MO : !MapOrder, FS : !FileSystem, HF : !HostFiles, CW : !CloudWatch, RT : !Runtime}.
Context (json_Unmarshal : gostring -> option (list ipamAllocation)).
Context (checkpoint_Unmarshal : gostring -> option (list (gostring * gostring * Z))).
Context (InitRingBuffer : Z -> outcome (list gostring)).
Abbreviation main := (main json_Unmarshal checkpoint_Unmarshal InitRingBuffer).
Abbreviation newClient := (newClient json_Unmarshal checkpoint_Unmarshal InitRingBuffer).
Abbreviation reachable := (reachable json_Unmarshal checkpoint_Unmarshal InitRingBuffer).

Section stages.
(** What holds whenever the socket is served. *)
Context (final : proc -> Prop).

(** [stage P Q l l' m]: [m] takes the journal from [l] to [l'] and [P] to [Q]; if it ends the
    process, the journal got no further than [l']. *)
Definition stage {A} (P : proc -> Prop) (Q : A -> proc -> Prop) (l l' : list milestone) (m : ST proc A) : Prop :=
  forall p, P p -> journal p = l -> wp m p (fun p' r =>
    match r with
    | Ret a => Q a p' /\ journal p' = l'
    | _ => (Serving ∈ journal p' -> final p') /\ journal p' `prefix_of` l'
    end).

Lemma stage_bind {A B} P (Q : A -> proc -> Prop) (R : B -> proc -> Prop) l l' l'' m f :
  stage P Q l l' m -> (forall a, stage (Q a) R l' l'' (f a)) -> l' `prefix_of` l'' -> stage P R l l'' (m ≫= f).
Proof.
  intros Hm Hf Hl p Hp Hj. apply wp_bind. eapply wp_mono; [by apply Hm|]. intros p' [a|e|w]; cbn beta iota.
  - intros [HQ Hj']. by apply Hf.
  - intros [Hfin Hj']. split; [done|]. by etrans.
  - intros [Hfin Hj']. split; [done|]. by etrans.
Qed.

(** A call that records a milestone, one that records none, and what follows. *)
Lemma stage_next {B} P Q (R : B -> proc -> Prop) l x rest (m : ST proc unit) f :
  stage P (fun _ => Q) l (l ++ [x]) m -> stage Q R (l ++ [x]) ((l ++ [x]) ++ rest) f -> stage P R l (l ++ x :: rest) (m ;; f).
Proof. intros Hm Hf. change (x :: rest) with ([x] ++ rest). rewrite app_assoc. eapply stage_bind; [exact Hm|by intros []|by eexists]. Qed.

Lemma stage_silent {A B} P (Q : A -> proc -> Prop) (R : B -> proc -> Prop) l rest m f :
  stage P Q l l m -> (forall a, stage (Q a) R l (l ++ rest) (f a)) -> stage P R l (l ++ rest) (m ≫= f).
Proof. intros Hm Hf. eapply stage_bind; [exact Hm|exact Hf|by eexists]. Qed.

Lemma stage_ret {A} P (Q : A -> proc -> Prop) l a : (forall p, P p -> Q a p) -> stage P Q l l (mret a).
Proof. intros HQ p Hp Hj. split; [by apply HQ|done]. Qed.

Lemma stage_lift {A} P (Q : A -> proc -> Prop) l (r : outcome A) :
  (forall a, r = Ret a -> forall p, P p -> Q a p) -> (forall p, P p -> Serving ∈ l -> final p) -> stage P Q l l (lift r).
Proof.
  intros HQ Hfin p Hp Hj. unfold wp, lift. cbn [fst snd].
  destruct r as [a|e|w]; [split; [by apply HQ|done]|split; [rewrite Hj; by apply Hfin|by rewrite Hj]..].
Qed.

Lemma stage_orExit {A} P (Q : A -> proc -> Prop) l msg (r : outcome A) :
  (forall a, r = Ret a -> forall p, P p -> Q a p) -> (forall p, P p -> Serving ∈ l -> final p) -> stage P Q l l (orExit msg r).
Proof. intros HQ Hfin. apply stage_lift; [|done]. intros a Ha. destruct r; [|done..]. by apply HQ. Qed.

Lemma stage_must {A} P (Q : A -> proc -> Prop) l (r : outcome A) :
  (forall a, r = Ret a -> forall p, P p -> Q a p) -> (forall p, P p -> Serving ∈ l -> final p) -> stage P Q l l (must r).
Proof. intros HQ Hfin. apply stage_lift; [|done]. intros a Ha. destruct r; [|done..]. by apply HQ. Qed.

Lemma stage_note P (Q : unit -> proc -> Prop) l m : (forall p, P p -> Q tt (note m p)) -> stage P Q l (l ++ [m]) (modify (note m)).
Proof. intros HQ p Hp Hj. split; [by apply HQ|]. cbn. by rewrite Hj. Qed.

Lemma stage_set P (Q : unit -> proc -> Prop) l f : (forall p, P p -> Q tt (f p)) -> (forall p, journal (f p) = journal p) -> stage P Q l l (modify f).
Proof. intros HQ Hf p Hp Hj. split; [by apply HQ|]. cbn. by rewrite Hf. Qed.
End stages.

(** The agent before it serves: with network policies, a client that started and re-attached its
    probes, and empty reconcilers; without, nothing. *)
Definition enabled_up (c : bpfClient -> Prop) (policy : option PolicyEndpointsReconciler) (cluster : option ClusterPolicyEndpointsReconciler) (p : proc) : Prop :=
  (exists mode nic, GetNetworkPolicyConfigs = Ret (mode, nic) /\ IsValidNetworkPolicyEnforcingMode mode = true) /\
  (exists b, p_client p = Some b /\ c b) /\ p_policy p = policy /\ p_cluster p = cluster.
Definition not_started (p0 p : proc) : Prop :=
  p_client p = None /\ p_policy p = None /\ p_cluster p = None /\ p_kernel p = p_kernel p0.
Definition agent_up (cfg : ControllerConfig) (p0 p : proc) : Prop :=
  32 * 1024 <= ConntrackCacheTableSize cfg <= 1024 * 1024 /\
  if EnableNetworkPolicy cfg
  then enabled_up reachable (Some NewPolicyEndpointsReconciler) (Some NewClusterPolicyEndpointsReconciler) p
  else not_started p0 p.
Definition agent_serving (cfg : ControllerConfig) (p0 p : proc) : Prop :=
  agent_up cfg p0 p /\ p_health p !! grpcHealthServiceName = Some SERVING.

Lemma preamble_served cfg : Serving ∉ preamble cfg.
Proof. unfold preamble. destruct (EnableProfiling cfg); set_solver. Qed.

Lemma controllers_served cfg : Serving ∉ preamble cfg ++ controllersUp cfg.
Proof. pose proof (preamble_served cfg). unfold controllersUp. destruct (EnableNetworkPolicy cfg); set_solver. Qed.

Section run.
Context (cfg : ControllerConfig) (p0 : proc).
Context (Hkernel : kernel_ok (p_kernel p0).2).
Abbreviation stage := (stage (agent_serving cfg p0)).

(** A registration is recorded when it succeeds. *)
Lemma stage_register (P : proc -> Prop) l l' msg (r : outcome unit) m :
  (forall p, P p -> P (note m p)) -> l' = l ++ [m] -> Serving ∉ l ->
  stage P (fun _ => P) l l' (orExit msg r ;; modify (note m)).
Proof.
  intros HP -> Hl. eapply stage_bind; [apply (stage_orExit _ P (fun _ => P)); [done|by intros]|intros []; by apply stage_note|by eexists].
Qed.

(** A milestone list in which the socket is not yet served. *)
Lemma not_served l : Forall (fun m => m <> Serving) l -> Serving ∉ l.
Proof. rewrite Forall_forall. intros Hl Hin. by apply (Hl _ Hin). Qed.

(** [m] ends the process before the socket is served. *)
Lemma stage_early {A} P (Q : A -> proc -> Prop) l l' (m : ST proc A) : Serving ∉ l' ->
  (forall p, P p -> journal p = l -> wp m p (fun p' r => match r with Ret a => Q a p' /\ journal p' = l' | _ => journal p' `prefix_of` l' end)) ->
  stage P Q l l' m.
Proof.
  intros Hl Hm p Hp Hj. eapply wp_mono; [by apply Hm|]. intros p' [a|e|w]; cbn beta iota; [done| |].
  - intros Hpre. split; [|done]. intros Hs. destruct Hl. destruct Hpre as [k ->]. set_solver.
  - intros Hpre. split; [|done]. intros Hs. destruct Hl. destruct Hpre as [k ->]. set_solver.
Qed.

Definition config_valid (p : proc) : Prop := 32 * 1024 <= ConntrackCacheTableSize cfg <= 1024 * 1024.

Lemma newClient_stage scfg l : Serving ∉ l ->
  (exists mode nic, GetNetworkPolicyConfigs = Ret (mode, nic) /\ IsValidNetworkPolicyEnforcingMode mode = true) ->
  stage (not_started p0) (fun _ => enabled_up reachable None None) l (l ++ [ClientStarted]) (newClient scfg).
Proof.
  intros Hl Hmode. apply stage_early; [set_solver|]. intros p (Hc & Hp & Hcl & Hk) Hj. unfold wp, AgentMain.newClient.
  rewrite Hk. destruct (NewBpfClient _ _ _ _ _ _ _ _) as [w r] eqn:E.
  destruct r as [[st|]|e|e]; cbn [fst snd journal note set_client]; rewrite ?Hj; [|by eexists..].
  split; [|done]. split; [done|]. split; [|done]. eexists. split; [done|]. by eapply reach_start.
Qed.

Lemma reattach_stage l : Serving ∉ l ->
  stage (enabled_up reachable None None) (fun _ => enabled_up reachable None None) l (l ++ [ProbesReattached]) ReAttachEbpfProbes.
Proof.
  intros Hl. apply stage_early; [set_solver|]. intros p (Hm & (c & Hc & Hr) & Hp & Hcl) Hj. unfold wp, ReAttachEbpfProbes. rewrite Hc.
  pose proof (reach_call json_Unmarshal checkpoint_Unmarshal InitRingBuffer CallReAttach c I Hr) as Hr'. cbn [exec_call] in Hr'.
  destruct (bpf_ReAttachEbpfProbes c) as [c' [[]|e|e]]; cbn [fst snd journal note set_client] in *; rewrite ?Hj; [|done..].
  split; [|done]. split; [done|]. split; [by exists c'|done].
Qed.

Lemma stage_pure {A} (F : Prop) P (Q : A -> proc -> Prop) l l' m : (F -> stage P Q l l' m) -> stage (fun p => F /\ P p) Q l l' m.
Proof. intros Hm p [Hx Hp]. by apply Hm. Qed.

Lemma mode_valid mode nic : getNetworkPolicyConfigsFromIpamd = Ret (mode, nic) ->
  GetNetworkPolicyConfigs = Ret (mode, nic) /\ IsValidNetworkPolicyEnforcingMode mode = true.
Proof.
  unfold getNetworkPolicyConfigsFromIpamd, Dial. unfold_outcome. destruct (grpc_Dial _ _); [|done..]. destruct GetNetworkPolicyConfigs as [[m n]|e|w]; [|done..].
  cbn [fst]. destruct (IsValidNetworkPolicyEnforcingMode m) eqn:E; cbn [negb]; [|done]. by intros [= <- <-].
Qed.

Lemma controllers_stage l : EnableNetworkPolicy cfg = true -> Serving ∉ l ->
  stage (not_started p0) (fun _ => enabled_up reachable (Some NewPolicyEndpointsReconciler) (Some NewClusterPolicyEndpointsReconciler))
    l (l ++ controllersUp cfg) (startControllers json_Unmarshal checkpoint_Unmarshal InitRingBuffer cfg).
Proof.
  intros Hen Hl. unfold controllersUp. rewrite Hen. unfold startControllers, SetupWithManager, AddReadyzCheck.
  eapply stage_silent; [apply (stage_must _ _ (fun _ => not_started p0)); [done|by intros]|intros nodeIP].
  eapply stage_silent; [apply (stage_must _ _ (fun np p => (exists mode nic, GetNetworkPolicyConfigs = Ret (mode, nic) /\
    IsValidNetworkPolicyEnforcingMode mode = true) /\ not_started p0 p)); [|by intros]|intros np; apply stage_pure; intros Hmode].
  { intros [mode nic] Hnp p Hp. split; [|done]. eexists _, _. by apply mode_valid. }
  eapply stage_next; [by apply newClient_stage|].
  eapply stage_next; [apply reattach_stage; set_solver|].
  eapply stage_silent; [apply (stage_set _ _ (fun _ => enabled_up reachable (Some NewPolicyEndpointsReconciler) None)); [by intros p (? & ? & ? & ?)|done]|intros []].
  eapply stage_next; [apply stage_register; [done|done|set_solver]|].
  eapply stage_silent; [apply (stage_set _ _ (fun _ => enabled_up reachable (Some NewPolicyEndpointsReconciler) (Some NewClusterPolicyEndpointsReconciler))); [by intros p (? & ? & ? & ?)|done]|intros []].
  eapply stage_next; [apply stage_register; [done|done|set_solver]|].
  eapply stage_next; [apply stage_register; [done|done|set_solver]|].
  apply stage_register; [done|done|set_solver].
Qed.

Lemma up_ext p p' : p_client p' = p_client p -> p_policy p' = p_policy p -> p_cluster p' = p_cluster p -> p_kernel p' = p_kernel p ->
  agent_up cfg p0 p -> agent_up cfg p0 p'.
Proof. unfold agent_up, enabled_up, not_started. by intros -> -> -> ->. Qed.

Lemma up_note m p : agent_up cfg p0 p -> agent_up cfg p0 (note m p).
Proof. by apply up_ext. Qed.

(** A call on the files changes nothing else. *)
Lemma stage_files {A} l (m : ST fs A) : Serving ∉ l -> stage (agent_up cfg p0) (fun _ => agent_up cfg p0) l l (on_files m).
Proof.
  intros Hl. apply stage_early; [done|]. intros p Hp Hj. unfold wp, on_files, zoom. destruct (m (p_fs p)) as [f r].
  cbn [fst snd]. destruct r; cbn [journal]; [|by rewrite Hj..]. split; [|done]. by apply (up_ext p).
Qed.

Lemma rpc_stage l : Serving ∉ l -> stage (agent_up cfg p0) (fun _ => agent_serving cfg p0) l (l ++ [Serving]) (RunRPCHandler npaSocketPath).
Proof.
  intros Hl. unfold RunRPCHandler. eapply stage_silent; [by apply stage_files|intros r].
  eapply (stage_silent _ _ (fun _ => agent_up cfg p0)); [destruct r; [by apply stage_files|by apply stage_ret..]|intros []].
  eapply stage_silent; [by apply stage_files|intros []].
  intros p Hp Hj. split; [|cbn; by rewrite Hj]. split; [by apply (up_ext p)|]. cbn. by rewrite lookup_insert_eq.
Qed.

(** [if err := m(); err != nil { exit }]. *)
Lemma stage_checked (P Q : proc -> Prop) l x msg (m : ST proc unit) :
  stage P (fun _ => Q) l (l ++ [x]) m -> stage P (fun _ => Q) l (l ++ [x]) (r ← attempt m; orExit msg r).
Proof.
  intros Hm p Hp Hj. apply wp_bind, wp_attempt. eapply wp_mono; [by apply Hm|]. by intros p' [a|e|w].
Qed.

(** The part of [main] after the configuration is validated, up to the socket. *)
Lemma body_stage : 32 * 1024 <= ConntrackCacheTableSize cfg <= 1024 * 1024 ->
  stage (not_started p0) (fun _ => agent_up cfg p0) (preamble cfg) (preamble cfg ++ controllersUp cfg)
    (if EnableNetworkPolicy cfg then startControllers json_Unmarshal checkpoint_Unmarshal InitRingBuffer cfg else mret tt).
Proof.
  intros Hsize. unfold agent_up. destruct (EnableNetworkPolicy cfg) eqn:E.
  - intros p Hp Hj. eapply wp_mono; [by apply (controllers_stage _ E (preamble_served cfg))|]. intros p' [a|e|w]; cbn beta iota; [|done..].
    by intros [Hup Hj'].
  - unfold controllersUp. rewrite E, app_nil_r. by apply stage_ret.
Qed.

Lemma serve_stage l : Serving ∉ l -> stage (agent_up cfg p0) (fun _ => agent_serving cfg p0) l (l ++ served)
  (orExit (go "unable to set up gRPC socket health checker ") (NewGRPCSocketHealthChecker npaSocketPath);;
    AddHealthzCheck (go "grpc-socket") (go "unable to set up gRPC socket health check ");;
    AddReadyzCheck (go "grpc-socket") (go "unable to set up grpc-socket readiness check ");;
    (r ← attempt (RunRPCHandler npaSocketPath); orExit (go "Failed to set up gRPC Handler ") r);;
    modify (note ManagerStarted);; orExit (go "problem running manager ") mgr_Start).
Proof.
  intros Hl. unfold served. eapply stage_silent; [apply (stage_orExit _ _ (fun _ => agent_up cfg p0)); [done|by intros]|intros []].
  eapply stage_next; [apply stage_register; [intros; by apply up_note|done|done]|].
  eapply stage_next; [apply stage_register; [intros; by apply up_note|done|set_solver]|].
  eapply stage_next; [apply stage_checked, rpc_stage; set_solver|].
  eapply stage_next; [apply (stage_note _ _ (fun _ => agent_serving cfg p0)); by intros p [? ?]|].
  rewrite app_nil_r. by apply stage_orExit.
Qed.
End run.

(** C6: The agent comes up in one order.  Whatever fails, the milestones of a start are a prefix of: the
    client is started, the probes are re-attached, the two controllers and then the readiness
    checks are registered, and only then the socket of the CNI is served and the manager
    started.  So no pod is added and no policy reconciled before the probes of the previous
    agent are back in place.  When the socket is served: the conntrack table size is between 32K
    and 1024K; with network policies, the enforcing mode is a valid one, the client is one that
    started, and the reconcilers are empty; without, the kernel is as it was and the handler
    has no reconcilers.  A start that returns has passed all of it. *)
Theorem start_order args p0 p r cfg
  (Hfresh : not_started p0 p0 /\ journal p0 = []) (Hkernel : kernel_ok (p_kernel p0).2)
  (Hcfg : loadControllerConfig args = Ret cfg) (Hrun : main args p0 = (p, r)) :
  journal p `prefix_of` milestones cfg /\ (r = Ret tt -> journal p = milestones cfg) /\
  (Serving ∈ journal p -> agent_serving cfg p0 p).
Proof.
  assert (stage (agent_serving cfg p0) (not_started p0) (fun _ => agent_serving cfg p0) [] ([] ++ milestones cfg) (main args)) as Hmain.
  { unfold AgentMain.main, milestones. eapply stage_silent; [apply (stage_orExit _ _ (fun c p => c = cfg /\ not_started p0 p)); [|by intros; set_solver]|intros cfg'; apply stage_pure; intros ->].
    { intros a Ha q Hq. split; [congruence|done]. }
    eapply (stage_bind _ _ (fun _ => not_started p0) _ _ (preamble cfg)); [|intros []|by eexists].
    { unfold preamble. destruct (EnableProfiling cfg); [by apply (stage_note _ _ _ [])|by apply stage_ret]. }
    pose proof (preamble_served cfg) as Hl.
    eapply (stage_silent _ _ _ _ (preamble cfg) (controllersUp cfg ++ served)); [by apply (stage_orExit _ _ (fun _ => not_started p0)); [|intros]|intros rest].
    eapply stage_silent; [by apply (stage_orExit _ _ (fun _ => not_started p0)); [|intros]|intros []].
    eapply stage_silent; [apply (stage_orExit _ _ (fun _ p => 32 * 1024 <= ConntrackCacheTableSize cfg <= 1024 * 1024 /\ not_started p0 p)); [|by intros]|intros []; apply stage_pure; intros Hsize].
    { intros [] Hv q Hq. split; [|done]. unfold ValidControllerFlags in Hv. case_match; [done|lia]. }
    cbn [app]. rewrite (app_assoc (preamble cfg)). eapply stage_bind; [by apply body_stage|intros []|by eexists]. apply serve_stage; [done|apply controllers_served]. }
  destruct Hfresh as [Hu Hj]. specialize (Hmain p0 Hu Hj). unfold wp in Hmain. rewrite Hrun in Hmain. cbn [fst snd] in Hmain.
  destruct r as [[]|e|w]; destruct Hmain as [Hs Hp].
  - split; [by rewrite Hp|done].
  - done.
  - done.
Qed.
End order.

(** * Readiness *)
Section readiness.
Context `{FS : !FileSystem, PR : !Probes}.

Lemma maps_check_files paths s : files (fst (NewGlobalMapsReadinessCheck paths s)) = files s.
Proof.
  revert s. induction paths as [|p paths IH]; intros s; [done|]. cbn [NewGlobalMapsReadinessCheck]. unfold mbind, ST_bind.
  destruct (os_Stat p s) as [s1 r] eqn:E. destruct (stat_law _ _ _ _ E) as [Hf _]. destruct r; [by rewrite IH|done..].
Qed.

Lemma rdonly_bit flags : (Z.land flags ST_RDONLY =? 0) = negb (Z.testbit flags 0).
Proof.
  unfold ST_RDONLY. change 1 with (Z.ones 1). rewrite Z.land_ones by lia. rewrite Z.bit0_odd. change (2 ^ 1) with 2.
  rewrite Zmod_odd. by destruct (Z.odd flags).
Qed.

(** The readiness checks mean what they say.  Where a stat of a file that is there succeeds, the map
    check passes exactly when every listed pin is there, and it changes no file; the file system
    check exactly when the root is a mounted BPF file system without the read-only flag; the
    socket check exactly when the health service of the agent answers that it is serving. *)
Theorem readiness_exact paths root socketPath s
  (Hstat : forall p s, is_Some (files s !! p) -> snd (os_Stat p s) = IoOk tt) :
  (snd (NewGlobalMapsReadinessCheck paths s) = Ret tt <-> Forall (fun p => is_Some (files s !! p)) paths) /\
  files (fst (NewGlobalMapsReadinessCheck paths s)) = files s /\
  (NewBpfFsReadinessCheck root = Ret tt <-> exists flags, unix_Statfs root = Ret (BPF_FS_MAGIC, flags) /\ Z.testbit flags 0 = false) /\
  (grpc_Check socketPath = Ret tt <-> health_Check socketPath grpcHealthServiceName = Ret SERVING).
Proof.
  split; [|split; [apply maps_check_files|split]].
  - revert s. induction paths as [|p paths IH]; intros s; cbn [NewGlobalMapsReadinessCheck]; [by split|]. unfold mbind, ST_bind.
    rewrite Forall_cons. pose proof (Hstat p s) as Hp. destruct (os_Stat p s) as [s1 r] eqn:E. destruct (stat_law _ _ _ _ E) as [Hf Hr].
    destruct r as [[]| |e]; cbn [snd] in *; [rewrite IH, Hf; naive_solver|..].
    + split; [done|]. intros [Hs _]. by rewrite Hr in Hs; apply is_Some_None in Hs.
    + split; [done|]. intros [Hs _]. by apply Hp in Hs.
  - unfold NewBpfFsReadinessCheck. unfold_outcome. destruct (unix_Statfs root) as [[typ flags]|e|w]; [|split; [done|by intros (? & ? & _)]..].
    rewrite rdonly_bit, negb_involutive. destruct (Z.eqb_spec typ BPF_FS_MAGIC) as [->|Ht]; cbn [negb].
    + destruct (Z.testbit flags 0) eqn:Eb; split; [done| |by exists flags|done]. intros (fl & [= <-] & Hb). congruence.
    + split; [done|]. intros (fl & [= ? ?] & _). congruence.
  - unfold grpc_Check. unfold_outcome. destruct (health_Check _ _) as [[]|e|w]; naive_solver.
Qed.
End readiness.

(** * A start *)
Lemma served_in cfg : Serving ∈ milestones cfg.
Proof. unfold milestones. rewrite !elem_of_app. right; right. do 2 right. left. Qed.

Definition demo_args : gmap gostring flagValue := {[go "enable-network-policy" := FlagBool true; go "enable-policy-event-logs" := FlagBool true]}.
(** The agent after an upgrade; the manager cannot be started. *)
Definition demo_runtime : @Runtime plainfs := {|
  fs_Parse _ _ := Ret demo_args; InClusterConfig := Ret (go "10.0.0.1:443"); LoadKubeConfig _ := Err (go "no such file");
  NewManager _ _ := Ret tt; LoadDefaultConfig := Ret tt; imds_GetMetadata _ := Ret (go "10.1.0.1"); io_ReadAll b := Ret b;
  grpc_Dial _ _ := Ret tt; GetNetworkPolicyConfigs := Ret (go "standard", false);
  Complete _ := Ret tt; mgr_AddReadyzCheck _ := Ret tt; mgr_AddHealthzCheck _ := Ret tt; mgr_Start := Err (go "port in use");
  grpc_NewClient _ := Ret tt; os_Remove _ s := (s, None); net_Listen _ s := (s, None)
|}.
Definition demo_proc : @proc reliable_sdk demo_sdk plainfs demo_cw := @mkProc reliable_sdk demo_sdk plainfs demo_cw ([] : @kext reliable_sdk demo_sdk, ∅) old_host demo_events None None None ∅ [].
Definition demo_main :=
  @main reliable_sdk demo_sdk demo_recovery demo_start listed_order plainfs plain_host demo_cw demo_runtime
    (fun _ => None) (fun _ => None) (fun _ => Ret []) [] demo_proc.

Lemma start_order_witness :
  snd demo_main = Err (go "problem running manager port in use") /\ journal (fst demo_main) = milestones (bindFlags demo_args) /\
  exists c, p_client (fst demo_main) = Some c /\
    reachable (fun _ => None) (fun _ => None) (fun _ => Ret []) (RS := demo_recovery) (ST' := demo_start) (MO := listed_order) (HF := plain_host) (CW := demo_cw) c.
Proof.
  destruct (@start_order reliable_sdk demo_sdk demo_recovery demo_start listed_order plainfs plain_host demo_cw demo_runtime
    (fun _ => None) (fun _ => None) (fun _ => Ret []) [] demo_proc (fst demo_main) (snd demo_main) (bindFlags demo_args)) as (_ & _ & Hs);
    [done|exact demo_kernel_ok|done|apply surjective_pairing|].
  assert (journal (fst demo_main) = milestones (bindFlags demo_args)) as Hj by (vm_compute; reflexivity).
  split; [vm_compute; reflexivity|]. split; [exact Hj|].
  destruct Hs as [[_ Hup] _]; [rewrite Hj; apply served_in|]. destruct Hup as (_ & Hc & _). exact Hc.
Defined.

Definition demo_probes : Probes := {| unix_Statfs _ := Ret (BPF_FS_MAGIC, 4096); health_Check _ _ := Ret SERVING |}.
Lemma readiness_exact_witness :
  @NewBpfFsReadinessCheck demo_probes BPF_FS_ROOT = Ret tt /\ @grpc_Check demo_probes npaSocketPath = Ret tt /\
  snd (@NewGlobalMapsReadinessCheck plainfs [CONNTRACK_MAP_PIN_PATH; POLICY_EVENTS_MAP_PIN_PATH] old_host) <> Ret tt.
Proof.
  destruct (@readiness_exact plainfs demo_probes [CONNTRACK_MAP_PIN_PATH; POLICY_EVENTS_MAP_PIN_PATH] BPF_FS_ROOT npaSocketPath old_host) as (Hm & _ & Hf & Hg).
  { intros p s [b Hb]. cbn in Hb |- *. by rewrite Hb. }
  split; [apply Hf; by exists 4096|]. split; [by apply Hg|]. rewrite Hm. intros Hall. apply Forall_cons in Hall as [[b Hb] _]. vm_compute in Hb. discriminate Hb.
Defined.
